(* ===== verification/_CoqProject ===== *)
-Q . S2P
Prelude.v
Bincoder.v
Wire.v
Transport.v
SessionConfig.v
SessionTypes.v
SessionOps.v
SessionSteps.v
SessionChannel.v
SessionBudget.v
SessionTable.v
SessionWriter.v
SessionShutdown.v
SessionStream.v
SessionResults.v
Network.v
FlowControl.v
GoStrings.v
Keys.v
Trust.v
Auth.v
AuthProofs.v
Authz.v
GoNet.v
AppConfig.v
Daemon.v
CommandCodec.v
CommandChannel.v
CommandServer.v
CommandClient.v
Launch.v
Accounts.v
ProcessRunner.v
Terminal.v
ClientRun.v
ClientRunProofs.v
SecureFiles.v
Establish.v
ClientApp.v
ServerApp.v
Programs.v
