(* ===== verification/Prelude.v ===== *)
(** * A verification development for mygosh

    mygosh is a secure remote shell written in Go: a client and a server that
    speak over one TCP connection.  A connection goes through these parts, from
    the bottom up.

    - lib/transport encrypts the byte stream with a Noise NN channel and carries
      whole frames over it; lib/bincoder is the binary format below it and of key
      files; lib/wire puts protobuf messages into frames.
    - lib/auth authenticates both ends over the encrypted channel with keys of
      lib/keys; the client checks the server's host key against known_hosts, the
      server reads authorized_keys (lib/trust).
    - lib/establish sequences transport, authentication and session and owns the
      connection meanwhile.
    - app/server/daemon.go accepts connections within limits; app/server/server.go
      authorizes a verified client (app/server/authz) before it accepts it.
    - lib/session multiplexes the accepted connection into channels with flow
      control, requests with replies, bounded queues and an orderly shutdown.
    - lib/command runs one command over one channel; app/server/services and
      app/server/process choose the service and start the process;
      app/client runs the command at the other end, between the terminal
      (lib/tty) and the channel (app/commandchannel).
    - app/config, app/logging, app/root and bin hold the configuration and the
      programs.

    ** How the model is built

    Pure functions are Rocq functions; a function that can fail returns [res];
    stateful code is a computation of the state monad [ST] of this file, whose
    result may be an error while the state changes are kept, as in Go.  Code with
    several goroutines is a state machine: a step is what one goroutine does
    between two points where it can block or release a lock, and the theorems
    quantify over all interleavings of the steps.  Machine integers are [Z] with the
    wrap-around written out where the code can overflow; bytes are
    [Byte.byte], Go strings are byte strings ([GoStrings]).  Code outside the
    repository (protobuf, Noise, Ed25519, SHA-256, the ssh package, the operating
    system) is a parameter: a class of operations ([KeyLib], [AuthLib],
    [ProtoMessage], ...) and, where a theorem needs it, a class of laws
    ([KeyLaws], ...) that states documented behaviour.  Each class of laws has a
    concrete instance in the witnesses.  Log output, timestamps and the text of
    error messages are left out; errors keep their sentinel and their wrapping.

    ** Files

    - [Prelude]: machine integers, bytes, errors, the result and state monads
      with their weakest preconditions, lemmas and tactics shared by all files.
      [GoStrings]: the functions of packages strings, slices and path/filepath
      that the code calls.
    - [Bincoder]: lib/bincoder ([Encoder], [Decoder], [Rw]).  Round trip of every
      value, the cursor never leaves the buffer, streams survive any
      fragmentation, an oversize announcement is refused before it is read.
    - [Wire]: lib/wire (SendProto, ReceiveProto over a [Framer]), and the
      [recording] connection that the protocol theorems observe.
    - [Transport]: lib/transport (SendFrame, ReceiveFrame, the handshake).  The
      frames sent are the frames received; both sides of the handshake agree on
      keys and channel binding.
    - [SessionConfig], [SessionTypes], [SessionOps], [SessionSteps]:
      lib/session: configuration, the structs, every operation and handler, and
      the executions of a session.  The API calls that block are threads; an
      [Action] is one step of a thread, of the reader, the writer, the
      dispatcher, of a timer or of the caller.  [SessionChannel]: the life of a
      channel and the bounds on what it buffers.  [SessionBudget]: the queue
      budget is exact and the queues never overflow.  [SessionTable]: the slots,
      limits and request counters are exact.  [SessionWriter]: writes are sent in
      order, at most once, and never after their cancellation.
      [SessionShutdown]: the first cause wins, every waiter is answered.
      [SessionStream]: what a step does to the data of a channel and what a
      session sends.  [SessionResults]: the result of a call of Send is that of
      its own write.  [Network]: two sessions over one connection; what is read
      from a channel is what was sent to it.
      [FlowControl]: one direction of a channel between two sessions as an
      abstract credit protocol (conservation, order, progress), and the proof
      that the operations of [SessionOps] implement it.
    - [Keys]: lib/keys (validation, signing, the SSH and OpenSSH formats).
      [Trust]: lib/trust (known_hosts, authorized_keys).
    - [Auth], [AuthProofs]: lib/auth.  What each side has checked when it signs or
      reports, for every behaviour of peer and network; agreement of the two
      sides; completeness of an honest run; one decision.
    - [Authz]: app/server/authz.  Credentials only for a listed key, launches only
      within the credentials, key options cannot be escaped.
    - [GoNet], [AppConfig]: the parts of packages net and strconv that the code
      calls; app/config.  A configuration that loads is well formed, and Validate
      accepts exactly such configurations.
    - [Daemon]: app/server/daemon.go.  The admission counters are exact.
    - [CommandCodec], [CommandServer]: lib/command.  The start request and the
      streams survive encoding; one command gets one answer; the input is
      delivered in order; the server ends once the process has ended.
      [CommandClient]: app/client/command, the threads of the client end.  The
      client keeps to the protocol, and against the server of [CommandServer]
      it reports the output and the exit of the process.  [CommandChannel]:
      app/commandchannel; a message encoded for a channel can be sent on it.
    - [Launch]: app/server/command/service.go, app/server/process (specification,
      environment, credential) and the resolving of accounts.  Whatever a client
      asks for, the process is the one its credentials allow.  [Accounts]: the
      lookups of lib/account over the C library; they end, free their memory and
      return only what was answered.  [ProcessRunner]: the life of a process in
      app/server/process/runner.go; its outcome is exact and its termination
      completes.
    - [Terminal]: lib/tty, the poll reader and the raw mode.  A read can be
      interrupted; the mode is put back.  [ClientRun], [ClientRunProofs]: the run
      of a command by the client (app/client/command/run.go).  Run returns, puts
      the terminal back and forwards the input in order.
    - [SecureFiles]: lib/strictfiles and app/securefiles, over a kernel that may
      change the file system with every call.  What is read was reached through
      checked objects only, and no descriptor is lost.
    - [Establish]: lib/establish, serveConnection of app/server/server.go and
      app/server/services.  For every schedule of timers and cancellations: the
      acceptance follows the authorization, the socket is closed in the end, and
      a process belongs to the key that was proved on its connection.
    - [ClientApp]: app/client and the files it reads; no key signs before the
      server proved a key that the known hosts list.  [ServerApp]: RunServer from
      the configuration file to a process.  [Programs]: app/root and bin; the exit
      code is the status of the remote command.

    ** Bounds and fuel

    No execution is bounded: reachability is the closure of the steps.  Loops over
    unbounded input use fuel and are proved never to run out of it: the parsers of
    [Trust] by the length of the file, the chunking of [CommandCodec] by the
    length of the data and, inside, by the width of the search interval, the
    writer loops of [Bincoder] by the bytes left, the handshake of [Transport]
    by its two messages, ReadAll of [SecureFiles] by the read limit, the
    lookups of [Accounts] by the twelve doublings from the smallest buffer to its
    limit and by the limit on groups.  The decimal numbers of [GoNet] have at most
    the twenty digits of a 64-bit integer.

    ** What is not modelled

    The libraries for command lines, configuration files and logs are parameters,
    and so are the generated protobuf encodings; of app/logging only the choice of
    the output and the level is modelled.  Reads and writes of a terminal in
    its ordinary mode, the deadlines and the closing of a transport and the source
    address of an accepted socket are calls of the operating system without logic
    of their own.  The few lines that open a channel and call the modelled Run
    and Serve are left out.  In
    lib/session the wake-up of waiters is abstracted to the condition they
    wait for, and the accessors Wait and Done to the state they show.

    ** Limits of the theorems

    [Network] takes the connection as reliable and in order, which [Transport]
    proves of its frames.  Its last clause, that frames arrive in the order of the
    calls, is for calls that do not overlap and were made on one channel. *)

From stdpp Require Export base gmap sets list strings fin_maps.
From Stdlib Require Export ZArith Lia.
From Stdlib Require Export Strings.Byte.
From Stdlib Require Import Psatz.

(** ** Machine integers

    Go's unsigned integers are modelled as [Z] with the wrap-around written
    out where an operation can overflow. *)

Declare Scope go_scope.
Delimit Scope go_scope with go.
Open Scope Z_scope.

Definition MaxUint32 : Z := 4294967295.
Definition MaxUint64 : Z := 18446744073709551615.

Definition u8 (z : Z) : Z := z mod 256.
Definition u32 (z : Z) : Z := z mod 4294967296.
Definition u64 (z : Z) : Z := z mod 18446744073709551616.

Definition is_u8 (z : Z) : Prop := 0 <= z < 256.
Definition is_u32 (z : Z) : Prop := 0 <= z <= MaxUint32.
Definition is_u64 (z : Z) : Prop := 0 <= z <= MaxUint64.

Lemma u32_id z : is_u32 z → u32 z = z.
Proof. unfold is_u32, u32, MaxUint32; intros; apply Z.mod_small; lia. Qed.

Lemma u64_id z : is_u64 z → u64 z = z.
Proof. unfold is_u64, u64, MaxUint64; intros; apply Z.mod_small; lia. Qed.

Lemma u32_range z : is_u32 (u32 z).
Proof.
  unfold is_u32, u32, MaxUint32. pose proof (Z.mod_pos_bound z 4294967296). lia.
Qed.

Lemma u64_range z : is_u64 (u64 z).
Proof.
  unfold is_u64, u64, MaxUint64.
  pose proof (Z.mod_pos_bound z 18446744073709551616). lia.
Qed.

(** ** Byte strings *)

Abbreviation bytes := (list byte).

Definition byte_of_Z (z : Z) : byte :=
  match Byte.of_N (Z.to_N (z mod 256)) with Some b => b | None => x00 end.

Definition Z_of_byte (b : byte) : Z := Z.of_N (Byte.to_N b).

Lemma Z_of_byte_range b : is_u8 (Z_of_byte b).
Proof. unfold is_u8, Z_of_byte. pose proof (Byte.to_N_bounded b). lia. Qed.

Lemma Z_of_byte_of_Z z : Z_of_byte (byte_of_Z z) = z mod 256.
Proof.
  unfold Z_of_byte, byte_of_Z.
  pose proof (Z.mod_pos_bound z 256 ltac:(lia)) as Hb.
  destruct (Byte.of_N _) as [b|] eqn:E.
  - apply Byte.to_of_N in E. rewrite E. lia.
  - apply Byte.of_N_None_iff in E. lia.
Qed.

Lemma byte_of_Z_of_byte b : byte_of_Z (Z_of_byte b) = b.
Proof.
  unfold byte_of_Z. pose proof (Z_of_byte_range b) as Hr.
  rewrite Z.mod_small by (unfold is_u8 in *; lia).
  unfold Z_of_byte. rewrite N2Z.id, Byte.of_to_N. done.
Qed.

#[export] Instance byte_eq_dec : EqDecision byte := Byte.byte_eq_dec.

(** Go's [len]. *)
Definition blen {A} (b : list A) : Z := Z.of_nat (length b).
Definition slen (s : string) : Z := Z.of_nat (String.length s).

Lemma blen_nonneg {A} (b : list A) : 0 <= blen b.
Proof. unfold blen. lia. Qed.

Lemma blen_nil {A} : blen (@nil A) = 0.
Proof. done. Qed.

Lemma blen_cons {A} (x : A) l : blen (x :: l) = 1 + blen l.
Proof. unfold blen. simpl. lia. Qed.

Lemma blen_app {A} (l k : list A) : blen (l ++ k) = blen l + blen k.
Proof. unfold blen. rewrite length_app. lia. Qed.

Lemma slen_nonneg s : 0 <= slen s.
Proof. unfold slen. lia. Qed.

(** ** Errors

    [Sentinel] is a package-level error value compared with [errors.Is];
    [ProtocolError] is the concrete type [*protocolError]; [NewError] is the
    value of [eris.New]/[eris.Errorf], which carries the literal text of the
    format; [Wrapped] is [eris.Wrap]. *)

Inductive error :=
  | Sentinel (name : string)
  | ProtocolError (msg : string)
  | NewError (msg : string)
  | Wrapped (inner : error) (msg : string).

#[export] Instance error_eq_dec : EqDecision error.
Proof. solve_decision. Defined.

(** [eris.Is]: the chain of wrapped errors reaches the target. *)
Fixpoint err_is (e target : error) : bool :=
  bool_decide (e = target) ||
  match e with Wrapped i _ => err_is i target | _ => false end.

(** The type assertion [err.( *protocolError)]. *)
Definition is_protocolError (e : error) : bool :=
  match e with ProtocolError _ => true | _ => false end.

Definition context_Canceled : error := Sentinel "context canceled".
Definition context_DeadlineExceeded : error := Sentinel "context deadline exceeded".
Definition io_EOF : error := Sentinel "EOF".
Definition io_ErrUnexpectedEOF : error := Sentinel "unexpected EOF".
Definition io_ErrShortWrite : error := Sentinel "short write".

(** ** Results and the state-and-error monad

    Go keeps the effects of a function that returns an error, so a computation
    returns the new state next to its result. *)

Inductive res (A : Type) :=
  | Ok (a : A)
  | Err (e : error).
Arguments Ok {A} a.
Arguments Err {A} e.

#[export] Instance res_ret : MRet res := λ A a, Ok a.
#[export] Instance res_bind : MBind res :=
  λ A B f m, match m with Ok a => f a | Err e => Err e end.

#[export] Instance res_eq_dec {A} `{EqDecision A} : EqDecision (res A).
Proof. solve_decision. Defined.

Definition is_ok {A} (r : res A) : bool := match r with Ok _ => true | Err _ => false end.

(** [eris.Wrap] on an error result. *)
Definition wrap_err {A} (msg : string) (r : res A) : res A :=
  match r with Ok a => Ok a | Err e => Err (Wrapped e msg) end.

Lemma wrap_err_ok {A} msg (r : res A) a : wrap_err msg r = Ok a ↔ r = Ok a.
Proof. by destruct r. Qed.

(** A guard of the form [if bad then return err]. *)
Definition reject_if (bad : bool) (e : error) : res unit := if bad then Err e else Ok tt.

Lemma res_bind_ok {A B} (m : res A) (f : A → res B) b :
  m ≫= f = Ok b ↔ ∃ a, m = Ok a ∧ f a = Ok b.
Proof.
  unfold mbind, res_bind. split.
  - destruct m; [eauto|done].
  - by intros (a & -> & ?).
Qed.

Lemma reject_if_ok bad e u : reject_if bad e = Ok u ↔ bad = false.
Proof. unfold reject_if. destruct bad, u; naive_solver. Qed.

Lemma reject_if_then {B} bad e (f : unit → res B) b :
  reject_if bad e ≫= f = Ok b ↔ bad = false ∧ f tt = Ok b.
Proof.
  unfold mbind, res_bind, reject_if. destruct bad; split; [done| |by split|].
  - by intros [? _].
  - by intros [_ ?].
Qed.

Definition ST (S A : Type) : Type := S → S * res A.

#[export] Instance ST_ret S : MRet (ST S) := λ A a s, (s, Ok a).
#[export] Instance ST_bind S : MBind (ST S) :=
  λ A B f m s, match m s with
               | (s', Ok a) => f a s'
               | (s', Err e) => (s', Err e)
               end.

Section monad.
Context {S : Type}.

Definition st_get : ST S S := λ s, (s, Ok s).
Definition st_modify (f : S → S) : ST S unit := λ s, (f s, Ok tt).
Definition st_fail {A} (e : error) : ST S A := λ s, (s, Err e).
(** Runs [m] and hands its error to the caller as a value ([err := m()]). *)
Definition st_try {A} (m : ST S A) : ST S (res A) := λ s, let '(s', r) := m s in (s', Ok r).
Definition st_lift {A} (r : res A) : ST S A := λ s, (s, r).

Fixpoint st_iter {A} (f : A → ST S unit) (l : list A) : ST S unit :=
  match l with
  | [] => mret tt
  | x :: l' => f x ≫= λ _, st_iter f l'
  end.
End monad.

(** Weakest precondition of a computation. *)
Definition wp {S A} (m : ST S A) (Q : res A → S → Prop) (s : S) : Prop :=
  Q (m s).2 (m s).1.

Section wp.
Context {S : Type}.

Lemma wp_ret {A} (a : A) Q (s : S) : Q (Ok a) s → wp (mret a) Q s.
Proof. done. Qed.

Lemma wp_fail {A} e (Q : res A → S → Prop) s : Q (Err e) s → wp (st_fail e) Q s.
Proof. done. Qed.

Lemma wp_get Q (s : S) : Q (Ok s) s → wp st_get Q s.
Proof. done. Qed.

Lemma wp_modify f Q (s : S) : Q (Ok tt) (f s) → wp (st_modify f) Q s.
Proof. done. Qed.

Lemma wp_lift {A} (r : res A) Q (s : S) : Q r s → wp (st_lift r) Q s.
Proof. done. Qed.

Lemma wp_bind {A B} (m : ST S A) (f : A → ST S B) Q s :
  wp m (λ r s', match r with Ok a => wp (f a) Q s' | Err e => Q (Err e) s' end) s →
  wp (m ≫= f) Q s.
Proof.
  unfold wp, mbind, ST_bind. destruct (m s) as [s' [a|e]]; done.
Qed.

(** Two readings of a sequence. *)
Lemma wp_assoc {A B} (m : ST S unit) (n : ST S A) (f : A → ST S B) Q s :
  wp ((m ≫= λ _, n) ≫= f) Q s → wp (m ≫= λ _, n ≫= f) Q s.
Proof. unfold wp, mbind, ST_bind. destruct (m s) as [s' [a|e]]; done. Qed.

Lemma wp_assoc3 {A B} (m n : ST S unit) (o : ST S A) (f : A → ST S B) Q s :
  wp ((m ≫= λ _, n ≫= λ _, o) ≫= f) Q s → wp (m ≫= λ _, n ≫= λ _, o ≫= f) Q s.
Proof.
  unfold wp, mbind, ST_bind. destruct (m s) as [s' [a|e]]; [|done].
  destruct (n s') as [s'' [a'|e]]; done.
Qed.

Lemma wp_try {A} (m : ST S A) Q s : wp m (λ r s', Q (Ok r) s') s → wp (st_try m) Q s.
Proof. unfold wp, st_try. destruct (m s) as [s' r]; done. Qed.

Lemma wp_mono {A} (m : ST S A) (P Q : res A → S → Prop) s :
  wp m P s → (∀ r s', P r s' → Q r s') → wp m Q s.
Proof. unfold wp. auto. Qed.

Lemma wp_iter {A} (f : A → ST S unit) (I : S → Prop) (l : list A) s :
  (∀ x s, I s → wp (f x) (λ r s', r = Ok tt ∧ I s') s) →
  I s → wp (st_iter f l) (λ r s', r = Ok tt ∧ I s') s.
Proof.
  intros Hf. revert s. induction l as [|x l IH]; intros s HI; simpl.
  - by apply wp_ret.
  - apply wp_bind. eapply wp_mono; [by apply Hf|]. intros r s' [-> HI']. auto.
Qed.

(** A computation that preserves [I] whatever it returns. *)
Definition preserves {A} (I : S → Prop) (m : ST S A) : Prop :=
  ∀ s, I s → wp m (λ _ s', I s') s.

Lemma preserves_bind {A B} I (m : ST S A) (f : A → ST S B) :
  preserves I m → (∀ a, preserves I (f a)) → preserves I (m ≫= f).
Proof.
  intros Hm Hf s HI. apply wp_bind. eapply wp_mono; [by apply Hm|].
  intros [a|e] s' HI'; [by apply Hf|done].
Qed.

Lemma preserves_ret {A} I (a : A) : preserves I (mret a : ST S A).
Proof. intros s HI. by apply wp_ret. Qed.

Lemma preserves_fail {A} I e : preserves I (st_fail e : ST S A).
Proof. intros s HI. by apply wp_fail. Qed.

Lemma preserves_lift {A} I (r : res A) : preserves I (st_lift r : ST S A).
Proof. intros s HI. by apply wp_lift. Qed.

Lemma preserves_try {A} I (m : ST S A) : preserves I m → preserves I (st_try m).
Proof. intros Hm s HI. apply wp_try. by apply Hm. Qed.

Lemma preserves_modify (I : S → Prop) f : (∀ s, I s → I (f s)) → preserves I (st_modify f).
Proof. intros Hf s HI. apply wp_modify. auto. Qed.

Lemma preserves_iter {A} I (f : A → ST S unit) l :
  (∀ x, preserves I (f x)) → preserves I (st_iter f l).
Proof.
  intros Hf. induction l; simpl; [apply preserves_ret|].
  apply preserves_bind; auto.
Qed.

(** The current state is known to the continuation of [st_get]. *)
Lemma preserves_get {B} I (f : S → ST S B) :
  (∀ s, I s → wp (f s) (λ _ s', I s') s) → preserves I (st_get ≫= f).
Proof. intros Hf s HI. apply wp_bind, wp_get. auto. Qed.

Lemma preserves_wp {A} I (m : ST S A) (Q : res A → S → Prop) s :
  preserves I m → I s → (∀ r s', I s' → Q r s') → wp m Q s.
Proof. intros Hm HI HQ. eapply wp_mono; [by apply Hm|]. auto. Qed.
End wp.

(** ** Record updates

    [r <| f := v |>] replaces a field, [r <| f ::= g |>] applies [g] to it.  An
    instance per field is derived from the record's eta-expansion. *)

Class Setter {R T : Type} (p : R → T) := setter : (T → T) → R → R.
Arguments setter {R T} p {_} _ _.

#[warnings="-postfix-notation-not-level-1"]
Notation "r <| p ::= f |>" := (setter p f r)
  (at level 12, p at next level, f at level 100, left associativity) : go_scope.
#[warnings="-postfix-notation-not-level-1"]
Notation "r <| p := v |>" := (setter p (λ _, v) r)
  (at level 12, p at next level, v at level 100, left associativity) : go_scope.
Open Scope go_scope.

Ltac derive_setter eta :=
  lazymatch goal with
  | |- @Setter ?R ?T ?p =>
      let f := fresh "f" in
      let r := fresh "r" in
      unfold Setter; intros f r;
      let b := eval unfold eta in (eta r) in
      let b := eval pattern (p r) in b in
      lazymatch b with
      | ?h _ => let t := eval cbv beta in (h (f (p r))) in exact t
      end
  end.

(** ** Sums over finite maps *)

Section map_sum.
Context {A : Type}.
Implicit Types (f : A → Z) (m : gmap Z A).

Definition map_sum f m : Z := map_fold (λ _ x acc, f x + acc) 0 m.

Lemma map_sum_empty f : map_sum f ∅ = 0.
Proof. apply map_fold_empty. Qed.

Lemma map_sum_insert_new f m i x :
  m !! i = None → map_sum f (<[i:=x]> m) = f x + map_sum f m.
Proof.
  intros Hi. unfold map_sum.
  rewrite (map_fold_insert_L (λ _ y acc, f y + acc) 0 i x m); [done| |done].
  intros; lia.
Qed.

Lemma map_sum_lookup f m i x :
  m !! i = Some x → map_sum f m = f x + map_sum f (delete i m).
Proof.
  intros Hi. rewrite <-(map_sum_insert_new f (delete i m) i x) by apply lookup_delete_eq.
  by rewrite insert_delete_eq, insert_id.
Qed.

Lemma map_sum_insert f m i x y :
  m !! i = Some x → map_sum f (<[i:=y]> m) = map_sum f m - f x + f y.
Proof.
  intros Hi. rewrite <-insert_delete_eq.
  rewrite map_sum_insert_new by apply lookup_delete_eq.
  rewrite (map_sum_lookup f m i x Hi). lia.
Qed.

Lemma map_sum_nonneg f m :
  (∀ i x, m !! i = Some x → 0 <= f x) → 0 <= map_sum f m.
Proof.
  induction m as [|i x m Hi IH] using map_ind; intros Hf.
  - by rewrite map_sum_empty.
  - rewrite map_sum_insert_new by done.
    pose proof (Hf i x (lookup_insert_eq m i x)).
    enough (0 <= map_sum f m) by lia. apply IH. intros j y Hj.
    apply (Hf j). rewrite lookup_insert_ne; [done|congruence].
Qed.

Lemma alter_insert_lookup (g : A → A) m i x : m !! i = Some x → alter g i m = <[i := g x]> m.
Proof.
  intros Hi. apply map_eq. intros j. rewrite lookup_alter, lookup_insert.
  case_decide; simplify_eq; by rewrite ?Hi.
Qed.

Lemma alter_none (g : A → A) m i : m !! i = None → alter g i m = m.
Proof. intros Hi. apply map_eq. intros j. rewrite lookup_alter. case_decide; simplify_eq; by rewrite ?Hi. Qed.

Lemma map_sum_alter f m i g :
  (∀ x, m !! i = Some x → f (g x) = f x) → map_sum f (alter g i m) = map_sum f m.
Proof.
  intros Hg. destruct (m !! i) as [x|] eqn:Hi.
  - rewrite (alter_insert_lookup g m i x Hi).
    rewrite (map_sum_insert f m i x (g x) Hi), (Hg x eq_refl). lia.
  - by rewrite alter_none.
Qed.

Lemma map_sum_le f m i x :
  (∀ j y, m !! j = Some y → 0 <= f y) → m !! i = Some x → f x <= map_sum f m.
Proof.
  intros Hf Hi. rewrite (map_sum_lookup f m i x Hi).
  enough (0 <= map_sum f (delete i m)) by lia.
  apply map_sum_nonneg. intros j y Hj. apply (Hf j).
  apply lookup_delete_Some in Hj. naive_solver.
Qed.
End map_sum.

(** Sums over lists. *)
Definition list_sum {A} (f : A → Z) (l : list A) : Z := foldr (λ x acc, f x + acc) 0 l.

Arguments list_sum : simpl never.

Lemma list_sum_app {A} (f : A → Z) l k : list_sum f (l ++ k) = list_sum f l + list_sum f k.
Proof. induction l; unfold list_sum in *; simpl in *; lia. Qed.

Lemma list_sum_nil {A} (f : A → Z) : list_sum f [] = 0.
Proof. done. Qed.

Lemma list_sum_cons {A} (f : A → Z) x l : list_sum f (x :: l) = f x + list_sum f l.
Proof. done. Qed.

Lemma list_sum_nonneg {A} (f : A → Z) l : (∀ x, x ∈ l → 0 <= f x) → 0 <= list_sum f l.
Proof.
  induction l as [|x l IH]; intros Hf; [done|]. rewrite list_sum_cons.
  pose proof (Hf x ltac:(by left)). enough (0 <= list_sum f l) by lia.
  apply IH. intros y Hy. apply Hf. by right.
Qed.

(** ** Automation *)

Create HintDb mygosh.
#[export] Hint Resolve u32_range u64_range blen_nonneg slen_nonneg : mygosh.
#[export] Hint Resolve preserves_ret preserves_fail preserves_lift preserves_try
  preserves_iter : mygosh.

(** Turns boolean comparisons into propositions. *)
Ltac bool_simp :=
  repeat match goal with
  | H : (_ && _)%bool = true |- _ => apply andb_true_iff in H; destruct H
  | H : (_ || _)%bool = false |- _ => apply orb_false_iff in H; destruct H
  | H : (_ || _)%bool = true |- _ => apply orb_true_iff in H
  | H : (_ && _)%bool = false |- _ => apply andb_false_iff in H
  | H : negb _ = true |- _ => apply negb_true_iff in H
  | H : negb _ = false |- _ => apply negb_false_iff in H
  | H : (_ <? _) = true |- _ => apply Z.ltb_lt in H
  | H : (_ <? _) = false |- _ => apply Z.ltb_ge in H
  | H : (_ <=? _) = true |- _ => apply Z.leb_le in H
  | H : (_ <=? _) = false |- _ => apply Z.leb_gt in H
  | H : (_ =? _) = true |- _ => apply Z.eqb_eq in H
  | H : (_ =? _) = false |- _ => apply Z.eqb_neq in H
  | H : bool_decide _ = true |- _ => apply bool_decide_eq_true in H
  | H : bool_decide _ = false |- _ => apply bool_decide_eq_false in H
  end.

(** Peels the binds and guards of an [Ok] result. *)
Ltac res_inv :=
  repeat match goal with
  | H : Ok _ = Ok _ |- _ => injection H as H
  | H : Err _ = Ok _ |- _ => discriminate H
  | H : Ok _ = Err _ |- _ => discriminate H
  | H : mret _ = Ok _ |- _ => injection H as H
  | H : (reject_if _ _ ≫= _) = Ok _ |- _ => apply reject_if_then in H; destruct H
  | H : reject_if _ _ = Ok _ |- _ => apply reject_if_ok in H
  | H : (_ ≫= _) = Ok _ |- _ =>
      let a := fresh "a" in let Ha := fresh "Ha" in
      apply res_bind_ok in H; destruct H as (a & Ha & H)
  end.

(** Walks a computation and proves that it preserves an invariant: binds,
    branches and effect-free operations are handled here, [unit_tac ()] closes the
    operations that the invariant is about, any other operation is unfolded. *)
Lemma preserves_get_any {S B} (I : S → Prop) (f : S → ST S B) :
  (∀ s, preserves I (f s)) → preserves I (st_get ≫= f).
Proof. intros Hf. apply preserves_get. intros s HI. by apply Hf. Qed.

Ltac op_head m := lazymatch m with ?f _ => op_head f | _ => m end.

Ltac pres_unfold :=
  lazymatch goal with
  | |- preserves _ ?m => let h := op_head m in unfold h; cbv beta zeta
  end.

Ltac pres_struct :=
  lazymatch goal with
  | |- preserves _ (mbind _ st_get) => apply preserves_get_any; intros
  | |- preserves _ (mbind _ _) => apply preserves_bind; [|intros]
  | |- preserves _ (mret _) => apply preserves_ret
  | |- preserves _ (st_fail _) => apply preserves_fail
  | |- preserves _ (st_lift _) => apply preserves_lift
  | |- preserves _ (st_try _) => apply preserves_try
  | |- preserves _ (st_iter _ _) => apply preserves_iter; intros
  | |- preserves _ (match ?x with _ => _ end) => destruct x
  | |- preserves _ (let _ := _ in _) => cbv zeta
  end.

Ltac pres_with unit_tac :=
  repeat first [ progress intros | unit_tac () | progress pres_struct | progress pres_unfold ].
