(* ===== verification/Bincoder.v ===== *)
(** * Binary coder (lib/bincoder)

    [Encoder] and [Decoder] are the in-memory coders of encoder.go and
    decoder.go; [Rw] holds the stream functions of rw.go over an [io.Reader]
    and an [io.Writer] whose calls may return partial results.  The theorems
    are the round trips, the bounds every decoding keeps, the sticky error of
    both coders and the independence of the stream decoding from the way the
    connection splits the bytes. *)

From S2P Require Import Prelude.

(** ** Big-endian 32-bit integers: [ORDER = binary.BigEndian] *)

Definition PutUint32 (n : Z) : bytes :=
  [byte_of_Z (n / 16777216); byte_of_Z (n / 65536); byte_of_Z (n / 256); byte_of_Z n].

Definition Uint32 (b : bytes) : Z :=
  match b with
  | b0 :: b1 :: b2 :: b3 :: _ =>
      Z_of_byte b0 * 16777216 + Z_of_byte b1 * 65536 + Z_of_byte b2 * 256 + Z_of_byte b3
  | _ => 0
  end.

Lemma Uint32_PutUint32 n rest : is_u32 n → Uint32 (PutUint32 n ++ rest) = n.
Proof.
  unfold is_u32, MaxUint32. intros Hn. simpl. rewrite !Z_of_byte_of_Z.
  pose proof (Z.div_mod n 256 ltac:(lia)).
  pose proof (Z.div_mod (n / 256) 256 ltac:(lia)).
  pose proof (Z.div_mod (n / 65536) 256 ltac:(lia)).
  replace (n / 256 / 256) with (n / 65536) in * by (rewrite Z.div_div; [done|lia|lia]).
  replace (n / 65536 / 256) with (n / 16777216) in * by (rewrite Z.div_div; [done|lia|lia]).
  rewrite (Z.mod_small (n / 16777216)) by (split; [apply Z.div_pos; lia|apply Z.div_lt_upper_bound; lia]).
  lia.
Qed.

Lemma length_PutUint32 n : length (PutUint32 n) = 4%nat.
Proof. done. Qed.

Lemma Uint32_range b : is_u32 (Uint32 b).
Proof.
  unfold is_u32, MaxUint32. destruct b as [|b0 [|b1 [|b2 [|b3 b]]]]; simpl; try lia.
  pose proof (Z_of_byte_range b0). pose proof (Z_of_byte_range b1).
  pose proof (Z_of_byte_range b2). pose proof (Z_of_byte_range b3).
  unfold is_u8 in *. lia.
Qed.

(** ** UTF-8 validity: [utf8.Valid] *)

Definition in_range (lo hi : Z) (b : byte) : bool := (lo <=? Z_of_byte b) && (Z_of_byte b <=? hi).
Definition cont : byte → bool := in_range 128 191.

Fixpoint utf8_valid (b : bytes) : bool :=
  match b with
  | [] => true
  | b0 :: t =>
      if in_range 0 127 b0 then utf8_valid t
      else match t with
      | [] => false
      | b1 :: t1 =>
          if in_range 194 223 b0 then cont b1 && utf8_valid t1
          else match t1 with
          | [] => false
          | b2 :: t2 =>
              if in_range 224 239 b0 then
                (if Z_of_byte b0 =? 224 then in_range 160 191 b1
                 else if Z_of_byte b0 =? 237 then in_range 128 159 b1
                 else cont b1) && cont b2 && utf8_valid t2
              else match t2 with
              | [] => false
              | b3 :: t3 =>
                  if in_range 240 244 b0 then
                    (if Z_of_byte b0 =? 240 then in_range 144 191 b1
                     else if Z_of_byte b0 =? 244 then in_range 128 143 b1
                     else cont b1) && cont b2 && cont b3 && utf8_valid t3
                  else false
              end
          end
      end
  end.

(** ** encoder.go *)
Module Encoder.

Record t := Mk { buf : bytes; err : option error }.

Definition NewEncoder : t := Mk [] None.

Definition Len (e : t) : Z := blen (buf e).

Definition Result (e : t) : option bytes :=
  match err e with Some _ => None | None => Some (buf e) end.

(** [bytes.Buffer.Write] always succeeds. *)
Definition Write (b : bytes) (e : t) : t :=
  match err e with Some _ => e | None => Mk (buf e ++ b) None end.

Definition Byte (b : byte) (e : t) : t :=
  match err e with Some _ => e | None => Write [b] e end.

Definition Bool (v : bool) (e : t) : t :=
  if v then Byte x01 e else Byte x00 e.

Definition U32 (n : Z) (e : t) : t :=
  match err e with Some _ => e | None => Write (PutUint32 n) e end.

Definition Bytes (b : bytes) (e : t) : t :=
  match err e with
  | Some _ => e
  | None =>
      if MaxUint32 <? blen b
      then Mk (buf e) (Some (NewError "byte string length exceeds length field width"))
      else Write b (U32 (u32 (blen b)) e)
  end.

Definition UTF8String (s : bytes) (e : t) : t := Bytes s e.

End Encoder.

(** ** decoder.go *)
Module Decoder.

Record t := Mk { buf : bytes; off : Z; err : option error; maxBytes : Z }.

Definition NewCursor (b : bytes) : t := Mk b 0 None MaxUint32.
Definition WithMaxBytes (n : Z) (c : t) : t := Mk (buf c) (off c) (err c) n.

Definition set_err (e : error) (c : t) : t := Mk (buf c) (off c) (Some e) (maxBytes c).

Definition Rest (c : t) : bytes :=
  match err c with Some _ => [] | None => drop (Z.to_nat (off c)) (buf c) end.

Definition Done (c : t) : option error :=
  match err c with
  | Some e => Some e
  | None => if off c =? blen (buf c) then None else Some (NewError "trailing data")
  end.

(** The slice [c.buf[start:c.off]]. *)
Definition slice (b : bytes) (start stop : Z) : bytes :=
  take (Z.to_nat (stop - start)) (drop (Z.to_nat start) b).

Definition Take (n : Z) (c : t) : bytes * t :=
  match err c with
  | Some _ => ([], c)
  | None =>
      if blen (buf c) <? u64 (off c + n) then ([], set_err (NewError "truncated") c)
      else (slice (buf c) (off c) (off c + n), Mk (buf c) (off c + n) None (maxBytes c))
  end.

Definition Byte (c : t) : byte * t :=
  let '(b, c') := Take 1 c in
  match err c' with
  | Some _ => (x00, c')
  | None => (default x00 (head b), c')
  end.

Definition Bool (c : t) : bool * t :=
  let '(b, c') := Byte c in
  match err c' with
  | Some _ => (false, c')
  | None =>
      if Z_of_byte b =? 0 then (false, c')
      else if Z_of_byte b =? 1 then (true, c')
      else (false, set_err (NewError "invalid bool byte") c')
  end.

Definition U32 (c : t) : Z * t :=
  let '(b, c') := Take 4 c in
  match err c' with
  | Some _ => (0, c')
  | None => (Uint32 b, c')
  end.

Definition Bytes (c : t) : bytes * t :=
  let '(n, c') := U32 c in
  match err c' with
  | Some _ => ([], c')
  | None =>
      if maxBytes c' <? n
      then ([], set_err (NewError "byte string length exceeds maximum") c')
      else Take n c'
  end.

Definition UTF8String (c : t) : bytes * t :=
  let '(b, c') := Bytes c in
  match err c' with
  | Some _ => ([], c')
  | None =>
      if utf8_valid b then (b, c')
      else ([], set_err (NewError "invalid UTF-8 string") c')
  end.

Definition ExpectBytes (want : bytes) (c : t) : t :=
  let '(got, c') := Take (u32 (blen want)) c in
  match err c' with
  | Some _ => c'
  | None => if bool_decide (got = want) then c' else set_err (NewError "unexpected bytes") c'
  end.

End Decoder.

(** ** rw.go: streams

    An [io.Reader] is the list of chunks its successive [Read] calls deliver,
    followed by the error it then returns (io.EOF when the peer closed); an
    [io.Writer] is what it has accepted together with the outcomes of its next
    [Write] calls ([n] bytes taken, and possibly an error), after which it
    accepts everything. *)
Module Rw.

Record reader := Reader { chunks : list bytes; rerr : error }.
Record writer := Writer { written : bytes; script : list (nat * option error) }.

(** [io.ReadFull]: the Read loop of [io.ReadAtLeast], [got] bytes read so far. *)
Fixpoint read_full_loop (got : bytes) (n : nat) (cs : list bytes) (e : error)
  : list bytes * res bytes :=
  if decide (n ≤ length got)%nat then (cs, Ok got)
  else match cs with
  | [] =>
      ([], Err (if bool_decide (e = io_EOF) then
                  match got with [] => io_EOF | _ => io_ErrUnexpectedEOF end
                else e))
  | c :: cs' =>
      let need := (n - length got)%nat in
      if decide (need ≤ length c)%nat then (drop need c :: cs', Ok (got ++ take need c))
      else read_full_loop (got ++ c) n cs' e
  end.

Definition ReadFull (n : nat) : ST reader bytes := λ r,
  let '(cs, x) := read_full_loop [] n (chunks r) (rerr r) in (Reader cs (rerr r), x).

Definition ReadByte : ST reader byte :=
  buf ← ReadFull 1;
  mret (default x00 (head buf)).

Definition ReadBool : ST reader bool :=
  b ← ReadByte;
  if Z_of_byte b =? 0 then mret false
  else if Z_of_byte b =? 1 then mret true
  else st_fail (NewError "invalid bool byte").

Definition ReadU32 : ST reader Z :=
  buf ← ReadFull 4;
  mret (Uint32 buf).

Definition ReadBytes (maxBytes : Z) : ST reader bytes :=
  len ← ReadU32;
  if negb (maxBytes =? 0) && (u32 maxBytes <? len)
  then st_fail (NewError "length exceeds maximum")
  else ReadFull (Z.to_nat len).

Fixpoint write_loop (p : bytes) (out : bytes) (sc : list (nat * option error)) : writer * res unit :=
  match p with
  | [] => (Writer out sc, Ok tt)
  | _ =>
      match sc with
      | [] => (Writer (out ++ p) [], Ok tt)
      | (n, e) :: sc' =>
          let n := Nat.min n (length p) in
          match e with
          | Some e => (Writer (out ++ take n p) sc', Err e)
          | None =>
              if Nat.eqb n 0 then (Writer out sc', Err io_ErrShortWrite)
              else write_loop (drop n p) (out ++ take n p) sc'
          end
      end
  end.

Definition writeFull (p : bytes) : ST writer unit := λ w, write_loop p (written w) (script w).

Definition WriteByte (b : byte) : ST writer unit := writeFull [b].

Definition WriteBool (v : bool) : ST writer unit :=
  if v then WriteByte x01 else WriteByte x00.

Definition WriteU32 (num : Z) : ST writer unit := writeFull (PutUint32 num).

Definition WriteBytes (b : bytes) : ST writer unit :=
  if MaxUint32 <? blen b
  then st_fail (NewError "chunk size exceeds length field width")
  else WriteU32 (u32 (blen b)) ≫= λ _, writeFull b.

End Rw.

(** ** Properties of the in-memory coders *)

Section decoder.
Import Decoder.

(** The cursor stays inside its buffer. *)
Definition wf (c : t) : Prop :=
  0 <= off c <= blen (buf c) ∧ is_u32 (maxBytes c) ∧ blen (buf c) + MaxUint32 <= MaxUint64.

(** [c] has not failed and [rest] is still to be read. *)
Definition at_rest (c : t) (rest : bytes) : Prop :=
  wf c ∧ err c = None ∧ drop (Z.to_nat (off c)) (buf c) = rest.

Lemma Take_wf n c : is_u32 n → wf c → wf (Take n c).2.
Proof.
  intros Hn (Ho & Hm & Hl). unfold Take, set_err.
  destruct (err c); [done|]. case_match; bool_simp; repeat split; simpl in *; try (done || lia).
  - destruct Hm; lia.
  - destruct Hm; lia.
  - unfold is_u32 in *. lia.
  - rewrite u64_id in *; [lia|]. unfold is_u64, is_u32 in *. lia.
  - destruct Hm; lia.
  - destruct Hm; lia.
Qed.

Lemma Take_at n b c rest :
  at_rest c (b ++ rest) → blen b = n → is_u32 n →
  ∃ c', Take n c = (b, c') ∧ at_rest c' rest ∧ maxBytes c' = maxBytes c.
Proof.
  intros ((Ho & Hm & Hl) & He & Hd) Hb Hn. unfold Take. rewrite He.
  assert (Hlen : blen (buf c) = off c + n + blen rest).
  { pose proof (f_equal blen Hd) as Hd'. rewrite blen_app in Hd'.
    unfold blen in *. rewrite length_drop in Hd'. lia. }
  pose proof (blen_nonneg rest).
  rewrite u64_id by (unfold is_u64, is_u32 in *; lia).
  destruct (Z.ltb_spec (blen (buf c)) (off c + n)); [lia|].
  eexists; split; [f_equal|split; [|reflexivity]].
  - unfold slice. rewrite Hd. replace (off c + n - off c) with n by lia.
    rewrite take_app_le by (unfold blen in *; lia).
    apply take_ge. unfold blen in *; lia.
  - repeat split; simpl; try (done || lia || apply Hm).
    + unfold is_u32 in *; lia.
    + replace (Z.to_nat (off c + n)) with (Z.to_nat (off c) + Z.to_nat n)%nat
        by (unfold is_u32 in *; lia).
      rewrite <-drop_drop, Hd.
      rewrite drop_app_ge by (unfold blen in *; lia).
      replace (Z.to_nat n - length b)%nat with O by (unfold blen in *; lia). done.
Qed.

Lemma Take_sticky n c e : err c = Some e → Take n c = ([], c).
Proof. intros He. unfold Take. by rewrite He. Qed.
End decoder.

(** A field of an encoded message, the kind a schema gives it, and the encoder
    and decoder calls that treat it. *)
Inductive item :=
  | IByte (b : byte) | IBool (v : bool) | IU32 (n : Z)
  | IBytes (b : bytes) | IString (s : bytes) | IMagic (b : bytes).

Inductive kind := KByte | KBool | KU32 | KBytes | KString | KMagic (b : bytes).

Definition kind_of (i : item) : kind :=
  match i with
  | IByte _ => KByte | IBool _ => KBool | IU32 _ => KU32
  | IBytes _ => KBytes | IString _ => KString | IMagic b => KMagic b
  end.

Definition item_ok (max : Z) (i : item) : Prop :=
  match i with
  | IByte _ | IBool _ => True
  | IU32 n => is_u32 n
  | IBytes b => blen b <= max
  | IString s => blen s <= max ∧ utf8_valid s = true
  | IMagic b => blen b <= MaxUint32
  end.

Definition encode_item (i : item) : Encoder.t → Encoder.t :=
  match i with
  | IByte b => Encoder.Byte b | IBool v => Encoder.Bool v | IU32 n => Encoder.U32 n
  | IBytes b => Encoder.Bytes b | IString s => Encoder.UTF8String s
  | IMagic b => Encoder.Write b
  end.

Definition decode_item (k : kind) (c : Decoder.t) : item * Decoder.t :=
  match k with
  | KByte => let '(b, c') := Decoder.Byte c in (IByte b, c')
  | KBool => let '(v, c') := Decoder.Bool c in (IBool v, c')
  | KU32 => let '(n, c') := Decoder.U32 c in (IU32 n, c')
  | KBytes => let '(b, c') := Decoder.Bytes c in (IBytes b, c')
  | KString => let '(s, c') := Decoder.UTF8String c in (IString s, c')
  | KMagic b => (IMagic b, Decoder.ExpectBytes b c)
  end.

Definition encode_items (its : list item) (e : Encoder.t) : Encoder.t :=
  foldl (λ e i, encode_item i e) e its.

Fixpoint decode_items (ks : list kind) (c : Decoder.t) : list item * Decoder.t :=
  match ks with
  | [] => ([], c)
  | k :: ks => let '(i, c') := decode_item k c in
               let '(its, c'') := decode_items ks c' in (i :: its, c'')
  end.

(** The bytes one field contributes. *)
Definition item_bytes (i : item) : bytes :=
  match i with
  | IByte b => [b]
  | IBool v => [if v then x01 else x00]
  | IU32 n => PutUint32 n
  | IBytes b | IString b => PutUint32 (blen b) ++ b
  | IMagic b => b
  end.

Lemma encode_item_spec max i e :
  is_u32 max → item_ok max i → Encoder.err e = None →
  encode_item i e = Encoder.Mk (Encoder.buf e ++ item_bytes i) None.
Proof.
  intros Hmax Hi He. destruct e as [b []]; simpl in He; [done|].
  destruct i as [x|[]|n|x|x|x]; simpl in *; try done;
    unfold Encoder.UTF8String, Encoder.Bytes; simpl;
    (destruct (Z.ltb_spec MaxUint32 (blen x)); [unfold is_u32 in *; lia|]);
    rewrite u32_id by (unfold is_u32 in *; pose proof (blen_nonneg x); lia);
    unfold Encoder.U32, Encoder.Write; simpl; by rewrite <-app_assoc.
Qed.

Lemma encode_items_spec max its e :
  is_u32 max → Forall (item_ok max) its → Encoder.err e = None →
  encode_items its e = Encoder.Mk (Encoder.buf e ++ concat (map item_bytes its)) None.
Proof.
  intros Hmax Hi. revert e. induction Hi as [|i its Hi _ IH]; intros e He; simpl.
  - rewrite app_nil_r. destruct e; simpl in *; by subst.
  - rewrite (encode_item_spec max) by done. rewrite IH by done. simpl. by rewrite <-app_assoc.
Qed.

Lemma U32_at n c rest :
  is_u32 n → at_rest c (PutUint32 n ++ rest) →
  ∃ c', Decoder.U32 c = (n, c') ∧ at_rest c' rest ∧ Decoder.maxBytes c' = Decoder.maxBytes c.
Proof.
  intros Hn Hc. destruct (Take_at 4 (PutUint32 n) c rest Hc) as (c' & E & Hc' & Hmax);
    [done|unfold is_u32, MaxUint32; lia|].
  exists c'. unfold Decoder.U32. rewrite E. destruct Hc' as (? & He & ?). rewrite He.
  rewrite <-(app_nil_r (PutUint32 n)), Uint32_PutUint32 by done. repeat split; by try apply H.
Qed.

Lemma Bytes_at b c rest :
  blen b <= Decoder.maxBytes c → at_rest c (PutUint32 (blen b) ++ b ++ rest) →
  ∃ c', Decoder.Bytes c = (b, c') ∧ at_rest c' rest ∧ Decoder.maxBytes c' = Decoder.maxBytes c.
Proof.
  intros Hb Hc. pose proof (blen_nonneg b).
  assert (is_u32 (blen b)) as Hu by (destruct Hc as ((_ & Hm & _) & _); unfold is_u32 in *; lia).
  destruct (U32_at _ _ _ Hu Hc) as (c1 & E1 & Hc1 & Hm1).
  destruct (Take_at (blen b) b c1 rest Hc1) as (c2 & E2 & Hc2 & Hm2); [done..|].
  exists c2. unfold Decoder.Bytes. rewrite E1. destruct Hc1 as (? & He & ?). rewrite He.
  destruct (Z.ltb_spec (Decoder.maxBytes c1) (blen b)); [lia|].
  split; [done|split; [done|congruence]].
Qed.

Lemma decode_item_at i c rest :
  item_ok (Decoder.maxBytes c) i → at_rest c (item_bytes i ++ rest) →
  ∃ c', decode_item (kind_of i) c = (i, c') ∧ at_rest c' rest ∧
        Decoder.maxBytes c' = Decoder.maxBytes c.
Proof.
  intros Hi Hc.
  destruct i as [x|v|n|x|x|x]; cbn [item_ok item_bytes kind_of decode_item] in *.
  - destruct (Take_at 1 [x] c rest Hc) as (c' & E & Hc' & Hm); [done..|].
    exists c'. unfold Decoder.Byte. rewrite E. destruct Hc' as (? & He & ?). by rewrite He.
  - destruct (Take_at 1 [if v then x01 else x00] c rest Hc) as (c' & E & Hc' & Hm); [done..|].
    exists c'. unfold Decoder.Bool, Decoder.Byte. rewrite E.
    pose proof Hc' as (? & He & ?). rewrite He. simpl. rewrite He. by destruct v.
  - destruct (U32_at n c rest Hi Hc) as (c' & E & ?). exists c'. by rewrite E.
  - rewrite <-app_assoc in Hc. destruct (Bytes_at x c rest Hi Hc) as (c' & E & ?).
    exists c'. by rewrite E.
  - rewrite <-app_assoc in Hc. destruct Hi as [Hi Hu].
    destruct (Bytes_at x c rest Hi Hc) as (c' & E & Hc' & ?).
    exists c'. unfold Decoder.UTF8String. rewrite E.
    pose proof Hc' as (? & He & ?). by rewrite He, Hu.
  - pose proof (blen_nonneg x). assert (is_u32 (blen x)) as Hu by (unfold is_u32; lia).
    destruct (Take_at (blen x) x c rest Hc) as (c' & E & Hc' & Hm); [done..|].
    exists c'. unfold Decoder.ExpectBytes. rewrite u32_id, E by done.
    pose proof Hc' as (? & He & ?). rewrite He. by rewrite bool_decide_eq_true_2.
Qed.

Lemma decode_items_at its c rest :
  Forall (item_ok (Decoder.maxBytes c)) its → at_rest c (concat (map item_bytes its) ++ rest) →
  ∃ c', decode_items (map kind_of its) c = (its, c') ∧ at_rest c' rest.
Proof.
  revert c. induction its as [|i its IH]; intros c Hi Hc; simpl in *.
  - by exists c.
  - rewrite <-app_assoc in Hc. apply Forall_cons in Hi as [Hi His].
    destruct (decode_item_at i c _ Hi Hc) as (c1 & E1 & Hc1 & Hm). rewrite E1.
    rewrite <-Hm in His. destruct (IH c1 His Hc1) as (c2 & E2 & Hc2). rewrite E2.
    by exists c2.
Qed.

(** Decoding with a schema what the encoder wrote for the values of that
    schema gives the values back and leaves no trailing data, for every message
    whose byte strings respect the decoder's [maxBytes]. *)
Theorem encode_decode_roundtrip (max : Z) (msg : list item) (out : bytes)
  (Hmax : is_u32 max) (Hok : Forall (item_ok max) msg)
  (Hout : Encoder.Result (encode_items msg Encoder.NewEncoder) = Some out)
  (Hlen : blen out + MaxUint32 <= MaxUint64) :
  let '(msg', c) := decode_items (map kind_of msg)
                      (Decoder.WithMaxBytes max (Decoder.NewCursor out)) in
  msg' = msg ∧ Decoder.Done c = None.
Proof.
  rewrite (encode_items_spec max) in Hout by done.
  injection Hout as Hout. simpl in Hout.
  set (c0 := Decoder.WithMaxBytes max (Decoder.NewCursor out)).
  assert (Hc0 : at_rest c0 (out ++ [])).
  { rewrite app_nil_r. unfold c0. repeat split; simpl; try (done || lia || apply Hmax).
    apply blen_nonneg. }
  assert (Hc1 : at_rest c0 (concat (map item_bytes msg) ++ [])) by by rewrite Hout.
  destruct (decode_items_at msg c0 [] Hok Hc1) as (c & E & ((Ho & _ & _) & He & Hd)).
  rewrite E. split; [done|]. unfold Decoder.Done. rewrite He.
  destruct (Z.eqb_spec (Decoder.off c) (blen (Decoder.buf c))); [done|].
  apply (f_equal length) in Hd. rewrite length_drop in Hd. unfold blen in *. simpl in Hd. lia.
Qed.

Lemma encode_decode_roundtrip_witness :
  let '(msg', c) := decode_items [KU32; KBytes; KBool]
       (Decoder.WithMaxBytes 16 (Decoder.NewCursor [x00;x00;x01;x02; x00;x00;x00;x01;x61; x01])) in
  msg' = [IU32 258; IBytes [x61]; IBool true] ∧ Decoder.Done c = None.
Proof.
  apply (encode_decode_roundtrip 16 [IU32 258; IBytes [x61]; IBool true]);
    [ unfold is_u32, MaxUint32; lia
    | repeat constructor; unfold item_ok, is_u32, MaxUint32, blen; simpl; lia
    | reflexivity
    | unfold blen, MaxUint32, MaxUint64; simpl; lia ].
Defined.

(** The decoder never leaves its buffer and never reports an error twice: a
    failed decoder is unchanged by every further call. *)
Lemma decode_item_sticky k c e : Decoder.err c = Some e → (decode_item k c).2 = c.
Proof.
  intros He. pose proof (Take_sticky 1 c e He) as H1. pose proof (Take_sticky 4 c e He) as H4.
  destruct k; simpl;
    unfold Decoder.UTF8String, Decoder.Bool, Decoder.Byte, Decoder.Bytes, Decoder.U32,
      Decoder.ExpectBytes; rewrite ?H1, ?H4, ?(Take_sticky _ c e He); simpl; by rewrite ?He.
Qed.

Lemma Take_err_cases n c :
  (Decoder.err (Decoder.Take n c).2 = None ∧ Decoder.err c = None) ∨
  ∃ e, Decoder.err (Decoder.Take n c).2 = Some e.
Proof.
  unfold Decoder.Take. destruct (Decoder.err c) eqn:E; simpl; [by eauto|].
  case_match; simpl; eauto.
Qed.

Lemma decode_item_wf k c :
  (∀ b, k = KMagic b → is_u32 (blen b)) → wf c → wf (decode_item k c).2.
Proof.
  intros Hk Hc.
  assert (Ht : ∀ n, is_u32 n → wf (Decoder.Take n c).2) by (intros; by apply Take_wf).
  assert (H4 : wf (Decoder.U32 c).2 ∧ is_u32 (Decoder.U32 c).1).
  { specialize (Ht 4). unfold Decoder.U32. destruct (Decoder.Take 4 c) as [b c'].
    simpl in Ht. case_match; simpl; split; try (apply Ht || apply Uint32_range);
      unfold is_u32, MaxUint32; lia. }
  assert (Hb : wf (Decoder.Bytes c).2).
  { unfold Decoder.Bytes. destruct (Decoder.U32 c) as [n c'], H4 as [Hw Hn]; simpl in *.
    repeat case_match; simpl; [done|by destruct c'|by apply Take_wf]. }
  assert (H1 : wf (Decoder.Byte c).2).
  { specialize (Ht 1). unfold Decoder.Byte. destruct (Decoder.Take 1 c) as [b c'].
    simpl in Ht. case_match; simpl; apply Ht; unfold is_u32, MaxUint32; lia. }
  destruct k as [| | | | |b]; simpl.
  - destruct (Decoder.Byte c); done.
  - unfold Decoder.Bool. destruct (Decoder.Byte c) as [x c'].
    repeat case_match; simpl in *; simplify_eq; by try destruct c'.
  - destruct (Decoder.U32 c); by destruct H4.
  - destruct (Decoder.Bytes c); done.
  - unfold Decoder.UTF8String. destruct (Decoder.Bytes c) as [x c'].
    repeat case_match; simpl in *; simplify_eq; by try destruct c'.
  - specialize (Ht (u32 (blen b)) (u32_range _)). unfold Decoder.ExpectBytes.
    destruct (Decoder.Take _ c) as [x c'].
    repeat case_match; simpl in *; by try destruct c'.
Qed.

Lemma decode_items_wf ks c :
  (∀ b, KMagic b ∈ ks → is_u32 (blen b)) → wf c → wf (decode_items ks c).2.
Proof.
  revert c. induction ks as [|k ks IH]; intros c Hk Hc; [done|]. simpl.
  pose proof (decode_item_wf k c) as Hw.
  destruct (decode_item k c) as [i c1]. simpl in Hw.
  specialize (IH c1 ltac:(intros; apply Hk; by right)).
  destruct (decode_items ks c1). apply IH, Hw; [|done]. intros b ->. apply Hk. by left.
Qed.

Lemma decode_items_sticky ks c e : Decoder.err c = Some e → (decode_items ks c).2 = c.
Proof.
  intros He. induction ks as [|k ks IH]; [done|]. simpl.
  pose proof (decode_item_sticky k _ e He) as Hk.
  destruct (decode_item k _) as [i c1]; simpl in Hk; subst c1. by destruct (decode_items ks _).
Qed.

(** Whatever the input and the sequence of decoder calls, the cursor stays
    within the buffer, so no call slices out of range, and the first error is
    final. *)
Theorem decoder_safe (input : bytes) (max : Z) (schema : list kind)
  (Hmax : is_u32 max) (Hlen : blen input + MaxUint32 <= MaxUint64)
  (Hmagic : ∀ b, KMagic b ∈ schema → is_u32 (blen b)) :
  let c := (decode_items schema (Decoder.WithMaxBytes max (Decoder.NewCursor input))).2 in
  0 <= Decoder.off c <= blen (Decoder.buf c) ∧
  ∀ more e, Decoder.err c = Some e → (decode_items more c).2 = c.
Proof.
  split.
  - apply decode_items_wf; [done|].
    repeat split; simpl; try (done || apply Hmax). apply blen_nonneg.
  - intros more e. apply decode_items_sticky.
Qed.

Lemma decoder_safe_witness :
  let c := (decode_items [KBytes; KU32]
              (Decoder.WithMaxBytes 8 (Decoder.NewCursor [x00; x00; x00; x09]))).2 in
  0 <= Decoder.off c <= blen (Decoder.buf c) ∧
  ∀ more e, Decoder.err c = Some e → (decode_items more c).2 = c.
Proof.
  apply (decoder_safe [x00; x00; x00; x09] 8 [KBytes; KU32]);
    [ unfold is_u32, MaxUint32; lia
    | unfold blen, MaxUint32, MaxUint64; simpl; lia
    | intros b Hb; exfalso; apply list_elem_of_In in Hb; simpl in Hb; intuition discriminate ].
Defined.

(** ** Properties of the stream functions *)

Section streams.
Import Rw.

Definition stream (r : reader) : bytes := concat (chunks r).

Lemma read_full_loop_ok got n cs e :
  (length got ≤ n)%nat → (n ≤ length (got ++ concat cs))%nat →
  ∃ cs', read_full_loop got n cs e = (cs', Ok (take n (got ++ concat cs))) ∧
         concat cs' = drop n (got ++ concat cs).
Proof.
  revert got. induction cs as [|c cs IH]; intros got Hg Hn; simpl in *.
  - rewrite app_nil_r in *. destruct (decide _); [|lia].
    exists []. rewrite take_ge, drop_ge by lia. done.
  - destruct (decide (n ≤ length got)%nat) as [Hle|Hgt].
    + assert (n = length got) as -> by lia. exists (c :: cs).
      by rewrite take_app_length, drop_app_length.
    + destruct (decide (n - length got ≤ length c)%nat) as [Hc|Hc].
      * exists (drop (n - length got) c :: cs). simpl.
        rewrite take_app_ge, drop_app_ge by lia.
        by rewrite take_app_le, drop_app_le by lia.
      * destruct (IH (got ++ c)) as (cs' & E & Hd).
        { rewrite length_app. lia. }
        { rewrite !length_app in *. lia. }
        exists cs'. rewrite <-app_assoc in E, Hd. done.
Qed.

Lemma read_full_loop_short got n cs e :
  (length (got ++ concat cs) < n)%nat →
  read_full_loop got n cs e =
    ([], Err (if bool_decide (e = io_EOF) then
                match got ++ concat cs with [] => io_EOF | _ => io_ErrUnexpectedEOF end
              else e)).
Proof.
  revert got. induction cs as [|c cs IH]; intros got Hn; simpl in *.
  - rewrite app_nil_r in *. destruct (decide _); [lia|done].
  - destruct (decide (n ≤ length got)%nat) as [Hle|Hgt]; [rewrite length_app in Hn; lia|].
    rewrite !length_app in Hn. destruct (decide _); [lia|].
    rewrite IH; rewrite <-app_assoc; [done|]. rewrite !length_app. lia.
Qed.

(** [ReadFull] depends only on the bytes of the stream, not on the chunks. *)
Lemma ReadFull_spec n r :
  if decide (n ≤ length (stream r))%nat
  then (ReadFull n r).2 = Ok (take n (stream r)) ∧
       stream (ReadFull n r).1 = drop n (stream r) ∧ rerr (ReadFull n r).1 = rerr r
  else (ReadFull n r).2 = Err (if bool_decide (rerr r = io_EOF) then
           match stream r with [] => io_EOF | _ => io_ErrUnexpectedEOF end else rerr r) ∧
       (ReadFull n r).1 = Reader [] (rerr r).
Proof.
  unfold ReadFull, stream. destruct (decide _) as [Hle|Hgt].
  - destruct (read_full_loop_ok [] n (chunks r) (rerr r)) as (cs' & E & Hd);
      [simpl; lia|done|]. rewrite E. done.
  - rewrite read_full_loop_short by (simpl; lia). done.
Qed.

Lemma ReadFull_stream n r1 r2 :
  stream r1 = stream r2 → rerr r1 = rerr r2 →
  (ReadFull n r1).2 = (ReadFull n r2).2 ∧
  stream (ReadFull n r1).1 = stream (ReadFull n r2).1 ∧
  rerr (ReadFull n r1).1 = rerr (ReadFull n r2).1.
Proof.
  intros Hs He. pose proof (ReadFull_spec n r1) as H1. pose proof (ReadFull_spec n r2) as H2.
  rewrite Hs, He in H1. case_decide.
  - destruct H1 as (-> & -> & ->), H2 as (-> & -> & ->). done.
  - destruct H1 as (-> & ->), H2 as (-> & ->). done.
Qed.

Lemma ReadFull_app p q r :
  stream r = p ++ q → (ReadFull (length p) r).2 = Ok p ∧ stream (ReadFull (length p) r).1 = q ∧
                      rerr (ReadFull (length p) r).1 = rerr r.
Proof.
  intros Hs. pose proof (ReadFull_spec (length p) r) as H. rewrite Hs in H.
  rewrite length_app in H. case_decide; [|lia].
  by rewrite take_app_length, drop_app_length in H.
Qed.

(** A length-prefixed chunk. *)
Definition chunk (b : bytes) : bytes := PutUint32 (blen b) ++ b.

Lemma ReadBytes_chunk max b rest r :
  blen b <= MaxUint32 → (max = 0 ∨ is_u32 max ∧ blen b <= max) →
  stream r = chunk b ++ rest →
  (ReadBytes max r).2 = Ok b ∧ stream (ReadBytes max r).1 = rest ∧
  rerr (ReadBytes max r).1 = rerr r.
Proof.
  intros Hb Hmax Hs. unfold chunk in Hs. rewrite <-app_assoc in Hs.
  pose proof (blen_nonneg b).
  destruct (ReadFull_app (PutUint32 (blen b)) (b ++ rest) r Hs) as (H1 & H2 & H3).
  rewrite length_PutUint32 in *.
  unfold ReadBytes, ReadU32, mbind, ST_bind, mret, ST_ret.
  destruct (ReadFull 4 r) as [r1 x]; simpl in *; subst x.
  rewrite <-(app_nil_r (PutUint32 (blen b))), Uint32_PutUint32 by (unfold is_u32; lia).
  destruct (negb (max =? 0) && (u32 max <? blen b)) eqn:E.
  - bool_simp. destruct Hmax as [|[? ?]]; [done|]. rewrite u32_id in * by done. lia.
  - destruct (ReadFull_app b rest r1 H2) as (H4 & H5 & H6).
    replace (Z.to_nat (blen b)) with (length b) by (unfold blen; lia).
    repeat split; [done..|congruence].
Qed.

Lemma write_loop_ok p out sc w :
  write_loop p out sc = (w, Ok tt) → written w = out ++ p.
Proof.
  revert p out. induction sc as [|[n e] sc IH]; intros p out; destruct p as [|x p];
    simpl; intros H; simplify_eq/=; try (by rewrite app_nil_r); [done|].
  destruct e; [done|]. destruct (Nat.eqb _ 0); [done|].
  apply IH in H. rewrite H, <-app_assoc. f_equal. change (x :: p) with ([x] ++ p).
  apply (take_drop (Nat.min n (S (length p)))).
Qed.

Lemma write_loop_prefix p out sc :
  ∃ k, written (write_loop p out sc).1 = out ++ take k p.
Proof.
  revert p out. induction sc as [|[n e] sc IH]; intros p out; destruct p as [|x p]; simpl.
  1,3: exists O; simpl; by rewrite app_nil_r.
  - exists (length (x :: p)). by rewrite take_ge by lia.
  - destruct e; [by eexists|]. destruct (Nat.eqb_spec (Nat.min n (S (length p))) 0) as [E|E].
    + exists O. simpl. by rewrite app_nil_r.
    + set (k := Nat.min n (S (length p))) in *.
      destruct (IH (drop k (x :: p)) (out ++ take k (x :: p))) as [j Hj].
      exists (k + j)%nat. rewrite Hj, <-app_assoc. f_equal.
      rewrite <-(take_drop k (x :: p)) at 3.
      rewrite take_app_ge by (rewrite length_take; lia).
      f_equal. rewrite length_take. f_equal. simpl. lia.
Qed.

Lemma WriteBytes_written b w w' :
  WriteBytes b w = (w', Ok tt) → blen b <= MaxUint32 ∧ written w' = written w ++ chunk b.
Proof.
  unfold WriteBytes. pose proof (blen_nonneg b).
  destruct (Z.ltb_spec MaxUint32 (blen b)); [done|].
  unfold WriteU32, mbind, ST_bind, writeFull. rewrite u32_id by (unfold is_u32; lia).
  destruct (write_loop (PutUint32 _) _ _) as [w1 [[]|]] eqn:E1; [|done].
  intros E2. apply write_loop_ok in E1, E2. rewrite E2, E1. unfold chunk.
  by rewrite <-app_assoc.
Qed.
End streams.

(** A byte string written with [WriteBytes], through any sequence of short
    writes, is read back by [ReadBytes] however the connection splits the
    stream, and exactly its bytes are consumed. *)
Theorem stream_roundtrip (b : bytes) (max : Z) (w w' : Rw.writer) (r : Rw.reader) (rest : bytes)
  (Hw : Rw.WriteBytes b w = (w', Ok tt))
  (Hmax : max = 0 ∨ is_u32 max ∧ blen b <= max)
  (Hr : stream r = drop (length (Rw.written w)) (Rw.written w') ++ rest) :
  (Rw.ReadBytes max r).2 = Ok b ∧ stream (Rw.ReadBytes max r).1 = rest.
Proof.
  apply WriteBytes_written in Hw as [Hb Hw]. rewrite Hw, drop_app_length in Hr.
  destruct (ReadBytes_chunk max b rest r Hb Hmax Hr) as (? & ? & _). done.
Qed.

Lemma stream_roundtrip_witness :
  (Rw.ReadBytes 8 (Rw.Reader [[x00]; [x00; x00]; [x02; x61]; [x62; x63]] io_EOF)).2 = Ok [x61; x62] ∧
  stream (Rw.ReadBytes 8 (Rw.Reader [[x00]; [x00; x00]; [x02; x61]; [x62; x63]] io_EOF)).1 = [x63].
Proof.
  apply (stream_roundtrip [x61; x62] 8 (Rw.Writer [] [(3%nat, None); (1%nat, None); (1%nat, None)])
           (Rw.Writer [x00; x00; x00; x02; x61; x62] []));
    [vm_compute; reflexivity | right; unfold is_u32, MaxUint32, blen; simpl; lia | reflexivity].
Defined.

(** A chunk announced longer than [maxBytes] is refused after its length
    field alone, before a buffer of that length is read. *)
Theorem ReadBytes_oversize (max n : Z) (r : Rw.reader) (rest : bytes)
  (Hmax : is_u32 max) (Hpos : max ≠ 0) (Hn : is_u32 n) (Hbig : max < n)
  (Hr : stream r = PutUint32 n ++ rest) :
  (Rw.ReadBytes max r).2 = Err (NewError "length exceeds maximum") ∧
  stream (Rw.ReadBytes max r).1 = rest.
Proof.
  destruct (ReadFull_app (PutUint32 n) rest r Hr) as (H1 & H2 & _).
  rewrite length_PutUint32 in *.
  unfold Rw.ReadBytes, Rw.ReadU32, mbind, ST_bind, mret, ST_ret.
  destruct (Rw.ReadFull 4 r) as [r1 x]; simpl in *; subst x.
  rewrite <-(app_nil_r (PutUint32 n)), Uint32_PutUint32, u32_id by done.
  destruct (Z.eqb_spec max 0); [done|]. destruct (Z.ltb_spec max n); [done|lia].
Qed.

Lemma ReadBytes_oversize_witness :
  (Rw.ReadBytes 32768 (Rw.Reader [[x00; x01]; [x00; x00; x61]] io_EOF)).2 =
    Err (NewError "length exceeds maximum") ∧
  stream (Rw.ReadBytes 32768 (Rw.Reader [[x00; x01]; [x00; x00; x61]] io_EOF)).1 = [x61].
Proof.
  apply (ReadBytes_oversize 32768 65536);
    [unfold is_u32, MaxUint32; lia | lia | unfold is_u32, MaxUint32; lia | lia | reflexivity].
Defined.
