(* ===== verification/Wire.v ===== *)
(** * Framed protobuf messages (lib/wire)

    [Framer] is the interface of framer.go.  The protobuf runtime and
    protovalidate are not part of the repository: they are the parameters of
    [ProtoMessage], and [ProtoLaws] states what the code relies on, namely that
    decoding an encoded message gives the message back. *)

From S2P Require Import Prelude.

(** [wire.Framer]: complete frames over a connection state [S]. *)
Record Framer (S : Type) := {
  SendFrame : bytes → ST S unit;
  ReceiveFrame : ST S bytes;
}.
Arguments SendFrame {S} _ _.
Arguments ReceiveFrame {S} _.

Class ProtoMessage (M : Type) := {
  proto_validate : M → option error;
  proto_marshal : M → res bytes;
  proto_unmarshal : bytes → res M;
}.

Class ProtoLaws (M : Type) `{ProtoMessage M} := {
  unmarshal_marshal : ∀ (m : M) b, proto_marshal m = Ok b → proto_unmarshal b = Ok m;
}.

Section proto.
Context {S M : Type} `{ProtoMessage M}.

Definition SendProto (framer : option (Framer S)) (message : option M) : ST S unit :=
  match framer, message with
  | None, _ => st_fail (NewError "wire: nil framer")
  | Some _, None => st_fail (NewError "wire: nil message")
  | Some framer, Some message =>
      match proto_validate message with
      | Some e => st_fail (Wrapped e "validate message")
      | None =>
          match proto_marshal message with
          | Err e => st_fail (Wrapped e "encode message")
          | Ok packet =>
              r ← st_try (SendFrame framer packet);
              st_lift (wrap_err "send message" r)
          end
      end
  end.

Definition ReceiveProto (framer : option (Framer S)) (message : option unit) : ST S M :=
  match framer, message with
  | None, _ => st_fail (NewError "wire: nil framer")
  | Some _, None => st_fail (NewError "wire: nil message")
  | Some framer, Some _ =>
      packet ← ReceiveFrame framer;
      if blen packet =? 0 then st_fail (NewError "wire: empty message")
      else match proto_unmarshal packet with
      | Err e => st_fail (Wrapped e "decode message")
      | Ok message =>
          match proto_validate message with
          | Some e => st_fail (Wrapped e "validate message")
          | None => mret message
          end
      end
  end.
End proto.

Section proto_props.
Context {S M : Type} `{HP : ProtoMessage M, HL : !ProtoLaws M}.

(** When [SendProto] succeeds it has validated the message and sent exactly
    one frame, and a peer that receives that frame gets the same message back
    from [ReceiveProto]. *)
Theorem proto_roundtrip (fs : Framer S) (m : M) (s s' : S)
  (Hsend : SendProto (Some fs) (Some m) s = (s', Ok tt)) :
  ∃ packet, SendFrame fs packet s = (s', Ok tt) ∧ proto_validate m = None ∧
    ∀ S' (fr : Framer S') r r', ReceiveFrame fr r = (r', Ok packet) → packet ≠ [] →
      ReceiveProto (M:=M) (Some fr) (Some tt) r = (r', Ok m).
Proof.
  unfold SendProto in Hsend. destruct (proto_validate m) eqn:Hv; [done|].
  destruct (proto_marshal m) as [b|] eqn:Hm; [|done]. exists b.
  unfold mbind, ST_bind, st_try, st_lift in Hsend.
  destruct (SendFrame fs b s) as [s1 [[]|e]] eqn:Hs; simpl in Hsend; [|done].
  simplify_eq. repeat split; [done..|]. intros S' fr r r' Hr Hne.
  unfold ReceiveProto, mbind, ST_bind. rewrite Hr.
  destruct b as [|x b]; [done|]. rewrite blen_cons. pose proof (blen_nonneg b).
  destruct (Z.eqb_spec (1 + blen b) 0); [lia|].
  by rewrite (unmarshal_marshal m _ Hm), Hv.
Qed.

(** A frame that does not decode to a valid message is an error and never a
    message. *)
Lemma ReceiveProto_valid (fr : Framer S) r r' (m : M) :
  ReceiveProto (Some fr) (Some tt) r = (r', Ok m) → proto_validate m = None.
Proof.
  unfold ReceiveProto, mbind, ST_bind. destruct (ReceiveFrame fr r) as [r1 [p|]]; [|done].
  case_match; [done|]. destruct (proto_unmarshal p) as [m'|]; [|done].
  destruct (proto_validate m') eqn:Hv; [done|]. unfold mret, ST_ret. by intros [= <- <-].
Qed.
End proto_props.

(** A message type that shows the laws can hold: a byte encoded as itself. *)
#[local] Instance byte_proto : ProtoMessage byte := {|
  proto_validate := λ b, None;
  proto_marshal := λ b, Ok [b];
  proto_unmarshal := λ p, match p with [b] => Ok b | _ => Err (NewError "bad") end;
|}.

#[local] Instance byte_proto_laws : ProtoLaws byte.
Proof. constructor. intros m b Hb. by injection Hb as <-. Qed.

Definition list_framer : Framer bytes := {|
  SendFrame := λ p s, (s ++ p, Ok tt);
  ReceiveFrame := λ s, ([], Ok s);
|}.

Lemma proto_roundtrip_witness :
  ∃ packet, SendFrame list_framer packet [] = ([x61], Ok tt) ∧ proto_validate x61 = None ∧
    ∀ S' (fr : Framer S') r r', ReceiveFrame fr r = (r', Ok packet) → packet ≠ [] →
      ReceiveProto (M:=byte) (Some fr) (Some tt) r = (r', Ok x61).
Proof. apply (proto_roundtrip list_framer x61 [] [x61]). reflexivity. Defined.

(** ** Observing a connection *)

(** The frames handed to [SendFrame], in order, whether or not it succeeds. *)
Definition recording {S} (fr : Framer S) : Framer (S * list bytes) := {|
  SendFrame := λ b '(s, log), let '(s', r) := SendFrame fr b s in ((s', log ++ [b]), r);
  ReceiveFrame := λ '(s, log), let '(s', r) := ReceiveFrame fr s in ((s', log), r);
|}.

(** ** A field format for the examples *)

(** A field: each byte after a one, then a zero. *)
Definition put_field (b : bytes) : bytes := concat (map (λ c, [x01; c]) b) ++ [x00].

Fixpoint get_field (b : bytes) : option (bytes * bytes) :=
  match b with
  | x00 :: rest => Some ([], rest)
  | x01 :: c :: rest => match get_field rest with Some (f, rest') => Some (c :: f, rest') | None => None end
  | _ => None
  end.

Fixpoint get_fields (n : nat) (b : bytes) : option (list bytes) :=
  match n with
  | O => Some []
  | S n => match get_field b with
           | Some (f, rest) => match get_fields n rest with Some fs => Some (f :: fs) | None => None end
           | None => None
           end
  end.

Definition put_fields (l : list bytes) : bytes := concat (map put_field l).

Lemma get_put_field b rest : get_field (put_field b ++ rest) = Some (b, rest).
Proof. unfold put_field. induction b as [|c b IH]; [done|]. simpl in *. by rewrite IH. Qed.

Lemma get_put_fields l rest : get_fields (length l) (put_fields l ++ rest) = Some l.
Proof.
  revert rest. induction l as [|b l IH]; intros rest; [done|]. unfold put_fields in *. cbn [map concat length get_fields].
  by rewrite <-app_assoc, get_put_field, IH.
Qed.

Lemma put_fields_inj l l' : length l = length l' → put_fields l = put_fields l' → l = l'.
Proof.
  intros Hlen Heq. pose proof (get_put_fields l []) as H1. rewrite Heq, Hlen, get_put_fields in H1. congruence.
Qed.

Lemma bs_inj s s' : String.list_byte_of_string s = String.list_byte_of_string s' → s = s'.
Proof. intros Hs. by rewrite <-(String.string_of_list_byte_of_string s), Hs, String.string_of_list_byte_of_string. Qed.

