(* ===== verification/Transport.v ===== *)
(** * Encrypted framed transport (lib/transport)

    The Noise library is a parameter: [NoiseLib] gives its cipher and handshake
    states, [Paired] the documented agreement of the two directions of a
    completed handshake.  The connection is the reader and writer of
    [Bincoder.Rw], so frames survive short writes and arbitrary chunking. *)

From S2P Require Import Prelude Bincoder Wire.

Definition MaxPayloadSize : Z := 32 * 1024.

(** ** flynn/noise *)
Class NoiseLib := {
  CipherState : Type;
  HandshakeState : Type;
  cs_encrypt : CipherState → bytes → CipherState * res bytes;
  cs_decrypt : CipherState → bytes → CipherState * res bytes;
  hs_write : HandshakeState → HandshakeState * res (bytes * option CipherState * option CipherState);
  hs_read : HandshakeState → bytes → HandshakeState * res (option CipherState * option CipherState);
  hs_binding : HandshakeState → bytes;
  cs_name : bytes;
}.

Section transport.
Context `{NoiseLib}.

(** [tx] and [rx] are nil until the handshake has completed. *)
Record Transport := MkTransport {
  conn_in : Rw.reader;
  conn_out : Rw.writer;
  tx : option CipherState;
  rx : option CipherState;
  channelBinding : bytes;
}.

Definition eta_Transport (t : Transport) :=
  MkTransport (conn_in t) (conn_out t) (tx t) (rx t) (channelBinding t).
#[export] Instance set_conn_in : Setter conn_in := ltac:(derive_setter eta_Transport).
#[export] Instance set_conn_out : Setter conn_out := ltac:(derive_setter eta_Transport).
#[export] Instance set_tx : Setter tx := ltac:(derive_setter eta_Transport).
#[export] Instance set_rx : Setter rx := ltac:(derive_setter eta_Transport).
#[export] Instance set_binding : Setter channelBinding := ltac:(derive_setter eta_Transport).

Definition on_reader {A} (m : ST Rw.reader A) : ST Transport A := λ t,
  let '(r, x) := m (conn_in t) in (t <| conn_in := r |>, x).
Definition on_writer {A} (m : ST Rw.writer A) : ST Transport A := λ t,
  let '(w, x) := m (conn_out t) in (t <| conn_out := w |>, x).

Definition sendChunk (payload : bytes) : ST Transport unit :=
  if MaxPayloadSize <? blen payload then st_fail (NewError "wire: payload too large")
  else r ← st_try (on_writer (Rw.WriteBytes payload)); st_lift (wrap_err "send frame" r).

Definition recvChunk : ST Transport bytes := on_reader (Rw.ReadBytes MaxPayloadSize).

(** [t.rx.Decrypt]; a nil cipher state would panic in Go. *)
Definition transport_ReceiveFrame : ST Transport bytes :=
  r ← st_try recvChunk;
  match r with
  | Err e => st_fail (Wrapped e "failed to receive frame")
  | Ok frame =>
      t ← st_get;
      match rx t with
      | None => st_fail (NewError "nil cipher state")
      | Some cs =>
          let '(cs', x) := cs_decrypt cs frame in
          st_modify (λ t, t <| rx := Some cs' |>) ≫= λ _, st_lift x
      end
  end.

Definition transport_SendFrame (p : bytes) : ST Transport unit :=
  t ← st_get;
  match tx t with
  | None => st_fail (NewError "nil cipher state")
  | Some cs =>
      let '(cs', x) := cs_encrypt cs p in
      st_modify (λ t, t <| tx := Some cs' |>) ≫= λ _,
      match x with
      | Err e => st_fail (Wrapped e "failed to encrypt frame")
      | Ok frame => r ← st_try (sendChunk frame); st_lift (wrap_err "failed to send frame" r)
      end
  end.

Definition transport_framer : Framer Transport :=
  {| SendFrame := transport_SendFrame; ReceiveFrame := transport_ReceiveFrame |}.

Definition setCipherStates (first second : CipherState) (initiator : bool) (t : Transport) : Transport :=
  if initiator then t <| tx := Some first |> <| rx := Some second |>
  else t <| tx := Some second |> <| rx := Some first |>.

(** The cipher states and the channel binding are installed when both are non-nil. *)
Definition finish_handshake (first second : option CipherState) (hs : HandshakeState)
  (initiator : bool) (t : Transport) : Transport * bool :=
  match first, second with
  | Some c1, Some c2 =>
      (setCipherStates c1 c2 initiator t <| channelBinding := hs_binding hs |>, true)
  | _, _ => (t, false)
  end.

(** The loop of [handshake]; [fuel] bounds the number of handshake messages. *)
Fixpoint handshake_loop (fuel msg_seq : nat) (initiator : bool) (hs : HandshakeState)
  : ST Transport unit :=
  match fuel with
  | O => st_fail (NewError "handshake does not terminate")
  | S fuel =>
      let shouldWrite := if initiator then O else 1%nat in
      if Nat.eqb (msg_seq mod 2) shouldWrite then
        let '(hs', x) := hs_write hs in
        match x with
        | Err e => st_fail (Wrapped e "Handshake error")
        | Ok (msg, first, second) =>
            r ← st_try (sendChunk msg);
            match r with
            | Err e => st_fail (Wrapped e "failed to send handshake message")
            | Ok _ =>
                t ← st_get;
                let '(t', done) := finish_handshake first second hs' initiator t in
                st_modify (λ _, t') ≫= λ _,
                if done then mret tt else handshake_loop fuel (S msg_seq) initiator hs'
            end
        end
      else
        r ← st_try recvChunk;
        match r with
        | Err e => st_fail (Wrapped e "failed to receive handshake message")
        | Ok wireMsg =>
            let '(hs', x) := hs_read hs wireMsg in
            match x with
            | Err e => st_fail (Wrapped e "Handshake error")
            | Ok (first, second) =>
                t ← st_get;
                let '(t', done) := finish_handshake first second hs' initiator t in
                st_modify (λ _, t') ≫= λ _,
                if done then mret tt else handshake_loop fuel (S msg_seq) initiator hs'
            end
        end
  end.

Definition handshake (fuel : nat) (initiator : bool) (hs : HandshakeState) : ST Transport unit :=
  handshake_loop fuel 0 initiator hs ≫= λ _,
  t ← st_get;
  if blen (channelBinding t) =? 0
  then st_fail (NewError "noise handshake did not yield a channel binding")
  else mret tt.

(** [noise.Config]; the cipher suite and the pattern are constants of the code. *)
Record NoiseConfig := MkNoiseConfig { nc_Prologue : bytes; nc_Initiator : bool }.

Definition MYGOSH_NOISE_MAGIC : bytes := String.list_byte_of_string "mygosh".
Definition MYGOSH_NOISE_VERSION : bytes := String.list_byte_of_string "v0".
Definition MYGOSH_NOISE_PATTERN : bytes := String.list_byte_of_string "Noise_NN".

(** [bytes.Join]. *)
Fixpoint bytes_Join (parts : list bytes) (sep : bytes) : bytes :=
  match parts with
  | [] => []
  | [part] => part
  | part :: rest => part ++ sep ++ bytes_Join rest sep
  end.

Definition createConfig (initiator : bool) : NoiseConfig :=
  MkNoiseConfig (bytes_Join [MYGOSH_NOISE_MAGIC; MYGOSH_NOISE_VERSION; MYGOSH_NOISE_PATTERN; cs_name] [x20]) initiator.

(** [handshake] from the configuration; [NewHandshakeState] is of the library. *)
Definition run_handshake (NewHandshakeState : NoiseConfig → res HandshakeState) (fuel : nat) (config : NoiseConfig) : ST Transport unit :=
  match NewHandshakeState config with
  | Err e => st_fail (Wrapped e "Failed to create noise handshake state")
  | Ok hs => handshake fuel (nc_Initiator config) hs
  end.

Definition HandshakeClient (NewHandshakeState : NoiseConfig → res HandshakeState) (fuel : nat) : ST Transport unit :=
  run_handshake NewHandshakeState fuel (createConfig true).

Definition HandshakeServer (NewHandshakeState : NoiseConfig → res HandshakeState) (fuel : nat) : ST Transport unit :=
  run_handshake NewHandshakeState fuel (createConfig false).

Definition ChannelBinding (t : Transport) : option bytes :=
  if blen (channelBinding t) =? 0 then None else Some (channelBinding t).

End transport.

(** ** Properties *)

(** The two ends of one direction: what one encrypts the other decrypts, in
    order. *)
Class NoisePairs `{NoiseLib} := {
  paired : CipherState → CipherState → Prop;
  paired_step : ∀ a b p a' c, paired a b → cs_encrypt a p = (a', Ok c) →
    ∃ b', cs_decrypt b c = (b', Ok p) ∧ paired a' b';
}.

Section transport_props.
Context `{HN : NoiseLib, HP : !NoisePairs}.

Lemma sendChunk_written c (t t' : Transport) :
  sendChunk c t = (t', Ok tt) →
  blen c <= MaxPayloadSize ∧ t' = t <| conn_out := conn_out t' |> ∧
  Rw.written (conn_out t') = Rw.written (conn_out t) ++ chunk c.
Proof.
  unfold sendChunk, mbind, ST_bind, st_try, st_lift, on_writer.
  destruct (Z.ltb_spec MaxPayloadSize (blen c)); [done|].
  destruct (Rw.WriteBytes c (conn_out t)) as [w [[]|]] eqn:E; simpl; [|done].
  intros [= <-]. apply WriteBytes_written in E as [_ E]. done.
Qed.

Lemma SendFrame_written p (t t' : Transport) :
  transport_SendFrame p t = (t', Ok tt) →
  ∃ cs cs' c, tx t = Some cs ∧ cs_encrypt cs p = (cs', Ok c) ∧ blen c <= MaxPayloadSize ∧
    tx t' = Some cs' ∧ rx t' = rx t ∧ conn_in t' = conn_in t ∧
    Rw.written (conn_out t') = Rw.written (conn_out t) ++ chunk c.
Proof.
  unfold transport_SendFrame, mbind, ST_bind, st_get. destruct (tx t) as [cs|] eqn:Htx; [|done].
  destruct (cs_encrypt cs p) as [cs' [c|]] eqn:He; [|done].
  unfold st_modify, st_try, st_lift, mbind, ST_bind.
  destruct (sendChunk c _) as [t1 [[]|]] eqn:Hs; simpl; [|done]. intros [= <-].
  apply sendChunk_written in Hs as (Hb & Heq & Hw). rewrite Heq. simpl.
  exists cs, cs', c. repeat split; done.
Qed.

Lemma ReceiveFrame_chunk c rest (t : Transport) cs :
  blen c <= MaxPayloadSize → rx t = Some cs → stream (conn_in t) = chunk c ++ rest →
  let '(cs', x) := cs_decrypt cs c in
  ∃ t', transport_ReceiveFrame t = (t', x) ∧ rx t' = Some cs' ∧ stream (conn_in t') = rest.
Proof.
  intros Hb Hrx Hs.
  destruct (ReadBytes_chunk MaxPayloadSize c rest (conn_in t)) as (H1 & H2 & _); [| |done|].
  { unfold MaxPayloadSize, MaxUint32 in *. lia. }
  { right. unfold is_u32, MaxPayloadSize, MaxUint32 in *. lia. }
  destruct (cs_decrypt cs c) as [cs' x] eqn:Hd.
  unfold transport_ReceiveFrame, recvChunk, on_reader, mbind, ST_bind, st_try.
  destruct (Rw.ReadBytes MaxPayloadSize (conn_in t)) as [r y]; simpl in *; subst y.
  unfold st_get. simpl. rewrite Hrx, Hd. by eexists.
Qed.

Fixpoint send_frames (ps : list bytes) : ST Transport unit :=
  match ps with [] => mret tt | p :: ps => transport_SendFrame p ≫= λ _, send_frames ps end.

Fixpoint receive_frames (n : nat) : ST Transport (list bytes) :=
  match n with
  | O => mret []
  | S n => p ← transport_ReceiveFrame; ps ← receive_frames n; mret (p :: ps)
  end.

Lemma send_frames_prefix ps (t t' : Transport) :
  send_frames ps t = (t', Ok tt) →
  Rw.written (conn_out t) `prefix_of` Rw.written (conn_out t').
Proof.
  revert t. induction ps as [|q ps IH]; intros t Hs; simpl in Hs.
  - by injection Hs as <-.
  - unfold mbind at 1, ST_bind in Hs.
    destruct (transport_SendFrame q t) as [t1 [[]|]] eqn:E; [|done].
    apply SendFrame_written in E as (? & ? & ? & _ & _ & _ & _ & _ & _ & E).
    etrans; [|by apply (IH t1)]. rewrite E. by eexists.
Qed.

Lemma send_frames_written ps (ta ta' tb : Transport) ca cb sent rest :
  send_frames ps ta = (ta', Ok tt) → tx ta = Some ca → rx tb = Some cb → paired ca cb →
  Rw.written (conn_out ta') = Rw.written (conn_out ta) ++ sent →
  stream (conn_in tb) = sent ++ rest →
  ∃ tb', receive_frames (length ps) tb = (tb', Ok ps) ∧ stream (conn_in tb') = rest.
Proof.
  revert ta tb ca cb sent. induction ps as [|p ps IH]; intros ta tb ca cb sent Hs Hca Hcb Hp Hw Hin.
  - simpl in *. injection Hs as <-. exists tb. split; [done|].
    assert (sent = []) as -> by (by apply (app_inv_head (Rw.written (conn_out ta))); rewrite app_nil_r).
    done.
  - simpl in Hs. unfold mbind at 1, ST_bind in Hs.
    destruct (transport_SendFrame p ta) as [ta1 [[]|]] eqn:E; [|done].
    destruct (SendFrame_written p ta ta1 E) as (cs & cs' & c & Ht & He & Hb & Ht1 & _ & _ & Hw1).
    simplify_eq. destruct (paired_step ca cb p cs' c Hp He) as (cb' & Hd & Hp').
    assert (∃ sent', sent = chunk c ++ sent' ∧
              Rw.written (conn_out ta') = Rw.written (conn_out ta1) ++ sent') as (sent' & -> & Hw').
    { pose proof (send_frames_prefix ps ta1 ta' Hs) as Hpre.
      destruct Hpre as [k Hk]. exists k. split; [|done].
      apply (app_inv_head (Rw.written (conn_out ta))). by rewrite <-Hw, Hk, Hw1, <-app_assoc. }
    rewrite <-app_assoc in Hin.
    pose proof (ReceiveFrame_chunk c _ tb cb Hb Hcb Hin) as Hr. rewrite Hd in Hr.
    destruct Hr as (tb1 & Hr & Hrx & Hst).
    destruct (IH ta1 tb1 cs' cb' sent' Hs Ht1 Hrx Hp' Hw' Hst) as (tb' & Hrec & Hrest).
    exists tb'. split; [|done]. simpl. unfold mbind, ST_bind. by rewrite Hr, Hrec.
Qed.

(** C34: the frames one end sends are the frames the other end receives, whole,
    in order and decrypted, whatever short writes the sender met and however the
    network splits the byte stream. *)
Theorem transport_roundtrip (ps : list bytes) (ta ta' tb : Transport) ca cb sent rest
  (Hsend : send_frames ps ta = (ta', Ok tt))
  (Htx : tx ta = Some ca) (Hrx : rx tb = Some cb) (Hpair : paired ca cb)
  (Hsent : Rw.written (conn_out ta') = Rw.written (conn_out ta) ++ sent)
  (Hin : stream (conn_in tb) = sent ++ rest) :
  ∃ tb', receive_frames (length ps) tb = (tb', Ok ps) ∧ stream (conn_in tb') = rest.
Proof. by eapply send_frames_written. Qed.

(** The Noise NN pattern: one message each way, the second one completes both
    sides with matching ciphers and the same channel binding. *)
Record NN_exchange (hi hr : HandshakeState) (m1 m2 : bytes) : Prop := {
  nn_states : ∃ hi1 hr1 hi2 hr2 a1 a2 b1 b2,
    hs_write hi = (hi1, Ok (m1, None, None)) ∧
    hs_read hr m1 = (hr1, Ok (None, None)) ∧
    hs_write hr1 = (hr2, Ok (m2, Some b1, Some b2)) ∧
    hs_read hi1 m2 = (hi2, Ok (Some a1, Some a2)) ∧
    paired a1 b1 ∧ paired b2 a2 ∧
    hs_binding hi2 = hs_binding hr2 ∧ hs_binding hi2 ≠ [];
  nn_size1 : blen m1 <= MaxPayloadSize;
  nn_size2 : blen m2 <= MaxPayloadSize;
}.

Lemma sendChunk_ok c (t : Transport) :
  blen c <= MaxPayloadSize → Rw.script (conn_out t) = [] →
  ∃ t', sendChunk c t = (t', Ok tt) ∧ t' = t <| conn_out := conn_out t' |> ∧
        Rw.script (conn_out t') = [] ∧ Rw.written (conn_out t') = Rw.written (conn_out t) ++ chunk c.
Proof.
  intros Hb Hsc. destruct (sendChunk c t) as [t' x] eqn:E.
  assert (x = Ok tt ∧ Rw.script (conn_out t') = []) as [-> ?].
  { revert E. unfold sendChunk. destruct (Z.ltb_spec MaxPayloadSize (blen c)); [lia|].
    unfold mbind, ST_bind, st_try, on_writer, st_lift, Rw.WriteBytes, Rw.WriteU32.
    destruct (Z.ltb_spec MaxUint32 (blen c)); [unfold MaxUint32, MaxPayloadSize in *; lia|].
    unfold mbind, ST_bind, Rw.writeFull. rewrite Hsc. simpl. destruct c; simpl; by intros [= <- <-]. }
  exists t'. apply sendChunk_written in E as (_ & ? & ?). done.
Qed.

Lemma recvChunk_ok c rest (t : Transport) :
  blen c <= MaxPayloadSize → stream (conn_in t) = chunk c ++ rest →
  ∃ t', recvChunk t = (t', Ok c) ∧ t' = t <| conn_in := conn_in t' |> ∧ stream (conn_in t') = rest.
Proof.
  intros Hb Hs.
  destruct (ReadBytes_chunk MaxPayloadSize c rest (conn_in t)) as (H1 & H2 & _); [| |done|].
  { unfold MaxPayloadSize, MaxUint32 in *. lia. }
  { right. unfold is_u32, MaxPayloadSize, MaxUint32 in *. lia. }
  unfold recvChunk, on_reader. destruct (Rw.ReadBytes _ _) as [r y]; simpl in *; subst y.
  by eexists.
Qed.

(** Over an intact network the Noise NN handshake of both sides terminates
    after two messages with matching cipher states in each direction and the
    same, non-empty channel binding. *)
Theorem handshake_agreement (hi hr : HandshakeState) (m1 m2 restI restR : bytes)
  (ti tr : Transport) (fuel : nat)
  (HNN : NN_exchange hi hr m1 m2) (Hfuel : (2 ≤ fuel)%nat)
  (HscI : Rw.script (conn_out ti) = []) (HscR : Rw.script (conn_out tr) = [])
  (HinI : stream (conn_in ti) = chunk m2 ++ restI)
  (HinR : stream (conn_in tr) = chunk m1 ++ restR) :
  ∃ ti' tr' a1 a2 b1 b2,
    handshake fuel true hi ti = (ti', Ok tt) ∧ handshake fuel false hr tr = (tr', Ok tt) ∧
    tx ti' = Some a1 ∧ rx tr' = Some b1 ∧ paired a1 b1 ∧
    tx tr' = Some b2 ∧ rx ti' = Some a2 ∧ paired b2 a2 ∧
    ChannelBinding ti' = ChannelBinding tr' ∧ ChannelBinding ti' ≠ None ∧
    Rw.written (conn_out ti') = Rw.written (conn_out ti) ++ chunk m1 ∧
    Rw.written (conn_out tr') = Rw.written (conn_out tr) ++ chunk m2 ∧
    stream (conn_in ti') = restI ∧ stream (conn_in tr') = restR.
Proof.
  destruct HNN as [(hi1 & hr1 & hi2 & hr2 & a1 & a2 & b1 & b2 & Hw1 & Hr1 & Hw2 & Hr2 &
    Hp1 & Hp2 & Hbind & Hne) Hs1 Hs2].
  destruct fuel as [|[|fuel]]; [lia..|].
  assert (Hb : (blen (hs_binding hi2) =? 0) = false).
  { apply Z.eqb_neq. destruct (hs_binding hi2) as [|x l]; [done|].
    rewrite blen_cons. pose proof (blen_nonneg l). lia. }
  destruct (sendChunk_ok m1 ti Hs1 HscI) as (ti1 & Ei1 & Hti1 & Hsci1 & Hwi1).
  assert (Hini1 : stream (conn_in ti1) = chunk m2 ++ restI) by by rewrite Hti1.
  destruct (recvChunk_ok m2 restI ti1 Hs2 Hini1) as (ti2 & Ei2 & Hti2 & Hini2).
  destruct (recvChunk_ok m1 restR tr Hs1 HinR) as (tr1 & Er1 & Htr1 & Hinr1).
  assert (Hscr1 : Rw.script (conn_out tr1) = []) by by rewrite Htr1.
  destruct (sendChunk_ok m2 tr1 Hs2 Hscr1) as (tr2 & Er2 & Htr2 & Hscr2 & Hwr2).
  eexists _, _, a1, a2, b1, b2.
  split.
  { unfold handshake, handshake_loop, mbind, ST_bind, st_try, st_get, st_modify. simpl.
    rewrite Hw1, Ei1. simpl. rewrite Ei2. simpl. rewrite Hr2. simpl. rewrite Hb. reflexivity. }
  split.
  { unfold handshake, handshake_loop, mbind, ST_bind, st_try, st_get, st_modify. simpl.
    rewrite Er1. simpl. rewrite Hr1. simpl. rewrite Hw2, Er2. simpl.
    rewrite <-Hbind, Hb. reflexivity. }
  unfold ChannelBinding. simpl. rewrite Hb.
  repeat split; try done.
  - rewrite Hti2. done.
  - rewrite Hwr2. rewrite Htr1. done.
  - rewrite Htr2. done.
Qed.

(** The two entry points agree on the prologue, ["mygosh v0 Noise_NN"] and the name of the
    cipher suite; with states that match for it, client and server complete with the
    same channel binding. *)
Lemma handshake_entry_points (NewHandshakeState : NoiseConfig → res HandshakeState) (hi hr : HandshakeState) (m1 m2 restI restR : bytes)
  (ti tr : Transport) (fuel : nat) :
  let prologue := String.list_byte_of_string "mygosh v0 Noise_NN " ++ cs_name in
  NewHandshakeState (MkNoiseConfig prologue true) = Ok hi → NewHandshakeState (MkNoiseConfig prologue false) = Ok hr →
  NN_exchange hi hr m1 m2 → (2 ≤ fuel)%nat → Rw.script (conn_out ti) = [] → Rw.script (conn_out tr) = [] →
  stream (conn_in ti) = chunk m2 ++ restI → stream (conn_in tr) = chunk m1 ++ restR →
  ∃ ti' tr', HandshakeClient NewHandshakeState fuel ti = (ti', Ok tt) ∧ HandshakeServer NewHandshakeState fuel tr = (tr', Ok tt) ∧
    ChannelBinding ti' = ChannelBinding tr' ∧ ChannelBinding ti' ≠ None.
Proof.
  intros prologue E1 E2 HNN Hf Hi Hr Hsi Hsr. unfold HandshakeClient, HandshakeServer, run_handshake.
  change (createConfig true) with (MkNoiseConfig prologue true). change (createConfig false) with (MkNoiseConfig prologue false). rewrite E1, E2.
  destruct (handshake_agreement hi hr m1 m2 restI restR ti tr fuel HNN Hf Hi Hr Hsi Hsr)
    as (ti' & tr' & ? & ? & ? & ? & H1 & H2 & _ & _ & _ & _ & _ & _ & H3 & H4 & _).
  by exists ti', tr'.
Qed.
End transport_props.

(** A model of the Noise library in which the hypotheses hold: ciphers that
    count their messages and prefix each frame with the counter. *)
#[local] Instance toy_noise : NoiseLib := {|
  CipherState := Z;
  HandshakeState := nat;
  cs_encrypt := λ n p, (n + 1, Ok (byte_of_Z n :: p));
  cs_decrypt := λ n c, match c with
    | b :: p => if bool_decide (b = byte_of_Z n) then (n + 1, Ok p) else (n, Err (NewError "decrypt"))
    | [] => (n, Err (NewError "decrypt")) end;
  hs_write := λ h, match h with
    | 0%nat => (1%nat, Ok ([x65], None, None))
    | _ => (5%nat, Ok ([x66], Some 0, Some 0)) end;
  hs_read := λ h m, match h with
    | 3%nat => (4%nat, Ok (None, None))
    | _ => (5%nat, Ok (Some 0, Some 0)) end;
  hs_binding := λ h, [x01; x02];
  cs_name := [];
|}.

#[local] Instance toy_pairs : NoisePairs.
Proof.
  refine {| paired := λ a b : CipherState, a = b |}.
  intros a b p a' c -> [= <- <-]. exists (b + 1). simpl.
  by rewrite bool_decide_eq_true_2.
Defined.

Definition toy_hi : @HandshakeState toy_noise := 0%nat.
Definition toy_hr : @HandshakeState toy_noise := 3%nat.

Definition toy_transport (w : Rw.writer) (r : Rw.reader) : Transport := MkTransport r w (Some 0) (Some 0) [].

Lemma transport_roundtrip_witness :
  ∃ tb', receive_frames 2 (toy_transport (Rw.Writer [] [])
            (Rw.Reader [[x00; x00; x00]; [x02; x00; x61; x00; x00; x00]; [x02; x01; x62; x7a]] io_EOF))
         = (tb', Ok [[x61]; [x62]]) ∧ stream (conn_in tb') = [x7a].
Proof.
  eapply (transport_roundtrip [[x61]; [x62]] (toy_transport (Rw.Writer [] [(1%nat, None)]) (Rw.Reader [] io_EOF))
           _ _ 0 0 [x00; x00; x00; x02; x00; x61; x00; x00; x00; x02; x01; x62] [x7a]);
    [vm_compute; reflexivity | reflexivity | reflexivity | reflexivity | vm_compute; reflexivity | reflexivity].
Defined.

Lemma handshake_agreement_witness :
  ∃ ti' tr' a1 a2 b1 b2,
    handshake 2 true toy_hi (MkTransport (Rw.Reader [chunk [x66]] io_EOF) (Rw.Writer [] []) None None []) = (ti', Ok tt) ∧
    handshake 2 false toy_hr (MkTransport (Rw.Reader [chunk [x65]] io_EOF) (Rw.Writer [] []) None None []) = (tr', Ok tt) ∧
    tx ti' = Some a1 ∧ rx tr' = Some b1 ∧ paired a1 b1 ∧
    tx tr' = Some b2 ∧ rx ti' = Some a2 ∧ paired b2 a2 ∧
    ChannelBinding ti' = ChannelBinding tr' ∧ ChannelBinding ti' ≠ None ∧
    Rw.written (conn_out ti') = [] ++ chunk [x65] ∧
    Rw.written (conn_out tr') = [] ++ chunk [x66] ∧
    stream (conn_in ti') = [] ∧ stream (conn_in tr') = [].
Proof.
  apply (handshake_agreement toy_hi toy_hr [x65] [x66] [] []
     (MkTransport (Rw.Reader [chunk [x66]] io_EOF) (Rw.Writer [] []) None None [])
     (MkTransport (Rw.Reader [chunk [x65]] io_EOF) (Rw.Writer [] []) None None []) 2);
    [ split; [ exists 1%nat, 4%nat, 5%nat, 5%nat, 0, 0, 0, 0; repeat split; discriminate
             | unfold blen, MaxPayloadSize; simpl; lia | unfold blen, MaxPayloadSize; simpl; lia ]
    | lia | reflexivity | reflexivity | reflexivity | reflexivity ].
Defined.
