(* ===== verification/SessionConfig.v ===== *)
(** * Session configuration (lib/session/config.go)

    Limits and timeouts of the multiplexer: defaults, the hard maxima and the
    validation [Prepare] runs.  [limits_ok] and [config_ok] say declaratively what
    a configuration must satisfy, and [Validate] is proved to decide exactly
    that. *)

From S2P Require Import Prelude.

(** Durations are nanoseconds. *)
Definition Millisecond : Z := 1000000.
Definition Second : Z := 1000 * Millisecond.

Definition defaultInitialWindow : Z := 256 * 1024.
Definition defaultMaxPacketSize : Z := 16 * 1024.
Definition defaultWindowAdjustTrigger : Z := 64 * 1024.
Definition defaultDisconnectTimeout : Z := 250 * Millisecond.
Definition defaultChannelCloseTimeout : Z := 5 * Second.

Definition hardMaxControlPayload : Z := 24576.

Record Limits := MkLimits {
  MaxChannels : Z;
  MaxPendingOpens : Z;
  MaxPendingChannelRequests : Z;
  MaxPendingChannelRequestsPerChannel : Z;
  MaxPendingGlobalRequests : Z;
  MaxQueuedFramesPerChannel : Z;
  MaxQueuedFramesTotal : Z;
  MaxQueuedBytesPerChannel : Z;
  MaxQueuedBytesTotal : Z;
  MaxControlPayload : Z;
  MaxTypeLength : Z;
  MaxCodeLength : Z;
  MaxMessageLength : Z;
}.

Definition or_default (v d : Z) : Z := if v =? 0 then d else v.

(** [Limits.withDefaults]; [1 << 20] is 1048576 and so on. *)
Definition limits_withDefaults (l : Limits) : Limits := {|
  MaxChannels := or_default (MaxChannels l) 64;
  MaxPendingOpens := or_default (MaxPendingOpens l) 32;
  MaxPendingChannelRequests := or_default (MaxPendingChannelRequests l) 1024;
  MaxPendingChannelRequestsPerChannel := or_default (MaxPendingChannelRequestsPerChannel l) 64;
  MaxPendingGlobalRequests := or_default (MaxPendingGlobalRequests l) 128;
  MaxQueuedFramesPerChannel := or_default (MaxQueuedFramesPerChannel l) 256;
  MaxQueuedFramesTotal := or_default (MaxQueuedFramesTotal l) 8192;
  MaxQueuedBytesPerChannel := or_default (MaxQueuedBytesPerChannel l) 1048576;
  MaxQueuedBytesTotal := or_default (MaxQueuedBytesTotal l) 16777216;
  MaxControlPayload := or_default (MaxControlPayload l) 16384;
  MaxTypeLength := or_default (MaxTypeLength l) 128;
  MaxCodeLength := or_default (MaxCodeLength l) 64;
  MaxMessageLength := or_default (MaxMessageLength l) 1024;
|}.

(** The closures [check32] and [check64]. *)
Definition check_bound (name : string) (value maximum : Z) : res unit :=
  if value =? 0 then Err (NewError (name +:+ " must be greater than zero"))
  else if maximum <? value then Err (NewError (name +:+ " exceeds hard maximum"))
  else Ok tt.

Fixpoint check_all (cs : list (string * Z * Z)) : res unit :=
  match cs with
  | [] => Ok tt
  | (name, value, maximum) :: cs => check_bound name value maximum ≫= λ _, check_all cs
  end.

Definition limits_Validate (l0 : Limits) : res unit :=
  let l := limits_withDefaults l0 in
  check_all [
    ("max channels", MaxChannels l, 1024);
    ("max pending opens", MaxPendingOpens l, 1024);
    ("max pending channel requests", MaxPendingChannelRequests l, 16384);
    ("max pending channel requests per channel", MaxPendingChannelRequestsPerChannel l, 1024);
    ("max pending global requests", MaxPendingGlobalRequests l, 2048);
    ("max queued frames per channel", MaxQueuedFramesPerChannel l, 4096);
    ("max queued frames total", MaxQueuedFramesTotal l, 65536);
    ("max control payload", MaxControlPayload l, hardMaxControlPayload);
    ("max type length", MaxTypeLength l, 256);
    ("max code length", MaxCodeLength l, 128);
    ("max message length", MaxMessageLength l, 4096)] ≫= λ _,
  check_bound "max queued bytes per channel" (MaxQueuedBytesPerChannel l) 8388608 ≫= λ _,
  check_bound "max queued bytes total" (MaxQueuedBytesTotal l) 67108864 ≫= λ _,
  reject_if (MaxChannels l <? MaxPendingOpens l)
    (NewError "max pending opens cannot exceed max channels") ≫= λ _,
  reject_if (MaxPendingChannelRequests l <? MaxPendingChannelRequestsPerChannel l)
    (NewError "per-channel pending request limit cannot exceed connection limit") ≫= λ _,
  reject_if (MaxQueuedFramesTotal l <? MaxQueuedFramesPerChannel l)
    (NewError "per-channel queued frame limit cannot exceed connection limit") ≫= λ _,
  reject_if (MaxQueuedBytesTotal l <? MaxQueuedBytesPerChannel l)
    (NewError "per-channel queued byte limit cannot exceed connection limit").

Record Config := MkConfig {
  InitialWindow : Z;
  MaxPacketSize : Z;
  WindowAdjustThreshold : Z;
  DisconnectTimeout : Z;
  ChannelCloseTimeout : Z;
  limits : Limits;
}.

Definition config_withDefaults (c : Config) : Config := {|
  InitialWindow := or_default (InitialWindow c) defaultInitialWindow;
  MaxPacketSize := or_default (MaxPacketSize c) defaultMaxPacketSize;
  WindowAdjustThreshold := or_default (WindowAdjustThreshold c) defaultWindowAdjustTrigger;
  DisconnectTimeout := or_default (DisconnectTimeout c) defaultDisconnectTimeout;
  ChannelCloseTimeout := or_default (ChannelCloseTimeout c) defaultChannelCloseTimeout;
  limits := limits_withDefaults (limits c);
|}.

Definition config_Validate (c0 : Config) : res unit :=
  let c := config_withDefaults c0 in
  reject_if (InitialWindow c =? 0) (NewError "initial window must be greater than zero") ≫= λ _,
  reject_if (MaxPacketSize c =? 0) (NewError "max packet size must be greater than zero") ≫= λ _,
  reject_if (InitialWindow c <? MaxPacketSize c)
    (NewError "max packet size exceeds initial window") ≫= λ _,
  reject_if (hardMaxControlPayload <? MaxPacketSize c)
    (NewError "max packet size exceeds protocol maximum") ≫= λ _,
  reject_if (WindowAdjustThreshold c =? 0)
    (NewError "window adjust threshold must be greater than zero") ≫= λ _,
  reject_if (InitialWindow c <? WindowAdjustThreshold c)
    (NewError "window adjust threshold exceeds initial window") ≫= λ _,
  reject_if (InitialWindow c =? MaxUint32)
    (NewError "initial window must be less than max uint32") ≫= λ _,
  reject_if (DisconnectTimeout c <? 0)
    (NewError "disconnect timeout must be non-negative") ≫= λ _,
  reject_if (ChannelCloseTimeout c <=? 0)
    (NewError "channel close timeout must be greater than zero") ≫= λ _,
  wrap_err "validate session limits" (limits_Validate (limits c)) ≫= λ _,
  reject_if (MaxQueuedBytesPerChannel (limits c) <? MaxPacketSize c)
    (NewError "max packet size cannot exceed per-channel queued byte limit") ≫= λ _,
  reject_if (MaxQueuedBytesTotal (limits c) <? MaxPacketSize c)
    (NewError "max packet size cannot exceed total queued byte limit") ≫= λ _,
  reject_if (MaxQueuedBytesTotal (limits c) <? MaxControlPayload (limits c))
    (NewError "max control payload cannot exceed total queued byte limit").

(** ** What a usable configuration satisfies *)

Definition limits_ok (l : Limits) : Prop :=
  0 < MaxChannels l <= 1024 ∧
  0 < MaxPendingOpens l <= 1024 ∧
  0 < MaxPendingChannelRequests l <= 16384 ∧
  0 < MaxPendingChannelRequestsPerChannel l <= 1024 ∧
  0 < MaxPendingGlobalRequests l <= 2048 ∧
  0 < MaxQueuedFramesPerChannel l <= 4096 ∧
  0 < MaxQueuedFramesTotal l <= 65536 ∧
  0 < MaxControlPayload l <= hardMaxControlPayload ∧
  0 < MaxTypeLength l <= 256 ∧
  0 < MaxCodeLength l <= 128 ∧
  0 < MaxMessageLength l <= 4096 ∧
  0 < MaxQueuedBytesPerChannel l <= 8388608 ∧
  0 < MaxQueuedBytesTotal l <= 67108864 ∧
  MaxPendingOpens l <= MaxChannels l ∧
  MaxPendingChannelRequestsPerChannel l <= MaxPendingChannelRequests l ∧
  MaxQueuedFramesPerChannel l <= MaxQueuedFramesTotal l ∧
  MaxQueuedBytesPerChannel l <= MaxQueuedBytesTotal l.

Definition config_ok (c : Config) : Prop :=
  0 < MaxPacketSize c <= hardMaxControlPayload ∧
  MaxPacketSize c <= InitialWindow c ∧
  InitialWindow c < MaxUint32 ∧
  0 < WindowAdjustThreshold c <= InitialWindow c ∧
  0 <= DisconnectTimeout c ∧
  0 < ChannelCloseTimeout c ∧
  limits_ok (limits c) ∧
  MaxPacketSize c <= MaxQueuedBytesPerChannel (limits c) ∧
  MaxControlPayload (limits c) <= MaxQueuedBytesTotal (limits c).

(** The field types: uint32, uint64 and int64. *)
Definition limits_typed (l : Limits) : Prop :=
  Forall is_u32 [MaxChannels l; MaxPendingOpens l; MaxPendingChannelRequests l;
    MaxPendingChannelRequestsPerChannel l; MaxPendingGlobalRequests l;
    MaxQueuedFramesPerChannel l; MaxQueuedFramesTotal l; MaxControlPayload l;
    MaxTypeLength l; MaxCodeLength l; MaxMessageLength l] ∧
  Forall is_u64 [MaxQueuedBytesPerChannel l; MaxQueuedBytesTotal l].

Definition config_typed (c : Config) : Prop :=
  Forall is_u32 [InitialWindow c; MaxPacketSize c; WindowAdjustThreshold c] ∧ limits_typed (limits c).

Lemma or_default_idem v d : d ≠ 0 → or_default (or_default v d) d = or_default v d.
Proof. intros. unfold or_default. destruct (Z.eqb_spec v 0), (Z.eqb_spec d 0); try done.
  by destruct (Z.eqb_spec v 0). Qed.

Lemma limits_withDefaults_idem l :
  limits_withDefaults (limits_withDefaults l) = limits_withDefaults l.
Proof. unfold limits_withDefaults; simpl. by rewrite !or_default_idem. Qed.

Lemma config_withDefaults_idem c :
  config_withDefaults (config_withDefaults c) = config_withDefaults c.
Proof.
  unfold config_withDefaults; simpl. rewrite limits_withDefaults_idem.
  by rewrite !or_default_idem.
Qed.

Lemma check_bound_ok name v m u : 0 <= v → check_bound name v m = Ok u ↔ 0 < v <= m.
Proof.
  intros Hv. unfold check_bound. destruct u.
  destruct (Z.eqb_spec v 0); [split; [done|lia]|].
  destruct (Z.ltb_spec m v); split; done || lia.
Qed.

Lemma check_all_ok cs u :
  Forall (λ c, 0 <= c.1.2) cs → check_all cs = Ok u ↔ Forall (λ c, 0 < c.1.2 <= c.2) cs.
Proof.
  intros Hcs. destruct u. induction cs as [|[[n v] m] cs IH]; simpl; [done|].
  apply Forall_cons in Hcs as [Hv Hcs]. simpl in Hv. rewrite res_bind_ok, Forall_cons, <-IH by done.
  simpl. split.
  - intros ([] & Hb & ?). by rewrite check_bound_ok in Hb.
  - intros [Hb ?]. exists tt. by rewrite check_bound_ok.
Qed.

Lemma or_default_nonneg v d : 0 <= v → 0 <= d → 0 <= or_default v d.
Proof. unfold or_default. by destruct (v =? 0). Qed.

Lemma typed_nonneg l : limits_typed l → Forall (λ v, 0 <= v)
  [MaxChannels l; MaxPendingOpens l; MaxPendingChannelRequests l;
   MaxPendingChannelRequestsPerChannel l; MaxPendingGlobalRequests l;
   MaxQueuedFramesPerChannel l; MaxQueuedFramesTotal l; MaxControlPayload l;
   MaxTypeLength l; MaxCodeLength l; MaxMessageLength l; MaxQueuedBytesPerChannel l;
   MaxQueuedBytesTotal l].
Proof.
  intros [H1 H2]. apply (Forall_app _ [_;_;_;_;_;_;_;_;_;_;_] [_;_]); split.
  - eapply Forall_impl; [exact H1|]. unfold is_u32. lia.
  - eapply Forall_impl; [exact H2|]. unfold is_u64. lia.
Qed.

Arguments check_all : simpl never.

Lemma limits_Validate_iff l :
  limits_typed l → limits_Validate l = Ok tt ↔ limits_ok (limits_withDefaults l).
Proof.
  intros Ht. apply typed_nonneg in Ht. decompose_Forall_hyps.
  unfold limits_Validate, limits_ok. remember (limits_withDefaults l) as d eqn:Hd.
  assert (Hn : Forall (λ v, 0 <= v)
    [MaxChannels d; MaxPendingOpens d; MaxPendingChannelRequests d;
     MaxPendingChannelRequestsPerChannel d; MaxPendingGlobalRequests d;
     MaxQueuedFramesPerChannel d; MaxQueuedFramesTotal d; MaxControlPayload d;
     MaxTypeLength d; MaxCodeLength d; MaxMessageLength d; MaxQueuedBytesPerChannel d;
     MaxQueuedBytesTotal d]).
  { subst d. repeat constructor; simpl; apply or_default_nonneg; done. }
  clear Hd. decompose_Forall_hyps.
  rewrite res_bind_ok. split.
  - intros ([] & Hall & H'). apply check_all_ok in Hall; [|repeat constructor; done].
    decompose_Forall_hyps. res_inv. rewrite check_bound_ok in * by done. bool_simp. repeat split; lia.
  - intros. destruct_and!. exists tt.
    split; [apply check_all_ok; repeat constructor; simpl; lia|].
    rewrite !res_bind_ok. exists tt. rewrite check_bound_ok by done. split; [lia|].
    rewrite !res_bind_ok. exists tt. rewrite check_bound_ok by done. split; [lia|].
    rewrite !reject_if_then, reject_if_ok, !Z.ltb_ge. lia.
Qed.

(** C35: [Config.Validate] accepts exactly the configurations that, with the
    defaults filled in, respect every hard maximum and every relation between the
    limits. *)
Theorem config_Validate_iff (c : Config) (Hc : config_typed c) :
  config_Validate c = Ok tt ↔ config_ok (config_withDefaults c).
Proof.
  destruct Hc as [Hw Hl].
  pose proof (limits_Validate_iff (limits (config_withDefaults c))) as HL.
  simpl in HL. rewrite limits_withDefaults_idem in HL.
  assert (Hl' : limits_typed (limits_withDefaults (limits c))).
  { destruct Hl as [Hl1 Hl2]. decompose_Forall_hyps. unfold is_u32, is_u64, MaxUint32, MaxUint64 in *.
    split; repeat (apply Forall_cons_2; [simpl; unfold is_u32, is_u64, MaxUint32, MaxUint64, or_default; case_match; bool_simp;
      unfold hardMaxControlPayload in *; lia|]); apply Forall_nil_2. }
  specialize (HL Hl').
  assert (0 <= InitialWindow (config_withDefaults c) <= MaxUint32 ∧
          0 <= MaxPacketSize (config_withDefaults c) ∧
          0 <= WindowAdjustThreshold (config_withDefaults c)) as (? & ? & ?).
  { decompose_Forall_hyps. simpl. unfold is_u32 in *. repeat split; unfold or_default; case_match; bool_simp;
      unfold MaxUint32, defaultInitialWindow, defaultMaxPacketSize, defaultWindowAdjustTrigger in *; lia. }
  unfold config_Validate, config_ok. change (limits (config_withDefaults c)) with (limits_withDefaults (limits c)) in *.
  remember (config_withDefaults c) as d eqn:Hd. clear Hd.
  rewrite !reject_if_then. rewrite res_bind_ok.
  unfold wrap_err. split.
  - intros. destruct_and!. match goal with H : ∃ _, _ |- _ => destruct H as (u & Hu & Hrest) end.
    destruct (limits_Validate _) as [[]|] eqn:E0; [|done]. pose proof (proj1 HL eq_refl) as E.
    res_inv. bool_simp. destruct E. destruct_and!. repeat split; try lia.
  - intros. destruct_and!. rewrite !Z.eqb_neq, !Z.ltb_ge, Z.leb_gt.
    match goal with H : limits_ok _ |- _ => pose proof (proj2 HL H) as E; unfold limits_ok in H end.
    destruct_and!. rewrite E.
    repeat (split; [lia|]). exists tt. split; [done|].
    rewrite !reject_if_then, reject_if_ok, !Z.ltb_ge. lia.
Qed.

Definition zero_limits : Limits := MkLimits 0 0 0 0 0 0 0 0 0 0 0 0 0.
Definition zero_config : Config := MkConfig 0 0 0 0 0 zero_limits.

Lemma zero_config_typed : config_typed zero_config.
Proof. repeat constructor; unfold is_u32, is_u64, MaxUint32, MaxUint64; simpl; lia. Qed.

Lemma config_Validate_iff_witness :
  config_Validate zero_config = Ok tt ↔ config_ok (config_withDefaults zero_config).
Proof. apply (config_Validate_iff zero_config). apply zero_config_typed. Defined.
