(* ===== verification/SessionTypes.v ===== *)
(** * The session multiplexer: data

    The messages of [lib/session/sessionpb] that the code reads and writes, the
    [Channel], [outboundWrite] and [Session] structs of
    [lib/session/{session,channel}.go], and the control states of the
    goroutines.

    A Go pointer to a channel is its local id: [s_store] holds every channel
    object ever created, [s_channels] the ids in the session's table.  A Go
    [chan] of capacity one is an optional value; the bounded queues are lists
    whose capacity is checked at the send.  The mutexes do not appear: an
    operation is one atomic step up to the next point where the code blocks or
    calls back, and a blocked goroutine is a value of [Thread]. *)

From S2P Require Import Prelude SessionConfig.

(** ** Messages *)

Record ChannelOpen := MkChannelOpen {
  co_ChannelType : string;
  co_SenderChannelId : Z;
  co_InitialWindow : Z;
  co_MaxPacketSize : Z;
  co_Payload : bytes;
}.

Inductive OpenResult :=
  | OpenSuccess (senderChannelId initialWindow maxPacketSize : Z) (payload : bytes)
  | OpenReject (code message : string) (payload : bytes)
  | OpenNone.

Inductive OpResult :=
  | OpSuccess (payload : bytes)
  | OpReject (code message : string) (payload : bytes)
  | OpNone.

(** The [ChannelRequest] message and the [GlobalRequest] message. *)
Record ChannelRequest := MkChannelRequest {
  cr_RecipientChannelId : Z;
  cr_RequestId : Z;
  cr_RequestType : string;
  cr_WantReply : bool;
  cr_Payload : bytes;
}.

Record GlobalRequest := MkGlobalRequest {
  gr_RequestId : Z;
  gr_RequestType : string;
  gr_WantReply : bool;
  gr_Payload : bytes;
}.

(** The [Kind] of an envelope; [None] is a nil message, for which the handlers
    have a branch.  A nil [ChannelEof] or [ChannelClose] reads as id 0. *)
Inductive Envelope :=
  | EChannelOpen (m : option ChannelOpen)
  | EChannelOpenResult (m : option (Z * OpenResult))
  | EChannelData (m : option (Z * bytes))
  | EChannelWindowAdjust (m : option (Z * Z))
  | EChannelEof (recipientChannelId : Z)
  | EChannelClose (recipientChannelId : Z)
  | EChannelRequest (m : option ChannelRequest)
  | EChannelResult (m : option (Z * Z * OpResult))
  | EGlobalRequest (m : option GlobalRequest)
  | EGlobalResult (m : option (Z * OpResult))
  | EDisconnect (m : option (string * string))
  | EUnknown.

(** [proto.Size] of the protobuf runtime, which is not part of the repository. *)
Class ProtoSize := {
  size_envelope : Envelope → Z;
  size_open : ChannelOpen → Z;
  size_global : GlobalRequest → Z;
  size_request : ChannelRequest → Z;
}.

(** What the code relies on: a size is a non-negative [int], so the conversion
    to [uint64] is exact. *)
Class ProtoSizeLaws `{ProtoSize} := {
  size_envelope_nonneg e : 0 <= size_envelope e;
  size_open_nonneg m : 0 <= size_open m;
  size_global_nonneg m : 0 <= size_global m;
  size_request_nonneg m : 0 <= size_request m;
}.

(** ** Handlers *)

(** [ChannelResponse] and [GlobalResponse], which have the same fields. *)
Record Response := MkResponse {
  r_OK : bool;
  r_Payload : bytes;
  r_Code : string;
  r_Message : string;
}.

(** A handler is either the caller's object, whose answers come from outside,
    or the default of [handler.go] that rejects everything. *)
Inductive HandlerRef := UserHandler | RejectAll.

Record ChannelOpenDecision := MkDecision {
  d_OK : bool;
  d_Payload : bytes;
  d_Code : string;
  d_Message : string;
  d_Handler : option HandlerRef;
}.

Definition normalizeHandler (h : option HandlerRef) : HandlerRef :=
  match h with None => RejectAll | Some h => h end.

Definition normalizeChannelHandler (h : option HandlerRef) : HandlerRef :=
  match h with None => RejectAll | Some h => h end.

(** The answer of a handler: the environment's, or the fixed rejection. *)
Definition OnChannelOpen (h : HandlerRef) (env : ChannelOpenDecision) : ChannelOpenDecision :=
  match h with
  | UserHandler => env
  | RejectAll => MkDecision false [] "unsupported-channel-open"
                   "incoming channel opens are not supported" None
  end.

Definition OnGlobalRequest (h : HandlerRef) (env : Response) : Response :=
  match h with
  | UserHandler => env
  | RejectAll => MkResponse false [] "unsupported-global-request"
                   "global requests are not supported"
  end.

Definition OnRequest (h : HandlerRef) (env : Response) : Response :=
  match h with
  | UserHandler => env
  | RejectAll => MkResponse false [] "unsupported-channel-request"
                   "channel requests are not supported"
  end.

(** ** Channels *)

Inductive channelState :=
  | channelOpening | channelOpen | channelLocalEOF | channelRemoteEOF
  | channelBothEOF | channelClosing | channelClosed | channelFailed.

#[export] Instance channelState_eq_dec : EqDecision channelState.
Proof. solve_decision. Defined.

Definition allowsRequests (st : channelState) : bool :=
  match st with
  | channelOpen | channelLocalEOF | channelRemoteEOF | channelBothEOF => true
  | _ => false
  end.

Definition canSendData (st : channelState) : bool :=
  bool_decide (st = channelOpen) || bool_decide (st = channelRemoteEOF).

Definition canReceiveData (st : channelState) : bool :=
  bool_decide (st = channelOpen) || bool_decide (st = channelLocalEOF).

Definition readEOF (st : channelState) : bool :=
  match st with
  | channelRemoteEOF | channelBothEOF | channelClosing | channelClosed => true
  | _ => false
  end.

Inductive channelSlot := channelSlotNone | channelSlotPending | channelSlotActive.

#[export] Instance channelSlot_eq_dec : EqDecision channelSlot.
Proof. solve_decision. Defined.

Inductive channelEvent :=
  | EventRequest (request : ChannelRequest) (size : Z)
  | EventEOF
  | EventClose.

(** [event.size]: the EOF and close events are charged one byte. *)
Definition event_size (e : channelEvent) : Z :=
  match e with EventRequest _ n => n | EventEOF => 1 | EventClose => 1 end.

(** Where a channel's [loop] goroutine is. *)
Inductive Worker :=
  | WkNone
  | WkActivation
  | WkOnOpen
  | WkIdle
  | WkRequest (msg : ChannelRequest)
  | WkBlocked
  | WkOnClose (cancelNow : bool)
  | WkExited.

Record Channel := MkChannel {
  ch_peerID : Z;
  ch_typ : string;
  ch_slot : channelSlot;
  ch_ctx : option error;
  ch_state : channelState;
  ch_openWait : bool;
  ch_openResult : option (option error);
  ch_localWindow : Z;
  ch_remoteWindow : Z;
  ch_maxLocalPacket : Z;
  ch_maxRemotePacket : Z;
  ch_pendingWindowBytes : Z;
  ch_nextRequestID : Z;
  ch_pendingRequests : gset Z;
  ch_replies : gmap Z (res Response);
  ch_incomingRequestIDs : gset Z;
  ch_frames : list bytes;
  ch_queuedFrames : Z;
  ch_queuedBytes : Z;
  ch_sessionErr : option error;
  ch_handler : HandlerRef;
  ch_stateGen : Z;
  ch_events : list channelEvent;
  ch_worker : Worker;
  ch_closeTimer : bool;
}.

Definition eta_Channel (c : Channel) : Channel :=
  MkChannel (ch_peerID c) (ch_typ c) (ch_slot c) (ch_ctx c) (ch_state c) (ch_openWait c)
    (ch_openResult c) (ch_localWindow c) (ch_remoteWindow c) (ch_maxLocalPacket c)
    (ch_maxRemotePacket c) (ch_pendingWindowBytes c) (ch_nextRequestID c)
    (ch_pendingRequests c) (ch_replies c) (ch_incomingRequestIDs c) (ch_frames c)
    (ch_queuedFrames c) (ch_queuedBytes c) (ch_sessionErr c) (ch_handler c)
    (ch_stateGen c) (ch_events c) (ch_worker c) (ch_closeTimer c).

#[export] Instance set_ch_peerID : Setter ch_peerID := ltac:(derive_setter eta_Channel).
#[export] Instance set_ch_slot : Setter ch_slot := ltac:(derive_setter eta_Channel).
#[export] Instance set_ch_ctx : Setter ch_ctx := ltac:(derive_setter eta_Channel).
#[export] Instance set_ch_state : Setter ch_state := ltac:(derive_setter eta_Channel).
#[export] Instance set_ch_openWait : Setter ch_openWait := ltac:(derive_setter eta_Channel).
#[export] Instance set_ch_openResult : Setter ch_openResult := ltac:(derive_setter eta_Channel).
#[export] Instance set_ch_localWindow : Setter ch_localWindow := ltac:(derive_setter eta_Channel).
#[export] Instance set_ch_remoteWindow : Setter ch_remoteWindow := ltac:(derive_setter eta_Channel).
#[export] Instance set_ch_maxLocalPacket : Setter ch_maxLocalPacket := ltac:(derive_setter eta_Channel).
#[export] Instance set_ch_maxRemotePacket : Setter ch_maxRemotePacket := ltac:(derive_setter eta_Channel).
#[export] Instance set_ch_pendingWindowBytes : Setter ch_pendingWindowBytes := ltac:(derive_setter eta_Channel).
#[export] Instance set_ch_nextRequestID : Setter ch_nextRequestID := ltac:(derive_setter eta_Channel).
#[export] Instance set_ch_pendingRequests : Setter ch_pendingRequests := ltac:(derive_setter eta_Channel).
#[export] Instance set_ch_replies : Setter ch_replies := ltac:(derive_setter eta_Channel).
#[export] Instance set_ch_incomingRequestIDs : Setter ch_incomingRequestIDs := ltac:(derive_setter eta_Channel).
#[export] Instance set_ch_frames : Setter ch_frames := ltac:(derive_setter eta_Channel).
#[export] Instance set_ch_queuedFrames : Setter ch_queuedFrames := ltac:(derive_setter eta_Channel).
#[export] Instance set_ch_queuedBytes : Setter ch_queuedBytes := ltac:(derive_setter eta_Channel).
#[export] Instance set_ch_sessionErr : Setter ch_sessionErr := ltac:(derive_setter eta_Channel).
#[export] Instance set_ch_handler : Setter ch_handler := ltac:(derive_setter eta_Channel).
#[export] Instance set_ch_stateGen : Setter ch_stateGen := ltac:(derive_setter eta_Channel).
#[export] Instance set_ch_events : Setter ch_events := ltac:(derive_setter eta_Channel).
#[export] Instance set_ch_worker : Setter ch_worker := ltac:(derive_setter eta_Channel).
#[export] Instance set_ch_closeTimer : Setter ch_closeTimer := ltac:(derive_setter eta_Channel).

(** ** Outbound writes and goroutines *)

(** The callbacks that the code passes as [after]. *)
Inductive After :=
  | AfterNone
  | AfterStartWorker (ch : Z)
  | AfterFinishGlobal (requestID : Z)
  | AfterFinishRequest (ch requestID : Z).

Inductive writeState := writeQueued | writeStarted | writeCanceled | writeDone.

#[export] Instance writeState_eq_dec : EqDecision writeState.
Proof. solve_decision. Defined.

(** [w_control] records which queue the write was put on. *)
Record outboundWrite := MkWrite {
  w_envelope : Envelope;
  w_control : bool;
  w_wantResult : bool;
  w_result : option (option error);
  w_after : After;
  w_size : Z;
  w_state : writeState;
}.

Definition eta_write (w : outboundWrite) : outboundWrite :=
  MkWrite (w_envelope w) (w_control w) (w_wantResult w) (w_result w) (w_after w) (w_size w) (w_state w).

#[export] Instance set_w_result : Setter w_result := ltac:(derive_setter eta_write).
#[export] Instance set_w_state : Setter w_state := ltac:(derive_setter eta_write).

Inductive dispatchTask :=
  | dispatchChannelOpen (message : ChannelOpen)
  | dispatchGlobalRequest (message : GlobalRequest).

Definition task_size `{ProtoSize} (t : dispatchTask) : Z :=
  match t with
  | dispatchChannelOpen m => size_open m
  | dispatchGlobalRequest m => size_global m
  end.

(** The context a call was made with. *)
Inductive CtxRef := CtxUser | CtxBackground | CtxSession | CtxChannel (ch : Z).

(** What is left to do once a blocking [sendEnvelope] returns, one constructor
    per call site. *)
Inductive Cont :=
  | KOpenChannel (ch : Z)
  | KSendGlobalRequest (requestID : Z) (wantReply : bool)
  | KSend (ch : Z) (size : Z)
  | KRecv (frame : bytes)
  | KSendRequest (ch requestID : Z) (wantReply : bool)
  | KCloseWrite (ch : Z) (previous : channelState)
  | KHandleChannelOpen (ch : Z)
  | KChannelOpenReject
  | KHandleGlobalRequest (requestID : Z)
  | KHandleRequest (ch requestID : Z).

Inductive Outcome :=
  | RetUnit (r : res unit)
  | RetChannel (r : res Z)
  | RetResponse (r : res (option Response))
  | RetFrame (r : res bytes).

(** A goroutine between two steps: about to enter [sendEnvelopeAfter], in its
    [select], holding its result, waiting for a reply, or returned. *)
Inductive Thread :=
  | TSend (ctx : CtxRef) (frame : Envelope) (after : After) (k : Cont)
  | TWait (ctx : CtxRef) (w : Z) (k : Cont)
  | TCont (err : option error) (k : Cont)
  | TOpenWait (ch : Z)
  | TGlobalWait (requestID : Z)
  | TRequestWait (ch requestID : Z)
  | TDone (o : Outcome).

Inductive Receiver := RcvActivation | RcvRunning | RcvExited.

Inductive Dispatcher :=
  | DspActivation
  | DspIdle
  | DspChannelOpen (msg : ChannelOpen) (ch : Z)
  | DspGlobalRequest (msg : GlobalRequest)
  | DspBlocked
  | DspExited.

(** [controlNil] and [outboundNil] are the loop's local queue variables. *)
Inductive Writer :=
  | WrActivation
  | WrIdle
  | WrSelect
  | WrSending (w : Z)
  | WrExited.

(** A [go s.shutdown(err)]: the callback on the parent context, or the branch of
    [enqueueWrite] for a full queue. *)
Inductive SpawnedShutdown := FromParent (err : error) | FromFullQueue (err : error).

Definition spawned_error (g : SpawnedShutdown) : error :=
  match g with FromParent e | FromFullQueue e => e end.

(** ** The session

    [s_ctx] is the cause of the session's context, [s_finalize] the argument of
    the [finalize] goroutine once started, [s_spawned] the arguments of the
    [go s.shutdown(err)] goroutines not yet run, and [s_sent] the log of the
    writes that [wire.SendProto] accepted. *)

Record Session := MkSession {
  s_config : Config;
  s_handler : HandlerRef;
  s_ctx : option error;
  s_nextLocalChannelID : Z;
  s_store : gmap Z Channel;
  s_channels : gset Z;
  s_peerChannelIDs : gmap Z Z;
  s_activeChannels : Z;
  s_pendingOpens : Z;
  s_nextGlobalRequestID : Z;
  s_pendingGlobal : gset Z;
  s_globalReplies : gmap Z (res Response);
  s_incomingGlobalRequests : gset Z;
  s_pendingChannelRequests : Z;
  s_waitErr : option error;
  s_closeErr : option error;
  s_closing : bool;
  s_queuedFrames : Z;
  s_queuedBytes : Z;
  s_queuesClosed : bool;
  s_dispatchQueue : list dispatchTask;
  s_controlQueue : list Z;
  s_outboundQueue : list Z;
  s_writes : gmap Z outboundWrite;
  s_nextWrite : Z;
  s_activated : bool;
  s_done : bool;
  s_writerDone : bool;
  s_wg : Z;
  s_shutdownOnce : bool;
  s_connClosed : bool;
  s_finalize : option (option error);
  s_spawned : list SpawnedShutdown;
  s_receiver : Receiver;
  s_dispatcher : Dispatcher;
  s_writer : Writer;
  s_controlNil : bool;
  s_outboundNil : bool;
  s_threads : gmap Z Thread;
  s_nextThread : Z;
  s_sent : list (Z * Envelope);
}.

Definition eta_Session (s : Session) : Session :=
  MkSession (s_config s) (s_handler s) (s_ctx s) (s_nextLocalChannelID s) (s_store s)
    (s_channels s) (s_peerChannelIDs s) (s_activeChannels s) (s_pendingOpens s)
    (s_nextGlobalRequestID s) (s_pendingGlobal s) (s_globalReplies s)
    (s_incomingGlobalRequests s) (s_pendingChannelRequests s) (s_waitErr s)
    (s_closeErr s) (s_closing s) (s_queuedFrames s) (s_queuedBytes s)
    (s_queuesClosed s) (s_dispatchQueue s) (s_controlQueue s) (s_outboundQueue s)
    (s_writes s) (s_nextWrite s) (s_activated s) (s_done s) (s_writerDone s) (s_wg s)
    (s_shutdownOnce s) (s_connClosed s) (s_finalize s) (s_spawned s) (s_receiver s)
    (s_dispatcher s) (s_writer s) (s_controlNil s) (s_outboundNil s) (s_threads s)
    (s_nextThread s) (s_sent s).

#[export] Instance set_s_ctx : Setter s_ctx := ltac:(derive_setter eta_Session).
#[export] Instance set_s_nextLocalChannelID : Setter s_nextLocalChannelID := ltac:(derive_setter eta_Session).
#[export] Instance set_s_store : Setter s_store := ltac:(derive_setter eta_Session).
#[export] Instance set_s_channels : Setter s_channels := ltac:(derive_setter eta_Session).
#[export] Instance set_s_peerChannelIDs : Setter s_peerChannelIDs := ltac:(derive_setter eta_Session).
#[export] Instance set_s_activeChannels : Setter s_activeChannels := ltac:(derive_setter eta_Session).
#[export] Instance set_s_pendingOpens : Setter s_pendingOpens := ltac:(derive_setter eta_Session).
#[export] Instance set_s_nextGlobalRequestID : Setter s_nextGlobalRequestID := ltac:(derive_setter eta_Session).
#[export] Instance set_s_pendingGlobal : Setter s_pendingGlobal := ltac:(derive_setter eta_Session).
#[export] Instance set_s_globalReplies : Setter s_globalReplies := ltac:(derive_setter eta_Session).
#[export] Instance set_s_incomingGlobalRequests : Setter s_incomingGlobalRequests := ltac:(derive_setter eta_Session).
#[export] Instance set_s_pendingChannelRequests : Setter s_pendingChannelRequests := ltac:(derive_setter eta_Session).
#[export] Instance set_s_waitErr : Setter s_waitErr := ltac:(derive_setter eta_Session).
#[export] Instance set_s_closeErr : Setter s_closeErr := ltac:(derive_setter eta_Session).
#[export] Instance set_s_closing : Setter s_closing := ltac:(derive_setter eta_Session).
#[export] Instance set_s_queuedFrames : Setter s_queuedFrames := ltac:(derive_setter eta_Session).
#[export] Instance set_s_queuedBytes : Setter s_queuedBytes := ltac:(derive_setter eta_Session).
#[export] Instance set_s_queuesClosed : Setter s_queuesClosed := ltac:(derive_setter eta_Session).
#[export] Instance set_s_dispatchQueue : Setter s_dispatchQueue := ltac:(derive_setter eta_Session).
#[export] Instance set_s_controlQueue : Setter s_controlQueue := ltac:(derive_setter eta_Session).
#[export] Instance set_s_outboundQueue : Setter s_outboundQueue := ltac:(derive_setter eta_Session).
#[export] Instance set_s_writes : Setter s_writes := ltac:(derive_setter eta_Session).
#[export] Instance set_s_nextWrite : Setter s_nextWrite := ltac:(derive_setter eta_Session).
#[export] Instance set_s_activated : Setter s_activated := ltac:(derive_setter eta_Session).
#[export] Instance set_s_done : Setter s_done := ltac:(derive_setter eta_Session).
#[export] Instance set_s_writerDone : Setter s_writerDone := ltac:(derive_setter eta_Session).
#[export] Instance set_s_wg : Setter s_wg := ltac:(derive_setter eta_Session).
#[export] Instance set_s_shutdownOnce : Setter s_shutdownOnce := ltac:(derive_setter eta_Session).
#[export] Instance set_s_connClosed : Setter s_connClosed := ltac:(derive_setter eta_Session).
#[export] Instance set_s_finalize : Setter s_finalize := ltac:(derive_setter eta_Session).
#[export] Instance set_s_spawned : Setter s_spawned := ltac:(derive_setter eta_Session).
#[export] Instance set_s_receiver : Setter s_receiver := ltac:(derive_setter eta_Session).
#[export] Instance set_s_dispatcher : Setter s_dispatcher := ltac:(derive_setter eta_Session).
#[export] Instance set_s_writer : Setter s_writer := ltac:(derive_setter eta_Session).
#[export] Instance set_s_controlNil : Setter s_controlNil := ltac:(derive_setter eta_Session).
#[export] Instance set_s_outboundNil : Setter s_outboundNil := ltac:(derive_setter eta_Session).
#[export] Instance set_s_threads : Setter s_threads := ltac:(derive_setter eta_Session).
#[export] Instance set_s_nextThread : Setter s_nextThread := ltac:(derive_setter eta_Session).
#[export] Instance set_s_sent : Setter s_sent := ltac:(derive_setter eta_Session).
