(* ===== verification/SessionOps.v ===== *)
(** * The session multiplexer: operations

    Every operation of [lib/session/session.go] and [lib/session/channel.go],
    in the order of use.  A computation of type [M A] runs until it returns or
    reaches a point where the Go code blocks; from there a [Thread] carries its
    continuation ([Cont]). *)

From S2P Require Import Prelude SessionConfig SessionTypes.

Abbreviation M := (ST Session).

Definition errSessionNotActive : error := Sentinel "session not active".
Definition errSessionClosed : error := Sentinel "session closed".
Definition errChannelClosed : error := Sentinel "channel closed".
Definition errChannelWriteEOF : error := Sentinel "channel write side closed".
Definition errResourceLimit : error := Sentinel "session resource limit reached".

Section ops.
Context `{ProtoSize}.

(** ** Channel objects and contexts *)

Definition dummy_channel : Channel :=
  MkChannel 0 "" channelSlotNone None channelFailed false None 0 0 0 0 0 0 ∅ ∅ ∅ [] 0 0
    None RejectAll 0 [] WkNone false.

(** Dereferencing a channel pointer. *)
Definition chan (s : Session) (id : Z) : Channel := default dummy_channel (s_store s !! id).

Lemma chan_lookup s id c : s_store s !! id = Some c → chan s id = c.
Proof. unfold chan. by intros ->. Qed.

Definition chan_get (id : Z) : M Channel := s ← st_get; mret (chan s id).
Definition chan_mod (id : Z) (f : Channel → Channel) : M unit :=
  st_modify (λ s, s <| s_store ::= alter f id |>).

(** [context.Cause(ch.ctx)]: the channel's own cause, or the session's, which
    the derived context inherits. *)
Definition ch_cause (s : Session) (c : Channel) : option error :=
  match ch_ctx c with Some e => Some e | None => s_ctx s end.

(** [ch.cancel(e)]: the first cause wins. *)
Definition chan_cancel (id : Z) (e : error) : M unit :=
  st_modify (λ s, match ch_cause s (chan s id) with
                  | Some _ => s
                  | None => s <| s_store ::= alter (λ c, c <| ch_ctx := Some e |>) id |>
                  end).

Definition session_cancel (e : error) : M unit :=
  st_modify (λ s, match s_ctx s with Some _ => s | None => s <| s_ctx := Some e |> end).

(** [signalLocked]: the generation number stands for the identity of the
    [stateCh] channel, which is closed and replaced. *)
Definition signalLocked (c : Channel) : Channel := c <| ch_stateGen ::= Z.succ |>.

(** Effects of the locked sections on the channel. *)
Definition set_state (st : channelState) (c : Channel) : Channel :=
  signalLocked (c <| ch_state := st |>).

(** [Send] takes its bytes from the peer's window; an error gives them back. *)
Definition take_window (size : Z) (c : Channel) : Channel :=
  c <| ch_remoteWindow := ch_remoteWindow c - size |>.

Definition add_window (size : Z) (c : Channel) : Channel :=
  signalLocked (c <| ch_remoteWindow := ch_remoteWindow c + size |>).

(** Data arrived: it leaves our window and waits for [Recv]. *)
Definition accept_data (size : Z) (frame : bytes) (c : Channel) : Channel :=
  signalLocked (c <| ch_localWindow := ch_localWindow c - size |>
                  <| ch_frames := ch_frames c ++ [frame] |>).

(** [Recv] consumed [size] bytes: the window grows, and once the threshold is
    reached the pending credit is announced ([window_adjust]) and cleared. *)
Definition window_pending (size : Z) (c : Channel) : Z := u32 (ch_pendingWindowBytes c + size).

Definition window_adjust (threshold size : Z) (c : Channel) : Z :=
  if threshold <=? window_pending size c then window_pending size c else 0.

Definition consume_window (threshold size : Z) (c : Channel) : Channel :=
  c <| ch_localWindow := u32 (ch_localWindow c + size) |>
    <| ch_pendingWindowBytes :=
         if threshold <=? window_pending size c then 0 else window_pending size c |>.

(** The peer accepted our open. *)
Definition accept_open (cfg : Config) (sender window maxPacket : Z) (c : Channel) : Channel :=
  set_state channelOpen (c <| ch_peerID := sender |>
    <| ch_localWindow := InitialWindow cfg |>
    <| ch_remoteWindow := window |>
    <| ch_maxLocalPacket := MaxPacketSize cfg |>
    <| ch_maxRemotePacket := maxPacket |>).

Definition channelErrorLocked (s : Session) (c : Channel) : option error :=
  match ch_sessionErr c with Some e => Some e | None => ch_cause s c end.

Definition closeCause (s : Session) : error :=
  match s_closeErr s with
  | Some e => e
  | None => match s_ctx s with Some e => e | None => context_Canceled end
  end.

Definition ensureActive : M unit :=
  s ← st_get;
  if negb (s_activated s) then st_fail errSessionNotActive
  else match s_ctx s with Some _ => st_fail (closeCause s) | None => mret tt end.

(** ** Validation of incoming and outgoing messages *)

Definition validateTypeAndPayload (cfg : Config) (typ : string) (payload : bytes) : res unit :=
  reject_if (bool_decide (typ = ""%string)) (NewError "request type is required") ≫= λ _,
  reject_if (MaxTypeLength (limits cfg) <? u32 (slen typ))
    (NewError "request type exceeds limit") ≫= λ _,
  reject_if (MaxControlPayload (limits cfg) <? u32 (blen payload))
    (NewError "control payload exceeds limit").

Definition validateResponse (cfg : Config) (code message : string) (payload : bytes) : res unit :=
  reject_if (MaxCodeLength (limits cfg) <? u32 (slen code))
    (NewError "response code exceeds limit") ≫= λ _,
  reject_if (MaxMessageLength (limits cfg) <? u32 (slen message))
    (NewError "response message exceeds limit") ≫= λ _,
  reject_if (MaxControlPayload (limits cfg) <? u32 (blen payload))
    (NewError "response payload exceeds limit").

Definition validateDecision (cfg : Config) (d : ChannelOpenDecision) : res unit :=
  validateResponse cfg (d_Code d) (d_Message d) (d_Payload d).

Definition protocolErrorf {A} (msg : string) : M A := st_fail (ProtocolError msg).

Definition normalizeReject (v fallback : string) : string :=
  if bool_decide (v = ""%string) then fallback else v.

(** ** The queue budget *)

Definition reserveQueueBudget (frames bytes : Z) : M unit :=
  s ← st_get;
  if u32 (MaxQueuedFramesTotal (limits (s_config s)) - s_queuedFrames s) <? frames
  then st_fail errResourceLimit
  else if u64 (MaxQueuedBytesTotal (limits (s_config s)) - s_queuedBytes s) <? bytes
  then st_fail errResourceLimit
  else st_modify (λ s, s <| s_queuedFrames := u32 (s_queuedFrames s + frames) |>
                         <| s_queuedBytes := u64 (s_queuedBytes s + bytes) |>).

Definition releaseQueueBudget (frames bytes : Z) : M unit :=
  st_modify (λ s,
    s <| s_queuedFrames := if s_queuedFrames s <? frames then 0 else s_queuedFrames s - frames |>
      <| s_queuedBytes := if s_queuedBytes s <? bytes then 0 else s_queuedBytes s - bytes |>).

Definition reserveQueuedLocked (id frames bytes : Z) : M unit :=
  s ← st_get;
  let c := chan s id in
  if u32 (MaxQueuedFramesPerChannel (limits (s_config s)) - ch_queuedFrames c) <? frames
  then st_fail errResourceLimit
  else if u64 (MaxQueuedBytesPerChannel (limits (s_config s)) - ch_queuedBytes c) <? bytes
  then st_fail errResourceLimit
  else
    reserveQueueBudget frames bytes ≫= λ _,
    chan_mod id (λ c, c <| ch_queuedFrames := u32 (ch_queuedFrames c + frames) |>
                        <| ch_queuedBytes := u64 (ch_queuedBytes c + bytes) |>).

Definition releaseQueuedLocked (id frames bytes : Z) : M unit :=
  c ← chan_get id;
  let actualFrames := if ch_queuedFrames c <? frames then ch_queuedFrames c else frames in
  let actualBytes := if ch_queuedBytes c <? bytes then ch_queuedBytes c else bytes in
  chan_mod id (λ c, c <| ch_queuedFrames := ch_queuedFrames c - actualFrames |>
                      <| ch_queuedBytes := ch_queuedBytes c - actualBytes |>) ≫= λ _,
  releaseQueueBudget actualFrames actualBytes.

Definition discardQueuedLocked (id : Z) : M unit :=
  c ← chan_get id;
  chan_mod id (λ c, c <| ch_queuedFrames := 0 |> <| ch_queuedBytes := 0 |>
                      <| ch_frames := [] |>) ≫= λ _,
  releaseQueueBudget (ch_queuedFrames c) (ch_queuedBytes c).

(** ** The outbound queues *)

(** Registers the write object; its id stands for the pointer. *)
Definition new_write (frame : Envelope) (control wantResult : bool) (after : After) : M Z :=
  s ← st_get;
  st_modify (λ s, s <| s_writes ::= <[s_nextWrite s :=
      MkWrite frame control wantResult None after (size_envelope frame) writeQueued]> |>
                    <| s_nextWrite ::= Z.succ |>) ≫= λ _,
  mret (s_nextWrite s).

(** A write the caller drops, because it could not be queued. *)
Definition drop_write (w : Z) : M unit := st_modify (λ s, s <| s_writes ::= delete w |>).

Definition enqueueWrite (w size : Z) (control : bool) : M unit :=
  reserveQueueBudget 1 size ≫= λ _,
  s ← st_get;
  if s_queuesClosed s then
    releaseQueueBudget 1 size ≫= λ _, st_fail (closeCause s)
  else
    let queue := if control then s_controlQueue s else s_outboundQueue s in
    if blen queue <? MaxQueuedFramesTotal (limits (s_config s)) then
      st_modify (λ s, if control then s <| s_controlQueue := queue ++ [w] |>
                      else s <| s_outboundQueue := queue ++ [w] |>)
    else
      releaseQueueBudget 1 size ≫= λ _,
      let err := NewError "session outbound queue exhausted" in
      st_modify (λ s, s <| s_spawned ::= (λ l, l ++ [FromFullQueue err]) |>) ≫= λ _,
      st_fail err.

(** A write object is made and queued; one that cannot be queued is dropped. *)
Definition post_write (frame : Envelope) (control wantResult : bool) (after : After) : M Z :=
  w ← new_write frame control wantResult after;
  r ← st_try (enqueueWrite w (size_envelope frame) control);
  match r with
  | Ok _ => mret w
  | Err e => drop_write w ≫= λ _, st_fail e
  end.

Definition sendEnvelopeAsyncAfter (frame : Envelope) (control : bool) (after : After) : M unit :=
  post_write frame control false after ≫= λ _, mret tt.

Definition sendEnvelopeAsync (frame : Envelope) (control : bool) : M unit :=
  sendEnvelopeAsyncAfter frame control AfterNone.

(** [sendEnvelopeAfter] up to its [select]: the id of the queued write. *)
Definition sendEnvelopeAfter_enqueue (frame : Envelope) (after : After) : M Z :=
  ensureActive ≫= λ _, post_write frame false true after.

Definition sendChannelOpenRejectAsync (peerID : Z) (code message : string) : M unit :=
  sendEnvelopeAsync (EChannelOpenResult (Some (peerID, OpenReject code message []))) true.

Definition sendGlobalRejectAsync (requestID : Z) (code message : string) (after : After) : M unit :=
  sendEnvelopeAsyncAfter (EGlobalResult (Some (requestID, OpReject code message []))) true after.

Definition sendChannelRejectAsync (peerID requestID : Z) (code message : string) (after : After) : M unit :=
  sendEnvelopeAsyncAfter (EChannelResult (Some (peerID, requestID, OpReject code message [])))
    true after.

(** ** The channel table *)

Definition reserveLocalChannelID : M Z :=
  s ← st_get;
  if s_nextLocalChannelID s =? MaxUint64 then
    st_fail (NewError "local channel id space exhausted")
  else
    st_modify (λ s, s <| s_nextLocalChannelID ::= Z.succ |>) ≫= λ _,
    mret (s_nextLocalChannelID s).

(** [newPendingChannel] and [newIncomingChannel] return the object; [new_channel]
    allocates it. *)
Definition newPendingChannel (typ : string) (handler : option HandlerRef) : Channel :=
  MkChannel 0 typ channelSlotNone None channelOpening true None 0 0 0 0 0 0 ∅ ∅ ∅ [] 0 0
    None (normalizeChannelHandler handler) 0 [] WkNone false.

Definition newIncomingChannel (cfg : Config) (peerID : Z) (typ : string)
    (remoteWindow maxRemotePacket : Z) (handler : option HandlerRef) : Channel :=
  MkChannel peerID typ channelSlotNone None channelOpening false None (InitialWindow cfg)
    remoteWindow (MaxPacketSize cfg) maxRemotePacket 0 0 ∅ ∅ ∅ [] 0 0
    None (normalizeChannelHandler handler) 0 [] WkNone false.

Definition new_channel (id : Z) (c : Channel) : M unit :=
  st_modify (λ s, s <| s_store ::= <[id := c]> |>).

Definition addPendingChannel (id : Z) (peerID : option Z) : M unit :=
  s ← st_get;
  if (MaxPendingOpens (limits (s_config s)) <=? s_pendingOpens s)
     || (MaxChannels (limits (s_config s)) <=? u32 (s_activeChannels s + s_pendingOpens s))
  then st_fail errResourceLimit
  else
    match peerID with
    | Some p =>
        if bool_decide (is_Some (s_peerChannelIDs s !! p))
        then protocolErrorf "received duplicate peer channel id"
        else st_modify (λ s, s <| s_peerChannelIDs ::= <[p := id]> |>)
    | None => mret tt
    end ≫= λ _,
    chan_mod id (λ c, c <| ch_slot := channelSlotPending |>) ≫= λ _,
    st_modify (λ s, s <| s_channels ::= (λ t, {[id]} ∪ t) |>
                      <| s_pendingOpens := u32 (s_pendingOpens s + 1) |>).

Definition reservePeerChannelID (peerID localID : Z) : M unit :=
  s ← st_get;
  if bool_decide (is_Some (s_peerChannelIDs s !! peerID))
  then protocolErrorf "received duplicate peer channel id"
  else st_modify (λ s, s <| s_peerChannelIDs ::= <[peerID := localID]> |>).

Definition activateChannel (id : Z) : M unit :=
  s ← st_get;
  if negb (bool_decide (ch_slot (chan s id) = channelSlotPending)) then
    st_fail (NewError "channel is not pending activation")
  else if s_pendingOpens s =? 0 then
    st_fail (NewError "pending channel accounting underflow")
  else
    st_modify (λ s, s <| s_pendingOpens := s_pendingOpens s - 1 |>
                      <| s_activeChannels := u32 (s_activeChannels s + 1) |>) ≫= λ _,
    chan_mod id (λ c, c <| ch_slot := channelSlotActive |>).

Definition lookupChannel (id : Z) : M (option Z) :=
  s ← st_get;
  mret (if bool_decide (id ∈ s_channels s) then Some id else None).

Definition lookupChannelByPeer (peerID : Z) : M (option Z) :=
  s ← st_get;
  mret (match s_peerChannelIDs s !! peerID with
        | None => None
        | Some localID => if bool_decide (localID ∈ s_channels s) then Some localID else None
        end).

Definition removeChannel (id : Z) : M unit :=
  s ← st_get;
  if bool_decide (id ∈ s_channels s) then
    st_modify (λ s,
      let s := s <| s_channels ::= (λ t, t ∖ {[id]}) |>
                 <| s_peerChannelIDs ::= filter (λ kv, kv.2 ≠ id) |> in
      match ch_slot (chan s id) with
      | channelSlotPending =>
          s <| s_pendingOpens ::= (λ n, if 0 <? n then n - 1 else n) |>
      | channelSlotActive =>
          s <| s_activeChannels ::= (λ n, if 0 <? n then n - 1 else n) |>
      | channelSlotNone => s
      end) ≫= λ _,
    chan_mod id (λ c, c <| ch_slot := channelSlotNone |>)
  else mret tt.

(** ** Requests awaiting a reply *)

Definition reservePendingChannelRequest : M unit :=
  s ← st_get;
  if MaxPendingChannelRequests (limits (s_config s)) <=? s_pendingChannelRequests s
  then st_fail (NewError "pending channel request limit reached")
  else st_modify (λ s, s <| s_pendingChannelRequests := u32 (s_pendingChannelRequests s + 1) |>).

Definition releasePendingChannelRequest : M unit :=
  st_modify (λ s, s <| s_pendingChannelRequests ::= (λ n, if 0 <? n then n - 1 else n) |>).

Definition removePendingRequest (id requestID : Z) : M unit :=
  c ← chan_get id;
  if bool_decide (requestID ∈ ch_pendingRequests c) then
    chan_mod id (λ c, c <| ch_pendingRequests ::= (λ p, p ∖ {[requestID]}) |>) ≫= λ _,
    releasePendingChannelRequest
  else mret tt.

Definition failPendingRequestsLocked (id : Z) (err : error) : M unit :=
  c ← chan_get id;
  chan_mod id (λ c, c <| ch_replies := ch_replies c ∪ gset_to_gmap (Err err) (ch_pendingRequests c) |>
                      <| ch_pendingRequests := ∅ |>) ≫= λ _,
  st_iter (λ _, releasePendingChannelRequest) (elements (ch_pendingRequests c)).

Definition removeGlobalWaiter (requestID : Z) : M unit :=
  st_modify (λ s, s <| s_pendingGlobal ::= (λ p, p ∖ {[requestID]}) |>).

Definition finishIncomingGlobal (requestID : Z) (wantReply : bool) : M unit :=
  if negb wantReply then mret tt
  else st_modify (λ s, s <| s_incomingGlobalRequests ::= (λ p, p ∖ {[requestID]}) |>).

Definition finishIncomingRequest (id requestID : Z) (wantReply : bool) : M unit :=
  if negb wantReply then mret tt
  else chan_mod id (λ c, c <| ch_incomingRequestIDs ::= (λ p, p ∖ {[requestID]}) |>).

(** ** Shutdown *)

(** [openWait <- err] on the buffered channel. *)
Definition send_open_result (err : option error) (c : Channel) : Channel :=
  match ch_openResult c with None => c <| ch_openResult := Some err |> | Some _ => c end.

(** [Channel.shutdown]. *)
Definition channel_shutdown (id : Z) (err : error) : M unit :=
  chan_mod id (λ c,
    let c := match ch_sessionErr c with None => c <| ch_sessionErr := Some err |> | Some _ => c end in
    if bool_decide (ch_state c = channelClosed) then c else c <| ch_state := channelFailed |>) ≫= λ _,
  discardQueuedLocked id ≫= λ _,
  failPendingRequestsLocked id err ≫= λ _,
  chan_mod id (λ c,
    signalLocked (if ch_openWait c then (send_open_result (Some err) c) <| ch_openWait := false |> else c)) ≫= λ _,
  chan_cancel id err.

Lemma channel_shutdown_ok id e s : wp (channel_shutdown id e) (λ r _, r = Ok tt) s.
Proof.
  unfold channel_shutdown, discardQueuedLocked, failPendingRequestsLocked, chan_get.
  apply wp_bind, wp_modify, wp_bind, wp_bind, wp_bind, wp_get, wp_ret, wp_bind, wp_modify, wp_modify.
  apply wp_bind, wp_bind, wp_bind, wp_get, wp_ret, wp_bind, wp_modify.
  eapply wp_mono; [by apply (wp_iter _ (λ _, True))|]. intros r s' [-> _].
  by apply wp_bind, wp_modify, wp_modify.
Qed.

Definition disconnect_envelope : Envelope := EDisconnect (Some ("protocol-error", "protocol error")%string).

(** [Session.shutdown]; [None] is the nil error of an orderly end. *)
Definition shutdown (err : option error) : M unit :=
  s ← st_get;
  if s_shutdownOnce s then mret tt
  else
    let closeErr := match err with None => errSessionClosed | Some e => e end in
    let channels := elements (s_channels s) in
    st_modify (λ s, s <| s_shutdownOnce := true |> <| s_waitErr := err |>
       <| s_closeErr := Some closeErr |> <| s_closing := true |>
       <| s_pendingGlobal := ∅ |> <| s_incomingGlobalRequests := ∅ |>
       <| s_channels := ∅ |> <| s_peerChannelIDs := ∅ |>
       <| s_activeChannels := 0 |> <| s_pendingOpens := 0 |>
       <| s_pendingChannelRequests := 0 |>) ≫= λ _,
    match err with
    | Some (ProtocolError _) => st_try (sendEnvelopeAsync disconnect_envelope true) ≫= λ _, mret tt
    | _ => mret tt
    end ≫= λ _,
    session_cancel closeErr ≫= λ _,
    st_iter (λ id, channel_shutdown id closeErr) channels ≫= λ _,
    st_modify (λ s', s' <| s_globalReplies := s_globalReplies s' ∪ gset_to_gmap (Err closeErr) (s_pendingGlobal s) |>
                        <| s_queuesClosed := true |>
                        <| s_finalize := Some err |>).

(** [if err := m(); err != nil { s.shutdown(err) }]. *)
Definition shutdown_on_error (m : M unit) : M bool :=
  r ← st_try m;
  match r with
  | Ok _ => mret true
  | Err e => shutdown (Some e) ≫= λ _, mret false
  end.

(** ** Starting goroutines *)

Definition spawn (t : Thread) : M Z :=
  s ← st_get;
  st_modify (λ s, s <| s_threads ::= <[s_nextThread s := t]> |> <| s_nextThread ::= Z.succ |>) ≫= λ _,
  mret (s_nextThread s).

Definition startChannelWorker (id : Z) : M unit :=
  st_modify (λ s, s <| s_wg ::= Z.succ |>) ≫= λ _,
  chan_mod id (λ c, c <| ch_worker := WkActivation |>).

(** [msg.after(err)]. *)
Definition run_after (a : After) (err : option error) : M unit :=
  match a with
  | AfterNone => mret tt
  | AfterStartWorker ch => match err with None => startChannelWorker ch | Some _ => mret tt end
  | AfterFinishGlobal rid => finishIncomingGlobal rid true
  | AfterFinishRequest ch rid => finishIncomingRequest ch rid true
  end.

(** ** Incoming messages: the receiver's handlers *)

Definition enqueueDispatch (task : dispatchTask) : M unit :=
  reserveQueueBudget 1 (task_size task) ≫= λ _,
  s ← st_get;
  if blen (s_dispatchQueue s) <? MaxQueuedFramesTotal (limits (s_config s)) then
    st_modify (λ s, s <| s_dispatchQueue ::= (λ q, q ++ [task]) |>)
  else
    releaseQueueBudget 1 (task_size task) ≫= λ _, st_fail errResourceLimit.

Definition enqueueIncomingOpen (m : option ChannelOpen) : M unit :=
  match m with
  | None => protocolErrorf "received nil channel open"
  | Some msg =>
    s ← st_get;
    match validateTypeAndPayload (s_config s) (co_ChannelType msg) (co_Payload msg) with
    | Err _ => protocolErrorf "invalid channel open"
    | Ok _ =>
      localID ← reserveLocalChannelID;
      new_channel localID (newIncomingChannel (s_config s) (co_SenderChannelId msg)
        (co_ChannelType msg) (co_InitialWindow msg) (co_MaxPacketSize msg) None) ≫= λ _,
      r ← st_try (addPendingChannel localID (Some (co_SenderChannelId msg)));
      match r with
      | Err e =>
          if err_is e errResourceLimit
          then sendChannelOpenRejectAsync (co_SenderChannelId msg) "resource-limit" "channel limit reached"
          else st_fail e
      | Ok _ =>
          r ← st_try (enqueueDispatch (dispatchChannelOpen msg));
          match r with
          | Err e =>
              removeChannel localID ≫= λ _,
              channel_shutdown localID e ≫= λ _,
              if err_is e errResourceLimit
              then sendChannelOpenRejectAsync (co_SenderChannelId msg) "resource-limit"
                     "channel queue limit reached"
              else st_fail e
          | Ok _ => mret tt
          end
      end
    end
  end.

Definition handleChannelOpenResult (m : option (Z * OpenResult)) : M unit :=
  match m with
  | None => protocolErrorf "received nil channel open result"
  | Some (recipient, result) =>
    found ← lookupChannel recipient;
    match found with
    | None => protocolErrorf "received channel open result for unknown channel"
    | Some id =>
      s ← st_get;
      let c := chan s id in
      if negb (bool_decide (ch_state c = channelOpening)) || negb (ch_openWait c) then
        protocolErrorf "received duplicate channel open result"
      else
        chan_mod id (λ c, c <| ch_openWait := false |>) ≫= λ _,
        match result with
        | OpenSuccess sender window maxPacket payload =>
            if MaxControlPayload (limits (s_config s)) <? u32 (blen payload) then
              protocolErrorf "channel open result payload exceeds configured limit"
            else
              reservePeerChannelID sender id ≫= λ _,
              chan_mod id (accept_open (s_config s) sender window maxPacket) ≫= λ _,
              activateChannel id ≫= λ _,
              startChannelWorker id ≫= λ _,
              chan_mod id (send_open_result None)
        | OpenReject code message payload =>
            match validateResponse (s_config s) code message payload with
            | Err _ => protocolErrorf "invalid channel open rejection"
            | Ok _ =>
                let openErr := NewError ("channel open rejected: " +:+ message) in
                chan_mod id (set_state channelFailed) ≫= λ _,
                removeChannel id ≫= λ _,
                channel_shutdown id openErr ≫= λ _,
                chan_mod id (send_open_result (Some openErr))
            end
        | OpenNone => protocolErrorf "received invalid channel open result"
        end
    end
  end.

Definition handleChannelData (m : option (Z * bytes)) : M unit :=
  match m with
  | None => protocolErrorf "received nil channel data"
  | Some (recipient, frame) =>
    found ← lookupChannel recipient;
    match found with
    | None => protocolErrorf "received channel data for unknown channel"
    | Some id =>
      if blen frame =? 0 then protocolErrorf "received empty channel data"
      else
        let size := u32 (blen frame) in
        c ← chan_get id;
        if negb (canReceiveData (ch_state c)) then
          protocolErrorf "received channel data in the wrong state"
        else if ch_maxLocalPacket c <? size then
          protocolErrorf "peer exceeded channel max packet size"
        else if ch_localWindow c <? size then
          protocolErrorf "peer exceeded channel window"
        else
          reserveQueuedLocked id 1 size ≫= λ _,
          chan_mod id (accept_data size frame)
    end
  end.

Definition handleChannelWindowAdjust (m : option (Z * Z)) : M unit :=
  match m with
  | None => protocolErrorf "received nil channel window adjustment"
  | Some (recipient, bytesToAdd) =>
    found ← lookupChannel recipient;
    match found with
    | None => protocolErrorf "received channel window adjust for unknown channel"
    | Some id =>
      c ← chan_get id;
      if negb (allowsRequests (ch_state c)) then
        protocolErrorf "received channel window adjust in the wrong state"
      else if MaxUint32 - ch_remoteWindow c <? bytesToAdd then
        protocolErrorf "channel remote window overflow"
      else
        chan_mod id (add_window bytesToAdd)
    end
  end.

(** [waitCh <- result] on the buffered channel of a pending request. *)
Definition deliver_reply (requestID : Z) (r : res Response) (m : gmap Z (res Response)) :=
  match m !! requestID with None => <[requestID := r]> m | Some _ => m end.

Definition handleChannelResult (m : option (Z * Z * OpResult)) : M unit :=
  match m with
  | None => protocolErrorf "received nil channel result"
  | Some (recipient, requestID, result) =>
    found ← lookupChannel recipient;
    match found with
    | None => protocolErrorf "received channel result for unknown channel"
    | Some id =>
      s ← st_get;
      if negb (bool_decide (requestID ∈ ch_pendingRequests (chan s id))) then
        protocolErrorf "received channel result for unknown request"
      else
        chan_mod id (λ c, c <| ch_pendingRequests ::= (λ p, p ∖ {[requestID]}) |>) ≫= λ _,
        releasePendingChannelRequest ≫= λ _,
        match result with
        | OpSuccess payload =>
            if MaxControlPayload (limits (s_config s)) <? u32 (blen payload) then
              protocolErrorf "channel result payload exceeds configured limit"
            else
              chan_mod id (λ c, c <| ch_replies ::=
                deliver_reply requestID (Ok (MkResponse true payload "" "")) |>)
        | OpReject code message payload =>
            match validateResponse (s_config s) code message payload with
            | Err _ => protocolErrorf "invalid channel rejection"
            | Ok _ =>
                chan_mod id (λ c, c <| ch_replies ::=
                  deliver_reply requestID (Ok (MkResponse false payload code message)) |>)
            end
        | OpNone => protocolErrorf "received invalid channel result"
        end
    end
  end.

Definition enqueueGlobalRequest (m : option GlobalRequest) : M unit :=
  match m with
  | None => protocolErrorf "received nil global request"
  | Some msg =>
    s ← st_get;
    match validateTypeAndPayload (s_config s) (gr_RequestType msg) (gr_Payload msg) with
    | Err _ => protocolErrorf "invalid global request"
    | Ok _ =>
      (if gr_WantReply msg then
         if bool_decide (gr_RequestId msg ∈ s_incomingGlobalRequests s)
         then protocolErrorf "received duplicate global request id"
         else st_modify (λ s, s <| s_incomingGlobalRequests ::= (λ p, {[gr_RequestId msg]} ∪ p) |>)
       else mret tt) ≫= λ _,
      r ← st_try (enqueueDispatch (dispatchGlobalRequest msg));
      match r with
      | Ok _ => mret tt
      | Err e =>
          if err_is e errResourceLimit && gr_WantReply msg then
            r ← st_try (sendGlobalRejectAsync (gr_RequestId msg) "resource-limit"
                   "global request queue limit reached" (AfterFinishGlobal (gr_RequestId msg)));
            match r with
            | Ok _ => mret tt
            | Err sendErr => finishIncomingGlobal (gr_RequestId msg) true ≫= λ _, st_fail sendErr
            end
          else
            finishIncomingGlobal (gr_RequestId msg) (gr_WantReply msg) ≫= λ _, st_fail e
      end
    end
  end.

Definition handleGlobalResult (m : option (Z * OpResult)) : M unit :=
  match m with
  | None => protocolErrorf "received nil global result"
  | Some (requestID, result) =>
    s ← st_get;
    if negb (bool_decide (requestID ∈ s_pendingGlobal s)) then
      protocolErrorf "received global result for unknown request"
    else
      st_modify (λ s, s <| s_pendingGlobal ::= (λ p, p ∖ {[requestID]}) |>) ≫= λ _,
      match result with
      | OpSuccess payload =>
          if MaxControlPayload (limits (s_config s)) <? u32 (blen payload) then
            protocolErrorf "global result payload exceeds configured limit"
          else
            st_modify (λ s, s <| s_globalReplies ::=
              deliver_reply requestID (Ok (MkResponse true payload "" "")) |>)
      | OpReject code message payload =>
          match validateResponse (s_config s) code message payload with
          | Err _ => protocolErrorf "invalid global rejection"
          | Ok _ =>
              st_modify (λ s, s <| s_globalReplies ::=
                deliver_reply requestID (Ok (MkResponse false payload code message)) |>)
          end
      | OpNone => protocolErrorf "received invalid global result"
      end
  end.

Definition handleDisconnect (m : option (string * string)) : M unit :=
  match m with
  | None => st_fail (NewError "remote disconnected")
  | Some (code, message) =>
    s ← st_get;
    match validateResponse (s_config s) code message [] with
    | Err _ => protocolErrorf "invalid disconnect"
    | Ok _ =>
      if negb (bool_decide (code = ""%string))
      then st_fail (NewError ("remote disconnect (" +:+ code +:+ "): " +:+ message))
      else st_fail (NewError ("remote disconnect: " +:+ message))
    end
  end.

(** Under the channel's lock: reserve the budget, then [ch.events <- event] in a
    [select] with a default case that gives the budget back.  [false] is the
    default case. *)
Definition queue_event (id : Z) (e : channelEvent) : M bool :=
  reserveQueuedLocked id 1 (event_size e) ≫= λ _,
  s ← st_get;
  if blen (ch_events (chan s id)) <? MaxQueuedFramesPerChannel (limits (s_config s)) then
    chan_mod id (λ c, c <| ch_events ::= (λ q, q ++ [e]) |>) ≫= λ _, mret true
  else
    releaseQueuedLocked id 1 (event_size e) ≫= λ _, mret false.

Definition enqueueChannelRequest (m : option ChannelRequest) : M unit :=
  match m with
  | None => protocolErrorf "received nil channel request"
  | Some msg =>
    s ← st_get;
    match validateTypeAndPayload (s_config s) (cr_RequestType msg) (cr_Payload msg) with
    | Err _ => protocolErrorf "invalid channel request"
    | Ok _ =>
      found ← lookupChannel (cr_RecipientChannelId msg);
      match found with
      | None => protocolErrorf "received channel request for unknown channel"
      | Some id =>
        let event := EventRequest msg (size_request msg) in
        let rid := cr_RequestId msg in
        let c := chan s id in
        let reject :=
          r ← st_try (sendChannelRejectAsync (ch_peerID c) rid "resource-limit"
                 "channel request queue limit reached" (AfterFinishRequest id rid));
          match r with
          | Ok _ => mret tt
          | Err sendErr => finishIncomingRequest id rid true ≫= λ _, st_fail sendErr
          end in
        if negb (allowsRequests (ch_state c)) then
          protocolErrorf "received channel request in the wrong state"
        else
          (if cr_WantReply msg then
             if bool_decide (rid ∈ ch_incomingRequestIDs c)
             then protocolErrorf "received duplicate request id"
             else chan_mod id (λ c, c <| ch_incomingRequestIDs ::= (λ p, {[rid]} ∪ p) |>)
           else mret tt) ≫= λ _,
          r ← st_try (queue_event id event);
          match r with
          | Err e =>
              if err_is e errResourceLimit && cr_WantReply msg then reject
              else finishIncomingRequest id rid (cr_WantReply msg) ≫= λ _, st_fail e
          | Ok true => mret tt
          | Ok false => if cr_WantReply msg then reject else st_fail errResourceLimit
          end
      end
    end
  end.

Definition enqueueChannelEOF (localID : Z) : M unit :=
  found ← lookupChannel localID;
  match found with
  | None => protocolErrorf "received channel EOF for unknown channel"
  | Some id =>
    s ← st_get;
    let accept (st : channelState) :=
      chan_mod id (set_state st) ≫= λ _,
      queued ← queue_event id EventEOF;
      if (queued : bool) then mret tt else st_fail errResourceLimit in
    match ch_state (chan s id) with
    | channelOpen => accept channelRemoteEOF
    | channelLocalEOF => accept channelBothEOF
    | channelRemoteEOF | channelBothEOF => protocolErrorf "received duplicate channel EOF"
    | _ => protocolErrorf "received channel EOF in the wrong state"
    end
  end.

Definition enqueueChannelClose (localID : Z) : M unit :=
  found ← lookupChannel localID;
  match found with
  | None => protocolErrorf "received channel close for unknown channel"
  | Some id =>
    s ← st_get;
    match ch_state (chan s id) with
    | channelClosing =>
        chan_mod id (set_state channelClosed) ≫= λ _,
        removeChannel id
    | channelOpen | channelLocalEOF | channelRemoteEOF | channelBothEOF =>
        chan_mod id (set_state channelClosed) ≫= λ _,
        queued ← queue_event id EventClose;
        if (queued : bool) then
          r ← st_try (sendEnvelopeAsync (EChannelClose (ch_peerID (chan s id))) true);
          match r with
          | Err e => st_fail (Wrapped e "enqueue channel close acknowledgement")
          | Ok _ => removeChannel id
          end
        else st_fail errResourceLimit
    | channelOpening => protocolErrorf "received channel close before channel was opened"
    | _ => protocolErrorf "received duplicate channel close"
    end
  end.

Definition routeEnvelope (frame : Envelope) : M unit :=
  match frame with
  | EChannelOpen m => enqueueIncomingOpen m
  | EChannelOpenResult m => handleChannelOpenResult m
  | EChannelData m => handleChannelData m
  | EChannelWindowAdjust m => handleChannelWindowAdjust m
  | EChannelEof id => enqueueChannelEOF id
  | EChannelClose id => enqueueChannelClose id
  | EChannelRequest m => enqueueChannelRequest m
  | EChannelResult m => handleChannelResult m
  | EGlobalRequest m => enqueueGlobalRequest m
  | EGlobalResult m => handleGlobalResult m
  | EDisconnect m => handleDisconnect m
  | EUnknown => protocolErrorf "unsupported session frame"
  end.

(** ** Calls of the application

    A call either fails at once, finds that it must wait ([Blocked]), returns,
    or goes on in a goroutine of its own ([Pending]). *)

Inductive CallResult :=
  | Blocked
  | Returned (o : Outcome)
  | Pending (thread : Z).

(** How a [select] of a waiting call wakes up: the caller's context, the
    channel's context, or the [stateCh] channel (the loop runs again). *)
Inductive Wake := WakeCtx (err : error) | WakeChannel | WakeState.

Definition OpenChannelWithHandler (typ : string) (payload : bytes) (handler : option HandlerRef) : M CallResult :=
  s ← st_get;
  st_lift (validateTypeAndPayload (s_config s) typ payload) ≫= λ _,
  ensureActive ≫= λ _,
  localID ← reserveLocalChannelID;
  new_channel localID (newPendingChannel typ handler) ≫= λ _,
  addPendingChannel localID None ≫= λ _,
  t ← spawn (TSend CtxUser (EChannelOpen (Some (MkChannelOpen typ localID
        (InitialWindow (s_config s)) (MaxPacketSize (s_config s)) payload)))
        AfterNone (KOpenChannel localID));
  mret (Pending t).

Definition SendGlobalRequest (typ : string) (payload : bytes) (wantReply : bool) : M CallResult :=
  s ← st_get;
  st_lift (validateTypeAndPayload (s_config s) typ payload) ≫= λ _,
  ensureActive ≫= λ _,
  if s_nextGlobalRequestID s =? MaxUint64 then
    st_fail (NewError "global request id space exhausted")
  else
    let requestID := s_nextGlobalRequestID s in
    st_modify (λ s, s <| s_nextGlobalRequestID ::= Z.succ |>) ≫= λ _,
    (if wantReply then
       if MaxPendingGlobalRequests (limits (s_config s)) <=? u32 (Z.of_nat (size (s_pendingGlobal s)))
       then st_fail (NewError "pending global request limit reached")
       else st_modify (λ s, s <| s_pendingGlobal ::= (λ p, {[requestID]} ∪ p) |>)
     else mret tt) ≫= λ _,
    t ← spawn (TSend CtxUser (EGlobalRequest (Some (MkGlobalRequest requestID typ wantReply payload)))
          AfterNone (KSendGlobalRequest requestID wantReply));
    mret (Pending t).

(** [Channel.Send], one turn of its loop. *)
Definition channel_Send (id : Z) (frame : bytes) (wake : Wake) : M CallResult :=
  if blen frame =? 0 then st_fail (NewError "empty channel data is not allowed")
  else if MaxUint32 <? blen frame then st_fail (NewError "channel frame is too large")
  else
    s ← st_get;
    let c := chan s id in
    match channelErrorLocked s c with
    | Some e => st_fail e
    | None =>
      if negb (canSendData (ch_state c)) then
        match ch_state c with
        | channelLocalEOF | channelBothEOF => st_fail errChannelWriteEOF
        | _ => st_fail errChannelClosed
        end
      else if ch_maxRemotePacket c <? blen frame then
        st_fail (NewError "channel frame exceeds remote max packet size")
      else if u32 (blen frame) <=? ch_remoteWindow c then
        chan_mod id (take_window (u32 (blen frame))) ≫= λ _,
        t ← spawn (TSend CtxUser (EChannelData (Some (ch_peerID c, frame))) AfterNone
              (KSend id (u32 (blen frame))));
        mret (Pending t)
      else
        match wake with
        | WakeCtx e => st_fail e
        | WakeChannel =>
            match ch_cause s c with
            | None => mret Blocked
            | Some _ => match channelErrorLocked s c with
                        | Some e => st_fail e
                        | None => st_fail errChannelClosed
                        end
            end
        | WakeState => mret Blocked
        end
    end.

(** [Channel.Recv], one turn of its loop. *)
Definition channel_Recv (id : Z) (wake : Wake) : M CallResult :=
  s ← st_get;
  let c := chan s id in
  match ch_frames c with
  | frame :: rest =>
      let size := u32 (blen frame) in
      chan_mod id (λ c, c <| ch_frames := rest |>) ≫= λ _,
      releaseQueuedLocked id 1 (blen frame) ≫= λ _,
      let adjust := window_adjust (WindowAdjustThreshold (s_config s)) size c in
      chan_mod id (consume_window (WindowAdjustThreshold (s_config s)) size) ≫= λ _,
      if 0 <? adjust then
        t ← spawn (TSend CtxBackground (EChannelWindowAdjust (Some (ch_peerID c, adjust))) AfterNone
              (KRecv frame));
        mret (Pending t)
      else mret (Returned (RetFrame (Ok frame)))
  | [] =>
      if readEOF (ch_state c) then
        (if bool_decide (ch_state c = channelClosed) then chan_cancel id errChannelClosed else mret tt) ≫= λ _,
        st_fail io_EOF
      else
        match ch_sessionErr c with
        | Some e => st_fail (if err_is e errSessionClosed then io_EOF else e)
        | None =>
          match wake with
          | WakeCtx e => st_fail e
          | WakeChannel =>
              match ch_cause s c with
              | None => mret Blocked
              | Some _ =>
                match channelErrorLocked s c with
                | Some e => st_fail (if err_is e errSessionClosed || err_is e errChannelClosed
                                     then io_EOF else e)
                | None => st_fail io_EOF
                end
              end
          | WakeState => mret Blocked
          end
        end
  end.

Definition channel_SendRequest (id : Z) (typ : string) (payload : bytes) (wantReply : bool) : M CallResult :=
  s ← st_get;
  st_lift (validateTypeAndPayload (s_config s) typ payload) ≫= λ _,
  let c := chan s id in
  match channelErrorLocked s c with
  | Some e => st_fail e
  | None =>
    if negb (allowsRequests (ch_state c)) then st_fail errChannelClosed
    else if ch_nextRequestID c =? MaxUint64 then
      st_fail (NewError "channel request id space exhausted")
    else
      let requestID := ch_nextRequestID c in
      chan_mod id (λ c, c <| ch_nextRequestID ::= Z.succ |>) ≫= λ _,
      (if wantReply then
         if MaxPendingChannelRequestsPerChannel (limits (s_config s))
              <=? u32 (Z.of_nat (size (ch_pendingRequests c)))
         then st_fail (NewError "per-channel pending request limit reached")
         else
           reservePendingChannelRequest ≫= λ _,
           chan_mod id (λ c, c <| ch_pendingRequests ::= (λ p, {[requestID]} ∪ p) |>)
       else mret tt) ≫= λ _,
      t ← spawn (TSend CtxUser (EChannelRequest (Some
            (MkChannelRequest (ch_peerID c) requestID typ wantReply payload)))
            AfterNone (KSendRequest id requestID wantReply));
      mret (Pending t)
  end.

Definition channel_CloseWrite (id : Z) : M CallResult :=
  s ← st_get;
  let c := chan s id in
  match channelErrorLocked s c with
  | Some e => st_fail e
  | None =>
    let close_to (st : channelState) :=
      chan_mod id (set_state st) ≫= λ _,
      t ← spawn (TSend CtxBackground (EChannelEof (ch_peerID c)) AfterNone
            (KCloseWrite id (ch_state c)));
      mret (Pending t) in
    match ch_state c with
    | channelOpen => close_to channelLocalEOF
    | channelRemoteEOF => close_to channelBothEOF
    | channelLocalEOF | channelBothEOF => mret (Returned (RetUnit (Ok tt)))
    | _ => st_fail errChannelClosed
    end
  end.

Definition channel_Close (id : Z) : M unit :=
  s ← st_get;
  let c := chan s id in
  match ch_state c with
  | channelClosing | channelClosed | channelFailed => mret tt
  | channelOpening =>
      chan_mod id (set_state channelFailed) ≫= λ _,
      removeChannel id ≫= λ _,
      channel_shutdown id errChannelClosed
  | _ =>
      chan_mod id (λ c, c <| ch_state := channelClosing |>) ≫= λ _,
      discardQueuedLocked id ≫= λ _,
      failPendingRequestsLocked id errChannelClosed ≫= λ _,
      chan_mod id signalLocked ≫= λ _,
      chan_cancel id errChannelClosed ≫= λ _,
      r ← st_try (sendEnvelopeAsync (EChannelClose (ch_peerID c)) true);
      match r with
      | Err e => shutdown (Some (Wrapped e "enqueue channel close")) ≫= λ _, st_fail e
      | Ok _ => chan_mod id (λ c, c <| ch_closeTimer := true |>)
      end
  end.

(** [awaitCloseTimeout] when the timer fires first. *)
Definition awaitCloseTimeout_fired (id : Z) : M unit :=
  chan_mod id (λ c, c <| ch_closeTimer := false |>) ≫= λ _,
  c ← chan_get id;
  if bool_decide (ch_state c = channelClosing) then
    chan_mod id (set_state channelClosed) ≫= λ _,
    removeChannel id
  else mret tt.

Definition abandonOpen (id : Z) (cause : error) : M unit :=
  c ← chan_get id;
  if bool_decide (ch_state c = channelOpening) then
    chan_mod id (λ c, signalLocked (c <| ch_state := channelFailed |> <| ch_openWait := false |>)) ≫= λ _,
    removeChannel id ≫= λ _,
    channel_shutdown id cause
  else st_try (channel_Close id) ≫= λ _, mret tt.

Definition session_Close : M unit := shutdown (Some context_Canceled).

Definition Activate : M unit := st_modify (λ s, s <| s_activated := true |>).

(** ** The dispatcher *)

Definition dispatcher_set (d : Dispatcher) : M unit := st_modify (λ s, s <| s_dispatcher := d |>).

Definition wg_Done : M unit := st_modify (λ s, s <| s_wg ::= Z.pred |>).

(** [task.dispatch] returned: go round the loop, or shut the session down. *)
Definition dispatcher_return (err : option error) : M unit :=
  match err with
  | None => dispatcher_set DspIdle
  | Some e => shutdown (Some e) ≫= λ _, dispatcher_set DspExited ≫= λ _, wg_Done
  end.

(** Runs the synchronous part of a dispatched task. *)
Definition dispatcher_run (m : M unit) : M unit :=
  r ← st_try m;
  match r with Ok _ => mret tt | Err e => dispatcher_return (Some e) end.

(** A task is taken from the queue, up to the call of the handler. *)
Definition dispatchLoop_take : M unit :=
  s ← st_get;
  match s_dispatchQueue s with
  | [] => mret tt
  | task :: rest =>
      st_modify (λ s, s <| s_dispatchQueue := rest |>) ≫= λ _,
      releaseQueueBudget 1 (task_size task) ≫= λ _,
      match task with
      | dispatchChannelOpen msg =>
          found ← lookupChannelByPeer (co_SenderChannelId msg);
          match found with
          | None => dispatcher_return
                      (Some (ProtocolError "pending channel disappeared during admission"))
          | Some id => dispatcher_set (DspChannelOpen msg id)
          end
      | dispatchGlobalRequest msg => dispatcher_set (DspGlobalRequest msg)
      end
  end.

(** [handleChannelOpen] from the handler's decision to its blocking send. *)
Definition handleChannelOpen (msg : ChannelOpen) (id : Z) (env : ChannelOpenDecision) : M unit :=
  s ← st_get;
  let decision := OnChannelOpen (s_handler s) env in
  match validateDecision (s_config s) decision with
  | Err e => removeChannel id ≫= λ _, channel_shutdown id e ≫= λ _, st_fail e
  | Ok _ =>
    if negb (d_OK decision) then
      removeChannel id ≫= λ _,
      channel_shutdown id errChannelClosed ≫= λ _,
      spawn (TSend CtxSession (EChannelOpenResult (Some (co_SenderChannelId msg,
        OpenReject (normalizeReject (d_Code decision) "channel-open-rejected")
                   (normalizeReject (d_Message decision) "channel open rejected")
                   (d_Payload decision)))) AfterNone KChannelOpenReject) ≫= λ _,
      dispatcher_set DspBlocked
    else
      chan_mod id (λ c, c <| ch_handler := normalizeChannelHandler (d_Handler decision) |>) ≫= λ _,
      if negb (bool_decide (ch_state (chan s id) = channelOpening)) then
        protocolErrorf "channel changed state during admission"
      else
        chan_mod id (set_state channelOpen) ≫= λ _,
        activateChannel id ≫= λ _,
        spawn (TSend CtxSession (EChannelOpenResult (Some (co_SenderChannelId msg,
          OpenSuccess id (InitialWindow (s_config s)) (MaxPacketSize (s_config s))
            (d_Payload decision)))) (AfterStartWorker id) (KHandleChannelOpen id)) ≫= λ _,
        dispatcher_set DspBlocked
  end.

(** [handleGlobalRequest] from the handler's response to its blocking send. *)
Definition handleGlobalRequest (msg : GlobalRequest) (env : Response) : M unit :=
  s ← st_get;
  let response := OnGlobalRequest (s_handler s) env in
  if negb (gr_WantReply msg) then dispatcher_return None
  else
    match validateResponse (s_config s) (r_Code response) (r_Message response) (r_Payload response) with
    | Err e => finishIncomingGlobal (gr_RequestId msg) (gr_WantReply msg) ≫= λ _, st_fail e
    | Ok _ =>
      let result :=
        if r_OK response then OpSuccess (r_Payload response)
        else OpReject (normalizeReject (r_Code response) "global-request-rejected")
               (normalizeReject (r_Message response) "global request rejected") (r_Payload response) in
      spawn (TSend CtxSession (EGlobalResult (Some (gr_RequestId msg, result))) AfterNone
        (KHandleGlobalRequest (gr_RequestId msg))) ≫= λ _,
      dispatcher_set DspBlocked
    end.

(** ** The channel worker *)

Definition worker_set (id : Z) (w : Worker) : M unit := chan_mod id (λ c, c <| ch_worker := w |>).

Definition worker_exit (id : Z) : M unit := worker_set id WkExited ≫= λ _, wg_Done.

Definition worker_return (id : Z) (err : option error) : M unit :=
  match err with
  | None => worker_set id WkIdle
  | Some e => shutdown (Some e) ≫= λ _, worker_exit id
  end.

(** The first half of [handleRemoteClose], up to the handler. *)
Definition handleRemoteClose (id : Z) : M unit :=
  failPendingRequestsLocked id errChannelClosed ≫= λ _,
  c ← chan_get id;
  worker_set id (WkOnClose (bool_decide (ch_frames c = []))).

(** An event is taken from the queue, up to the call of the handler.  [OnEOF]
    has no effect of its own on the channel. *)
Definition loop_take (id : Z) : M unit :=
  c ← chan_get id;
  match ch_events c with
  | [] => mret tt
  | event :: rest =>
      chan_mod id (λ c, c <| ch_events := rest |>) ≫= λ _,
      releaseQueuedLocked id 1 (event_size event) ≫= λ _,
      match event with
      | EventRequest msg _ => worker_set id (WkRequest msg)
      | EventEOF => worker_set id WkIdle
      | EventClose => handleRemoteClose id
      end
  end.

(** [handleRequest] from the handler's response to its blocking send. *)
Definition handleRequest (id : Z) (msg : ChannelRequest) (env : Response) : M unit :=
  s ← st_get;
  let c := chan s id in
  let response := OnRequest (ch_handler c) env in
  if negb (cr_WantReply msg) then worker_return id None
  else
    match validateResponse (s_config s) (r_Code response) (r_Message response) (r_Payload response) with
    | Err e =>
        finishIncomingRequest id (cr_RequestId msg) (cr_WantReply msg) ≫= λ _,
        worker_return id (Some e)
    | Ok _ =>
      let result :=
        if r_OK response then OpSuccess (r_Payload response)
        else OpReject (normalizeReject (r_Code response) "channel-request-rejected")
               (normalizeReject (r_Message response) "channel request rejected") (r_Payload response) in
      spawn (TSend (CtxChannel id)
        (EChannelResult (Some (ch_peerID c, cr_RequestId msg, result))) AfterNone
        (KHandleRequest id (cr_RequestId msg))) ≫= λ _,
      worker_set id WkBlocked
    end.

(** The second half of [handleRemoteClose]. *)
Definition handleRemoteClose_finish (id : Z) (cancelNow : bool) : M unit :=
  (if cancelNow then chan_cancel id errChannelClosed else mret tt) ≫= λ _,
  worker_set id WkIdle.

(** ** The writer *)

Definition writer_set (w : Writer) : M unit := st_modify (λ s, s <| s_writer := w |>).

(** [msg.result <- err] on the buffered channel, if the sender waits for it. *)
Definition deliver_result (err : option error) (w : outboundWrite) : outboundWrite :=
  if w_wantResult w then
    match w_result w with None => w <| w_result := Some err |> | Some _ => w end
  else w.

Definition write_mod (w : Z) (f : outboundWrite → outboundWrite) : M unit :=
  st_modify (λ s, s <| s_writes ::= alter f w |>).

(** A write leaves its queue: a canceled one is answered, another is started. *)
Definition writer_take (w : Z) : M unit :=
  s ← st_get;
  match s_writes s !! w with
  | None => mret tt
  | Some msg =>
      releaseQueueBudget 1 (w_size msg) ≫= λ _,
      if bool_decide (w_state msg = writeQueued) then
        write_mod w (λ m, m <| w_state := writeStarted |>) ≫= λ _,
        writer_set (WrSending w)
      else
        run_after (w_after msg) (Some context_Canceled) ≫= λ _,
        write_mod w (deliver_result (Some context_Canceled)) ≫= λ _,
        writer_set WrIdle
  end.

Definition take_control : M unit :=
  s ← st_get;
  match s_controlQueue s with
  | w :: rest => st_modify (λ s, s <| s_controlQueue := rest |>) ≫= λ _, writer_take w
  | [] => if s_queuesClosed s
          then st_modify (λ s, s <| s_controlNil := true |>) ≫= λ _, writer_set WrIdle
          else mret tt
  end.

Definition take_outbound : M unit :=
  s ← st_get;
  match s_outboundQueue s with
  | w :: rest => st_modify (λ s, s <| s_outboundQueue := rest |>) ≫= λ _, writer_take w
  | [] => if s_queuesClosed s
          then st_modify (λ s, s <| s_outboundNil := true |>) ≫= λ _, writer_set WrIdle
          else mret tt
  end.

Definition writer_exit : M unit :=
  writer_set WrExited ≫= λ _,
  st_modify (λ s, s <| s_writerDone := true |>) ≫= λ _, wg_Done.

(** The loop condition and the outer, non-blocking [select]. *)
Definition writerLoop_poll : M unit :=
  s ← st_get;
  if s_controlNil s && s_outboundNil s then writer_exit
  else if negb (s_controlNil s) && (negb (bool_decide (s_controlQueue s = [])) || s_queuesClosed s)
  then take_control
  else writer_set WrSelect.

(** The inner [select]: either queue, as the runtime picks. *)
Definition writerLoop_select (control : bool) : M unit :=
  s ← st_get;
  if control
  then if s_controlNil s then mret tt else take_control
  else if s_outboundNil s then mret tt else take_outbound.

(** [wire.SendProto] returned [err]. *)
Definition writerLoop_sent (w : Z) (err : option error) : M unit :=
  s ← st_get;
  match s_writes s !! w with
  | None => mret tt
  | Some msg =>
      let err := match err with None => None | Some e => Some (Wrapped e "send session envelope") end in
      run_after (w_after msg) err ≫= λ _,
      write_mod w (λ m, deliver_result err (m <| w_state := writeDone |>)) ≫= λ _,
      match err with
      | Some e => shutdown (Some e) ≫= λ _, writer_exit
      | None => st_modify (λ s, s <| s_sent ::= (λ l, l ++ [(w, w_envelope msg)]) |>) ≫= λ _,
                writer_set WrIdle
      end
  end.

(** ** Goroutines *)

Definition thread_set (t : Z) (th : Thread) : M unit :=
  st_modify (λ s, s <| s_threads ::= <[t := th]> |>).

(** The code after a blocking [sendEnvelope] returned [err]. *)
Definition run_cont (t : Z) (err : option error) (k : Cont) : M unit :=
  match k with
  | KOpenChannel id =>
      match err with
      | Some e => removeChannel id ≫= λ _, channel_shutdown id e ≫= λ _,
                  thread_set t (TDone (RetChannel (Err e)))
      | None => thread_set t (TOpenWait id)
      end
  | KSendGlobalRequest rid wantReply =>
      match err with
      | Some e => (if wantReply then removeGlobalWaiter rid else mret tt) ≫= λ _,
                  thread_set t (TDone (RetResponse (Err e)))
      | None => thread_set t (if wantReply then TGlobalWait rid else TDone (RetResponse (Ok None)))
      end
  | KSend id size =>
      match err with
      | Some e =>
          c ← chan_get id;
          (if size <=? MaxUint32 - ch_remoteWindow c then
             chan_mod id (add_window size)
           else mret tt) ≫= λ _,
          thread_set t (TDone (RetUnit (Err e)))
      | None => thread_set t (TDone (RetUnit (Ok tt)))
      end
  | KRecv frame =>
      (match err with
       | Some e => shutdown (Some (Wrapped e "send channel window adjust"))
       | None => mret tt
       end) ≫= λ _,
      thread_set t (TDone (RetFrame (Ok frame)))
  | KSendRequest id rid wantReply =>
      match err with
      | Some e => (if wantReply then removePendingRequest id rid else mret tt) ≫= λ _,
                  thread_set t (TDone (RetResponse (Err e)))
      | None => thread_set t (if wantReply then TRequestWait id rid else TDone (RetResponse (Ok None)))
      end
  | KCloseWrite id previous =>
      match err with
      | Some e =>
          c ← chan_get id;
          (if bool_decide (ch_state c = channelLocalEOF) || bool_decide (ch_state c = channelBothEOF) then
             chan_mod id (set_state previous)
           else mret tt) ≫= λ _,
          thread_set t (TDone (RetUnit (Err e)))
      | None => thread_set t (TDone (RetUnit (Ok tt)))
      end
  | KHandleChannelOpen id =>
      (match err with
       | Some e => removeChannel id ≫= λ _, channel_shutdown id e
       | None => mret tt
       end) ≫= λ _,
      thread_set t (TDone (RetUnit (Ok tt))) ≫= λ _,
      dispatcher_return err
  | KChannelOpenReject =>
      thread_set t (TDone (RetUnit (Ok tt))) ≫= λ _,
      dispatcher_return err
  | KHandleGlobalRequest rid =>
      finishIncomingGlobal rid true ≫= λ _,
      thread_set t (TDone (RetUnit (Ok tt))) ≫= λ _,
      dispatcher_return err
  | KHandleRequest id rid =>
      finishIncomingRequest id rid true ≫= λ _,
      thread_set t (TDone (RetUnit (Ok tt))) ≫= λ _,
      worker_return id err
  end.

(** Which case of a [select] a goroutine takes: a value arrived, its caller's
    context is done with [err], or the session's (channel's) context is. *)
Inductive Choice := ChooseValue | ChooseCtx (err : error) | ChooseDone.

(** Whether the context of a call can be done. *)
Definition ctx_done (s : Session) (c : CtxRef) : bool :=
  match c with
  | CtxUser => true
  | CtxBackground => false
  | CtxSession => bool_decide (is_Some (s_ctx s))
  | CtxChannel id => bool_decide (is_Some (ch_cause s (chan s id)))
  end.

(** [msg.state.CompareAndSwap(writeQueued, writeCanceled)]. *)
Definition cancel_write (t w : Z) (err : error) (k : Cont) : M unit :=
  s ← st_get;
  match s_writes s !! w with
  | None => mret tt
  | Some msg =>
      if bool_decide (w_state msg = writeQueued) then
        write_mod w (λ m, m <| w_state := writeCanceled |>) ≫= λ _,
        thread_set t (TCont (Some err) k)
      else mret tt
  end.

(** One step of a goroutine. *)
Definition thread_step (t : Z) (choice : Choice) : M unit :=
  s ← st_get;
  match s_threads s !! t with
  | None | Some (TDone _) => mret tt
  | Some (TSend ctx frame after k) =>
      r ← st_try (sendEnvelopeAfter_enqueue frame after);
      thread_set t (match r with Ok w => TWait ctx w k | Err e => TCont (Some e) k end)
  | Some (TWait ctx w k) =>
      match choice with
      | ChooseValue =>
          match s_writes s !! w with
          | Some msg => match w_result msg with
                        | Some err => thread_set t (TCont err k)
                        | None => mret tt
                        end
          | None => mret tt
          end
      | ChooseCtx err => if ctx_done s ctx then cancel_write t w err k else mret tt
      | ChooseDone => match s_ctx s with
                      | Some _ => cancel_write t w (closeCause s) k
                      | None => mret tt
                      end
      end
  | Some (TCont err k) => run_cont t err k
  | Some (TOpenWait id) =>
      match choice with
      | ChooseValue =>
          match ch_openResult (chan s id) with
          | Some None => thread_set t (TDone (RetChannel (Ok id)))
          | Some (Some e) => thread_set t (TDone (RetChannel (Err e)))
          | None => mret tt
          end
      | ChooseCtx err => abandonOpen id err ≫= λ _, thread_set t (TDone (RetChannel (Err err)))
      | ChooseDone => match s_ctx s with
                      | Some _ => abandonOpen id (closeCause s) ≫= λ _,
                                  thread_set t (TDone (RetChannel (Err (closeCause s))))
                      | None => mret tt
                      end
      end
  | Some (TGlobalWait rid) =>
      match choice with
      | ChooseValue =>
          match s_globalReplies s !! rid with
          | Some r => thread_set t (TDone (RetResponse (match r with Ok a => Ok (Some a) | Err e => Err e end)))
          | None => mret tt
          end
      | ChooseCtx err => removeGlobalWaiter rid ≫= λ _, thread_set t (TDone (RetResponse (Err err)))
      | ChooseDone => match s_ctx s with
                      | Some _ => removeGlobalWaiter rid ≫= λ _,
                                  thread_set t (TDone (RetResponse (Err (closeCause s))))
                      | None => mret tt
                      end
      end
  | Some (TRequestWait id rid) =>
      match choice with
      | ChooseValue =>
          match ch_replies (chan s id) !! rid with
          | Some r => thread_set t (TDone (RetResponse (match r with Ok a => Ok (Some a) | Err e => Err e end)))
          | None => mret tt
          end
      | ChooseCtx err => removePendingRequest id rid ≫= λ _, thread_set t (TDone (RetResponse (Err err)))
      | ChooseDone =>
          match ch_cause s (chan s id) with
          | Some _ =>
              removePendingRequest id rid ≫= λ _,
              s' ← st_get;
              thread_set t (TDone (RetResponse (match channelErrorLocked s' (chan s' id) with
                                                | Some e => Err e
                                                | None => Ok None
                                                end)))
          | None => mret tt
          end
      end
  end.
End ops.
