(* ===== verification/SessionSteps.v ===== *)
(** * The session multiplexer: executions

    [Prepare] and [Bind] build the initial state; [exec] runs one atomic step
    of one goroutine, the inputs of the environment (messages, the results of
    the connection, the answers of the handlers, the timers, the cancellation
    of contexts) being part of the [Action].  A step that is not enabled leaves
    the state as it is.  [reachable] closes the initial states under all
    interleavings. *)

From S2P Require Import Prelude SessionConfig SessionTypes SessionOps.

Inductive Action :=
  | AActivate
  | AClose
  | AParentDone (cause : error)
  | AOpenChannel (typ : string) (payload : bytes) (handler : option HandlerRef)
  | ASendGlobalRequest (typ : string) (payload : bytes) (wantReply : bool)
  | ASend (ch : Z) (frame : bytes) (wake : Wake)
  | ARecv (ch : Z) (wake : Wake)
  | ASendRequest (ch : Z) (typ : string) (payload : bytes) (wantReply : bool)
  | ACloseWrite (ch : Z)
  | ACloseChannel (ch : Z)
  | ACloseTimer (ch : Z)
  | AReceiverStart
  | AReceive (frame : Envelope)
  | AReceiveError (err : error)
  | ADispatcherStart
  | ADispatchTake
  | ADecision (d : ChannelOpenDecision)
  | AGlobalResponse (r : Response)
  | ADispatcherDone
  | AWriterStart
  | AWriterPoll
  | AWriterSelect (control : bool)
  | AWriterSent (err : option error)
  | AWorkerStart (ch : Z)
  | AWorkerOpened (ch : Z)
  | AWorkerTake (ch : Z)
  | AWorkerResponse (ch : Z) (r : Response)
  | AWorkerClosed (ch : Z)
  | AWorkerDone (ch : Z)
  | AThread (t : Z) (choice : Choice)
  | ASpawned
  | AFinalizeClose (timeout : bool)
  | AFinalizeDone.

Section exec.
Context `{ProtoSize}.

(** A call on a channel object the caller holds. *)
Definition on_channel {A} (id : Z) (dflt : A) (m : Channel → M A) : M A :=
  s ← st_get;
  match s_store s !! id with None => mret dflt | Some c => m c end.

(** [waitForActivation]: which of its two cases is ready. *)
Definition waitForActivation (s : Session) : option bool :=
  if s_activated s then Some true
  else match s_ctx s with Some _ => Some false | None => None end.

Definition receiver_exit : M unit :=
  st_modify (λ s, s <| s_receiver := RcvExited |>) ≫= λ _, wg_Done.

Definition dispatcher_exit : M unit := dispatcher_set DspExited ≫= λ _, wg_Done.

Definition receiverLoop_start : M unit :=
  s ← st_get;
  match s_receiver s, waitForActivation s with
  | RcvActivation, Some true => st_modify (λ s, s <| s_receiver := RcvRunning |>)
  | RcvActivation, Some false => receiver_exit
  | _, _ => mret tt
  end.

(** [ReceiveProto] delivered a frame. *)
Definition receiverLoop_frame (frame : Envelope) : M unit :=
  s ← st_get;
  match s_receiver s with
  | RcvRunning =>
      ok ← shutdown_on_error (routeEnvelope frame);
      if (ok : bool) then mret tt else receiver_exit
  | _ => mret tt
  end.

(** [ReceiveProto] failed. *)
Definition receiverLoop_error (err : error) : M unit :=
  s ← st_get;
  match s_receiver s with
  | RcvRunning =>
      shutdown (if err_is err io_EOF then None
                else match s_ctx s with
                     | Some _ => Some (closeCause s)
                     | None => Some (Wrapped err "receive session frame")
                     end) ≫= λ _, receiver_exit
  | _ => mret tt
  end.

Definition dispatchLoop_start : M unit :=
  s ← st_get;
  match s_dispatcher s, waitForActivation s with
  | DspActivation, Some true => dispatcher_set DspIdle
  | DspActivation, Some false => dispatcher_exit
  | _, _ => mret tt
  end.

(** The second case of the dispatcher's [select]. *)
Definition dispatchLoop_done : M unit :=
  s ← st_get;
  match s_dispatcher s, s_ctx s with
  | DspIdle, Some _ => dispatcher_exit
  | _, _ => mret tt
  end.

Definition writerLoop_start : M unit :=
  s ← st_get;
  match s_writer s, waitForActivation s with
  | WrActivation, Some true => writer_set WrIdle
  | WrActivation, Some false => writer_exit
  | _, _ => mret tt
  end.

(** [Channel.loop] up to the call of [OnOpen]. *)
Definition loop_start (id : Z) (c : Channel) : M unit :=
  s ← st_get;
  match ch_worker c, waitForActivation s with
  | WkActivation, Some true =>
      match ch_cause s c with
      | Some _ => worker_exit id
      | None => worker_set id WkOnOpen
      end
  | WkActivation, Some false => worker_exit id
  | _, _ => mret tt
  end.

(** The [ctx.Done] case of the worker's [select]. *)
Definition loop_done (id : Z) (c : Channel) : M unit :=
  s ← st_get;
  match ch_worker c, ch_cause s c with
  | WkIdle, Some _ => worker_exit id
  | _, _ => mret tt
  end.

(** [finalize] up to the closing of the connection: after a protocol error it
    first waits for the writer or the timer. *)
Definition finalize_close (timeout : bool) : M unit :=
  s ← st_get;
  match s_finalize s with
  | None => mret tt
  | Some cause =>
      let wait := match cause with Some e => is_protocolError e | None => false end in
      if wait && negb (s_writerDone s) && negb timeout then mret tt
      else st_modify (λ s, s <| s_connClosed := true |>)
  end.

(** [s.wg.Wait(); close(s.done)]. *)
Definition finalize_done : M unit :=
  s ← st_get;
  if s_connClosed s && (s_wg s =? 0) then st_modify (λ s, s <| s_done := true |>) else mret tt.

Definition ret_unit (m : M unit) : M CallResult :=
  m ≫= λ _, mret (Returned (RetUnit (Ok tt))).

Definition exec (a : Action) : M CallResult :=
  match a with
  | AActivate => ret_unit Activate
  | AClose => ret_unit session_Close
  | AParentDone cause =>
      ret_unit (session_cancel cause ≫= λ _,
                st_modify (λ s, s <| s_spawned ::= (λ l, l ++ [FromParent cause]) |>))
  | AOpenChannel typ payload h => OpenChannelWithHandler typ payload h
  | ASendGlobalRequest typ payload w => SendGlobalRequest typ payload w
  | ASend id frame wake => on_channel id Blocked (λ _, channel_Send id frame wake)
  | ARecv id wake => on_channel id Blocked (λ _, channel_Recv id wake)
  | ASendRequest id typ payload w => on_channel id Blocked (λ _, channel_SendRequest id typ payload w)
  | ACloseWrite id => on_channel id Blocked (λ _, channel_CloseWrite id)
  | ACloseChannel id => ret_unit (on_channel id tt (λ _, channel_Close id))
  | ACloseTimer id =>
      ret_unit (on_channel id tt (λ c, if ch_closeTimer c then awaitCloseTimeout_fired id else mret tt))
  | AReceiverStart => ret_unit receiverLoop_start
  | AReceive frame => ret_unit (receiverLoop_frame frame)
  | AReceiveError err => ret_unit (receiverLoop_error err)
  | ADispatcherStart => ret_unit dispatchLoop_start
  | ADispatchTake =>
      ret_unit (s ← st_get; match s_dispatcher s with DspIdle => dispatchLoop_take | _ => mret tt end)
  | ADecision d =>
      ret_unit (s ← st_get; match s_dispatcher s with
                            | DspChannelOpen msg id => dispatcher_run (handleChannelOpen msg id d)
                            | _ => mret tt
                            end)
  | AGlobalResponse r =>
      ret_unit (s ← st_get; match s_dispatcher s with
                            | DspGlobalRequest msg => dispatcher_run (handleGlobalRequest msg r)
                            | _ => mret tt
                            end)
  | ADispatcherDone => ret_unit dispatchLoop_done
  | AWriterStart => ret_unit writerLoop_start
  | AWriterPoll => ret_unit (s ← st_get; match s_writer s with WrIdle => writerLoop_poll | _ => mret tt end)
  | AWriterSelect control =>
      ret_unit (s ← st_get; match s_writer s with WrSelect => writerLoop_select control | _ => mret tt end)
  | AWriterSent err =>
      ret_unit (s ← st_get; match s_writer s with WrSending w => writerLoop_sent w err | _ => mret tt end)
  | AWorkerStart id => ret_unit (on_channel id tt (loop_start id))
  | AWorkerOpened id =>
      ret_unit (on_channel id tt (λ c, match ch_worker c with WkOnOpen => worker_set id WkIdle | _ => mret tt end))
  | AWorkerTake id =>
      ret_unit (on_channel id tt (λ c, match ch_worker c with WkIdle => loop_take id | _ => mret tt end))
  | AWorkerResponse id r =>
      ret_unit (on_channel id tt (λ c, match ch_worker c with WkRequest msg => handleRequest id msg r | _ => mret tt end))
  | AWorkerClosed id =>
      ret_unit (on_channel id tt (λ c, match ch_worker c with WkOnClose now => handleRemoteClose_finish id now | _ => mret tt end))
  | AWorkerDone id => ret_unit (on_channel id tt (loop_done id))
  | AThread t choice => ret_unit (thread_step t choice)
  | ASpawned =>
      ret_unit (s ← st_get; match s_spawned s with
                            | [] => mret tt
                            | g :: rest => st_modify (λ s, s <| s_spawned := rest |>) ≫= λ _,
                                           shutdown (Some (spawned_error g))
                            end)
  | AFinalizeClose timeout => ret_unit (finalize_close timeout)
  | AFinalizeDone => ret_unit finalize_done
  end.

(** [Prepare] and [Bind]: the three loops are started and counted in [wg]. *)
Definition new_session (cfg : Config) (handler : option HandlerRef) : Session :=
  MkSession cfg (normalizeHandler handler) None 0 ∅ ∅ ∅ 0 0 0 ∅ ∅ ∅ 0 None None false
    0 0 false [] [] [] ∅ 0 false false false 3 false false None [] RcvActivation DspActivation
    WrActivation false false ∅ 0 [].

Definition Prepare (cfg : Config) (handler : option HandlerRef) : res (Config * option HandlerRef) :=
  wrap_err "validate session mux config" (config_Validate cfg) ≫= λ _,
  Ok (config_withDefaults cfg, Some (normalizeHandler handler)).

Definition Bind (prepared : Config * option HandlerRef) (parentCause : option error) : res Session :=
  match parentCause with
  | Some e => Err e
  | None => Ok (new_session prepared.1 prepared.2)
  end.

(** The ranges of the message fields' Go types, and frames no longer than the
    transport can deliver. *)
Definition envelope_wf (e : Envelope) : Prop :=
  match e with
  | EChannelOpen (Some m) =>
      is_u64 (co_SenderChannelId m) ∧ is_u32 (co_InitialWindow m) ∧ is_u32 (co_MaxPacketSize m)
  | EChannelOpenResult (Some (_, OpenSuccess sender window maxPacket _)) =>
      is_u64 sender ∧ is_u32 window ∧ is_u32 maxPacket
  | EChannelData (Some (_, data)) => blen data <= MaxUint32
  | EChannelWindowAdjust (Some (_, n)) => is_u32 n
  | _ => True
  end.

Definition action_wf (a : Action) : Prop :=
  match a with AReceive e => envelope_wf e | _ => True end.

Inductive reachable (cfg : Config) : Session → Prop :=
  | reach_init h : reachable cfg (new_session cfg h)
  | reach_step s a : reachable cfg s → action_wf a → reachable cfg (exec a s).1.

(** Executable runs, for concrete traces. *)
Fixpoint run (l : list Action) (s : Session) : Session :=
  match l with [] => s | a :: l => run l (exec a s).1 end.

Lemma run_reachable cfg l s : reachable cfg s → Forall action_wf l → reachable cfg (run l s).
Proof.
  revert s. induction l as [|a l IH]; intros s Hs Hl; [done|].
  apply Forall_cons in Hl as [??]. simpl. apply IH; [by apply reach_step|done].
Qed.

(** An invariant of the initial states that every action preserves. *)
Lemma reachable_ind_inv cfg (I : Session → Prop) :
  (∀ h, I (new_session cfg h)) →
  (∀ a, action_wf a → preserves I (exec a)) →
  ∀ s, reachable cfg s → I s.
Proof. intros Hi Hp s Hs. induction Hs; [done|]. by apply Hp. Qed.
End exec.

(** ** Concrete executions *)

(** A size function for concrete executions. *)
Definition toy_size : ProtoSize :=
  {| size_envelope _ := 1; size_open _ := 1; size_global _ := 1; size_request _ := 1 |}.

Lemma toy_size_laws : @ProtoSizeLaws toy_size.
Proof. constructor; cbn; lia. Qed.

Definition default_config : Config := config_withDefaults zero_config.

Lemma default_config_ok : config_ok default_config.
Proof. unfold config_ok, limits_ok. vm_compute. repeat split; discriminate. Qed.

(** The peer opens a channel and the handler accepts it; the channel sends the
    frame ["ab"] and receives one byte. *)
Definition accept_all : ChannelOpenDecision := MkDecision true [] "" "" (Some UserHandler).

Definition start_loops : list Action := [AActivate; AReceiverStart; ADispatcherStart; AWriterStart].

Definition incoming_open (peer : Z) : list Action :=
  [AReceive (EChannelOpen (Some (MkChannelOpen "command" peer 1000 100 []))); ADispatchTake; ADecision accept_all].

(** The writer sends one data write and the goroutine [t] gets its result. *)
Definition flush (t : Z) : list Action :=
  [AThread t ChooseValue; AWriterPoll; AWriterSelect false; AWriterSent None;
   AThread t ChooseValue; AThread t ChooseValue].

Definition open_trace : list Action := start_loops ++ incoming_open 7 ++ flush 0.

Definition open_session : Session :=
  @run toy_size open_trace (new_session default_config (Some UserHandler)).

Lemma open_session_reachable : @reachable toy_size default_config open_session.
Proof.
  apply run_reachable; [apply reach_init|].
  repeat (apply Forall_cons_2; [cbn; unfold is_u32, is_u64, MaxUint32, MaxUint64; try lia; done|]).
  apply Forall_nil_2.
Qed.
