(* ===== verification/SessionChannel.v ===== *)
(** * A channel's life

    [edit] lists the atomic effects the operations have on one channel object,
    each with the condition the code checks before it.  [chan_inv] is the
    invariant of a channel object; every edit preserves it.  The traversal at
    the end shows that a step of the system changes each channel by edits only,
    so the theorems about a channel's states, windows and queues follow by
    induction on edits. *)

From S2P Require Import Prelude SessionConfig SessionTypes SessionOps SessionSteps.

Definition is_terminal (st : channelState) : bool :=
  match st with channelClosing | channelClosed | channelFailed => true | _ => false end.

Definition frames_bytes (l : list bytes) : Z := list_sum blen l.
Definition events_bytes (l : list channelEvent) : Z := list_sum event_size l.

(** The queue charge of a channel is what it holds, unless it was discarded. *)
Definition queue_exact (c : Channel) : Prop :=
  ch_queuedFrames c = blen (ch_frames c) + blen (ch_events c) ∧
  ch_queuedBytes c = frames_bytes (ch_frames c) + events_bytes (ch_events c).

Definition queue_discarded (c : Channel) : Prop :=
  is_terminal (ch_state c) = true ∧ ch_queuedFrames c = 0 ∧ ch_queuedBytes c = 0 ∧ ch_frames c = [].

Record chan_inv (cfg : Config) (c : Channel) : Prop := {
  ci_queue : queue_exact c ∨ queue_discarded c;
  ci_frames_max : ch_queuedFrames c <= MaxQueuedFramesPerChannel (limits cfg);
  ci_bytes_max : ch_queuedBytes c <= MaxQueuedBytesPerChannel (limits cfg);
  ci_events_nonneg : Forall (λ e, 0 <= event_size e) (ch_events c);
  ci_frames_pos : Forall (λ f, 0 < blen f <= MaxPacketSize cfg) (ch_frames c);
  ci_local : 0 <= ch_localWindow c;
  ci_window : ch_localWindow c + frames_bytes (ch_frames c) <= InitialWindow cfg;
  ci_opening : ch_state c = channelOpening → ch_frames c = [] ∧ ch_events c = [];
  ci_maxLocal : 0 <= ch_maxLocalPacket c <= MaxPacketSize cfg;
  ci_remote : is_u32 (ch_remoteWindow c);
  ci_maxRemote : is_u32 (ch_maxRemotePacket c);
  ci_pending_window : 0 <= ch_pendingWindowBytes c < WindowAdjustThreshold cfg;
  ci_next : 0 <= ch_nextRequestID c <= MaxUint64;
  ci_requests : ∀ r, r ∈ ch_pendingRequests c → 0 <= r < ch_nextRequestID c;
  ci_requests_max :
    Z.of_nat (size (ch_pendingRequests c)) <= MaxPendingChannelRequestsPerChannel (limits cfg);
}.

(** The transitions of [channelState] that the operations make. *)
Inductive edge : channelState → channelState → Prop :=
  | edge_admit : edge channelOpening channelOpen
  | edge_closeWrite_open : edge channelOpen channelLocalEOF
  | edge_closeWrite_eof : edge channelRemoteEOF channelBothEOF
  | edge_remoteEOF_open : edge channelOpen channelRemoteEOF
  | edge_remoteEOF_eof : edge channelLocalEOF channelBothEOF
  | edge_rollback st st' :
      st = channelLocalEOF ∨ st = channelBothEOF →
      st' = channelOpen ∨ st' = channelRemoteEOF → edge st st'
  | edge_close st : allowsRequests st = true → edge st channelClosing
  | edge_peer_close st : allowsRequests st = true → edge st channelClosed
  | edge_close_ack : edge channelClosing channelClosed
  | edge_fail st : st ≠ channelClosed → edge st channelFailed.

(** The fields the invariant and the theorems speak about. *)
Definition tracked (c : Channel) :=
  (ch_state c, ch_localWindow c, ch_remoteWindow c, (ch_maxLocalPacket c, ch_maxRemotePacket c, ch_peerID c), ch_pendingWindowBytes c,
   ch_nextRequestID c, ch_pendingRequests c, (ch_frames c, ch_events c),
   (ch_queuedFrames c, ch_queuedBytes c), ch_stateGen c).

Definition charge (frames bytes : Z) (c : Channel) : Channel :=
  c <| ch_queuedFrames := u32 (ch_queuedFrames c + frames) |>
    <| ch_queuedBytes := u64 (ch_queuedBytes c + bytes) |>.

Definition discharge (frames bytes : Z) (c : Channel) : Channel :=
  let af := if ch_queuedFrames c <? frames then ch_queuedFrames c else frames in
  let ab := if ch_queuedBytes c <? bytes then ch_queuedBytes c else bytes in
  c <| ch_queuedFrames := ch_queuedFrames c - af |> <| ch_queuedBytes := ch_queuedBytes c - ab |>.

Definition push_event (e : channelEvent) (c : Channel) : Channel :=
  c <| ch_events ::= (λ q, q ++ [e]) |>.

Definition has_room (cfg : Config) (bytes : Z) (c : Channel) : Prop :=
  1 <= MaxQueuedFramesPerChannel (limits cfg) - ch_queuedFrames c ∧
  bytes <= MaxQueuedBytesPerChannel (limits cfg) - ch_queuedBytes c.

(** What a step permits: data that is queued on a channel, frames that are read, the
    acceptance of a channel, new channels. *)
Record permits := MkPermits {
  pm_data : Z → bytes → Prop;
  pm_read : Z → Prop;
  pm_open : Z → Z → Z → Z → Prop;
  pm_new : Channel → Prop;
}.

Inductive edit (cfg : Config) (P : permits) (id : Z) (c : Channel) : Channel → Prop :=
  | ed_other c' : tracked c' = tracked c → edit cfg P id c c'
  | ed_signal : edit cfg P id c (signalLocked c)
  | ed_state st :
      edge (ch_state c) st → (is_terminal (ch_state c) = true → is_terminal st = true) →
      edit cfg P id c (c <| ch_state := st |>)
  | ed_open sender window maxPacket :
      pm_open P id sender window maxPacket → ch_state c = channelOpening → is_u32 window → is_u32 maxPacket →
      edit cfg P id c (accept_open cfg sender window maxPacket c)
  | ed_discard :
      is_terminal (ch_state c) = true →
      edit cfg P id c (c <| ch_queuedFrames := 0 |> <| ch_queuedBytes := 0 |> <| ch_frames := [] |>)
  | ed_data frame :
      pm_data P id frame → canReceiveData (ch_state c) = true → 0 < blen frame <= ch_maxLocalPacket c →
      blen frame <= ch_localWindow c → has_room cfg (blen frame) c →
      edit cfg P id c (accept_data (blen frame) frame (charge 1 (blen frame) c))
  | ed_event e :
      allowsRequests (ch_state c) = true → 0 <= event_size e → has_room cfg (event_size e) c →
      edit cfg P id c (push_event e (charge 1 (event_size e) c))
  | ed_peer_close :
      allowsRequests (ch_state c) = true → has_room cfg 1 c →
      edit cfg P id c (push_event EventClose (charge 1 1 (set_state channelClosed c)))
  | ed_recv frame rest :
      pm_read P id → ch_frames c = frame :: rest →
      edit cfg P id c (consume_window (WindowAdjustThreshold cfg) (blen frame)
                    (discharge 1 (blen frame) (c <| ch_frames := rest |>)))
  | ed_pop_event e rest :
      ch_events c = e :: rest →
      edit cfg P id c (discharge 1 (event_size e) (c <| ch_events := rest |>))
  | ed_take_window n : 0 <= n <= ch_remoteWindow c → edit cfg P id c (take_window n c)
  | ed_add_window n : 0 <= n <= MaxUint32 - ch_remoteWindow c → edit cfg P id c (add_window n c)
  | ed_next_request :
      ch_nextRequestID c < MaxUint64 → edit cfg P id c (c <| ch_nextRequestID ::= Z.succ |>)
  | ed_add_request r :
      0 <= r < ch_nextRequestID c →
      Z.of_nat (size (ch_pendingRequests c)) < MaxPendingChannelRequestsPerChannel (limits cfg) →
      edit cfg P id c (c <| ch_pendingRequests ::= (λ p, {[r]} ∪ p) |>)
  | ed_drop_requests p :
      p ⊆ ch_pendingRequests c → edit cfg P id c (c <| ch_pendingRequests := p |>).

(** ** Edits preserve the invariant *)

Section edits.
Context (cfg : Config) (Hcfg : config_ok cfg).

Lemma cfg_frames_bound : 0 < MaxQueuedFramesPerChannel (limits cfg) <= 4096.
Proof. destruct Hcfg as (?&?&?&?&?&?&Hl&?). unfold limits_ok in Hl. lia. Qed.

Lemma cfg_bytes_bound : 0 < MaxQueuedBytesPerChannel (limits cfg) <= 8388608.
Proof. destruct Hcfg as (?&?&?&?&?&?&Hl&?). unfold limits_ok in Hl. lia. Qed.

Lemma cfg_window_bound :
  0 < MaxPacketSize cfg <= InitialWindow cfg ∧ InitialWindow cfg < MaxUint32 ∧
  0 < WindowAdjustThreshold cfg <= InitialWindow cfg.
Proof. destruct Hcfg as (?&?&?&?&?). lia. Qed.

Lemma frames_bytes_nonneg l : 0 <= frames_bytes l.
Proof. apply list_sum_nonneg. intros. apply blen_nonneg. Qed.

Lemma events_bytes_nonneg l : Forall (λ e, 0 <= event_size e) l → 0 <= events_bytes l.
Proof. intros Hl. apply list_sum_nonneg. intros x Hx. by eapply Forall_forall in Hl. Qed.

Lemma queue_nonneg c : chan_inv cfg c → 0 <= ch_queuedFrames c ∧ 0 <= ch_queuedBytes c.
Proof.
  intros [[[-> ->]|(_&->&->&_)] _ _ He _ _ _ _ _ _ _ _ _ _]; [|lia].
  pose proof (frames_bytes_nonneg (ch_frames c)). pose proof (events_bytes_nonneg _ He).
  unfold blen. lia.
Qed.

(** With room, charging a non-discarded channel does not wrap. *)
Lemma charge_eq c n :
  chan_inv cfg c → 0 <= n → has_room cfg n c →
  charge 1 n c = c <| ch_queuedFrames := ch_queuedFrames c + 1 |>
                   <| ch_queuedBytes := ch_queuedBytes c + n |>.
Proof.
  intros Hc Hn [H1 H2]. pose proof (queue_nonneg c Hc). pose proof cfg_frames_bound.
  pose proof cfg_bytes_bound. unfold charge.
  rewrite u32_id, u64_id; [done| |]; unfold is_u32, is_u64, MaxUint32, MaxUint64; lia.
Qed.

Lemma queue_not_discarded c :
  chan_inv cfg c → is_terminal (ch_state c) = false → queue_exact c.
Proof. intros Hc Ht. destruct (ci_queue _ _ Hc) as [?|[Ht' _]]; [done|congruence]. Qed.

Lemma allowsRequests_live st : allowsRequests st = true → is_terminal st = false.
Proof. by destruct st. Qed.

Lemma canReceiveData_live st : canReceiveData st = true → allowsRequests st = true.
Proof. by destruct st. Qed.

Lemma edge_opening st st' : edge st st' → st' ≠ channelOpening.
Proof. inversion 1; naive_solver. Qed.

Ltac open_inv Hc := let H := fresh in pose proof Hc as H; destruct H; constructor; cbn -[list_sum blen Z.of_nat size] in *; try done.

Lemma edit_inv_state c st :
  chan_inv cfg c → edge (ch_state c) st → (is_terminal (ch_state c) = true → is_terminal st = true) →
  chan_inv cfg (c <| ch_state := st |>).
Proof.
  intros Hc He Ht. open_inv Hc.
  - destruct ci_queue0 as [?|(?&?)]; [by left|right]. repeat split; naive_solver.
  - intros ->. by apply edge_opening in He.
Qed.

Lemma edit_inv_open c sender window maxPacket :
  chan_inv cfg c → ch_state c = channelOpening → is_u32 window → is_u32 maxPacket →
  chan_inv cfg (accept_open cfg sender window maxPacket c).
Proof.
  intros Hc Hs Hw Hmp. pose proof cfg_window_bound. open_inv Hc.
  - destruct ci_queue0 as [?|(Ht&?)]; [by left|]. by rewrite Hs in Ht.
  - lia.
  - destruct (ci_opening0 Hs) as [-> _]. unfold frames_bytes. rewrite list_sum_nil. lia.
  - lia.
Qed.

Lemma edit_inv_discard c :
  chan_inv cfg c → is_terminal (ch_state c) = true →
  chan_inv cfg (c <| ch_queuedFrames := 0 |> <| ch_queuedBytes := 0 |> <| ch_frames := [] |>).
Proof.
  intros Hc Ht. pose proof cfg_frames_bound. pose proof cfg_bytes_bound.
  pose proof (frames_bytes_nonneg (ch_frames c)). open_inv Hc.
  all: first [by right | lia | by constructor | (unfold frames_bytes; rewrite list_sum_nil; lia) | (intros E; by rewrite E in Ht) | idtac].
Qed.

Lemma edit_inv_data c frame :
  chan_inv cfg c → canReceiveData (ch_state c) = true → 0 < blen frame <= ch_maxLocalPacket c →
  blen frame <= ch_localWindow c → has_room cfg (blen frame) c →
  chan_inv cfg (accept_data (blen frame) frame (charge 1 (blen frame) c)).
Proof.
  intros Hc Hs Hm Hw Hr. rewrite charge_eq by (done || lia).
  apply canReceiveData_live in Hs. pose proof (allowsRequests_live _ Hs) as Hl.
  pose proof (queue_not_discarded c Hc Hl) as [Hf Hb]. destruct Hr as [Hr1 Hr2].
  open_inv Hc.
  - left. split; cbn -[list_sum blen]; unfold frames_bytes.
    + rewrite blen_app, blen_cons, blen_nil. lia.
    + rewrite list_sum_app. fold (frames_bytes (ch_frames c)).
    rewrite list_sum_cons, list_sum_nil. lia.
  - lia.
  - lia.
  - apply Forall_app; split; [done|]. constructor; [lia|constructor].
  - lia.
  - unfold frames_bytes. rewrite list_sum_app. fold (frames_bytes (ch_frames c)).
    rewrite list_sum_cons, list_sum_nil. lia.
  - intros. by rewrite H in Hs.
Qed.

Lemma push_event_inv c e :
  chan_inv cfg c → queue_exact c → ch_state c ≠ channelOpening → 0 <= event_size e →
  has_room cfg (event_size e) c → chan_inv cfg (push_event e (charge 1 (event_size e) c)).
Proof.
  intros Hc [Hf Hb] Ho He Hr. rewrite charge_eq by done. destruct Hr as [Hr1 Hr2].
  open_inv Hc.
  - left. split; cbn -[list_sum blen]; unfold events_bytes.
    + rewrite blen_app, blen_cons, blen_nil. lia.
    + rewrite list_sum_app. fold (events_bytes (ch_events c)).
      rewrite list_sum_cons, list_sum_nil. lia.
  - lia.
  - lia.
  - apply Forall_app; split; [done|]. by constructor.
Qed.

Lemma edit_inv_recv c frame rest :
  chan_inv cfg c → ch_frames c = frame :: rest →
  chan_inv cfg (consume_window (WindowAdjustThreshold cfg) (blen frame)
                  (discharge 1 (blen frame) (c <| ch_frames := rest |>))).
Proof.
  intros Hc Hfr. pose proof (queue_nonneg c Hc) as [Hq1 Hq2]. pose proof cfg_window_bound.
  pose proof (frames_bytes_nonneg rest).
  assert (Hx : queue_exact c).
  { destruct (ci_queue _ _ Hc) as [?|(?&?&?&Hn)]; [done|]. congruence. }
  destruct Hx as [Hf Hb].
  assert (Hsum : frames_bytes (ch_frames c) = blen frame + frames_bytes rest) by (rewrite Hfr; done).
  assert (Hlen : blen (ch_frames c) = 1 + blen rest) by (rewrite Hfr; apply blen_cons).
  pose proof (blen_nonneg frame). pose proof (blen_nonneg rest). pose proof (blen_nonneg (ch_events c)).
  pose proof (events_bytes_nonneg _ (ci_events_nonneg _ _ Hc)).
  open_inv Hc.
  - left. split; cbn -[list_sum blen];
      (destruct (_ <? _) eqn:E; [apply Z.ltb_lt in E|apply Z.ltb_ge in E]); lia.
  - destruct (_ <? _) eqn:E; bool_simp; lia.
  - destruct (_ <? _) eqn:E; bool_simp; lia.
  - rewrite Hfr in ci_frames_pos0. by apply Forall_cons in ci_frames_pos0 as [? ?].
  - apply u32_range.
  - rewrite u32_id by (unfold is_u32; lia). lia.
  - intros Hs. destruct (ci_opening0 Hs) as [Hn _]. congruence.
  - unfold window_pending. cbn -[blen]. pose proof (u32_range (ch_pendingWindowBytes c + blen frame)) as Hu.
    unfold is_u32 in Hu. destruct (_ <=? _) eqn:E; bool_simp; lia.
Qed.

Lemma edit_inv_pop_event c e rest :
  chan_inv cfg c → ch_events c = e :: rest →
  chan_inv cfg (discharge 1 (event_size e) (c <| ch_events := rest |>)).
Proof.
  intros Hc Hev. pose proof (queue_nonneg c Hc) as [Hq1 Hq2].
  pose proof (frames_bytes_nonneg (ch_frames c)).
  assert (Hsum : events_bytes (ch_events c) = event_size e + events_bytes rest) by (rewrite Hev; done).
  assert (Hlen : blen (ch_events c) = 1 + blen rest) by (rewrite Hev; apply blen_cons).
  pose proof (ci_events_nonneg _ _ Hc) as Hn. rewrite Hev in Hn. apply Forall_cons in Hn as [He Hn].
  pose proof (events_bytes_nonneg _ Hn). pose proof (blen_nonneg rest). pose proof (blen_nonneg (ch_frames c)).
  open_inv Hc.
  - destruct ci_queue0 as [[Hf Hb]|(?&Hf&Hb&?)]; [left|right].
    + split; cbn -[list_sum blen]; (destruct (_ <? _) eqn:E; bool_simp); lia.
    + repeat split; cbn -[list_sum blen]; try done;
      destruct (_ <? _) eqn:E; bool_simp; lia.
  - destruct (_ <? _) eqn:E; bool_simp; lia.
  - destruct (_ <? _) eqn:E; bool_simp; lia.
  - intros Hs. destruct (ci_opening0 Hs). congruence.
Qed.

Lemma edit_inv P id c c' : edit cfg P id c c' → chan_inv cfg c → chan_inv cfg c'.
Proof.
  intros He Hc. destruct He as
    [c' Ht| |st He Hterm|sender window mp _ Hs Hw Hmp|Ht|frame _ Hs Hm Hw Hr|e Hs He Hr|Hs Hr
    |frame rest _ Hfr|e rest Hev|n Hn|n Hn|Hn|r Hr Hm|p Hp].
  - destruct c, c'. unfold tracked in Ht. cbn in Ht. simplify_eq. destruct Hc. by constructor.
  - open_inv Hc.
  - by apply edit_inv_state.
  - by apply edit_inv_open.
  - by apply edit_inv_discard.
  - by apply edit_inv_data.
  - apply push_event_inv; try done.
    + by apply queue_not_discarded, allowsRequests_live.
    + intros E. by rewrite E in Hs.
  - assert (Hx : queue_exact c) by (by apply queue_not_discarded, allowsRequests_live).
    apply (push_event_inv (set_state channelClosed c) EventClose); try done.
    open_inv Hc. by left.
  - by apply edit_inv_recv.
  - by apply edit_inv_pop_event.
  - open_inv Hc. unfold is_u32 in *. lia.
  - open_inv Hc. unfold is_u32 in *. lia.
  - open_inv Hc; [lia|]. intros r Hr. specialize (ci_requests0 r Hr). lia.
  - open_inv Hc.
    + set_solver.
    + destruct (decide (r ∈ ch_pendingRequests c)).
      * by replace ({[r]} ∪ ch_pendingRequests c) with (ch_pendingRequests c) by set_solver.
      * rewrite size_union by set_solver. rewrite size_singleton. lia.
  - open_inv Hc; [set_solver|]. apply subseteq_size in Hp. lia.
Qed.

Lemma edits_inv P id c c' : rtc (edit cfg P id) c c' → chan_inv cfg c → chan_inv cfg c'.
Proof. induction 1; eauto using edit_inv. Qed.
End edits.

(** ** Every step edits channels *)

Definition cont_ok (k : Cont) : Prop :=
  match k with
  | KCloseWrite _ previous => previous = channelOpen ∨ previous = channelRemoteEOF
  | KSend _ size => is_u32 size
  | _ => True
  end.

Definition thread_ok (th : Thread) : Prop :=
  match th with
  | TSend _ _ _ k | TWait _ _ k | TCont _ k => cont_ok k
  | _ => True
  end.

(** [s] is reached from [s0] by edits of its channels, and by new channels. *)
Record evolves (cfg : Config) (P : permits) (s0 s : Session) : Prop := {
  ev_config : s_config s = cfg;
  ev_edits id c0 : s_store s0 !! id = Some c0 → ∃ c, s_store s !! id = Some c ∧ rtc (edit cfg P id) c0 c;
  ev_new id c : s_store s0 !! id = None → s_store s !! id = Some c → ∃ c0, pm_new P c0 ∧ rtc (edit cfg P id) c0 c;
  ev_inv id c : s_store s !! id = Some c → chan_inv cfg c;
  ev_threads t th : s_threads s !! t = Some th → thread_ok th;
  ev_fresh id : is_Some (s_store s !! id) → id < s_nextLocalChannelID s;
}.

Section evolve.
Context `{ProtoSizeLaws} (cfg : Config) (Hcfg : config_ok cfg) (P : permits) (s0 : Session).
Implicit Types (s : Session) (c : Channel).

Let I := evolves cfg P s0.

Lemma evolves_store s (g : gmap Z Channel → gmap Z Channel) id f :
  I s → g (s_store s) = alter f id (s_store s) →
  (∀ c, s_store s !! id = Some c → chan_inv cfg c → rtc (edit cfg P id) c (f c)) →
  I (s <| s_store ::= g |>).
Proof.
  intros HI Hg Hf. destruct HI as [Hc He Hnew Hi Ht Hn]. split; cbn; rewrite ?Hg; try done.
  - intros i c0 Hi0. destruct (He i c0 Hi0) as (c & Hic & Hr).
    rewrite lookup_alter. case_decide as E; [subst|eauto]. rewrite Hic. cbn.
    eexists; split; [done|]. etrans; [done|]. apply Hf; [done|eauto].
  - intros i c Hi0. rewrite lookup_alter. case_decide as E; [subst|eauto].
    destruct (s_store s !! i) as [c1|] eqn:Hic; [|done]. cbn. intros [= <-].
    destruct (Hnew i c1 Hi0 Hic) as (c0 & ? & ?). exists c0. split; [done|]. etrans; [done|]. apply Hf; [done|eauto].
  - intros i c. rewrite lookup_alter. case_decide as E; [subst|eauto].
    destruct (s_store s !! i) as [c1|] eqn:Hic; [|done]. cbn. intros [= <-].
    eapply edits_inv; eauto.
  - intros i. rewrite lookup_alter. case_decide as E; [subst|eauto].
    intros Hx. apply Hn. by destruct (s_store s !! i).
Qed.

Lemma evolves_alter s id f :
  I s → (∀ c, s_store s !! id = Some c → chan_inv cfg c → rtc (edit cfg P id) c (f c)) →
  I (s <| s_store ::= alter f id |>).
Proof. intros. by eapply evolves_store. Qed.

Lemma pres_chan_mod id f :
  (∀ c, chan_inv cfg c → rtc (edit cfg P id) c (f c)) → preserves I (chan_mod id f).
Proof. intros Hf s HI. apply wp_modify, evolves_alter; auto. Qed.

Lemma pres_other id f : (∀ c, tracked (f c) = tracked c) → preserves I (chan_mod id f).
Proof. intros Hf. apply pres_chan_mod. intros. by apply rtc_once, ed_other. Qed.

Lemma wp_mod_then {A} id f (k : unit → M A) s :
  I s → (∀ c, s_store s !! id = Some c → chan_inv cfg c → rtc (edit cfg P id) c (f c)) →
  preserves I (k tt) → wp (chan_mod id f ≫= k) (λ _ s', I s') s.
Proof. intros HI Hf Hk. apply wp_bind, wp_modify, Hk. by apply evolves_alter. Qed.

(** The fields outside the channels. *)
Lemma pres_modify f :
  (∀ s, s_config (f s) = s_config s ∧ s_store (f s) = s_store s ∧ s_threads (f s) = s_threads s
        ∧ s_nextLocalChannelID s <= s_nextLocalChannelID (f s)) →
  preserves I (st_modify f).
Proof.
  intros Hf. apply preserves_modify. intros s [Hc He Hnew Hi Ht Hn]. destruct (Hf s) as (E1&E2&E3&E4).
  split; rewrite ?E1, ?E2, ?E3; try done. intros id Hid. specialize (Hn id Hid). lia.
Qed.

Lemma pres_threads f :
  (∀ s, I s → ∀ t th, f s !! t = Some th → thread_ok th) →
  preserves I (st_modify (λ s, s <| s_threads := f s |>)).
Proof. intros Hf. apply preserves_modify. intros s HI. destruct HI as [????? ?] eqn:E. split; try done. by apply Hf. Qed.

Lemma pres_thread_set t th : thread_ok th → preserves I (thread_set t th).
Proof.
  intros Hth. apply preserves_modify. intros s [?????]. split; try done. cbn. intros t' th'.
  rewrite lookup_insert. case_decide; naive_solver.
Qed.

Lemma pres_spawn th : thread_ok th → preserves I (spawn th).
Proof.
  intros Hth. unfold spawn. apply preserves_get_any. intros s1. apply preserves_bind; [|intros; apply preserves_ret].
  apply preserves_modify. intros s [?????]. split; try done. cbn. intros t' th'.
  rewrite lookup_insert. case_decide; naive_solver.
Qed.

Lemma pres_new_channel {A} c (k : Z → M A) :
  chan_inv cfg c → pm_new P c → (∀ id, preserves I (k id)) →
  preserves I (reserveLocalChannelID ≫= λ id, new_channel id c ≫= λ _, k id).
Proof.
  intros Hc HP Hk s HI. unfold reserveLocalChannelID. apply wp_bind. apply wp_bind, wp_get.
  destruct (_ =? _); [by apply wp_fail|]. apply wp_bind, wp_modify, wp_ret, wp_bind, wp_modify.
  apply Hk. destruct HI as [Hcf He Hnew Hi Ht Hn].
  assert (Hf : s_store s !! s_nextLocalChannelID s = None).
  { apply eq_None_not_Some. intros Hs. specialize (Hn _ Hs). lia. }
  split; cbn; try done.
  - intros id c0 Hid. destruct (He id c0 Hid) as (c' & ? & ?). exists c'.
    rewrite lookup_insert_ne; [done|congruence].
  - intros id c' Hid. rewrite lookup_insert. case_decide; [|eauto]. intros [= <-]. by exists c.
  - intros id c'. rewrite lookup_insert. case_decide; naive_solver.
  - intros id. rewrite lookup_insert. case_decide as E; [subst; lia|].
    intros Hs. specialize (Hn _ Hs). lia.
Qed.

Lemma evolves_same s s' :
  I s → s_config s' = s_config s → s_store s' = s_store s → s_threads s' = s_threads s →
  s_nextLocalChannelID s' = s_nextLocalChannelID s → I s'.
Proof. intros [????? ?] E1 E2 E3 E4. split; rewrite ?E1, ?E2, ?E3, ?E4; done. Qed.

Lemma u32_room m q n : 0 <= q <= m → is_u32 m → (u32 (m - q) <? n) = false → n <= m - q.
Proof. intros ? Hm E. apply Z.ltb_ge in E. rewrite u32_id in E; [done|]. unfold is_u32 in *. lia. Qed.

Lemma u64_room m q n : 0 <= q <= m → is_u64 m → (u64 (m - q) <? n) = false → n <= m - q.
Proof. intros ? Hm E. apply Z.ltb_ge in E. rewrite u64_id in E; [done|]. unfold is_u64 in *. lia. Qed.

Lemma wp_reserveQueued id n s (Q : res unit → Session → Prop) :
  I s → (∀ e, Q (Err e) s) →
  (∀ s', s_config s' = s_config s → s_store s' = s_store s → s_threads s' = s_threads s →
     s_nextLocalChannelID s' = s_nextLocalChannelID s →
     (∀ c, s_store s !! id = Some c → has_room cfg n c) →
     Q (Ok tt) (s' <| s_store ::= alter (charge 1 n) id |>)) →
  wp (reserveQueuedLocked id 1 n) Q s.
Proof.
  intros HI HE HO. unfold reserveQueuedLocked, reserveQueueBudget. apply wp_bind, wp_get. cbv zeta.
  destruct (u32 _ <? 1) eqn:E1; [by apply wp_fail|]. destruct (u64 _ <? n) eqn:E2; [by apply wp_fail|].
  apply wp_bind, wp_bind, wp_get.
  destruct (u32 (_ - s_queuedFrames s) <? 1); [by apply wp_fail|].
  destruct (u64 (_ - s_queuedBytes s) <? n); [by apply wp_fail|]. apply wp_modify, wp_modify.
  apply HO; try done. intros c Hid. rewrite (chan_lookup s id c Hid), (ev_config _ _ _ _ HI) in *.
  pose proof (ev_inv _ _ _ _ HI _ _ Hid) as Hc. pose proof (queue_nonneg cfg c Hc).
  pose proof (cfg_frames_bound cfg Hcfg). pose proof (cfg_bytes_bound cfg Hcfg). destruct Hc.
  split; [eapply u32_room|eapply u64_room]; try done; unfold is_u32, is_u64, MaxUint32, MaxUint64; lia.
Qed.

(** Two edits of one channel, with steps in between that do not touch it. *)
Lemma alter_twice s s' id f g :
  s_store s' = s_store s → I s →
  s_config s' = s_config s → s_threads s' = s_threads s →
  s_nextLocalChannelID s' = s_nextLocalChannelID s →
  (∀ c, s_store s !! id = Some c → chan_inv cfg c → rtc (edit cfg P id) c (g (f c))) →
  I (s' <| s_store ::= alter f id |> <| s_store ::= alter g id |>).
Proof.
  intros E HI E1 E2 E3 Hf.
  assert (HI' : I s') by (by eapply evolves_same).
  eapply evolves_same; [apply (evolves_alter s' id (g ∘ f)); [done|rewrite E; apply Hf]|..]; try done.
  cbn. by rewrite alter_alter_eq.
Qed.

Lemma wp_queue_event id e s (Q : res bool → Session → Prop) :
  I s → 0 <= event_size e →
  (∀ c, s_store s !! id = Some c → queue_exact c) →
  (∀ r, Q (Err r) s) →
  (∀ s', s_config s' = s_config s → s_threads s' = s_threads s →
     s_nextLocalChannelID s' = s_nextLocalChannelID s → 
     s_store s' = alter (push_event e ∘ charge 1 (event_size e)) id (s_store s) →
     (∀ c, s_store s !! id = Some c → has_room cfg (event_size e) c) →
     Q (Ok true) s') →
  wp (queue_event id e) Q s.
Proof.
  intros HI He Hl HE HO. unfold queue_event. apply wp_bind. apply wp_reserveQueued; [done|done|].
  intros s' E1 E2 E3 E4 Hroom. apply wp_bind, wp_get.
  assert (Hlt : blen (ch_events (chan (s' <| s_store ::= alter (charge 1 (event_size e)) id |>) id))
                < MaxQueuedFramesPerChannel (limits cfg)).
  { unfold chan. cbn. rewrite lookup_alter, E2, decide_True by done.
    pose proof (cfg_frames_bound cfg Hcfg).
    destruct (s_store s !! id) as [c|] eqn:Hid; [cbn|cbn; rewrite blen_nil; lia].
    destruct (Hroom c eq_refl) as [Hr _]. destruct (Hl c eq_refl) as [Hf _].
    pose proof (blen_nonneg (ch_frames c)). lia. }
  cbn [s_config setter set_s_store]. rewrite E1, (ev_config _ _ _ _ HI).
  destruct (Z.ltb_spec (blen (ch_events (chan (s' <| s_store ::= alter (charge 1 (event_size e)) id |>) id)))
    (MaxQueuedFramesPerChannel (limits cfg))) as [_|Hge]; [|lia].
  apply wp_bind, wp_modify, wp_ret. apply HO; try done. cbn. by rewrite alter_alter_eq, E2.
Qed.

Lemma pres_recv id frame rest s (Q : res unit → Session → Prop) :
  I s → pm_read P id → s_store s !! id ≠ None → ch_frames (chan s id) = frame :: rest →
  (∀ r s', I s' → Q r s') →
  wp (chan_mod id (λ c, c <| ch_frames := rest |>) ≫= λ _,
      releaseQueuedLocked id 1 (blen frame) ≫= λ _,
      chan_mod id (consume_window (WindowAdjustThreshold cfg) (blen frame))) Q s.
Proof.
  intros HI Hread Hex Hfr HQ. destruct (s_store s !! id) as [c|] eqn:Hid; [|done].
  rewrite (chan_lookup s id c Hid) in Hfr.
  apply wp_bind, wp_modify, wp_bind. unfold releaseQueuedLocked, chan_get.
  apply wp_bind, wp_bind, wp_get, wp_ret. cbv zeta.
  apply wp_bind, wp_modify, wp_modify, wp_modify. apply HQ.
  unfold chan. cbn -[consume_window blen].
  eapply evolves_same with (s := s <| s_store ::= alter (λ c, consume_window (WindowAdjustThreshold cfg)
    (blen frame) (discharge 1 (blen frame) (c <| ch_frames := rest |>))) id |>); try done.
  - apply evolves_alter; [done|]. intros c' Hc' _. apply rtc_once, ed_recv; [done|congruence].
  - cbn -[consume_window blen]. rewrite !alter_alter_eq. apply alter_ext.
    intros c' Hc'. rewrite Hid in Hc'. simplify_eq. cbn. rewrite lookup_alter, decide_True by done.
    by rewrite Hid.
Qed.

Lemma pres_pop_event id e rest s (Q : res unit → Session → Prop) :
  I s → ch_events (chan s id) = e :: rest →
  (∀ r s', I s' → Q r s') →
  wp (chan_mod id (λ c, c <| ch_events := rest |>) ≫= λ _,
      releaseQueuedLocked id 1 (event_size e)) Q s.
Proof.
  intros HI Hev HQ.
  apply wp_bind, wp_modify. unfold releaseQueuedLocked, chan_get.
  apply wp_bind, wp_bind, wp_get, wp_ret. cbv zeta.
  apply wp_bind, wp_modify, wp_modify. apply HQ.
  eapply evolves_same with (s := s <| s_store ::= alter (λ c, 
    discharge 1 (event_size e) (c <| ch_events := rest |>)) id |>); try done.
  - apply evolves_alter; [done|]. intros c' Hc' _. apply rtc_once, ed_pop_event.
    by rewrite <-(chan_lookup s id c' Hc').
  - cbn. rewrite !alter_alter_eq. apply alter_ext. intros c' Hc'. unfold chan. cbn.
    rewrite lookup_alter, decide_True by done. by rewrite Hc'.
Qed.

(** [f] ends the channel; the queue is then discarded. *)
Lemma wp_end_discard id f s (Q : res unit → Session → Prop) :
  I s →
  (∀ c, s_store s !! id = Some c → rtc (edit cfg P id) c (f c) ∧ is_terminal (ch_state (f c)) = true) →
  (∀ r s', I s' → Q r s') →
  wp (chan_mod id f ≫= λ _, discardQueuedLocked id) Q s.
Proof.
  intros HI Hf HQ. apply wp_bind, wp_modify. unfold discardQueuedLocked, chan_get.
  apply wp_bind, wp_bind, wp_get, wp_ret, wp_bind, wp_modify, wp_modify. apply HQ.
  eapply evolves_same with (s := s <| s_store ::= alter f id |> <| s_store ::= alter (λ c,
     c <| ch_queuedFrames := 0 |> <| ch_queuedBytes := 0 |> <| ch_frames := [] |>) id |>); try done.
  apply (alter_twice s s); try done. intros c Hc _. destruct (Hf c Hc) as [Hr Ht].
  etrans; [done|]. by apply rtc_once, ed_discard.
Qed.

(** *** The operations *)

Ltac ev_modify :=
  apply pres_modify; intros; cbn; repeat case_match; split_and!; first [reflexivity | cbn; lia].

Ltac ev_unit _ :=
  lazymatch goal with
  | |- preserves _ (chan_mod _ _) =>
      first [ by auto with evolve
            | apply pres_other; intros []; unfold send_open_result; cbn; repeat case_match; reflexivity ]
  | |- preserves _ (st_modify _) => ev_modify
  | |- preserves _ (thread_set _ _) => apply pres_thread_set; repeat case_match; done
  | |- preserves _ (spawn _) => apply pres_spawn; done
  | |- preserves _ (reserveLocalChannelID ≫= _) => apply pres_new_channel; [by auto with evolve|by auto|intros]
  | |- preserves _ _ => first [assumption | solve [auto 2 with evolve]]
  end.

Ltac ev := fold I; pres_with ev_unit.

(** For the goals that keep the state of a [st_get]. *)
Ltac wp_pres := lazymatch goal with |- wp ?m _ ?s => apply (preserves_wp I); [|try assumption|by intros] end.

Create HintDb evolve.

Lemma pres_chan_cancel id e : preserves I (chan_cancel id e).
Proof.
  apply preserves_modify. intros s HI. case_match; [done|]. apply evolves_alter; [done|].
  intros c _ _. by apply rtc_once, ed_other.
Qed.
#[local] Hint Resolve pres_chan_cancel : evolve.

Lemma pres_drop_requests id (f : Channel → gset Z) g :
  (∀ c, f c ⊆ ch_pendingRequests c) → (∀ c, tracked (g c) = tracked c) →
  preserves I (chan_mod id (λ c, g c <| ch_pendingRequests := f c |>)).
Proof.
  intros Hf Hg. apply pres_chan_mod. intros c Hc. eapply rtc_l; [by apply ed_other, Hg|].
  apply rtc_once, ed_drop_requests. specialize (Hg c). unfold tracked in Hg.
  by replace (ch_pendingRequests (g c)) with (ch_pendingRequests c) by congruence.
Qed.

Lemma pres_failPending id e : preserves I (failPendingRequestsLocked id e).
Proof.
  unfold failPendingRequestsLocked, chan_get. ev. 
  apply (pres_drop_requests id (λ _, ∅) (λ c, c <| ch_replies := _ |>)); [set_solver|done].
Qed.
#[local] Hint Resolve pres_failPending : evolve.

Lemma pres_remove_request id r :
  preserves I (chan_mod id (λ c, c <| ch_pendingRequests ::= (λ p, p ∖ {[r]}) |>)).
Proof. apply (pres_drop_requests id (λ c, ch_pendingRequests c ∖ {[r]}) (λ c, c)); [set_solver|done]. Qed.
#[local] Hint Resolve pres_remove_request : evolve.

Lemma pres_removePending id r : preserves I (removePendingRequest id r).
Proof. ev. Qed.
#[local] Hint Resolve pres_removePending : evolve.

Lemma pres_removeChannel id : preserves I (removeChannel id).
Proof. ev. Qed.
#[local] Hint Resolve pres_removeChannel : evolve.

Lemma pres_signal id : preserves I (chan_mod id signalLocked).
Proof. apply pres_chan_mod. intros. apply rtc_once, ed_signal. Qed.
#[local] Hint Resolve pres_signal : evolve.

Lemma fail_edits id c :
  let c' := if bool_decide (ch_state c = channelClosed) then c else c <| ch_state := channelFailed |> in
  rtc (edit cfg P id) c c' ∧ is_terminal (ch_state c') = true.
Proof.
  cbv zeta. case_bool_decide as E; [split; [done|by rewrite E]|]. split; [|done].
  apply rtc_once, ed_state; [|done]. by apply edge_fail.
Qed.

Lemma pres_channel_shutdown id e : preserves I (channel_shutdown id e).
Proof.
  intros s HI. unfold channel_shutdown. apply wp_assoc, wp_bind.
  apply wp_end_discard; [done| |].
  - intros c _.
    assert (Ho : rtc (edit cfg P id) c (match ch_sessionErr c with None => c <| ch_sessionErr := Some e |> | Some _ => c end)).
    { apply rtc_once, ed_other. by destruct (ch_sessionErr c). }
    destruct (fail_edits id (match ch_sessionErr c with None => c <| ch_sessionErr := Some e |> | Some _ => c end)).
    split; [by etrans|done].
  - intros r s' HI'. destruct r; [|done]. wp_pres.
    ev. apply pres_chan_mod. intros c Hc. eapply rtc_l; [|apply rtc_once, ed_signal].
    apply ed_other. unfold send_open_result. by repeat case_match.
Qed.
#[local] Hint Resolve pres_channel_shutdown : evolve.

Lemma pres_sendAsync frame control after : preserves I (sendEnvelopeAsyncAfter frame control after).
Proof. ev. Qed.
#[local] Hint Resolve pres_sendAsync : evolve.

Lemma pres_shutdown e : preserves I (shutdown e).
Proof. ev. Qed.
#[local] Hint Resolve pres_shutdown : evolve.

(** *** Incoming messages *)

Lemma incoming_inv peer typ window maxp h :
  is_u32 window → is_u32 maxp → chan_inv cfg (newIncomingChannel cfg peer typ window maxp h).
Proof.
  intros Hw Hmp. pose proof (cfg_frames_bound cfg Hcfg). pose proof (cfg_bytes_bound cfg Hcfg).
  pose proof (cfg_window_bound cfg Hcfg). destruct Hcfg as (?&?&?&?&?&?&Hl&?). unfold limits_ok in Hl.
  constructor; cbn; unfold is_u32, MaxUint32, MaxUint64, frames_bytes; rewrite ?list_sum_nil, ?size_empty;
    try lia; try done; try (by left); try constructor; lia.
Qed.

Lemma pending_inv typ h : chan_inv cfg (newPendingChannel typ h).
Proof.
  pose proof (cfg_frames_bound cfg Hcfg). pose proof (cfg_bytes_bound cfg Hcfg).
  pose proof (cfg_window_bound cfg Hcfg). destruct Hcfg as (?&?&?&?&?&?&Hl&?). unfold limits_ok in Hl.
  constructor; cbn; unfold is_u32, MaxUint32, MaxUint64, frames_bytes; rewrite ?list_sum_nil, ?size_empty;
    try lia; try done; try (by left); try constructor; lia.
Qed.
#[local] Hint Resolve incoming_inv pending_inv : evolve.

Lemma pres_addPending id p : preserves I (addPendingChannel id p).
Proof. ev. Qed.
#[local] Hint Resolve pres_addPending : evolve.

Lemma pres_enqueueDispatch t : preserves I (enqueueDispatch t).
Proof. ev. Qed.
#[local] Hint Resolve pres_enqueueDispatch : evolve.

(** What a received message needs to be permitted. *)
Definition permitted (e : Envelope) : Prop :=
  match e with
  | EChannelOpen (Some m) =>
      pm_new P (newIncomingChannel cfg (co_SenderChannelId m) (co_ChannelType m) (co_InitialWindow m) (co_MaxPacketSize m) None)
  | EChannelOpenResult (Some (id, OpenSuccess sender window maxPacket _)) => pm_open P id sender window maxPacket
  | EChannelData (Some (id, data)) => pm_data P id data
  | _ => True
  end.

Lemma pres_incomingOpen m :
  envelope_wf (EChannelOpen m) → permitted (EChannelOpen m) → preserves I (enqueueIncomingOpen m).
Proof.
  intros Hm HP. destruct m as [msg|]; [|ev]. cbn in HP. destruct Hm as (_ & Hw & Hmp). unfold enqueueIncomingOpen.
  apply preserves_get. intros s HI. rewrite (ev_config _ _ _ _ HI).
  revert s HI. match goal with |- ∀ s, I s → wp ?m _ s => change (preserves I m) end. ev.
Qed.

Lemma wp_lookupChannel {A} id (k : option Z → M A) Q s :
  wp (k (if bool_decide (id ∈ s_channels s) then Some id else None)) Q s →
  wp (lookupChannel id ≫= k) Q s.
Proof. done. Qed.

Lemma set_state_edits id c st :
  edge (ch_state c) st → (is_terminal (ch_state c) = true → is_terminal st = true) →
  rtc (edit cfg P id) c (set_state st c).
Proof. intros. eapply rtc_l; [by apply ed_state|]. apply rtc_once, ed_signal. Qed.

Lemma pres_activate id : preserves I (activateChannel id).
Proof. ev. Qed.
#[local] Hint Resolve pres_activate : evolve.

Lemma pres_openResult m :
  envelope_wf (EChannelOpenResult m) → permitted (EChannelOpenResult m) → preserves I (handleChannelOpenResult m).
Proof.
  intros Hm HP. destruct m as [[recipient result]|]; [|ev]. intros s HI. apply wp_lookupChannel.
  case_bool_decide; [|by wp_pres; ev]. apply wp_bind, wp_get. cbv zeta.
  destruct (negb _ || _) eqn:Hst; [by wp_pres; ev|]. bool_simp.
  apply wp_bind, wp_modify.
  set (s1 := s <| s_store ::= alter (λ c, c <| ch_openWait := false |>) recipient |>).
  assert (HI1 : I s1).
  { apply evolves_alter; [done|]. intros. by apply rtc_once, ed_other. }
  assert (Hop : ∀ c, s_store s1 !! recipient = Some c → ch_state c = channelOpening).
  { intros c. cbn. rewrite lookup_alter_eq. destruct (s_store s !! recipient) as [c'|] eqn:E; [|done].
    intros [= <-]. cbn. by rewrite <-(chan_lookup _ _ _ E). }
  destruct result as [sender window mp payload|code msg payload|]; [| |by wp_pres; ev].
  - destruct Hm as (_ & Hw & Hmp). destruct (_ <? _); [by wp_pres; ev|].
    unfold reservePeerChannelID. apply wp_bind, wp_bind, wp_get. case_bool_decide; [by apply wp_fail|].
    apply wp_modify.
    apply wp_mod_then; [by eapply evolves_same| |ev].
    intros c Hc _. apply rtc_once. rewrite (ev_config _ _ _ _ HI). apply ed_open; auto.
  - destruct (validateResponse _ _ _ _); [|by wp_pres; ev].
    apply wp_mod_then; [done| |ev]. intros c Hc _. apply set_state_edits; [|done].
    rewrite (Hop c Hc). by apply edge_fail.
Qed.

Lemma pres_data m : envelope_wf (EChannelData m) → permitted (EChannelData m) → preserves I (handleChannelData m).
Proof.
  intros Hm HP. destruct m as [[recipient frame]|]; [|ev]. intros s HI. apply wp_lookupChannel.
  case_bool_decide; [|by wp_pres; ev]. destruct (_ =? _) eqn:Hz; [by wp_pres; ev|].
  pose proof (blen_nonneg frame). cbn [envelope_wf] in Hm. cbv zeta.
  rewrite (u32_id (blen frame)) by (unfold is_u32; lia).
  unfold chan_get. apply wp_bind, wp_bind, wp_get, wp_ret.
  destruct (negb _) eqn:Hst; [by wp_pres; ev|]. destruct (_ <? blen frame) eqn:Hmax; [by wp_pres; ev|].
  destruct (ch_localWindow _ <? blen frame) eqn:Hwin; [by wp_pres; ev|]. bool_simp.
  apply wp_bind. apply wp_reserveQueued; [done|done|]. intros s' E1 E2 E3 E4 Hroom.
  apply wp_modify, (alter_twice s s'); try done.
  intros c Hc _. rewrite (chan_lookup _ _ _ Hc) in *.
  apply rtc_once, ed_data; auto with lia.
Qed.

Lemma pres_windowAdjust m : envelope_wf (EChannelWindowAdjust m) → preserves I (handleChannelWindowAdjust m).
Proof.
  intros Hm. destruct m as [[recipient n]|]; [|ev]. intros s HI. apply wp_lookupChannel.
  case_bool_decide; [|by wp_pres; ev]. unfold chan_get. apply wp_bind, wp_bind, wp_get, wp_ret.
  destruct (negb _); [by wp_pres; ev|]. destruct (_ <? _) eqn:Hn; [by wp_pres; ev|]. bool_simp.
  cbn in Hm. apply wp_modify, evolves_alter; [done|]. intros c Hc _. rewrite (chan_lookup _ _ _ Hc) in *.
  apply rtc_once, ed_add_window. unfold is_u32 in Hm. lia.
Qed.

Lemma pres_channelResult m : preserves I (handleChannelResult m).
Proof. ev. Qed.

Lemma pres_globalRequest m : preserves I (enqueueGlobalRequest m).
Proof. ev. Qed.

Lemma pres_globalResult m : preserves I (handleGlobalResult m).
Proof. ev. Qed.

Lemma pres_disconnect m : preserves I (handleDisconnect m).
Proof. ev. Qed.

Lemma pres_queue_event_live id e s :
  I s → 0 <= event_size e → (∀ c, s_store s !! id = Some c → allowsRequests (ch_state c) = true) →
  wp (queue_event id e) (λ _ s', I s') s.
Proof.
  intros HI He Hl. apply wp_queue_event; try done.
  - intros c Hc. eapply queue_not_discarded; [by eapply ev_inv|]. by apply allowsRequests_live, Hl.
  - intros s' E1 E2 E3 E4 Hroom.
    eapply evolves_same with (s := s <| s_store ::= alter (push_event e ∘ charge 1 (event_size e)) id |>); try done.
    apply evolves_alter; [done|]. intros c Hc _. apply rtc_once, ed_event; auto.
Qed.

Lemma pres_channelRequest m : preserves I (enqueueChannelRequest m).
Proof.
  destruct m as [msg|]; [|ev]. unfold enqueueChannelRequest. apply preserves_get. intros s HI.
  destruct (validateTypeAndPayload _ _ _); [|by wp_pres; ev]. apply wp_lookupChannel.
  case_bool_decide; [|by wp_pres; ev]. cbv zeta.
  destruct (negb _) eqn:Hst; [by wp_pres; ev|]. bool_simp.
  set (id := cr_RecipientChannelId msg) in *.
  assert (Hl : ∀ c, s_store s !! id = Some c → allowsRequests (ch_state c) = true).
  { intros c Hc. by rewrite <-(chan_lookup _ _ _ Hc). }
  apply wp_bind.
  assert (Hq : ∀ s', I s' → (∀ c, s_store s' !! id = Some c → allowsRequests (ch_state c) = true) →
    wp (st_try (queue_event id (EventRequest msg (size_request msg)))) (λ r s', ∃ x, r = Ok x ∧ I s') s').
  { intros s' HI' Hl'. apply wp_try. eapply wp_mono; [apply pres_queue_event_live; try done|].
    - cbn. apply size_request_nonneg.
    - intros r s2 HI2. by eexists. }
  destruct (cr_WantReply msg) eqn:Hw; [case_bool_decide; [by apply wp_fail|]; apply wp_modify|apply wp_ret];
    (apply wp_bind; eapply wp_mono; [apply Hq|]).
  1: { apply evolves_alter; [done|]. intros. by apply rtc_once, ed_other. }
  1: { intros c. cbn. rewrite lookup_alter_eq. destruct (s_store s !! id) eqn:E; [|done].
       intros [= <-]. cbn. by apply Hl. }
  2,3: done.
  all: intros ? s2 (x & -> & HI2); cbv beta iota; wp_pres; ev.
Qed.

Lemma pres_channelEOF id : preserves I (enqueueChannelEOF id).
Proof.
  intros s HI. apply wp_lookupChannel. case_bool_decide; [|by wp_pres; ev].
  apply wp_bind, wp_get. cbv zeta.
  destruct (ch_state (chan s id)) eqn:Hst; try (by wp_pres; ev); apply wp_bind, wp_modify, wp_bind;
    (eapply wp_mono; [apply pres_queue_event_live; try done|]).
  1,4: apply evolves_alter; [done|]; intros c Hc _;
    rewrite (chan_lookup _ _ _ Hc) in Hst; apply set_state_edits; rewrite Hst; [constructor|done].
  1,3: intros c; cbn; rewrite lookup_alter_eq; destruct (s_store s !! id); [|done]; by intros [= <-].
  all: intros [[]|] s' HI'; done.
Qed.

Lemma wp_peer_close id s :
  I s → allowsRequests (ch_state (chan s id)) = true →
  wp (chan_mod id (set_state channelClosed) ≫= λ _, queue_event id EventClose) (λ _ s', I s') s.
Proof.
  intros HI Hl. apply wp_bind, wp_modify.
  assert (Hc0 : ∀ c, s_store s !! id = Some c → allowsRequests (ch_state c) = true).
  { intros c Hc. by rewrite <-(chan_lookup _ _ _ Hc). }
  set (s1 := s <| s_store ::= alter (set_state channelClosed) id |>).
  assert (HI1 : I s1).
  { apply evolves_alter; [done|]. intros c Hc _. apply set_state_edits; [|done]. apply edge_peer_close; auto. }
  assert (Hlk : ∀ c, s_store s1 !! id = Some c → ∃ c0, s_store s !! id = Some c0 ∧ c = set_state channelClosed c0).
  { intros c. cbn. rewrite lookup_alter_eq. destruct (s_store s !! id) as [c0|]; [|done].
    intros [= <-]. eauto. }
  apply wp_queue_event; try done.
  - intros c Hc. destruct (Hlk c Hc) as (c0 & Hc' & ->).
    apply (queue_not_discarded cfg c0); [exact (ev_inv _ _ _ _ HI _ _ Hc')|]. apply allowsRequests_live. auto.
  - intros s' E1 E2 E3 E4 Hroom.
    eapply evolves_same with (s := s <| s_store ::= alter (push_event EventClose ∘ charge 1 1 ∘ set_state channelClosed) id |>); try done.
    + apply evolves_alter; [done|]. intros c Hc _. apply rtc_once, ed_peer_close; [auto|].
      apply (Hroom (set_state channelClosed c)). cbn. by rewrite lookup_alter_eq, Hc.
    + rewrite E4. cbn. by rewrite alter_alter_eq.
Qed.

Lemma pres_channelClose id : preserves I (enqueueChannelClose id).
Proof.
  intros s HI. apply wp_lookupChannel. case_bool_decide; [|by wp_pres; ev].
  apply wp_bind, wp_get. cbv zeta.
  destruct (ch_state (chan s id)) eqn:Hst; try (by wp_pres; ev).
  1-4: apply wp_assoc, wp_bind; (eapply wp_mono; [apply wp_peer_close; [done|by rewrite Hst]|]);
    intros [[]|] s' HI'; [..|done]; wp_pres; ev.
  apply wp_mod_then; [done| |ev]. intros c Hc _. apply set_state_edits; [|done].
  rewrite (chan_lookup _ _ _ Hc) in Hst. rewrite Hst. apply edge_close_ack.
Qed.

Lemma pres_routeEnvelope e : envelope_wf e → permitted e → preserves I (routeEnvelope e).
Proof.
  destruct e; cbn [routeEnvelope]; auto using pres_incomingOpen, pres_openResult, pres_data,
    pres_windowAdjust, pres_channelResult, pres_globalRequest, pres_globalResult, pres_disconnect,
    pres_channelRequest, pres_channelEOF, pres_channelClose, preserves_fail.
  intros _. ev.
Qed.

(** *** Calls of the application *)

Lemma pres_OpenChannel typ payload h : pm_new P (newPendingChannel typ h) → preserves I (OpenChannelWithHandler typ payload h).
Proof. ev. Qed.

Lemma pres_SendGlobalRequest typ payload w : preserves I (SendGlobalRequest typ payload w).
Proof. ev. Qed.

Lemma pres_Send id frame wake : preserves I (channel_Send id frame wake).
Proof.
  unfold channel_Send. destruct (_ =? _); [ev|]. destruct (_ <? _); [ev|].
  apply preserves_get. intros s HI. cbv zeta.
  destruct (channelErrorLocked _ _); [by wp_pres; ev|]. destruct (negb _); [by wp_pres; ev|].
  destruct (_ <? _); [by wp_pres; ev|]. destruct (_ <=? _) eqn:Hw; [|by wp_pres; ev]. bool_simp.
  apply wp_mod_then; [done| |ev].
  - intros c Hc _. rewrite (chan_lookup _ _ _ Hc) in *. apply rtc_once, ed_take_window.
    pose proof (u32_range (blen frame)) as Hu. unfold is_u32 in Hu. lia.
  - apply pres_spawn. cbn. apply u32_range.
Qed.

Lemma pres_Recv id wake : pm_read P id → preserves I (channel_Recv id wake).
Proof.
  intros HP.   unfold channel_Recv. apply preserves_get. intros s HI. cbv zeta.
  destruct (ch_frames (chan s id)) as [|frame rest] eqn:Hfr; [by wp_pres; ev|].
  assert (Hex : s_store s !! id ≠ None).
  { intros E. unfold chan in Hfr. by rewrite E in Hfr. }
  assert (Hu : u32 (blen frame) = blen frame).
  { destruct (s_store s !! id) as [c|] eqn:Hid; [|done]. rewrite (chan_lookup _ _ _ Hid) in Hfr.
    pose proof (ev_inv _ _ _ _ HI _ _ Hid) as Hc. pose proof (cfg_window_bound cfg Hcfg).
    pose proof (ci_frames_pos _ _ Hc) as Hp. rewrite Hfr in Hp. apply Forall_cons in Hp as [? _].
    apply u32_id. unfold is_u32. lia. }
  rewrite Hu, (ev_config _ _ _ _ HI).
  apply wp_assoc3. apply wp_bind. eapply pres_recv; try done.
  intros [[]|] s' HI'; [|done]. by wp_pres; ev.
Qed.

Lemma pres_SendRequest id typ payload w : preserves I (channel_SendRequest id typ payload w).
Proof.
  unfold channel_SendRequest. apply preserves_get. intros s HI. apply wp_bind, wp_lift. cbv zeta.
  destruct (validateTypeAndPayload _ _ _); [|done].
  destruct (channelErrorLocked _ _); [by wp_pres; ev|]. destruct (negb _); [by wp_pres; ev|].
  destruct (_ =? _) eqn:Hmax; [by wp_pres; ev|]. bool_simp.
  apply wp_bind, wp_modify.
  set (s1 := s <| s_store ::= alter (λ c, c <| ch_nextRequestID ::= Z.succ |>) id |>).
  assert (HI1 : I s1).
  { apply evolves_alter; [done|]. intros c Hc Hi. rewrite (chan_lookup _ _ _ Hc) in Hmax.
    apply rtc_once, ed_next_request. destruct (ci_next _ _ Hi). lia. }
  destruct w; [|by wp_pres; ev].
  destruct (_ <=? _) eqn:Hpend; [by wp_pres; ev|]. bool_simp.
  apply wp_bind. unfold reservePendingChannelRequest. apply wp_bind, wp_bind, wp_get.
  destruct (_ <=? _); [by apply wp_fail|]. apply wp_modify, wp_modify.
  wp_pres; [ev|]. apply evolves_alter; [by eapply evolves_same|].
  intros c Hc Hi. cbn in Hc. rewrite lookup_alter_eq in Hc.
  destruct (s_store s !! id) as [c0|] eqn:Hid; [|done]. simplify_eq/=.
  rewrite (chan_lookup _ _ _ Hid) in *. pose proof (ev_inv _ _ _ _ HI _ _ Hid) as Hi0.
  apply rtc_once, ed_add_request; cbn.
  - destruct (ci_next _ _ Hi0). lia.
  - rewrite (ev_config _ _ _ _ HI) in Hpend. pose proof (ci_requests_max _ _ Hi0).
    rewrite u32_id in Hpend; [lia|]. destruct Hcfg as (?&?&?&?&?&?&Hl&?). unfold limits_ok in Hl.
    unfold is_u32, MaxUint32. lia.
Qed.

Lemma pres_CloseWrite id : preserves I (channel_CloseWrite id).
Proof.
  unfold channel_CloseWrite. apply preserves_get. intros s HI. cbv zeta.
  destruct (channelErrorLocked _ _); [by wp_pres; ev|].
  destruct (ch_state (chan s id)) eqn:Hst; try (by wp_pres; ev); (apply wp_mod_then; [done| |]).
  1,3: intros c Hc _; rewrite (chan_lookup _ _ _ Hc) in Hst; apply set_state_edits; rewrite Hst; [constructor|done].
  all: ev; apply pres_spawn; cbn; auto.
Qed.

Lemma pres_Close id : preserves I (channel_Close id).
Proof.
  unfold channel_Close. apply preserves_get. intros s HI. cbv zeta.
  assert (Hst : ∀ c, s_store s !! id = Some c → ch_state (chan s id) = ch_state c).
  { intros c Hc. by rewrite (chan_lookup _ _ _ Hc). }
  destruct (ch_state (chan s id)) eqn:E; try (by wp_pres; ev).
  1: { apply wp_mod_then; [done| |ev]. intros c Hc _. apply set_state_edits; [|done].
       rewrite <-(Hst c Hc). by apply edge_fail. }
  all: apply wp_assoc, wp_bind, wp_end_discard; [done| |by intros [[]|] s' HI'; [wp_pres; ev|]].
  all: intros c Hc; split; [|done]; apply rtc_once, ed_state; [|done]; rewrite <-(Hst c Hc); by apply edge_close.
Qed.
#[local] Hint Resolve pres_Close : evolve.

Lemma closing_closed id s :
  I s → ch_state (chan s id) = channelClosing → I (s <| s_store ::= alter (set_state channelClosed) id |>).
Proof.
  intros HI Hst. apply evolves_alter; [done|]. intros c Hc _. rewrite (chan_lookup _ _ _ Hc) in Hst.
  apply set_state_edits; [|done]. rewrite Hst. apply edge_close_ack.
Qed.

Lemma pres_closeTimer id : preserves I (awaitCloseTimeout_fired id).
Proof.
  unfold awaitCloseTimeout_fired. apply preserves_bind; [ev|]. intros _. unfold chan_get.
  intros s HI. apply wp_bind, wp_bind, wp_get, wp_ret. case_bool_decide; [|by wp_pres; ev].
  apply wp_bind, wp_modify. wp_pres; [ev|]. by apply closing_closed.
Qed.

Lemma pres_abandonOpen id e : preserves I (abandonOpen id e).
Proof.
  unfold abandonOpen, chan_get. intros s HI. apply wp_bind, wp_bind, wp_get, wp_ret.
  case_bool_decide as Hst; [|by wp_pres; ev]. apply wp_mod_then; [done| |ev].
  intros c Hc _. rewrite (chan_lookup _ _ _ Hc) in Hst.
  eapply rtc_l; [apply (ed_state _ _ _ _ channelFailed); [rewrite Hst; by apply edge_fail|done]|].
  eapply rtc_l; [|apply rtc_once, ed_signal]. by apply ed_other.
Qed.
#[local] Hint Resolve pres_closeTimer pres_abandonOpen : evolve.

(** *** The goroutines *)

Lemma pres_handleChannelOpen msg id d : preserves I (handleChannelOpen msg id d).
Proof.
  unfold handleChannelOpen. apply preserves_get. intros s HI. cbv zeta.
  destruct (validateDecision _ _); [|by wp_pres; ev]. destruct (negb (d_OK _)); [by wp_pres; ev|].
  apply wp_bind, wp_modify.
  assert (HI1 : ∀ h, I (s <| s_store ::= alter (λ c, c <| ch_handler := h |>) id |>)).
  { intros h. apply evolves_alter; [done|]. intros. by apply rtc_once, ed_other. }
  destruct (negb _) eqn:Hst; [by apply wp_fail|]. bool_simp.
  apply wp_mod_then; [done| |ev]. intros c Hc _. cbn in Hc. rewrite lookup_alter_eq in Hc.
  destruct (s_store s !! id) as [c0|] eqn:Hid; [|done]. simplify_eq/=.
  rewrite (chan_lookup _ _ _ Hid) in Hst. apply set_state_edits; cbn; rewrite Hst; [constructor|done].
Qed.
#[local] Hint Resolve pres_handleChannelOpen : evolve.

Lemma pres_loop_take id : preserves I (loop_take id).
Proof.
  unfold loop_take, chan_get. intros s HI. apply wp_bind, wp_bind, wp_get, wp_ret.
  destruct (ch_events (chan s id)) as [|e rest] eqn:Hev; [by apply wp_ret|].
  apply wp_assoc, wp_bind. eapply pres_pop_event; try done.
  intros [[]|] s' HI'; [|done]. by wp_pres; ev.
Qed.
#[local] Hint Resolve pres_loop_take : evolve.

Lemma pres_run_cont t err k : cont_ok k → preserves I (run_cont t err k).
Proof.
  intros Hk. destruct k; try (by ev); cbn [run_cont]; destruct err as [e|]; try (by ev); unfold chan_get.
  - intros s HI. apply wp_bind, wp_bind, wp_get, wp_ret. apply wp_bind. cbn in Hk.
    destruct (_ <=? _) eqn:Hle; [apply wp_modify; wp_pres; [ev|]|apply wp_ret; by wp_pres; ev].
    apply evolves_alter; [done|]. intros c Hc _. rewrite (chan_lookup _ _ _ Hc) in Hle. bool_simp.
    apply rtc_once, ed_add_window. unfold is_u32 in Hk. lia.
  - intros s HI. apply wp_bind, wp_bind, wp_get, wp_ret. apply wp_bind. cbn in Hk.
    destruct (_ || _) eqn:Hst; [apply wp_modify; wp_pres; [ev|]|apply wp_ret; by wp_pres; ev].
    apply evolves_alter; [done|]. intros c Hc _. rewrite (chan_lookup _ _ _ Hc) in Hst.
    apply set_state_edits.
    + apply edge_rollback; [|done]. bool_simp. destruct Hst; bool_simp; auto.
    + intros Ht. bool_simp. destruct Hst as [E|E]; bool_simp; by rewrite E in Ht.
Qed.

Lemma pres_thread_step t choice : preserves I (thread_step t choice).
Proof.
  unfold thread_step. apply preserves_get. intros s HI.
  destruct (s_threads s !! t) as [th|] eqn:Ht; [|by apply wp_ret].
  pose proof (ev_threads _ _ _ _ HI _ _ Ht) as Hok.
  destruct th; cbn in Hok; try (by wp_pres; ev).
  wp_pres. by apply pres_run_cont.
Qed.

#[local] Hint Resolve pres_OpenChannel pres_SendGlobalRequest pres_Send pres_Recv pres_SendRequest
  pres_CloseWrite pres_thread_step : evolve.

(** What an action needs to be permitted. *)
Definition action_permitted (a : Action) : Prop :=
  match a with
  | AReceive e => permitted e
  | ARecv id _ => pm_read P id
  | AOpenChannel typ _ h => pm_new P (newPendingChannel typ h)
  | _ => True
  end.

Lemma pres_exec a : action_wf a → action_permitted a → preserves I (exec a).
Proof.
  intros Ha HP. destruct a; cbn [exec]; cbn in HP; unfold ret_unit, on_channel; try (by ev).
  unfold receiverLoop_frame, shutdown_on_error. 
  assert (preserves I (routeEnvelope frame)) by (by apply pres_routeEnvelope). ev.
Qed.
End evolve.

(** ** Theorems *)

Section theorems.
Context `{ProtoSizeLaws} (cfg : Config) (Hcfg : config_ok cfg).

Definition permits_of (a : Action) : permits := {|
  pm_data id data := a = AReceive (EChannelData (Some (id, data)));
  pm_read id := ∃ wake, a = ARecv id wake;
  pm_open id sender window maxPacket := ∃ payload, a = AReceive (EChannelOpenResult (Some (id, OpenSuccess sender window maxPacket payload)));
  pm_new c := (∃ typ payload h, a = AOpenChannel typ payload h ∧ c = newPendingChannel typ h) ∨
    ∃ m, a = AReceive (EChannelOpen (Some m)) ∧
      c = newIncomingChannel cfg (co_SenderChannelId m) (co_ChannelType m) (co_InitialWindow m) (co_MaxPacketSize m) None;
|}.

Lemma permits_action a : action_permitted cfg (permits_of a) a.
Proof.
  destruct a as [| | | | | | | | | | | |e| | | | | | | | | | | | | | | | | | | |]; cbn; eauto 6.
  destruct e as [[]|[[? []]|]|[[]|]| | | | | | | | |]; cbn; eauto.
Qed.

Lemma evolves_self P P' s s0 : evolves cfg P s0 s → evolves cfg P' s s.
Proof. intros [?????]. split; try done; [eauto using rtc_refl|]. intros id c E1 E2. by rewrite E1 in E2. Qed.

Lemma reachable_evolves P s : reachable cfg s → evolves cfg P s s.
Proof.
  intros Hs. induction Hs as [h|s a Hs IH Ha].
  - split; cbn; try done; intros *; rewrite lookup_empty; by try intros [? ?].
  - eapply evolves_self, (pres_exec cfg Hcfg (permits_of a) s a Ha (permits_action a)). by eapply evolves_self.
Qed.

Lemma step_evolves s a : reachable cfg s → action_wf a → evolves cfg (permits_of a) s (exec a s).1.
Proof. intros Hs Ha. by apply (pres_exec cfg Hcfg (permits_of a) s a Ha (permits_action a)), reachable_evolves. Qed.

Lemma edit_edge P id c c' : edit cfg P id c c' → rtc edge (ch_state c) (ch_state c').
Proof.
  destruct 1 as [c' Ht| | |? ? ? _ Hs ? ?| | | | | | | | | | |]; cbn; try done.
  - by replace (ch_state c') with (ch_state c) by (unfold tracked in Ht; congruence).
  - by apply rtc_once.
  - rewrite Hs. apply rtc_once. constructor.
  - by apply rtc_once, edge_peer_close.
Qed.

Lemma edits_edges P id c c' : rtc (edit cfg P id) c c' → rtc edge (ch_state c) (ch_state c').
Proof. induction 1; [done|]. etrans; [by eapply edit_edge|done]. Qed.

(** What the peer said when the channel was opened stays. *)
Lemma edit_peer P id c c' : edit cfg P id c c' → ch_state c ≠ channelOpening →
  ch_maxRemotePacket c' = ch_maxRemotePacket c ∧ ch_peerID c' = ch_peerID c.
Proof.
  intros He Hst. destruct He as [c' Ht| | | | | | | | | | | | | | ]; try done.
  unfold tracked in Ht. simplify_eq. done.
Qed.

Lemma edits_peer P id c c' : rtc (edit cfg P id) c c' → ch_state c ≠ channelOpening →
  ch_state c' ≠ channelOpening ∧ ch_maxRemotePacket c' = ch_maxRemotePacket c ∧ ch_peerID c' = ch_peerID c.
Proof.
  induction 1 as [c|c c1 c' He _ IH]; [done|]. intros Hst. destruct (edit_peer _ _ _ _ He Hst) as [<- <-]. apply IH.
  apply edit_edge in He. clear -He Hst. induction He as [|x y z Hxy _ IH]; [done|]. apply IH. by eapply edge_opening.
Qed.

Lemma step_peer s a id c : reachable cfg s → action_wf a → s_store s !! id = Some c → ch_state c ≠ channelOpening →
  ∃ c', s_store (exec a s).1 !! id = Some c' ∧ ch_state c' ≠ channelOpening ∧
    ch_maxRemotePacket c' = ch_maxRemotePacket c ∧ ch_peerID c' = ch_peerID c.
Proof.
  intros Hs Ha Hc Hst. destruct (ev_edits _ _ _ _ (step_evolves s a Hs Ha) id c Hc) as (c' & Hc' & He).
  exists c'. split; [done|]. by eapply edits_peer.
Qed.

Lemma reachable_chan_inv s id c : reachable cfg s → s_store s !! id = Some c → chan_inv cfg c.
Proof. intros Hs. exact (ev_inv _ _ _ _ (reachable_evolves (permits_of AActivate) s Hs) id c). Qed.

Lemma edge_final st st' : edge st st' → st = channelClosed ∨ st = channelFailed → st' = st.
Proof. intros He [-> | ->]; inversion He; naive_solver. Qed.

Lemma edges_final st st' : rtc edge st st' → st = channelClosed ∨ st = channelFailed → st' = st.
Proof.
  induction 1 as [|x y z Hxy _ IH]; [done|]. intros Hx. pose proof (edge_final _ _ Hxy Hx) as ->. auto.
Qed.

Lemma edges_terminal st st' : rtc edge st st' → is_terminal st = true → is_terminal st' = true.
Proof.
  induction 1 as [|x y z Hxy _ IH]; [done|]. intros Hx. apply IH. inversion Hxy; subst; naive_solver.
Qed.
End theorems.


(** C25: A channel object is never lost and its state only moves along [edge]: no
    step of any goroutine, whatever the peer sends, reopens a channel that is
    closing, and [closed] and [failed] are final. *)
Theorem channel_lifecycle `{ProtoSizeLaws} (cfg : Config) (s : Session) (a : Action) (id : Z) (c : Channel)
    (Hcfg : config_ok cfg) (Hs : reachable cfg s) (Ha : action_wf a)
    (Hc : s_store s !! id = Some c) :
  ∃ c', s_store (exec a s).1 !! id = Some c' ∧
    rtc edge (ch_state c) (ch_state c') ∧
    (is_terminal (ch_state c) = true → is_terminal (ch_state c') = true) ∧
    (ch_state c = channelClosed ∨ ch_state c = channelFailed → ch_state c' = ch_state c).
Proof.
  destruct (ev_edits _ _ _ _ (step_evolves cfg Hcfg s a Hs Ha) id c Hc) as (c' & Hc' & He).
  apply edits_edges in He. exists c'. split_and!; [done|done| |].
  - by apply edges_terminal.
  - by apply edges_final.
Qed.

Definition closing_session : Session := (@exec toy_size (ACloseChannel 0) open_session).1.

Lemma channel_lifecycle_witness :
  ∃ c c', s_store open_session !! 0 = Some c ∧ ch_state c = channelOpen ∧
    s_store closing_session !! 0 = Some c' ∧ rtc edge channelOpen (ch_state c').
Proof.
  assert (Hc : s_store open_session !! 0 = Some (chan open_session 0)) by (vm_compute; reflexivity).
  destruct (@channel_lifecycle toy_size toy_size_laws default_config open_session (ACloseChannel 0) 0
    (chan open_session 0) default_config_ok open_session_reachable Logic.I Hc) as (c' & Hc' & He & _).
  assert (Hst : ch_state (chan open_session 0) = channelOpen) by (vm_compute; reflexivity).
  exists (chan open_session 0), c'. rewrite Hst in He.
  exact (conj Hc (conj Hst (conj Hc' He))).
Defined.

(** C29: Whatever the peer sends, a channel holds at most [InitialWindow] bytes
    that [Recv] has not returned, its window counters stay in their ranges, it
    never exceeds its queue limits, and its queue charge is exactly what it
    holds, or zero once it was discarded at its end. *)
Theorem channel_bounded `{ProtoSizeLaws} (cfg : Config) (s : Session) (id : Z) (c : Channel)
    (Hcfg : config_ok cfg) (Hs : reachable cfg s) (Hc : s_store s !! id = Some c) :
  0 <= ch_localWindow c ∧
  ch_localWindow c + frames_bytes (ch_frames c) <= InitialWindow cfg ∧
  Forall (λ f, 0 < blen f <= MaxPacketSize cfg) (ch_frames c) ∧
  is_u32 (ch_remoteWindow c) ∧
  0 <= ch_pendingWindowBytes c < WindowAdjustThreshold cfg ∧
  0 <= ch_queuedFrames c <= MaxQueuedFramesPerChannel (limits cfg) ∧
  0 <= ch_queuedBytes c <= MaxQueuedBytesPerChannel (limits cfg) ∧
  Z.of_nat (size (ch_pendingRequests c)) <= MaxPendingChannelRequestsPerChannel (limits cfg) ∧
  (ch_queuedFrames c = blen (ch_frames c) + blen (ch_events c) ∧
   ch_queuedBytes c = frames_bytes (ch_frames c) + events_bytes (ch_events c) ∨
   is_terminal (ch_state c) = true ∧ ch_queuedFrames c = 0 ∧ ch_queuedBytes c = 0 ∧ ch_frames c = []).
Proof.
  pose proof (reachable_chan_inv cfg Hcfg s id c Hs Hc) as Hi.
  pose proof (queue_nonneg cfg c Hi). destruct Hi. split_and!; try done; lia.
Qed.

Definition data_session : Session :=
  (@exec toy_size (AReceive (EChannelData (Some (0, [x61; x62])))) open_session).1.

Lemma data_session_reachable : @reachable toy_size default_config data_session.
Proof. apply reach_step; [apply open_session_reachable|cbn; unfold MaxUint32; rewrite !blen_cons, blen_nil; lia]. Qed.

Lemma channel_bounded_witness :
  ∃ c, s_store data_session !! 0 = Some c ∧ frames_bytes (ch_frames c) = 2 ∧
    ch_localWindow c + frames_bytes (ch_frames c) <= InitialWindow default_config.
Proof.
  assert (Hc : s_store data_session !! 0 = Some (chan data_session 0)) by (vm_compute; reflexivity).
  exists (chan data_session 0). split; [exact Hc|]. split; [vm_compute; reflexivity|].
  apply (@channel_bounded toy_size toy_size_laws default_config data_session 0 (chan data_session 0)
    default_config_ok data_session_reachable Hc).
Defined.
