(* ===== verification/SessionBudget.v ===== *)
(** * The queue budget of a session

    The session charges every queued item (a task of the dispatcher, a write of
    either queue, a frame or event held by a channel) to [queuedFrames] and
    [queuedBytes] when it is queued, and discharges it when it leaves.  The
    invariant [budget] says that the two counters are exactly the sums of what
    is queued, and stay within [MaxQueuedFramesTotal] and
    [MaxQueuedBytesTotal]. *)

From S2P Require Import Prelude SessionConfig SessionTypes SessionOps SessionSteps SessionChannel.

Section budget.
Context `{ProtoSize}.

(** The size charged for a queued write. *)
Definition write_size (writes : gmap Z outboundWrite) (w : Z) : Z :=
  match writes !! w with Some m => w_size m | None => 0 end.

Definition queued_items (s : Session) : Z :=
  blen (s_dispatchQueue s) + blen (s_controlQueue s) + blen (s_outboundQueue s)
  + map_sum ch_queuedFrames (s_store s).

Definition queued_size (s : Session) : Z :=
  list_sum task_size (s_dispatchQueue s) + list_sum (write_size (s_writes s)) (s_controlQueue s)
  + list_sum (write_size (s_writes s)) (s_outboundQueue s) + map_sum ch_queuedBytes (s_store s).

(** The counters of one channel. *)
Definition chan_counters (cfg : Config) (c : Channel) : Prop :=
  0 <= ch_queuedFrames c <= MaxQueuedFramesPerChannel (limits cfg) ∧
  0 <= ch_queuedBytes c <= MaxQueuedBytesPerChannel (limits cfg).

(** [D] is a set of channel pointers known to be valid. *)
Record budget (cfg : Config) (D : Z → Prop) (s : Session) : Prop := {
  b_config : s_config s = cfg;
  b_frames : s_queuedFrames s = queued_items s;
  b_bytes : s_queuedBytes s = queued_size s;
  b_frames_max : s_queuedFrames s <= MaxQueuedFramesTotal (limits cfg);
  b_bytes_max : s_queuedBytes s <= MaxQueuedBytesTotal (limits cfg);
  b_chan id c : s_store s !! id = Some c → chan_counters cfg c;
  b_queued w : w ∈ s_controlQueue s ++ s_outboundQueue s → is_Some (s_writes s !! w);
  b_sizes w m : s_writes s !! w = Some m → 0 <= w_size m;
  b_fresh_write w : is_Some (s_writes s !! w) → w < s_nextWrite s;
  b_fresh_chan id : is_Some (s_store s !! id) → id < s_nextLocalChannelID s;
  b_table id : id ∈ s_channels s ∨ D id → is_Some (s_store s !! id);
  b_spawned e : FromFullQueue e ∉ s_spawned s;
}.
End budget.

Section preserve.
Context `{ProtoSizeLaws} (cfg : Config) (Hcfg : config_ok cfg).
Implicit Types (D : Z → Prop) (s : Session).

Abbreviation B := (budget cfg).

Lemma task_size_nonneg t : 0 <= task_size t.
Proof. destruct t; cbn; [apply size_open_nonneg|apply size_global_nonneg]. Qed.

Lemma totals :
  0 < MaxQueuedFramesTotal (limits cfg) <= 65536 ∧ 0 < MaxQueuedBytesTotal (limits cfg) <= 67108864 ∧
  0 < MaxQueuedFramesPerChannel (limits cfg) <= 4096 ∧ 0 < MaxQueuedBytesPerChannel (limits cfg) <= 8388608.
Proof. destruct Hcfg as (?&?&?&?&?&?&Hl&?). unfold limits_ok in Hl. lia. Qed.

Lemma chan_sums D s :
  B D s → 0 <= map_sum ch_queuedFrames (s_store s) ∧ 0 <= map_sum ch_queuedBytes (s_store s).
Proof. intros Hb. split; apply map_sum_nonneg; intros id c Hc; by destruct (b_chan _ _ _ Hb id c Hc) as [[??][??]]. Qed.

Lemma write_size_nonneg D s w : B D s → 0 <= write_size (s_writes s) w.
Proof. intros Hb. unfold write_size. case_match; [by eapply b_sizes|lia]. Qed.

Lemma queue_sums D s :
  B D s → 0 <= list_sum task_size (s_dispatchQueue s) ∧
          0 <= list_sum (write_size (s_writes s)) (s_controlQueue s) ∧
          0 <= list_sum (write_size (s_writes s)) (s_outboundQueue s).
Proof.
  intros Hb. split_and!; apply list_sum_nonneg; intros; eauto using task_size_nonneg, write_size_nonneg.
Qed.

Lemma budget_nonneg D s : B D s → 0 <= s_queuedFrames s ∧ 0 <= s_queuedBytes s.
Proof.
  intros Hb. rewrite (b_frames _ _ _ Hb), (b_bytes _ _ _ Hb). unfold queued_items, queued_size.
  pose proof (chan_sums D s Hb). pose proof (queue_sums D s Hb).
  pose proof (blen_nonneg (s_dispatchQueue s)). pose proof (blen_nonneg (s_controlQueue s)).
  pose proof (blen_nonneg (s_outboundQueue s)). lia.
Qed.

Lemma budget_weaken D D' s : (∀ id, D' id → D id) → B D s → B D' s.
Proof. intros HD [? ? ? ? ? ? ? ? ? ? Ht ?]. split; try done. intros id [|]; apply Ht; auto. Qed.

(** The fields the budget is about. *)
Definition same_budget s s' : Prop :=
  s_config s' = s_config s ∧ s_queuedFrames s' = s_queuedFrames s ∧ s_queuedBytes s' = s_queuedBytes s ∧
  s_store s' = s_store s ∧ s_controlQueue s' = s_controlQueue s ∧ s_outboundQueue s' = s_outboundQueue s ∧
  s_dispatchQueue s' = s_dispatchQueue s ∧ s_writes s' = s_writes s ∧ s_nextWrite s' = s_nextWrite s ∧
  s_nextLocalChannelID s' = s_nextLocalChannelID s ∧
  (∀ id, id ∈ s_channels s' → id ∈ s_channels s) ∧
  (∀ e, FromFullQueue e ∈ s_spawned s' → FromFullQueue e ∈ s_spawned s).

Lemma budget_same D s s' : same_budget s s' → B D s → B D s'.
Proof.
  intros (E1&E2&E3&E4&E5&E6&E7&E8&E9&E10&E11&E12) [? Hf Hb ? ? ? ? ? ? ? Ht Hsp].
  split; unfold queued_items, queued_size, write_size in *;
    rewrite ?E1, ?E2, ?E3, ?E4, ?E5, ?E6, ?E7, ?E8, ?E9, ?E10; try done.
  - intros id [Hin|Hd]; apply Ht; auto.
  - intros e He. by apply (Hsp e), E12.
Qed.

Lemma pres_same D f : (∀ s, same_budget s (f s)) → preserves (B D) (st_modify f).
Proof. intros Hf. apply preserves_modify. intros s. by apply budget_same. Qed.

(** A change of a channel that leaves its counters alone. *)
Definition same_counters (f : Channel → Channel) : Prop :=
  ∀ c, ch_queuedFrames (f c) = ch_queuedFrames c ∧ ch_queuedBytes (f c) = ch_queuedBytes c.

Lemma budget_alter D s id f :
  same_counters f → B D s → B D (s <| s_store ::= alter f id |>).
Proof.
  intros Hf [? Hfr Hby ? ? Hch ? ? ? Hfc Ht ?]. split; cbn; try done.
  - rewrite Hfr. unfold queued_items. cbn. rewrite map_sum_alter; [done|]. intros c _. by destruct (Hf c).
  - rewrite Hby. unfold queued_size. cbn -[list_sum]. rewrite map_sum_alter; [done|]. intros c _. by destruct (Hf c).
  - intros i c. rewrite lookup_alter. case_decide; [subst|eauto].
    destruct (s_store s !! i) as [c0|] eqn:E; [|done]. intros [= <-].
    unfold chan_counters. destruct (Hf c0) as [-> ->]. exact (Hch _ _ E).
  - intros i. rewrite lookup_alter. case_decide; [subst|eauto]. rewrite fmap_is_Some. eauto.
  - intros i Hi. rewrite lookup_alter. case_decide; [subst|eauto]. rewrite fmap_is_Some. eauto.
Qed.

Lemma pres_chan_mod_b D id f : same_counters f → preserves (B D) (chan_mod id f).
Proof. intros Hf. apply preserves_modify. intros s. by apply budget_alter. Qed.

(** One counter moves between a channel and the totals. *)
Lemma budget_transfer D s id c c' df db :
  B D s → s_store s !! id = Some c →
  ch_queuedFrames c' = ch_queuedFrames c + df → ch_queuedBytes c' = ch_queuedBytes c + db →
  chan_counters cfg c' →
  s_queuedFrames s + df <= MaxQueuedFramesTotal (limits cfg) →
  s_queuedBytes s + db <= MaxQueuedBytesTotal (limits cfg) →
  B D (s <| s_queuedFrames := s_queuedFrames s + df |> <| s_queuedBytes := s_queuedBytes s + db |>
         <| s_store ::= <[id := c']> |>).
Proof.
  intros [? Hfr Hby ? ? Hch ? ? ? Hfc Ht ?] Hid E1 E2 Hc' Hm1 Hm2. split; cbn; try done.
  - unfold queued_items in *. cbn. rewrite (map_sum_insert _ _ id c c' Hid). lia.
  - unfold queued_size in *. cbn -[list_sum]. rewrite (map_sum_insert _ _ id c c' Hid). lia.
  - intros i c0. rewrite lookup_insert. case_decide; [naive_solver|eauto].
  - intros i. rewrite lookup_insert. case_decide; [subst; eauto|eauto].
  - intros i Hi. rewrite lookup_insert. case_decide; [eauto|eauto].
Qed.

(** ** The operations that move the counters *)

Lemma wp_reserveBudget D n s (Q : res unit → Session → Prop) :
  B D s → 0 <= n → (∀ e, Q (Err e) s) →
  (s_queuedFrames s + 1 <= MaxQueuedFramesTotal (limits cfg) →
   s_queuedBytes s + n <= MaxQueuedBytesTotal (limits cfg) →
   Q (Ok tt) (s <| s_queuedFrames := s_queuedFrames s + 1 |> <| s_queuedBytes := s_queuedBytes s + n |>)) →
  wp (reserveQueueBudget 1 n) Q s.
Proof.
  intros HB Hn HE HO. pose proof (budget_nonneg D s HB). pose proof totals.
  pose proof (b_frames_max _ _ _ HB). pose proof (b_bytes_max _ _ _ HB).
  unfold reserveQueueBudget. apply wp_bind, wp_get. rewrite (b_config _ _ _ HB).
  destruct (u32 _ <? 1) eqn:E1; [by apply wp_fail|]. destruct (u64 _ <? n) eqn:E2; [by apply wp_fail|].
  bool_simp. rewrite u32_id in E1 by (unfold is_u32, MaxUint32; lia).
  rewrite u64_id in E2 by (unfold is_u64, MaxUint64; lia).
  apply wp_modify. rewrite u32_id, u64_id; [apply HO; lia| |]; unfold is_u32, is_u64, MaxUint32, MaxUint64; lia.
Qed.

(** Releasing what was reserved restores the counters. *)
Lemma wp_releaseBudget f n s (Q : res unit → Session → Prop) :
  f <= s_queuedFrames s → n <= s_queuedBytes s →
  Q (Ok tt) (s <| s_queuedFrames := s_queuedFrames s - f |> <| s_queuedBytes := s_queuedBytes s - n |>) →
  wp (releaseQueueBudget f n) Q s.
Proof.
  intros Hf Hn HQ. unfold releaseQueueBudget. apply wp_modify.
  destruct (Z.ltb_spec (s_queuedFrames s) f); [lia|]. by destruct (Z.ltb_spec (s_queuedBytes s) n); [lia|].
Qed.

Lemma pres_reserveQueued D id n : D id → 0 <= n → preserves (B D) (reserveQueuedLocked id 1 n).
Proof.
  intros HD Hn s HB. pose proof totals as (T1&T2&T3&T4).
  destruct (b_table _ _ _ HB id (or_intror HD)) as [c Hc].
  destruct (b_chan _ _ _ HB id c Hc) as [Hf Hb].
  unfold reserveQueuedLocked. apply wp_bind, wp_get. rewrite (chan_lookup _ _ _ Hc), (b_config _ _ _ HB).
  destruct (u32 _ <? 1) eqn:E1; [by apply wp_fail|]. destruct (u64 _ <? n) eqn:E2; [by apply wp_fail|].
  bool_simp. rewrite u32_id in E1 by (unfold is_u32, MaxUint32; lia).
  rewrite u64_id in E2 by (unfold is_u64, MaxUint64; lia).
  apply wp_bind, (wp_reserveBudget D); [done..|]. intros Hm1 Hm2. apply wp_modify.
  eapply budget_same; [|apply (budget_transfer D s id c (c <| ch_queuedFrames := ch_queuedFrames c + 1 |>
    <| ch_queuedBytes := ch_queuedBytes c + n |>) 1 n HB Hc); try done].
  - unfold same_budget. cbn. split_and!; try done. rewrite (alter_insert_lookup _ _ _ c Hc).
    rewrite u32_id, u64_id; [done| |]; unfold is_u32, is_u64, MaxUint32, MaxUint64; lia.
  - unfold chan_counters. cbn. lia.
Qed.

Lemma channel_le_total D s id c :
  B D s → s_store s !! id = Some c →
  ch_queuedFrames c <= s_queuedFrames s ∧ ch_queuedBytes c <= s_queuedBytes s.
Proof.
  intros HB Hc. rewrite (b_frames _ _ _ HB), (b_bytes _ _ _ HB). unfold queued_items, queued_size.
  pose proof (queue_sums D s HB). pose proof (blen_nonneg (s_dispatchQueue s)).
  pose proof (blen_nonneg (s_controlQueue s)). pose proof (blen_nonneg (s_outboundQueue s)).
  pose proof (map_sum_le ch_queuedFrames _ id c (λ i x Hx, proj1 (proj1 (b_chan _ _ _ HB i x Hx))) Hc).
  pose proof (map_sum_le ch_queuedBytes _ id c (λ i x Hx, proj1 (proj2 (b_chan _ _ _ HB i x Hx))) Hc). lia.
Qed.

(** A channel gives [f] frames and [n] bytes back, and forgets its frames if [g] does. *)
Lemma wp_give_back D id f n g s :
  B D s → same_counters g →
  (∀ c, s_store s !! id = Some c → 0 <= f <= ch_queuedFrames c ∧ 0 <= n <= ch_queuedBytes c) →
  (s_store s !! id = None → f = 0 ∧ n = 0) →
  wp (chan_mod id (λ c, g (c <| ch_queuedFrames := ch_queuedFrames c - f |>
                             <| ch_queuedBytes := ch_queuedBytes c - n |>)) ≫= λ _,
      releaseQueueBudget f n) (λ _ s', B D s') s.
Proof.
  intros HB Hg Hc Hn0. apply wp_bind, wp_modify. pose proof (budget_nonneg D s HB).
  pose proof (b_frames_max _ _ _ HB). pose proof (b_bytes_max _ _ _ HB).
  destruct (s_store s !! id) as [c|] eqn:Hid.
  - destruct (Hc c eq_refl) as [? ?]. pose proof (channel_le_total D s id c HB Hid).
    destruct (b_chan _ _ _ HB id c Hid).
    apply wp_releaseBudget; cbn; [lia..|].
    destruct (Hg (c <| ch_queuedFrames := ch_queuedFrames c - f |> <| ch_queuedBytes := ch_queuedBytes c - n |>)) as [G1 G2].
    eapply budget_same; [|apply (budget_transfer D s id c (g (c <| ch_queuedFrames := ch_queuedFrames c - f |>
      <| ch_queuedBytes := ch_queuedBytes c - n |>)) (- f) (- n) HB Hid)].
    + unfold same_budget. cbn. rewrite (alter_insert_lookup _ _ _ c Hid). done.
    + rewrite G1. cbn. lia.
    + rewrite G2. cbn. lia.
    + unfold chan_counters. rewrite G1, G2. cbn. lia.
    + lia.
    + lia.
  - destruct (Hn0 eq_refl) as [-> ->]. apply wp_releaseBudget; cbn; [lia..|].
    eapply budget_same; [|exact HB]. unfold same_budget. cbn. rewrite alter_none, !Z.sub_0_r by done. done.
Qed.

Lemma pres_releaseQueued D id n : 0 <= n → preserves (B D) (releaseQueuedLocked id 1 n).
Proof.
  intros Hn s HB. unfold releaseQueuedLocked, chan_get. apply wp_bind, wp_bind, wp_get, wp_ret. cbv zeta.
  apply (wp_give_back D id _ _ (λ c, c)); [done|done| |].
  - intros c Hid. rewrite (chan_lookup _ _ _ Hid). destruct (b_chan _ _ _ HB id c Hid).
    destruct (Z.ltb_spec (ch_queuedFrames c) 1), (Z.ltb_spec (ch_queuedBytes c) n); lia.
  - intros Hid. unfold chan. rewrite Hid. cbn. destruct n; done || lia.
Qed.

Lemma pres_discard D id : preserves (B D) (discardQueuedLocked id).
Proof.
  intros s HB. unfold discardQueuedLocked, chan_get. apply wp_bind, wp_bind, wp_get, wp_ret.
  set (f := ch_queuedFrames (chan s id)). set (n := ch_queuedBytes (chan s id)).
  assert (Hw : wp (chan_mod id (λ c, (c <| ch_queuedFrames := ch_queuedFrames c - f |>
      <| ch_queuedBytes := ch_queuedBytes c - n |>) <| ch_frames := [] |>) ≫= λ _,
      releaseQueueBudget f n) (λ _ s', B D s') s).
  { apply (wp_give_back D id f n (λ c, c <| ch_frames := [] |>)); [done|done| |].
    - intros c Hid. subst f n. rewrite (chan_lookup _ _ _ Hid). destruct (b_chan _ _ _ HB id c Hid). lia.
    - intros Hid. subst f n. unfold chan. by rewrite Hid. }
  revert Hw. unfold wp, chan_mod, st_modify, mbind, ST_bind, releaseQueueBudget. cbn.
  apply budget_same. unfold same_budget. cbn. split_and!; try done. apply alter_ext.
  intros c Hid. subst f n. rewrite (chan_lookup _ _ _ Hid). cbn. by rewrite !Z.sub_diag.
Qed.

(** *** Writes *)

Lemma not_queued_sum (ws : gmap Z outboundWrite) w m l :
  w ∉ l → list_sum (write_size (<[w := m]> ws)) l = list_sum (write_size ws) l.
Proof.
  induction l as [|x l IH]; [done|]. intros Hw. apply not_elem_of_cons in Hw as [Hx Hl].
  rewrite !list_sum_cons, IH by done. unfold write_size. by rewrite lookup_insert_ne.
Qed.

Lemma not_queued_sum_delete (ws : gmap Z outboundWrite) w l :
  w ∉ l → list_sum (write_size (delete w ws)) l = list_sum (write_size ws) l.
Proof.
  induction l as [|x l IH]; [done|]. intros Hw. apply not_elem_of_cons in Hw as [Hx Hl].
  rewrite !list_sum_cons, IH by done. unfold write_size. by rewrite lookup_delete_ne.
Qed.

Lemma same_size_sum (ws : gmap Z outboundWrite) w f l :
  (∀ m, w_size (f m) = w_size m) → list_sum (write_size (alter f w ws)) l = list_sum (write_size ws) l.
Proof.
  intros Hf. induction l as [|x l IH]; [done|]. rewrite !list_sum_cons, IH. f_equal.
  unfold write_size. rewrite lookup_alter. case_decide; [subst|done]. destruct (ws !! x); cbn; auto.
Qed.

Lemma fresh_not_queued D s :
  B D s → (s_nextWrite s ∉ s_controlQueue s) ∧ (s_nextWrite s ∉ s_outboundQueue s).
Proof.
  intros HB. split; intros Hin;
    (assert (s_nextWrite s < s_nextWrite s);
     [apply (b_fresh_write _ _ _ HB), (b_queued _ _ _ HB), elem_of_app; auto|lia]).
Qed.

Lemma budget_new_write D s m :
  B D s → 0 <= w_size m →
  B D (s <| s_writes ::= <[s_nextWrite s := m]> |> <| s_nextWrite ::= Z.succ |>).
Proof.
  intros HB Hm. destruct (fresh_not_queued D s HB) as [N1 N2].
  destruct HB as [? ? Hby ? ? ? Hq Hs Hfw ? ? ?]. split; cbn; try done.
  - rewrite Hby. unfold queued_size. cbn. by rewrite !not_queued_sum.
  - intros w Hw. rewrite lookup_insert. case_decide; [done|auto].
  - intros w m'. rewrite lookup_insert. case_decide; naive_solver.
  - intros w. rewrite lookup_insert. case_decide; [lia|]. intros Hw. specialize (Hfw w Hw). lia.
Qed.

Lemma budget_drop_write D s w :
  B D s → w ∉ s_controlQueue s → w ∉ s_outboundQueue s → B D (s <| s_writes ::= delete w |>).
Proof.
  intros HB N1 N2. destruct HB as [? ? Hby ? ? ? Hq Hs Hfw ? ? ?]. split; cbn; try done.
  - rewrite Hby. unfold queued_size. cbn. by rewrite !not_queued_sum_delete.
  - intros w' Hw. rewrite lookup_delete_ne; [auto|]. intros ->. apply elem_of_app in Hw as [|]; done.
  - intros w' m. rewrite lookup_delete_Some. naive_solver.
  - intros w' [m Hm]. apply lookup_delete_Some in Hm as [_ Hm]. apply Hfw. eauto.
Qed.

Lemma pres_write_mod D w f : (∀ m, w_size (f m) = w_size m) → preserves (B D) (write_mod w f).
Proof.
  intros Hf. apply preserves_modify. intros s [? ? Hby ? ? ? Hq Hs Hfw ? ? ?]. split; cbn; try done.
  - rewrite Hby. unfold queued_size. cbn. by rewrite !same_size_sum.
  - intros w' Hw. rewrite lookup_alter. case_decide; [subst; rewrite fmap_is_Some|]; auto.
  - intros w' m. rewrite lookup_alter. case_decide; [subst|eauto].
    destruct (s_writes s !! w') as [m0|] eqn:E; [|done]. intros [= <-]. rewrite Hf. eauto.
  - intros w'. rewrite lookup_alter. case_decide; [subst; rewrite fmap_is_Some|]; auto.
Qed.

Lemma budget_enqueue D s w m (control : bool) :
  B D s → s_writes s !! w = Some m →
  s_queuedFrames s + 1 <= MaxQueuedFramesTotal (limits cfg) →
  s_queuedBytes s + w_size m <= MaxQueuedBytesTotal (limits cfg) →
  let s' := s <| s_queuedFrames := s_queuedFrames s + 1 |> <| s_queuedBytes := s_queuedBytes s + w_size m |> in
  B D (if control then s' <| s_controlQueue := s_controlQueue s ++ [w] |>
       else s' <| s_outboundQueue := s_outboundQueue s ++ [w] |>).
Proof.
  intros [? Hfr Hby ? ? ? Hq ? ? ? ? ?] Hw Hm1 Hm2. cbv zeta.
  assert (Hsz : write_size (s_writes s) w = w_size m) by (unfold write_size; by rewrite Hw).
  unfold queued_items in Hfr. unfold queued_size in Hby.
  destruct control; split; cbn; try done; unfold queued_items, queued_size; cbn;
    rewrite ?blen_app, ?list_sum_app, ?list_sum_cons, ?list_sum_nil, ?Hsz, ?blen_cons, ?blen_nil; try lia.
  all: intros w' Hw'; destruct (decide (w' = w)) as [->|Hne]; [by rewrite Hw|];
    apply Hq; set_solver.
Qed.

Lemma pres_post_write D frame control wantResult after :
  preserves (B D) (post_write frame control wantResult after).
Proof.
  intros s HB. unfold post_write, new_write. apply wp_bind, wp_bind, wp_get, wp_bind, wp_modify, wp_ret.
  set (m := MkWrite frame control wantResult None after (size_envelope frame) writeQueued).
  set (w := s_nextWrite s). set (s1 := s <| s_writes ::= <[w := m]> |> <| s_nextWrite ::= Z.succ |>).
  pose proof (size_envelope_nonneg frame) as Hsz.
  assert (HB1 : B D s1) by (by apply budget_new_write).
  destruct (fresh_not_queued D s HB) as [N1 N2].
  assert (Hdrop : B D (s1 <| s_writes ::= delete w |>)) by (by apply budget_drop_write).
  apply wp_bind, wp_try. unfold enqueueWrite. apply wp_bind, (wp_reserveBudget D); [done..|].
  intros Hm1 Hm2. apply wp_bind, wp_get. cbn [s_queuesClosed setter set_s_queuedFrames set_s_queuedBytes].
  pose proof (budget_nonneg D s1 HB1).
  destruct (s_queuesClosed _).
  { apply wp_bind, wp_releaseBudget; cbn -[s1]; [lia..|]. apply wp_fail, wp_bind, wp_modify, wp_fail.
    eapply budget_same; [|exact Hdrop]. unfold same_budget. cbn -[Z.sub Z.add]. split_and!; try done; lia. }
  match goal with |- context [blen ?q <? ?mx] => assert (Hlt : blen q < mx) end.
  { pose proof (b_frames _ _ _ HB1) as Hfr. unfold queued_items in Hfr.
    pose proof (chan_sums D s1 HB1). pose proof (blen_nonneg (s_dispatchQueue s1)).
    pose proof (blen_nonneg (s_controlQueue s1)). pose proof (blen_nonneg (s_outboundQueue s1)).
    cbn [s_config setter set_s_queuedFrames set_s_queuedBytes s_controlQueue s_outboundQueue].
    rewrite (b_config _ _ _ HB1). destruct control; lia. }
  apply Z.ltb_lt in Hlt. rewrite Hlt. apply wp_modify, wp_ret.
  assert (Hw : s_writes s1 !! w = Some m) by (cbn; by rewrite lookup_insert_eq).
  pose proof (budget_enqueue D s1 w m control HB1 Hw Hm1 Hm2) as HB2.
  destruct control; exact HB2.
Qed.

Lemma pres_enqueueDispatch_b D task : preserves (B D) (enqueueDispatch task).
Proof.
  intros s HB. unfold enqueueDispatch. pose proof (task_size_nonneg task).
  apply wp_bind, (wp_reserveBudget D); [done..|]. intros Hm1 Hm2. apply wp_bind, wp_get.
  pose proof (b_frames _ _ _ HB) as Hfr. unfold queued_items in Hfr. pose proof (b_bytes _ _ _ HB) as Hby.
  unfold queued_size in Hby. pose proof (chan_sums D s HB). pose proof (blen_nonneg (s_dispatchQueue s)).
  pose proof (blen_nonneg (s_controlQueue s)). pose proof (blen_nonneg (s_outboundQueue s)).
  cbn [s_config setter set_s_queuedFrames set_s_queuedBytes s_dispatchQueue].
  rewrite (b_config _ _ _ HB).
  destruct (Z.ltb_spec (blen (s_dispatchQueue s)) (MaxQueuedFramesTotal (limits cfg))) as [_|?]; [|lia].
  apply wp_modify. destruct HB. split; cbn; try done; unfold queued_items, queued_size; cbn;
    rewrite ?blen_app, ?list_sum_app, ?list_sum_cons, ?list_sum_nil, ?blen_cons, ?blen_nil; lia.
Qed.

(** *** Leaving the queues *)

Lemma wp_take_write D s w rest (control : bool) m (Q : res unit → Session → Prop) :
  B D s → (if control then s_controlQueue s else s_outboundQueue s) = w :: rest →
  s_writes s !! w = Some m → (∀ s', B D s' → Q (Ok tt) s') →
  wp (releaseQueueBudget 1 (w_size m)) Q
    (if control then s <| s_controlQueue := rest |> else s <| s_outboundQueue := rest |>).
Proof.
  intros HB Hq Hw HQ.
  assert (Hsz : write_size (s_writes s) w = w_size m) by (unfold write_size; by rewrite Hw).
  pose proof (b_frames _ _ _ HB) as Hfr. unfold queued_items in Hfr.
  pose proof (b_bytes _ _ _ HB) as Hby. unfold queued_size in Hby.
  pose proof (chan_sums D s HB). pose proof (queue_sums D s HB). pose proof (budget_nonneg D s HB).
  pose proof (b_sizes _ _ _ HB w m Hw).
  pose proof (blen_nonneg (s_dispatchQueue s)). pose proof (blen_nonneg rest).
  assert (Hr : 0 <= list_sum (write_size (s_writes s)) rest).
  { apply list_sum_nonneg. intros x _. by apply (write_size_nonneg D). }
  pose proof (blen_nonneg (s_controlQueue s)). pose proof (blen_nonneg (s_outboundQueue s)).
  destruct control; rewrite Hq, blen_cons in *; rewrite ?list_sum_cons, ?Hsz in *;
    (apply wp_releaseBudget; cbn -[Z.sub]; [lia..|]); apply HQ; destruct HB as [? ? ? ? ? ? Hqd ? ? ? ? ?];
    split; cbn -[Z.sub]; try done; unfold queued_items, queued_size; cbn -[Z.sub]; try lia;
    intros w' Hw'; apply Hqd; rewrite Hq; set_solver.
Qed.

Lemma wp_take_task D s task rest (Q : res unit → Session → Prop) :
  B D s → s_dispatchQueue s = task :: rest → (∀ s', B D s' → Q (Ok tt) s') →
  wp (st_modify (λ s, s <| s_dispatchQueue := rest |>) ≫= λ _, releaseQueueBudget 1 (task_size task)) Q s.
Proof.
  intros HB Hq HQ. apply wp_bind, wp_modify.
  pose proof (b_frames _ _ _ HB) as Hfr. unfold queued_items in Hfr.
  pose proof (b_bytes _ _ _ HB) as Hby. unfold queued_size in Hby.
  pose proof (chan_sums D s HB). pose proof (queue_sums D s HB). pose proof (task_size_nonneg task).
  pose proof (blen_nonneg rest). pose proof (blen_nonneg (s_controlQueue s)).
  pose proof (blen_nonneg (s_outboundQueue s)).
  assert (Hr : 0 <= list_sum task_size rest).
  { apply list_sum_nonneg. intros x _. apply task_size_nonneg. }
  rewrite Hq, blen_cons in *. rewrite list_sum_cons in *.
  apply wp_releaseBudget; cbn -[Z.sub]; [lia..|]. apply HQ. destruct HB.
  split; cbn -[Z.sub]; try done; unfold queued_items, queued_size; cbn -[Z.sub]; lia.
Qed.

(** *** Valid channel pointers *)

Definition with_id D (id : Z) : Z → Prop := λ x, x = id ∨ D x.

Lemma with_id_here D id : with_id D id id.
Proof. by left. Qed.

Lemma budget_with_id D s id : B D s → is_Some (s_store s !! id) → B (with_id D id) s.
Proof.
  intros [? ? ? ? ? ? ? ? ? ? Ht ?] Hid. split; try done. intros i [?|[->|?]]; auto.
Qed.

Lemma pres_widen {A} D id (m : M A) s :
  preserves (B (with_id D id)) m → B D s → is_Some (s_store s !! id) → wp m (λ _ s', B D s') s.
Proof.
  intros Hm HB Hid. eapply wp_mono; [by apply Hm, budget_with_id|]. cbv beta. intros r s'.
  apply budget_weaken. by right.
Qed.

Lemma pres_lookup {A} D id (k : option Z → M A) :
  preserves (B (with_id D id)) (k (Some id)) → preserves (B D) (k None) →
  preserves (B D) (lookupChannel id ≫= k).
Proof.
  intros H1 H2 s HB. unfold lookupChannel. apply wp_bind, wp_bind, wp_get, wp_ret.
  case_bool_decide; [|by apply H2]. apply (pres_widen D id); [done..|]. apply (b_table _ _ _ HB). by left.
Qed.

Lemma pres_on_channel {A} D id d (m : Channel → M A) :
  (∀ c, preserves (B (with_id D id)) (m c)) → preserves (B D) (on_channel id d m).
Proof.
  intros Hm s HB. unfold on_channel. apply wp_bind, wp_get.
  destruct (s_store s !! id) as [c|] eqn:Hc; [|by apply wp_ret].
  apply (pres_widen D id); [done..|eauto].
Qed.

Lemma pres_new_channel_b {A} D c (k : Z → M A) :
  ch_queuedFrames c = 0 → ch_queuedBytes c = 0 → (∀ id, preserves (B (with_id D id)) (k id)) →
  preserves (B D) (reserveLocalChannelID ≫= λ id, new_channel id c ≫= λ _, k id).
Proof.
  intros Hf Hb Hk s HB. unfold reserveLocalChannelID. apply wp_bind, wp_bind, wp_get.
  destruct (_ =? _); [by apply wp_fail|]. apply wp_bind, wp_modify, wp_ret, wp_bind, wp_modify.
  set (id := s_nextLocalChannelID s). pose proof totals.
  assert (Hfresh : s_store s !! id = None).
  { apply eq_None_not_Some. intros Hs. pose proof (b_fresh_chan _ _ _ HB _ Hs). lia. }
  apply (pres_widen D id); [done| |cbn; rewrite lookup_insert_eq; eauto].
  destruct HB as [? Hfr Hby ? ? Hch ? ? ? Hfc Ht ?]. split; cbn; try done.
  - rewrite Hfr. unfold queued_items. cbn. rewrite map_sum_insert_new by done. lia.
  - rewrite Hby. unfold queued_size. cbn. rewrite map_sum_insert_new by done. lia.
  - intros i c'. rewrite lookup_insert. case_decide; [|eauto]. intros [= <-]. unfold chan_counters. lia.
  - intros i. rewrite lookup_insert. case_decide; [subst; lia|]. intros Hi. specialize (Hfc i Hi). lia.
  - intros i Hi. rewrite lookup_insert. case_decide; [done|auto].
Qed.

Lemma pres_add_table D f :
  (∀ s, s_config (f s) = s_config s ∧ s_queuedFrames (f s) = s_queuedFrames s ∧
     s_queuedBytes (f s) = s_queuedBytes s ∧ s_store (f s) = s_store s ∧
     s_controlQueue (f s) = s_controlQueue s ∧ s_outboundQueue (f s) = s_outboundQueue s ∧
     s_dispatchQueue (f s) = s_dispatchQueue s ∧ s_writes (f s) = s_writes s ∧
     s_nextWrite (f s) = s_nextWrite s ∧ s_nextLocalChannelID (f s) = s_nextLocalChannelID s ∧
     (∀ id, id ∈ s_channels (f s) → id ∈ s_channels s ∨ D id) ∧ s_spawned (f s) = s_spawned s) →
  preserves (B D) (st_modify f).
Proof.
  intros Hf. apply preserves_modify. intros s [? Hfr Hb ? ? ? ? ? ? ? Ht ?].
  destruct (Hf s) as (E1&E2&E3&E4&E5&E6&E7&E8&E9&E10&E11&E12).
  split; unfold queued_items, queued_size, write_size in *;
    rewrite ?E1, ?E2, ?E3, ?E4, ?E5, ?E6, ?E7, ?E8, ?E9, ?E10, ?E12; try done.
  intros id [Hin|Hd]; apply Ht; auto.
Qed.

(** ** Every operation *)

Create HintDb budget.
Lemma u32_nonneg z : 0 <= u32 z.
Proof. pose proof (u32_range z) as [? _]. done. Qed.
#[local] Hint Resolve u32_nonneg with_id_here size_request_nonneg blen_nonneg : budget.

Ltac b_modify :=
  apply pres_same; intros; unfold same_budget; cbn; repeat case_match; cbn; split_and!;
  first [reflexivity | done | set_solver].

Ltac b_unit _ :=
  lazymatch goal with
  | |- preserves _ (lookupChannel _ ≫= _) => apply pres_lookup
  | |- preserves _ (on_channel _ _ _) => apply pres_on_channel; intros
  | |- preserves _ (reserveLocalChannelID ≫= _) => apply pres_new_channel_b; [done|done|intros]
  | |- preserves _ (chan_mod _ _) =>
      apply pres_chan_mod_b; intros []; unfold send_open_result; cbn; repeat case_match; split; reflexivity
  | |- preserves _ (write_mod _ _) =>
      apply pres_write_mod; intros []; unfold deliver_result; cbn; repeat case_match; reflexivity
  | |- preserves _ (st_modify _) => b_modify
  | |- preserves _ (reserveQueuedLocked _ _ _) => apply pres_reserveQueued; solve [auto 3 with budget]
  | |- preserves _ (releaseQueuedLocked _ _ _) => apply pres_releaseQueued; solve [auto 3 with budget]
  | |- preserves _ _ => first [assumption | solve [auto 2 with budget]]
  end.

Ltac bp := pres_with b_unit.

#[local] Hint Resolve pres_discard pres_post_write pres_enqueueDispatch_b : budget.

Lemma pres_chan_cancel_b D id e : preserves (B D) (chan_cancel id e).
Proof. apply preserves_modify. intros s HB. case_match; [done|]. by apply budget_alter. Qed.
#[local] Hint Resolve pres_chan_cancel_b : budget.

Lemma pres_addPending_b D id p : D id → preserves (B D) (addPendingChannel id p).
Proof.
  intros HD. unfold addPendingChannel. bp; apply pres_add_table; intros; cbn; split_and!; try done; set_solver.
Qed.
#[local] Hint Resolve pres_addPending_b : budget.

Lemma pres_channel_shutdown_b D id e : preserves (B D) (channel_shutdown id e).
Proof. bp. Qed.
Lemma pres_removeChannel_b D id : preserves (B D) (removeChannel id).
Proof. bp. Qed.
#[local] Hint Resolve pres_channel_shutdown_b pres_removeChannel_b : budget.

Lemma pres_shutdown_b D e : preserves (B D) (shutdown e).
Proof. bp. Qed.
#[local] Hint Resolve pres_shutdown_b : budget.

Lemma pres_writer_take_from D s w rest (control : bool) :
  B D s → (if control then s_controlQueue s else s_outboundQueue s) = w :: rest →
  wp (writer_take w) (λ _ s', B D s')
    (if control then s <| s_controlQueue := rest |> else s <| s_outboundQueue := rest |>).
Proof.
  intros HB Hq. unfold writer_take. apply wp_bind, wp_get.
  assert (Hin : w ∈ s_controlQueue s ++ s_outboundQueue s).
  { apply elem_of_app. destruct control; rewrite Hq; set_solver. }
  destruct (b_queued _ _ _ HB w Hin) as [m Hm].
  assert (Hm' : s_writes (if control then s <| s_controlQueue := rest |> else s <| s_outboundQueue := rest |>) !! w
                = Some m) by (by destruct control).
  rewrite Hm'. apply wp_bind, (wp_take_write D s w rest control m); [done..|].
  intros s' HB'. apply (preserves_wp (B D)); [|done|done]. bp.
Qed.

Lemma pres_take_control D : preserves (B D) take_control.
Proof.
  intros s HB. unfold take_control. apply wp_bind, wp_get. destruct (s_controlQueue s) as [|w rest] eqn:Hq.
  - apply (preserves_wp (B D)); [bp|done|done].
  - apply wp_bind, wp_modify. by apply (pres_writer_take_from D s w rest true).
Qed.

Lemma pres_take_outbound D : preserves (B D) take_outbound.
Proof.
  intros s HB. unfold take_outbound. apply wp_bind, wp_get. destruct (s_outboundQueue s) as [|w rest] eqn:Hq.
  - apply (preserves_wp (B D)); [bp|done|done].
  - apply wp_bind, wp_modify. by apply (pres_writer_take_from D s w rest false).
Qed.

Lemma pres_dispatchLoop_take D : preserves (B D) dispatchLoop_take.
Proof.
  intros s HB. unfold dispatchLoop_take. apply wp_bind, wp_get.
  destruct (s_dispatchQueue s) as [|task rest] eqn:Hq; [by apply wp_ret|].
  apply wp_assoc, wp_bind, (wp_take_task D s task rest); [done..|].
  intros s' HB'. apply (preserves_wp (B D)); [|done|done]. bp.
Qed.
#[local] Hint Resolve pres_take_control pres_take_outbound pres_dispatchLoop_take : budget.

Lemma pres_queue_event_b D id e : D id → 0 <= event_size e → preserves (B D) (queue_event id e).
Proof. intros. bp. Qed.

Lemma pres_channelRequest_b D m : preserves (B D) (enqueueChannelRequest m).
Proof.
  unfold enqueueChannelRequest.
  assert (∀ D id msg, D id → preserves (B D) (queue_event id (EventRequest msg (size_request msg)))).
  { intros. apply pres_queue_event_b; [done|]. cbn. auto with budget. }
  bp; auto with budget.
Qed.
#[local] Hint Resolve pres_channelRequest_b : budget.

Lemma pres_eof_b D id : D id → preserves (B D) (queue_event id EventEOF).
Proof. intros. apply pres_queue_event_b; [done|]. cbn. lia. Qed.
Lemma pres_close_b D id : D id → preserves (B D) (queue_event id EventClose).
Proof. intros. apply pres_queue_event_b; [done|]. cbn. lia. Qed.
#[local] Hint Resolve pres_eof_b pres_close_b : budget.

Lemma pres_data_b D m : preserves (B D) (handleChannelData m).
Proof. bp. Qed.
#[local] Hint Resolve pres_data_b : budget.

Lemma pres_event_taken D id e : 0 <= event_size e → preserves (B D) (releaseQueuedLocked id 1 (event_size e)).
Proof. apply pres_releaseQueued. Qed.

Lemma wp_loop_take D id s :
  B D s → (∀ e, e ∈ ch_events (chan s id) → 0 <= event_size e) → wp (loop_take id) (λ _ s', B D s') s.
Proof.
  intros HB He. unfold loop_take, chan_get. apply wp_bind, wp_bind, wp_get, wp_ret.
  destruct (ch_events (chan s id)) as [|e rest]; [by apply wp_ret|].
  assert (0 <= event_size e) by (apply He; set_solver).
  apply (preserves_wp (B D)); [|done|done]. bp.
Qed.

Lemma wp_worker_take D id s :
  B D s → (∀ c e, s_store s !! id = Some c → e ∈ ch_events c → 0 <= event_size e) →
  wp (exec (AWorkerTake id)) (λ _ s', B D s') s.
Proof.
  intros HB He. cbn [exec]. unfold ret_unit, on_channel. apply wp_bind, wp_bind, wp_get.
  destruct (s_store s !! id) as [c|] eqn:Hc; [|by apply wp_ret, wp_ret].
  destruct (ch_worker c); try (by apply wp_ret, wp_ret).
  eapply wp_mono; [apply wp_loop_take|].
  - exact HB.
  - rewrite (chan_lookup _ _ _ Hc). eauto.
  - by intros [] s' HB'.
Qed.

Lemma wp_spawned D s : B D s → wp (exec ASpawned) (λ _ s', B D s') s.
Proof.
  intros HB. cbn [exec]. unfold ret_unit. apply wp_bind, wp_bind, wp_get.
  destruct (s_spawned s) as [|g rest] eqn:Hg; [by apply wp_ret, wp_ret|].
  apply wp_bind, wp_modify. apply (preserves_wp (B D)); [by apply pres_shutdown_b| |by intros []].
  eapply budget_same; [|exact HB]. unfold same_budget. cbn. split_and!; try done. rewrite Hg. set_solver.
Qed.

Lemma exec_budget D a s :
  B D s → (∀ id c e, s_store s !! id = Some c → e ∈ ch_events c → 0 <= event_size e) →
  B D (exec a s).1.
Proof.
  intros HB He. destruct a;
    try (match goal with |- B _ (exec ?a _).1 => assert (preserves (B D) (exec a)) as Hp; [|by apply Hp] end;
         cbn [exec]; unfold ret_unit; by bp).
  - apply wp_worker_take; [done|eauto].
  - apply wp_spawned. done.
Qed.
End preserve.

(** ** Theorems *)

Lemma reachable_budget `{ProtoSizeLaws} cfg s :
  config_ok cfg → reachable cfg s → budget cfg (λ _, False) s.
Proof.
  intros Hcfg Hs. induction Hs as [h|s a Hs IH Ha].
  - pose proof (totals cfg Hcfg) as (?&?&?&?).
    split; cbn; unfold queued_items, queued_size; cbn; rewrite ?map_sum_empty, ?list_sum_nil, ?blen_nil;
      try lia; try done; try (by intros *; rewrite lookup_empty; try intros [? ?]); set_solver.
  - apply exec_budget; [done|done|]. intros id c e Hc He.
    pose proof (reachable_chan_inv cfg Hcfg s id c Hs Hc) as Hi.
    pose proof (ci_events_nonneg _ _ Hi) as Hn. by eapply Forall_forall in Hn.
Qed.

(** C1: The session's queue budget is exact in every reachable state: the two
    counters are the number and the size of everything that is queued (tasks,
    writes, frames and events of all channels), and they never exceed the
    configured maxima, so no peer can make the session hold more. *)
Theorem budget_exact `{ProtoSizeLaws} (cfg : Config) (s : Session)
    (Hcfg : config_ok cfg) (Hs : reachable cfg s) :
  s_queuedFrames s =
    blen (s_dispatchQueue s) + blen (s_controlQueue s) + blen (s_outboundQueue s)
    + map_sum ch_queuedFrames (s_store s) ∧
  s_queuedBytes s =
    list_sum task_size (s_dispatchQueue s) + list_sum (write_size (s_writes s)) (s_controlQueue s)
    + list_sum (write_size (s_writes s)) (s_outboundQueue s) + map_sum ch_queuedBytes (s_store s) ∧
  0 <= s_queuedFrames s <= MaxQueuedFramesTotal (limits cfg) ∧
  0 <= s_queuedBytes s <= MaxQueuedBytesTotal (limits cfg).
Proof.
  pose proof (reachable_budget cfg s Hcfg Hs) as HB. pose proof (budget_nonneg cfg _ s HB).
  destruct HB. split_and!; try done; lia.
Qed.

Lemma budget_exact_witness :
  s_queuedFrames data_session = 1 ∧ map_sum ch_queuedFrames (s_store data_session) = 1 ∧
  0 <= s_queuedFrames data_session <= MaxQueuedFramesTotal (limits default_config).
Proof.
  split; [vm_compute; reflexivity|]. split; [vm_compute; reflexivity|].
  apply (@budget_exact toy_size toy_size_laws default_config data_session default_config_ok data_session_reachable).
Defined.

(** The bounded Go channels never overflow: the budget keeps the three
    session queues within their capacity, and no goroutine ever runs the
    "session outbound queue exhausted" shutdown of [enqueueWrite]. *)
Theorem queues_never_full `{ProtoSizeLaws} (cfg : Config) (s : Session)
    (Hcfg : config_ok cfg) (Hs : reachable cfg s) :
  blen (s_dispatchQueue s) <= MaxQueuedFramesTotal (limits cfg) ∧
  blen (s_controlQueue s) <= MaxQueuedFramesTotal (limits cfg) ∧
  blen (s_outboundQueue s) <= MaxQueuedFramesTotal (limits cfg) ∧
  ∀ e, FromFullQueue e ∉ s_spawned s.
Proof.
  pose proof (reachable_budget cfg s Hcfg Hs) as HB.
  pose proof (b_frames _ _ _ HB) as Hf. unfold queued_items in Hf.
  pose proof (b_frames_max _ _ _ HB). pose proof (chan_sums cfg _ s HB).
  pose proof (blen_nonneg (s_dispatchQueue s)). pose proof (blen_nonneg (s_controlQueue s)).
  pose proof (blen_nonneg (s_outboundQueue s)). split_and!; try lia. apply (b_spawned _ _ _ HB).
Qed.

Lemma queues_never_full_witness :
  blen (s_controlQueue data_session) <= MaxQueuedFramesTotal (limits default_config) ∧
  FromFullQueue io_EOF ∉ s_spawned data_session.
Proof.
  pose proof (@queues_never_full toy_size toy_size_laws default_config data_session default_config_ok
    data_session_reachable) as (_ & Hc & _ & Hn).
  split; [exact Hc|]. apply Hn.
Defined.

(** ** A charge that outlives its channel

    The peer sends a frame and closes; the worker handles the close and the
    application calls [Close] without reading the frame. *)
Definition unread_close_trace : list Action :=
  open_trace ++
  [AWorkerStart 0; AWorkerOpened 0;
   AReceive (EChannelData (Some (0, [x61; x62]))); AReceive (EChannelClose 0);
   AWorkerTake 0; AWorkerClosed 0; AWriterPoll; AWriterSent None; ACloseChannel 0].

Definition unread_close_session : Session :=
  @run toy_size unread_close_trace (new_session default_config (Some UserHandler)).

(** After the peer closed a channel whose data was not read, [Channel.Close]
    returns without releasing the frames: the session still charges them to the
    shared budget although the channel is closed and left the table. *)
Theorem closed_channel_keeps_charge :
  ch_state (chan unread_close_session 0) = channelClosed ∧
  s_channels unread_close_session = ∅ ∧
  s_dispatchQueue unread_close_session = [] ∧
  s_controlQueue unread_close_session = [] ∧
  s_outboundQueue unread_close_session = [] ∧
  s_queuedFrames unread_close_session = 1 ∧
  s_queuedBytes unread_close_session = 2.
Proof. vm_compute. done. Qed.
