(* ===== verification/SessionTable.v ===== *)
(** * The channel table and the request counters

    The maps and counters that [Session.mu] protects: which channels are in the
    table, how many slots are pending and active, which peer ids are taken, and
    how many channel requests await a reply.  The invariant [mux] says that the
    counters are the counts, and that the limits of the configuration hold. *)

From S2P Require Import Prelude SessionConfig SessionTypes SessionOps SessionSteps SessionChannel.

(** The table's channels in a given slot. *)
Definition in_slot (store : gmap Z Channel) (table : gset Z) (sl : channelSlot) : gset Z :=
  filter (λ id, ch_slot <$> store !! id = Some sl) table.

Definition slot_count (s : Session) (sl : channelSlot) : Z :=
  Z.of_nat (size (in_slot (s_store s) (s_channels s) sl)).

Definition requests_of (c : Channel) : Z := Z.of_nat (size (ch_pendingRequests c)).

(** [D] are channel pointers known to be valid, [E] channels that have left the
    table but are not shut down yet. *)
Record mux (cfg : Config) (D E : Z → Prop) (s : Session) : Prop := {
  m_config : s_config s = cfg;
  m_fresh id : is_Some (s_store s !! id) → id < s_nextLocalChannelID s;
  m_table id : id ∈ s_channels s ∨ D id → is_Some (s_store s !! id);
  m_slot id c : id ∈ s_channels s → s_store s !! id = Some c → ch_slot c ≠ channelSlotNone;
  m_active : s_activeChannels s = slot_count s channelSlotActive;
  m_pending : s_pendingOpens s = slot_count s channelSlotPending;
  m_pending_max : s_pendingOpens s <= MaxPendingOpens (limits cfg);
  m_max : s_activeChannels s + s_pendingOpens s <= MaxChannels (limits cfg);
  m_opening id c :
    s_store s !! id = Some c → ch_state c = channelOpening → ch_slot c = channelSlotPending →
    id ∈ s_channels s ∨ E id;
  m_peer p id : s_peerChannelIDs s !! p = Some id → id ∈ s_channels s;
  m_requests : s_closing s = true ∨ s_pendingChannelRequests s = map_sum requests_of (s_store s);
  m_requests_max : 0 <= s_pendingChannelRequests s <= MaxPendingChannelRequests (limits cfg);
  m_global_max : Z.of_nat (size (s_pendingGlobal s)) <= MaxPendingGlobalRequests (limits cfg);
  m_global_next r : r ∈ s_pendingGlobal s → r < s_nextGlobalRequestID s;
}.

Section mux.
Context `{ProtoSizeLaws} (cfg : Config) (Hcfg : config_ok cfg).
Implicit Types (D E : Z → Prop) (s : Session).

Abbreviation T := (mux cfg).

Lemma mux_limits :
  0 < MaxChannels (limits cfg) <= 1024 ∧ 0 < MaxPendingOpens (limits cfg) <= 1024 ∧
  0 < MaxPendingChannelRequests (limits cfg) <= 16384 ∧ 0 < MaxPendingGlobalRequests (limits cfg) <= 2048.
Proof. destruct Hcfg as (?&?&?&?&?&?&Hl&?). unfold limits_ok in Hl. lia. Qed.

(** The fields [mux] is about, apart from the channels. *)
Definition same_mux s s' : Prop :=
  s_config s' = s_config s ∧ s_store s' = s_store s ∧ s_channels s' = s_channels s ∧
  s_nextLocalChannelID s' = s_nextLocalChannelID s ∧ s_activeChannels s' = s_activeChannels s ∧
  s_pendingOpens s' = s_pendingOpens s ∧ s_peerChannelIDs s' = s_peerChannelIDs s ∧
  (s_closing s = true → s_closing s' = true) ∧
  s_pendingChannelRequests s' = s_pendingChannelRequests s ∧
  s_pendingGlobal s' ⊆ s_pendingGlobal s ∧ s_nextGlobalRequestID s <= s_nextGlobalRequestID s'.

Lemma mux_same D E s s' : same_mux s s' → T D E s → T D E s'.
Proof.
  intros (E1&E2&E3&E4&E5&E6&E7&E8&E9&E10&E11) [? ? ? ? Ha Hp ? ? ? ? Hr ? Hg Hn].
  split; unfold slot_count in *; rewrite ?E1, ?E2, ?E3, ?E4, ?E5, ?E6, ?E7, ?E9; try done.
  - destruct Hr; auto.
  - apply subseteq_size in E10. lia.
  - intros r Hr'. specialize (Hn r (E10 r Hr')). lia.
Qed.

Lemma pres_same_mux D E f : (∀ s, same_mux s (f s)) → preserves (T D E) (st_modify f).
Proof. intros Hf. apply preserves_modify. intros s. by apply mux_same. Qed.

Lemma in_slot_alter store table sl id f :
  (∀ c, ch_slot (f c) = ch_slot c) → in_slot (alter f id store) table sl = in_slot store table sl.
Proof.
  intros Hf. apply set_eq. intros i. unfold in_slot. rewrite !elem_of_filter, lookup_alter.
  case_decide; [subst|done]. destruct (store !! i); cbn; [by rewrite Hf|done].
Qed.

(** A change of a channel that keeps its slot and its pending requests and does
    not make it opening. *)
Definition mux_neutral (f : Channel → Channel) : Prop :=
  ∀ c, ch_slot (f c) = ch_slot c ∧ ch_pendingRequests (f c) = ch_pendingRequests c ∧
       (ch_state (f c) = channelOpening → ch_state c = channelOpening).

Lemma mux_alter D E s id f : mux_neutral f → T D E s → T D E (s <| s_store ::= alter f id |>).
Proof.
  intros Hf [? Hfr Ht Hs Ha Hp ? ? Ho ? Hr ? ? ?]. split; cbn; try done.
  - intros i. rewrite lookup_alter. case_decide; [subst; rewrite fmap_is_Some|]; auto.
  - intros i Hi. rewrite lookup_alter. case_decide; [subst; rewrite fmap_is_Some|]; auto.
  - intros i c Hi. rewrite lookup_alter. case_decide; [subst|eauto].
    destruct (s_store s !! i) as [c0|] eqn:Hc; [|done]. intros [= <-]. destruct (Hf c0) as (-> & _). eauto.
  - rewrite Ha. unfold slot_count. cbn. rewrite in_slot_alter; [done|]. intros c. by destruct (Hf c).
  - rewrite Hp. unfold slot_count. cbn. rewrite in_slot_alter; [done|]. intros c. by destruct (Hf c).
  - intros i c. rewrite lookup_alter. case_decide; [subst|eauto].
    destruct (s_store s !! i) as [c0|] eqn:Hc; [|done]. intros [= <-]. destruct (Hf c0) as (-> & _ & Hst). eauto.
  - destruct Hr as [?|Hr]; [by left|right]. rewrite Hr, map_sum_alter; [done|].
    intros c _. unfold requests_of. destruct (Hf c) as (_ & -> & _). done.
Qed.

Lemma pres_neutral D E id f : mux_neutral f → preserves (T D E) (chan_mod id f).
Proof. intros Hf. apply preserves_modify. intros s. by apply mux_alter. Qed.

(** ** The slots *)

Lemma in_slot_other store table sl id c :
  id ∉ table → in_slot (<[id := c]> store) table sl = in_slot store table sl.
Proof.
  intros Hid. apply set_eq. intros i. unfold in_slot. rewrite !elem_of_filter.
  destruct (decide (i = id)) as [->|]; [naive_solver|]. by rewrite lookup_insert_ne.
Qed.

Lemma in_slot_union store table sl id c :
  id ∉ table → store !! id = Some c →
  in_slot store ({[id]} ∪ table) sl =
    if decide (ch_slot c = sl) then {[id]} ∪ in_slot store table sl else in_slot store table sl.
Proof.
  intros Hid Hc. apply set_eq. intros i. unfold in_slot.
  case_decide as Hsl; rewrite ?elem_of_union, !elem_of_filter, ?elem_of_union, elem_of_singleton;
    destruct (decide (i = id)) as [->|]; rewrite ?Hc; cbn; naive_solver.
Qed.

Lemma not_in_slot store table sl id : id ∉ table → id ∉ in_slot store table sl.
Proof. intros Hid Hin. apply elem_of_filter in Hin as [_ ?]. done. Qed.

(** Setting the slot of a channel of the table. *)
Lemma table_split (table : gset Z) id : id ∈ table → table = {[id]} ∪ (table ∖ {[id]}).
Proof. intros. apply set_eq. intros i. destruct (decide (i = id)); set_solver. Qed.

Lemma count_union store table sl id c :
  id ∉ table → store !! id = Some c →
  Z.of_nat (size (in_slot store ({[id]} ∪ table) sl)) =
    (if decide (ch_slot c = sl) then 1 else 0) + Z.of_nat (size (in_slot store table sl)).
Proof.
  intros Hid Hc. rewrite (in_slot_union _ _ _ _ c Hid Hc). case_decide; [|lia].
  rewrite size_union by (apply disjoint_singleton_l, not_in_slot; done). rewrite size_singleton. lia.
Qed.

Lemma slot_split s id c sl :
  id ∈ s_channels s → s_store s !! id = Some c →
  slot_count s sl = (if decide (ch_slot c = sl) then 1 else 0)
                    + Z.of_nat (size (in_slot (s_store s) (s_channels s ∖ {[id]}) sl)).
Proof.
  intros Hid Hc. unfold slot_count. rewrite (table_split (s_channels s) id Hid) at 1.
  apply count_union; [set_solver|done].
Qed.

(** The peer table after a change that keeps the other ids. *)
Lemma mux_added D E s id c pm :
  T D E s → id ∉ s_channels s → s_store s !! id = Some c →
  s_pendingOpens s < MaxPendingOpens (limits cfg) →
  s_activeChannels s + s_pendingOpens s < MaxChannels (limits cfg) →
  (∀ p i, pm !! p = Some i → i = id ∨ s_peerChannelIDs s !! p = Some i) →
  T D E (s <| s_peerChannelIDs := pm |>
           <| s_store ::= alter (λ c, c <| ch_slot := channelSlotPending |>) id |>
           <| s_channels ::= (λ t, {[id]} ∪ t) |> <| s_pendingOpens := s_pendingOpens s + 1 |>).
Proof.
  intros [? Hfr Ht Hs Ha Hp ? ? Ho Hpe Hr ? ? ?] Hid Hc Hm1 Hm2 Hpm.
  set (c' := c <| ch_slot := channelSlotPending |>).
  assert (Hal : alter (λ c, c <| ch_slot := channelSlotPending |>) id (s_store s) = <[id := c']> (s_store s))
    by (by apply alter_insert_lookup).
  split; cbn; rewrite ?Hal; try done.
  - intros i. rewrite lookup_insert. case_decide; [subst; eauto|auto].
  - intros i Hi. rewrite lookup_insert. case_decide; [done|]. apply Ht. set_solver.
  - intros i c0 Hi. rewrite lookup_insert. case_decide; [naive_solver|]. intros Hc0.
    apply (Hs i); [set_solver|done].
  - rewrite Ha. unfold slot_count. cbn. rewrite Hal.
    rewrite (count_union _ _ _ id c') by (done || by rewrite lookup_insert_eq).
    by rewrite in_slot_other.
  - rewrite Hp. unfold slot_count. cbn. rewrite Hal.
    rewrite (count_union _ _ _ id c') by (done || by rewrite lookup_insert_eq).
    rewrite in_slot_other, decide_True by done. lia.
  - lia.
  - lia.
  - intros i c0. rewrite lookup_insert. case_decide; [set_solver|]. intros ? ? ?.
    destruct (Ho i c0); set_solver.
  - intros p i Hpi. destruct (Hpm p i Hpi) as [->|Hx]; [set_solver|]. apply Hpe in Hx. set_solver.
  - destruct Hr as [?|Hr]; [by left|right].
    rewrite (map_sum_insert requests_of _ id c c' Hc), Hr. unfold requests_of. cbn. lia.
Qed.

Lemma wp_addPending D E s id c p :
  T D E s → id ∉ s_channels s → s_store s !! id = Some c →
  wp (addPendingChannel id p) (λ _ s', T D E s') s.
Proof.
  intros HT Hid Hc. pose proof mux_limits. unfold addPendingChannel. apply wp_bind, wp_get.
  rewrite (m_config _ _ _ _ HT). destruct (_ || _) eqn:Hlim; [by apply wp_fail|]. bool_simp.
  pose proof (m_max _ _ _ _ HT). pose proof (m_pending_max _ _ _ _ HT).
  assert (0 <= s_activeChannels s ∧ 0 <= s_pendingOpens s).
  { rewrite (m_active _ _ _ _ HT), (m_pending _ _ _ _ HT). unfold slot_count. lia. }
  rewrite u32_id in * by (unfold is_u32, MaxUint32; lia).
  destruct p as [p|]; apply wp_bind.
  - case_bool_decide as Hp; [by apply wp_fail|]. apply wp_modify, wp_bind, wp_modify, wp_modify. cbn -[alter].
    rewrite u32_id by (unfold is_u32, MaxUint32; lia).
    apply (mux_added D E s id c (<[p := id]> (s_peerChannelIDs s))); try done.
    intros p' i. rewrite lookup_insert. case_decide; naive_solver.
  - apply wp_ret, wp_bind, wp_modify, wp_modify. cbn -[alter].
    rewrite u32_id by (unfold is_u32, MaxUint32; lia).
    apply (mux_added D E s id c (s_peerChannelIDs s)); try done. auto.
Qed.

Lemma pres_removeChannel_m D E id : preserves (T D E) (removeChannel id).
Proof.
  intros s HT. unfold removeChannel. apply wp_bind, wp_get. case_bool_decide as Hid; [|by apply wp_ret].
  destruct (m_table _ _ _ _ HT id (or_introl Hid)) as [c Hc].
  apply wp_bind, wp_modify, wp_modify.
  pose proof (slot_split s id c channelSlotActive Hid Hc) as Sa.
  pose proof (slot_split s id c channelSlotPending Hid Hc) as Sp.
  pose proof (m_slot _ _ _ _ HT id c Hid Hc) as Hsl.
  set (c' := c <| ch_slot := channelSlotNone |>).
  assert (Hal : alter (λ c, c <| ch_slot := channelSlotNone |>) id (s_store s) = <[id := c']> (s_store s))
    by (by apply alter_insert_lookup).
  assert (Hcnt : ∀ sl, in_slot (<[id:=c']> (s_store s)) (s_channels s ∖ {[id]}) sl
                       = in_slot (s_store s) (s_channels s ∖ {[id]}) sl).
  { intros sl. apply in_slot_other. set_solver. }
  assert (Hchan : chan (s <| s_channels ::= (λ t, t ∖ {[id]}) |> <| s_peerChannelIDs ::= filter (λ kv, kv.2 ≠ id) |>) id = c)
    by (by apply chan_lookup).
  rewrite Hchan.
  destruct HT as [? Hfr Ht Hs Ha Hp ? ? Ho Hpe Hr ? ? ?]. rewrite Ha in *. rewrite Hp in *.
  assert (0 <= slot_count s channelSlotActive ∧ 0 <= slot_count s channelSlotPending).
  { unfold slot_count. lia. }
  destruct (ch_slot c) eqn:Hslot; [done| |]; rewrite decide_True in * by done; rewrite decide_False in * by done;
  (split; cbn; rewrite ?Hal; try done;
  [ intros i; rewrite lookup_insert; case_decide; [subst; eauto|auto]
  | intros i Hi; rewrite lookup_insert; case_decide; [done|]; apply Ht; set_solver
  | intros i c0 Hi; rewrite lookup_insert; case_decide; [set_solver|]; intros Hc0; apply (Hs i); [set_solver|done]
  | unfold slot_count; cbn; rewrite Hal, Hcnt; try (destruct (Z.ltb_spec 0 (s_activeChannels s))); lia
  | unfold slot_count; cbn; rewrite Hal, Hcnt; try (destruct (Z.ltb_spec 0 (s_pendingOpens s))); lia
  | try (destruct (Z.ltb_spec 0 (s_pendingOpens s))); lia
  | try (destruct (Z.ltb_spec 0 (s_pendingOpens s))); try (destruct (Z.ltb_spec 0 (s_activeChannels s))); lia
  | intros i c0; rewrite lookup_insert; case_decide; [subst c'; naive_solver|];
    intros ? ? ?; destruct (Ho i c0); set_solver
  | intros p i Hpi; apply map_lookup_filter_Some in Hpi as [Hpi Hne]; apply Hpe in Hpi; set_solver
  | destruct Hr as [?|Hr]; [by left|right];
    rewrite (map_sum_insert requests_of _ id c c' Hc), Hr; unfold requests_of; cbn; lia ]).
Qed.

Lemma wp_activate D E s id :
  T D E s → (ch_slot (chan s id) = channelSlotPending → id ∈ s_channels s) →
  wp (activateChannel id) (λ _ s', T D E s') s.
Proof.
  intros HT Hin. unfold activateChannel. apply wp_bind, wp_get.
  destruct (negb _) eqn:Hsl; [by apply wp_fail|]. bool_simp. destruct (_ =? 0) eqn:Hz; [by apply wp_fail|].
  bool_simp. specialize (Hin Hsl). apply wp_bind, wp_modify, wp_modify.
  destruct (m_table _ _ _ _ HT id (or_introl Hin)) as [c Hc]. rewrite (chan_lookup _ _ _ Hc) in Hsl.
  pose proof (slot_split s id c channelSlotActive Hin Hc) as Sa.
  pose proof (slot_split s id c channelSlotPending Hin Hc) as Sp.
  set (c' := c <| ch_slot := channelSlotActive |>).
  assert (Hal : alter (λ c, c <| ch_slot := channelSlotActive |>) id (s_store s) = <[id := c']> (s_store s))
    by (by apply alter_insert_lookup).
  pose proof mux_limits.
  destruct HT as [? Hfr Ht Hs Ha Hp ? ? Ho Hpe Hr ? ? ?].
  assert (Hcnt : ∀ sl, Z.of_nat (size (in_slot (<[id:=c']> (s_store s)) (s_channels s) sl)) =
    (if decide (channelSlotActive = sl) then 1 else 0) + Z.of_nat (size (in_slot (s_store s) (s_channels s ∖ {[id]}) sl))).
  { intros sl. rewrite (table_split (s_channels s) id Hin) at 1.
    rewrite (count_union _ _ _ id c'); [|set_solver|by rewrite lookup_insert_eq].
    rewrite in_slot_other by set_solver. done. }
  rewrite Hsl in *. rewrite decide_False in Sa by done. rewrite decide_True in Sp by done.
  assert (0 <= slot_count s channelSlotActive ∧ 0 <= slot_count s channelSlotPending).
  { unfold slot_count. lia. }
  rewrite u32_id by (unfold is_u32, MaxUint32; lia).
  split; cbn; rewrite ?Hal; try done.
  - intros i. rewrite lookup_insert. case_decide; [subst; eauto|auto].
  - intros i Hi. rewrite lookup_insert. case_decide; [done|auto].
  - intros i c0 Hi. rewrite lookup_insert. case_decide; [subst c'; naive_solver|]. eauto.
  - unfold slot_count at 1. cbn. rewrite Hal, Hcnt, decide_True by done. lia.
  - unfold slot_count at 1. cbn. rewrite Hal, Hcnt, decide_False by done. lia.
  - lia.
  - lia.
  - intros i c0. rewrite lookup_insert. case_decide; [subst c'; naive_solver|eauto].
  - destruct Hr as [?|Hr]; [by left|right].
    rewrite (map_sum_insert requests_of _ id c c' Hc), Hr. unfold requests_of. cbn. lia.
Qed.

(** ** Requests awaiting a reply *)

Lemma requests_nonneg (m : gmap Z Channel) : 0 <= map_sum requests_of m.
Proof. apply map_sum_nonneg. intros. unfold requests_of. lia. Qed.

(** A channel's request set changes, and the counter with it. *)
Lemma mux_requests D E s id f q :
  T D E s →
  (∀ c, ch_slot (f c) = ch_slot c ∧ (ch_state (f c) = channelOpening → ch_state c = channelOpening)) →
  s_closing s = true ∨ q = map_sum requests_of (alter f id (s_store s)) →
  0 <= q <= MaxPendingChannelRequests (limits cfg) →
  T D E (s <| s_store ::= alter f id |> <| s_pendingChannelRequests := q |>).
Proof.
  intros HT Hf Hq Hm. destruct HT as [? Hfr Ht Hs Ha Hp ? ? Ho ? Hr ? ? ?]. split; cbn; try done.
  - intros i. rewrite lookup_alter. case_decide; [subst; rewrite fmap_is_Some|]; auto.
  - intros i Hi. rewrite lookup_alter. case_decide; [subst; rewrite fmap_is_Some|]; auto.
  - intros i c Hi. rewrite lookup_alter. case_decide; [subst|eauto].
    destruct (s_store s !! i) as [c0|] eqn:Hc; [|done]. intros [= <-]. destruct (Hf c0) as (-> & _). eauto.
  - rewrite Ha. unfold slot_count. cbn. rewrite in_slot_alter; [done|]. intros c. by destruct (Hf c).
  - rewrite Hp. unfold slot_count. cbn. rewrite in_slot_alter; [done|]. intros c. by destruct (Hf c).
  - intros i c. rewrite lookup_alter. case_decide; [subst|eauto].
    destruct (s_store s !! i) as [c0|] eqn:Hc; [|done]. intros [= <-]. destruct (Hf c0) as (-> & Hst). eauto.
Qed.

(** Requests leave, and the counter goes down by as much, never below zero. *)
Lemma mux_drop_requests D E s id f n :
  T D E s →
  (∀ c, ch_slot (f c) = ch_slot c ∧ (ch_state (f c) = channelOpening → ch_state c = channelOpening)) →
  (∀ c, s_store s !! id = Some c → requests_of (f c) = requests_of c - n) → 0 <= n →
  (s_store s !! id = None → n = 0) →
  T D E (s <| s_store ::= alter f id |>
           <| s_pendingChannelRequests := Z.max 0 (s_pendingChannelRequests s - n) |>).
Proof.
  intros HT Hf Hn Hn0 Hnone. pose proof (m_requests_max _ _ _ _ HT).
  apply mux_requests; [done|done| |lia]. destruct (m_requests _ _ _ _ HT) as [?|Hr]; [by left|right].
  rewrite Hr. destruct (s_store s !! id) as [c|] eqn:Hid.
  - rewrite (alter_insert_lookup _ _ _ c Hid), (map_sum_insert _ _ id c (f c) Hid), (Hn c eq_refl).
    pose proof (map_sum_le requests_of _ id c (λ i x _, Zle_0_nat (size (ch_pendingRequests x))) Hid).
    assert (0 <= requests_of (f c)) by (unfold requests_of; lia). rewrite (Hn c eq_refl) in *. lia.
  - rewrite alter_none by done. rewrite (Hnone eq_refl). pose proof (requests_nonneg (s_store s)). lia.
Qed.

Lemma wp_release_all {A} (l : list A) (Q : res unit → Session → Prop) s :
  0 <= s_pendingChannelRequests s →
  Q (Ok tt) (s <| s_pendingChannelRequests := Z.max 0 (s_pendingChannelRequests s - blen l) |>) →
  wp (st_iter (λ _, releasePendingChannelRequest) l) Q s.
Proof.
  revert s. induction l as [|x l IH]; intros s Hs HQ; cbn [st_iter].
  - apply wp_ret. replace (Z.max 0 (s_pendingChannelRequests s - blen (@nil A)))
      with (s_pendingChannelRequests s) in HQ by (unfold blen; cbn [length]; lia). by destruct s.
  - apply wp_bind, wp_modify. pose proof (blen_nonneg l).
    apply IH; cbn; (destruct (Z.ltb_spec 0 (s_pendingChannelRequests s))); [lia..| |].
    + by replace (s_pendingChannelRequests s - 1 - blen l) with (s_pendingChannelRequests s - blen (x :: l))
        by (rewrite blen_cons; lia).
    + by replace (Z.max 0 (s_pendingChannelRequests s - blen l)) with
        (Z.max 0 (s_pendingChannelRequests s - blen (x :: l))) by (rewrite blen_cons; lia).
Qed.

Lemma pres_failPending_m D E id e : preserves (T D E) (failPendingRequestsLocked id e).
Proof.
  intros s HT. unfold failPendingRequestsLocked, chan_get. apply wp_bind, wp_bind, wp_get, wp_ret.
  apply wp_bind, wp_modify, wp_release_all; [apply (m_requests_max _ _ _ _ HT)|]. cbn -[Z.max].
  apply mux_drop_requests; [done|done| |apply blen_nonneg|].
  - intros c Hc. rewrite (chan_lookup _ _ _ Hc). unfold requests_of, blen, size, set_size, compose. cbn.
    rewrite elements_empty. cbn. lia.
  - intros Hc. unfold chan. rewrite Hc. done.
Qed.

(** One request is answered or given up. *)
Lemma wp_drop_one D E s id r f (Q : res unit → Session → Prop) :
  T D E s → r ∈ ch_pendingRequests (chan s id) →
  f = (λ c, c <| ch_pendingRequests ::= (λ p, p ∖ {[r]}) |>) → (∀ s', T D E s' → Q (Ok tt) s') →
  wp (chan_mod id f ≫= λ _, releasePendingChannelRequest) Q s.
Proof.
  intros HT Hr -> HQ. apply wp_bind, wp_modify, wp_modify. apply HQ.
  destruct (s_store s !! id) as [c|] eqn:Hc; [|unfold chan in Hr; rewrite Hc in Hr; cbn in Hr; set_solver].
  rewrite (chan_lookup _ _ _ Hc) in Hr.
  assert (Hmax : (if 0 <? s_pendingChannelRequests s then s_pendingChannelRequests s - 1 else s_pendingChannelRequests s)
                 = Z.max 0 (s_pendingChannelRequests s - 1)).
  { pose proof (m_requests_max _ _ _ _ HT). destruct (Z.ltb_spec 0 (s_pendingChannelRequests s)); lia. }
  eapply mux_same; [|apply (mux_drop_requests D E s id (λ c, c <| ch_pendingRequests ::= (λ p, p ∖ {[r]}) |>) 1)];
    try done; try lia; [|congruence].
  intros c0 Hc0. simplify_eq. unfold requests_of. cbn.
  rewrite size_difference by set_solver. rewrite size_singleton.
  assert (size (ch_pendingRequests c) ≠ 0%nat) by (apply size_non_empty_iff; set_solver). lia.
Qed.

Lemma pres_removePending_m D E id r : preserves (T D E) (removePendingRequest id r).
Proof.
  intros s HT. unfold removePendingRequest, chan_get. apply wp_bind, wp_bind, wp_get, wp_ret.
  case_bool_decide; [|by apply wp_ret]. by eapply wp_drop_one.
Qed.

(** ** Valid pointers, as for the budget *)

(** A new channel object enters the table. *)
Lemma wp_new_pending D E c p s :
  T D E s → requests_of c = 0 → ch_slot c = channelSlotNone →
  wp (addPendingChannel (s_nextLocalChannelID s) p) (λ _ s', T D E s')
    (s <| s_nextLocalChannelID ::= Z.succ |> <| s_store ::= <[s_nextLocalChannelID s := c]> |>).
Proof.
  intros HT Hq Hsl. set (id := s_nextLocalChannelID s).
  assert (Hfresh : s_store s !! id = None).
  { apply eq_None_not_Some. intros Hs. pose proof (m_fresh _ _ _ _ HT _ Hs). lia. }
  assert (Hid : id ∉ s_channels s).
  { intros Hin. destruct (m_table _ _ _ _ HT id (or_introl Hin)). congruence. }
  apply (wp_addPending D E _ id c).
  - destruct HT as [? Hfr Ht Hs Ha Hp ? ? Ho ? Hr ? ? ?]. split; cbn; try done.
    + intros i. rewrite lookup_insert. case_decide; [subst; lia|]. intros Hi. specialize (Hfr i Hi). lia.
    + intros i Hi. rewrite lookup_insert. case_decide; [done|auto].
    + intros i c' Hi. rewrite lookup_insert. case_decide as Hi'; [exfalso; subst i; exact (Hid Hi)|by apply Hs].
    + rewrite Ha. unfold slot_count. cbn. by rewrite in_slot_other.
    + rewrite Hp. unfold slot_count. cbn. by rewrite in_slot_other.
    + intros i c'. rewrite lookup_insert. case_decide; [|by apply Ho]. intros [= <-] _. by rewrite Hsl.
    + destruct Hr as [?|Hr]; [by left|right]. rewrite map_sum_insert_new by done. lia.
  - done.
  - cbn. by rewrite lookup_insert_eq.
Qed.

Lemma pres_new_pending {A} D E c p (k : Z → M A) :
  requests_of c = 0 → ch_slot c = channelSlotNone → (∀ id, preserves (T D E) (k id)) →
  preserves (T D E) (reserveLocalChannelID ≫= λ id, new_channel id c ≫= λ _,
    addPendingChannel id p ≫= λ _, k id).
Proof.
  intros Hq Hsl Hk s HT. unfold reserveLocalChannelID. apply wp_bind, wp_bind, wp_get.
  destruct (_ =? _); [by apply wp_fail|]. apply wp_bind, wp_modify, wp_ret, wp_bind, wp_modify.
  apply wp_bind. eapply wp_mono; [by apply (wp_new_pending D E)|].
  intros [u|e] s' HT'; [by apply Hk|done].
Qed.

Lemma pres_try_pending {A} D E c p (k : Z → res unit → M A) :
  requests_of c = 0 → ch_slot c = channelSlotNone → (∀ id r, preserves (T D E) (k id r)) →
  preserves (T D E) (reserveLocalChannelID ≫= λ id, new_channel id c ≫= λ _,
    st_try (addPendingChannel id p) ≫= k id).
Proof.
  intros Hq Hsl Hk s HT. unfold reserveLocalChannelID. apply wp_bind, wp_bind, wp_get.
  destruct (_ =? _); [by apply wp_fail|]. apply wp_bind, wp_modify, wp_ret, wp_bind, wp_modify.
  apply wp_bind, wp_try. eapply wp_mono; [by apply (wp_new_pending D E)|].
  intros r s' HT'. by apply Hk.
Qed.

(** ** Every operation *)

Create HintDb mux.
#[local] Hint Resolve pres_removeChannel_m pres_failPending_m pres_removePending_m : mux.

Ltac m_modify :=
  apply pres_same_mux; intros; unfold same_mux; cbn; repeat case_match; cbn; split_and!;
  first [reflexivity | done | lia | set_solver].

Ltac m_unit _ :=
  lazymatch goal with
  | |- preserves _ (chan_mod _ _) =>
      apply pres_neutral; intros []; unfold send_open_result; cbn; repeat case_match; cbn; split_and!; done
  | |- preserves _ (st_modify _) => m_modify
  | |- preserves _ _ => first [assumption | solve [auto 2 with mux]]
  end.

Ltac mp := pres_with m_unit.

Lemma pres_chan_cancel_m D E id e : preserves (T D E) (chan_cancel id e).
Proof. apply preserves_modify. intros s HT. case_match; [done|]. by apply mux_alter. Qed.
#[local] Hint Resolve pres_chan_cancel_m : mux.

Lemma pres_post_write_m D E frame control w after : preserves (T D E) (post_write frame control w after).
Proof. mp. Qed.
#[local] Hint Resolve pres_post_write_m : mux.

Lemma mux_weaken D E E' s : (∀ id, E id → E' id) → T D E s → T D E' s.
Proof. intros HE [? ? ? ? ? ? ? ? Ho ? ? ? ? ?]. split; try done. intros id c ? ? ?. destruct (Ho id c); auto. Qed.

(** Shutting a channel down removes it from the exempt ones. *)
Lemma wp_channel_shutdown D E E' id e s :
  T D E s → (∀ i, E i → i = id ∨ E' i) → wp (channel_shutdown id e) (λ r s', r = Ok tt ∧ T D E' s') s.
Proof.
  intros HT HE. enough (wp (channel_shutdown id e) (λ _ s', T D E' s') s).
  { split; [apply channel_shutdown_ok|done]. }
  unfold channel_shutdown. apply wp_bind, wp_modify.
  apply (preserves_wp (T D E')); [mp| |by intros []].
  assert (HT0 : T D E (s <| s_store ::= alter (λ c, 
      let c := match ch_sessionErr c with None => c <| ch_sessionErr := Some e |> | Some _ => c end in
      if bool_decide (ch_state c = channelClosed) then c else c <| ch_state := channelFailed |>) id |>)).
  { apply mux_alter; [|done]. intros []. cbn. repeat case_match; done. }
  destruct HT0 as [? ? ? ? ? ? ? ? Ho ? ? ? ? ?]. split; try done.
  intros i c Hi Hst Hsl. destruct (Ho i c Hi Hst Hsl) as [?|HEi]; [by left|].
  destruct (HE i HEi) as [->|?]; [|by right]. exfalso. revert Hi Hst. cbn. rewrite lookup_alter_eq.
  destruct (s_store s !! id) as [c0|]; [|done]. cbn. intros [= <-].
  clear Hsl. destruct (ch_sessionErr c0); cbn; case_bool_decide as Hb; cbn in *; congruence.
Qed.

Lemma pres_channel_shutdown_m D E id e : preserves (T D E) (channel_shutdown id e).
Proof. intros s HT. eapply wp_mono; [apply (wp_channel_shutdown D E E); [done|auto]|]. by intros r s' [_ ?]. Qed.
#[local] Hint Resolve pres_channel_shutdown_m : mux.

Lemma wp_shutdown_all D E e l s :
  T D (λ id, id ∈ l ∨ E id) s →
  wp (st_iter (λ id, channel_shutdown id e) l) (λ r s', r = Ok tt ∧ T D E s') s.
Proof.
  revert s. induction l as [|x l IH]; intros s HT; cbn [st_iter].
  - apply wp_ret. split; [done|]. eapply mux_weaken; [|done]. set_solver.
  - apply wp_bind. eapply wp_mono; [apply (wp_channel_shutdown D (λ id, id ∈ x :: l ∨ E id) (λ id, id ∈ l ∨ E id)); [done|set_solver]|].
    intros r s' [-> HT']. by apply IH.
Qed.

Lemma pres_shutdown_m D E e : preserves (T D E) (shutdown e).
Proof.
  intros s HT. unfold shutdown. apply wp_bind, wp_get. destruct (s_shutdownOnce s); [by apply wp_ret|].
  cbv zeta. apply wp_bind, wp_modify. pose proof mux_limits as (?&?&?&?).
  match goal with |- wp _ _ ?s1 => assert (HT1 : T D (λ id, id ∈ elements (s_channels s) ∨ E id) s1) end.
  { destruct HT as [? Hfr Ht Hs Ha Hp ? ? Ho Hpe Hr ? ? ?].
    split; cbn; try done; unfold slot_count; cbn; try lia; try (by rewrite ?size_empty; try lia); try set_solver. }
  set (E1 := λ id, id ∈ elements (s_channels s) ∨ E id) in *.
  apply wp_bind. eapply (wp_mono _ (λ r s', r = Ok tt ∧ T D E1 s')).
  { destruct e as [[]|]; try (by apply wp_ret). apply wp_bind, wp_try.
    apply (preserves_wp (T D E1)); [mp|done|]. intros r s' ?. by apply wp_ret. }
  intros r s2 [-> HT2]. apply wp_bind, wp_modify, wp_bind.
  eapply wp_mono; [apply wp_shutdown_all|].
  { fold E1. by destruct (s_ctx s2); [|eapply mux_same; [|exact HT2]]. }
  intros r s4 [-> HT4]. apply wp_modify. eapply mux_same; [|exact HT4]. done.
Qed.
#[local] Hint Resolve pres_shutdown_m : mux.

(** Incoming messages. *)

Lemma pres_OpenChannel_m D E typ payload h : preserves (T D E) (OpenChannelWithHandler typ payload h).
Proof.
  unfold OpenChannelWithHandler. apply preserves_get_any. intros s. apply preserves_bind; [mp|]. intros _.
  apply preserves_bind; [mp|]. intros _. apply pres_new_pending; [done|done|]. intros id. mp.
Qed.
#[local] Hint Resolve pres_OpenChannel_m : mux.

Lemma pres_incomingOpen_m D E m : preserves (T D E) (enqueueIncomingOpen m).
Proof.
  unfold enqueueIncomingOpen. destruct m as [msg|]; [|mp]. apply preserves_get_any. intros s.
  destruct (validateTypeAndPayload _ _ _); [|mp].
  apply pres_try_pending; [done|done|]. intros id r. mp.
Qed.
#[local] Hint Resolve pres_incomingOpen_m : mux.

Lemma pres_openResult_m D E m : preserves (T D E) (handleChannelOpenResult m).
Proof.
  destruct m as [[recipient result]|]; [|mp]. intros s HT. unfold handleChannelOpenResult, lookupChannel.
  apply wp_bind, wp_bind, wp_get, wp_ret. 
  case_bool_decide as Hin; [|by apply wp_fail]. apply wp_bind, wp_get. cbv zeta.
  destruct (negb _ || _) eqn:Hst; [by apply wp_fail|]. clear Hst.
  destruct result as [sender window mp' payload|code msg payload|];
    [|by apply (preserves_wp (T D E)); [mp|done|done]..].
  apply wp_bind, wp_modify. destruct (_ <? _).
  { apply wp_fail. by apply mux_alter. }
  unfold reservePeerChannelID. apply wp_bind, wp_bind, wp_get. case_bool_decide.
  { apply wp_fail. by apply mux_alter. }
  apply wp_modify, wp_bind, wp_modify.
  set (s1 := s <| s_store ::= alter (λ c, c <| ch_openWait := false |>) recipient |>).
  assert (HT1 : T D E s1) by (by apply mux_alter).
  assert (HT2 : T D E (s1 <| s_peerChannelIDs ::= <[sender := recipient]> |>)).
  { destruct HT1 as [? ? ? ? ? ? ? ? ? Hpe ? ? ? ?]. split; try done. intros p id. cbn.
    rewrite lookup_insert. case_decide; [naive_solver|]. apply Hpe. }
  apply wp_bind. eapply wp_mono; [apply wp_activate|].
  - apply mux_alter; [|exact HT2]. done.
  - intros _. exact Hin.
  - intros [[]|e] s' HT'; [|done]. apply (preserves_wp (T D E)); [mp|done|done].
Qed.
#[local] Hint Resolve pres_openResult_m : mux.

Lemma pres_channelResult_m D E m : preserves (T D E) (handleChannelResult m).
Proof.
  destruct m as [[[recipient rid] result]|]; [|mp]. intros s HT. unfold handleChannelResult, lookupChannel.
  apply wp_bind, wp_bind, wp_get, wp_ret. 
  case_bool_decide as Hin; [|by apply wp_fail]. apply wp_bind, wp_get.
  destruct (negb _) eqn:Hr; [by apply wp_fail|]. bool_simp.
  apply wp_assoc, wp_bind. eapply wp_drop_one; [done..|]. intros s' HT'.
  apply (preserves_wp (T D E)); [mp|done|done].
Qed.
#[local] Hint Resolve pres_channelResult_m : mux.

Lemma pres_SendGlobal_m D E typ payload w : preserves (T D E) (SendGlobalRequest typ payload w).
Proof.
  unfold SendGlobalRequest. apply preserves_get. intros s HT. apply wp_bind, wp_lift.
  destruct (validateTypeAndPayload _ _ _); [|done]. unfold ensureActive.
  apply wp_bind, wp_bind, wp_get. destruct (negb _); [by apply wp_fail|].
  destruct (s_ctx s); [by apply wp_fail|]. apply wp_ret. destruct (_ =? _); [by apply wp_fail|].
  cbv zeta. apply wp_bind, wp_modify.
  set (s1 := s <| s_nextGlobalRequestID ::= Z.succ |>).
  assert (HT1 : T D E s1).
  { eapply mux_same; [|exact HT]. unfold same_mux. cbn. split_and!; try done; try lia; set_solver. }
  destruct w; [|apply (preserves_wp (T D E)); [mp|done|done]].
  destruct (_ <=? _) eqn:Hmax; [by apply wp_fail|]. apply wp_bind, wp_modify.
  apply (preserves_wp (T D E)); [mp| |done]. pose proof mux_limits.
  destruct HT1 as [Hc ? ? ? ? ? ? ? ? ? ? ? Hg Hn]. split; try done; cbn in *.
  - rewrite Hc in Hmax. bool_simp. rewrite u32_id in Hmax by (unfold is_u32, MaxUint32; lia).
    rewrite size_union_alt, size_singleton.
    pose proof (subseteq_size (s_pendingGlobal s ∖ {[s_nextGlobalRequestID s]}) (s_pendingGlobal s)). 
    assert (size (s_pendingGlobal s ∖ {[s_nextGlobalRequestID s]}) ≤ size (s_pendingGlobal s))%nat; [|lia].
    apply subseteq_size. set_solver.
  - intros r Hr. apply elem_of_union in Hr as [->%elem_of_singleton|Hr]; [lia|]. by apply Hn.
Qed.
#[local] Hint Resolve pres_SendGlobal_m : mux.

Lemma wp_SendRequest_m D E id typ payload w s :
  T D E s → (∀ c, s_store s !! id = Some c → chan_inv cfg c) → is_Some (s_store s !! id) →
  wp (channel_SendRequest id typ payload w) (λ _ s', T D E s') s.
Proof.
  intros HT Hinv Hex. unfold channel_SendRequest. apply wp_bind, wp_get. apply wp_bind, wp_lift. cbv zeta.
  destruct (validateTypeAndPayload _ _ _); [|done]. destruct (channelErrorLocked _ _); [by apply wp_fail|].
  destruct (negb _); [by apply wp_fail|]. destruct (_ =? _); [by apply wp_fail|].
  apply wp_bind, wp_modify.
  set (s1 := s <| s_store ::= alter (λ c, c <| ch_nextRequestID ::= Z.succ |>) id |>).
  assert (HT1 : T D E s1) by (by apply mux_alter).
  destruct w; [|apply (preserves_wp (T D E)); [mp|done|done]].
  destruct (_ <=? _); [by apply wp_fail|]. apply wp_bind. unfold reservePendingChannelRequest.
  apply wp_bind, wp_bind, wp_get. destruct (_ <=? _) eqn:Hmax; [by apply wp_fail|]. apply wp_modify, wp_modify.
  apply (preserves_wp (T D E)); [mp| |done]. cbn -[alter] in Hmax. bool_simp.
  pose proof mux_limits. pose proof (m_config _ _ _ _ HT) as Hcf. rewrite Hcf in Hmax.
  pose proof (m_requests_max _ _ _ _ HT).
  assert (Hu : u32 (s_pendingChannelRequests s1 + 1) = s_pendingChannelRequests s + 1).
  { apply u32_id. change (s_pendingChannelRequests s1) with (s_pendingChannelRequests s).
    unfold is_u32, MaxUint32. lia. }
  rewrite Hu. eapply mux_same; [|apply (mux_requests D E s1 id (λ c, c <| ch_pendingRequests ::=
    (λ p, {[ch_nextRequestID (chan s id)]} ∪ p) |>) (s_pendingChannelRequests s + 1)); [done|done| |lia]]; [done|].
  destruct (m_requests _ _ _ _ HT) as [?|Hr]; [by left|right]. cbn -[alter]. rewrite Hr, alter_alter_eq.
  destruct Hex as [c Hc].
  rewrite (alter_insert_lookup _ _ _ c Hc), (map_sum_insert requests_of _ id c _ Hc), (chan_lookup _ _ _ Hc).
  unfold requests_of. cbn. rewrite size_union, size_singleton; [lia|].
  apply disjoint_singleton_l. intros Hn. pose proof (ci_requests _ _ (Hinv c Hc) _ Hn). lia.
Qed.

(** ** Steps *)

Lemma pres_handleChannelOpen_m D msg id d : preserves (T D (λ _, False)) (handleChannelOpen msg id d).
Proof.
  unfold handleChannelOpen. apply preserves_get. intros s HT. cbv zeta.
  destruct (validateDecision _ _); [|apply (preserves_wp (T D (λ _, False))); [mp|done|done]].
  destruct (negb (d_OK _)); [apply (preserves_wp (T D (λ _, False))); [mp|done|done]|].
  apply wp_bind, wp_modify.
  assert (HT1 : ∀ h, T D (λ _, False) (s <| s_store ::= alter (λ c, c <| ch_handler := h |>) id |>)).
  { intros h. by apply mux_alter. }
  destruct (negb _) eqn:Hst; [by apply wp_fail|]. bool_simp.
  apply wp_bind, wp_modify, wp_bind. eapply wp_mono; [apply wp_activate|].
  - by apply mux_alter.
  - unfold chan. cbn. rewrite lookup_alter_eq, lookup_alter_eq.
    destruct (s_store s !! id) as [c|] eqn:Hc; [|done]. cbn. rewrite (chan_lookup _ _ _ Hc) in Hst.
    intros Hsl. by destruct (m_opening _ _ _ _ HT id c Hc Hst Hsl).
  - intros [[]|e] s' HT'; [|done]. apply (preserves_wp (T D (λ _, False))); [mp|done|done].
Qed.
#[local] Hint Resolve pres_handleChannelOpen_m : mux.

Lemma pres_run_cont_m D E t err k : cont_ok k → preserves (T D E) (run_cont t err k).
Proof.
  intros Hk. destruct k; try (by mp). cbn [run_cont]. destruct err; [|mp]. apply preserves_bind; [mp|]. intros c.
  apply preserves_bind; [|mp]. destruct (_ || _); [|mp]. apply pres_neutral. intros [].
  cbn in *. split_and!; try done. intros ->. by destruct Hk.
Qed.

Lemma exec_mux a s :
  T (λ _, False) (λ _, False) s → (∀ id c, s_store s !! id = Some c → chan_inv cfg c) →
  (∀ t th, s_threads s !! t = Some th → thread_ok th) →
  T (λ _, False) (λ _, False) (exec a s).1.
Proof.
  intros HT Hc Hth. destruct a;
    try (match goal with |- mux _ _ _ (exec ?a _).1 => 
           assert (preserves (T (λ _, False) (λ _, False)) (exec a)) as Hp; [|by apply Hp] end;
         cbn [exec]; unfold ret_unit, on_channel; by mp).
  - change (wp (exec (ASendRequest ch typ payload wantReply)) (λ _ s', T (λ _, False) (λ _, False) s') s).
    cbn [exec]. unfold on_channel. apply wp_bind, wp_get.
    destruct (s_store s !! ch) as [c|] eqn:E; [|by apply wp_ret]. apply wp_SendRequest_m; [done|eauto|eauto].
  - change (wp (exec (AThread t choice)) (λ _ s', T (λ _, False) (λ _, False) s') s).
    cbn [exec]. unfold ret_unit. apply wp_bind. unfold thread_step. apply wp_bind, wp_get.
    destruct (s_threads s !! t) as [th|] eqn:E; [|by apply wp_ret]. pose proof (Hth t th E) as Hok.
    assert (Hx : ∀ m : M unit, preserves (T (λ _, False) (λ _, False)) m → 
      wp m (λ r s', match r with Ok _ => wp (mret (Returned (RetUnit (Ok ())))) (λ _ s'', T (λ _, False) (λ _, False) s'') s' | Err e => T (λ _, False) (λ _, False) s' end) s).
    { intros m Hm. apply (preserves_wp (T (λ _, False) (λ _, False))); [done|done|]. by intros []. }
    destruct th; cbn in Hok; apply Hx; try (by mp). by apply pres_run_cont_m.
Qed.
End mux.

(** ** Theorems *)

Lemma reachable_mux `{ProtoSizeLaws} cfg s :
  config_ok cfg → reachable cfg s → mux cfg (λ _, False) (λ _, False) s.
Proof.
  intros Hcfg Hs. induction Hs as [h|s a Hs IH Ha].
  - pose proof (mux_limits cfg Hcfg) as (?&?&?&?).
    split; cbn; unfold slot_count; cbn; rewrite ?map_sum_empty, ?size_empty;
      try lia; try done; try (by intros *; rewrite lookup_empty; try intros [? ?]); try set_solver.
  - pose proof (reachable_evolves cfg Hcfg (permits_of cfg AActivate) s Hs) as He.
    apply exec_mux; [done|done|apply (ev_inv _ _ _ _ He)|apply (ev_threads _ _ _ _ He)].
Qed.



(** The number of channel requests that await a reply is exact until the
    session shuts down, and it never exceeds the connection's limit; the same
    limit holds for the global requests. *)
Theorem requests_exact `{ProtoSizeLaws} (cfg : Config) (s : Session)
    (Hcfg : config_ok cfg) (Hs : reachable cfg s) :
  (s_closing s = true ∨ s_pendingChannelRequests s = map_sum requests_of (s_store s)) ∧
  0 <= s_pendingChannelRequests s <= MaxPendingChannelRequests (limits cfg) ∧
  Z.of_nat (size (s_pendingGlobal s)) <= MaxPendingGlobalRequests (limits cfg).
Proof.
  pose proof (reachable_mux cfg s Hcfg Hs) as HT. destruct HT. done.
Qed.

Definition request_session : Session :=
  (@exec toy_size (ASendRequest 0 "exec" [] true) open_session).1.

Lemma requests_exact_witness :
  s_closing request_session = false ∧ s_pendingChannelRequests request_session = 1 ∧
  (s_closing request_session = true ∨
   s_pendingChannelRequests request_session = map_sum requests_of (s_store request_session)).
Proof.
  split; [vm_compute; reflexivity|]. split; [vm_compute; reflexivity|].
  apply (@requests_exact toy_size toy_size_laws default_config request_session default_config_ok).
  apply reach_step; [apply open_session_reachable|exact Logic.I].
Defined.
