(* ===== verification/SessionWriter.v ===== *)
(** * The writer: order, cancellation, at most once

    A write enters the end of one of the two queues, and leaves it for the
    connection or, when its goroutine gave up first, without being sent.  The
    invariant [writer_inv] relates the queues, the write the loop is sending and
    the log of the writes that the connection accepted. *)

From Stdlib Require Import Sorting.Sorted.
From S2P Require Import Prelude SessionConfig SessionTypes SessionOps SessionSteps.

(** The write the loop has in hand. *)
Definition in_hand (w : Writer) : list Z := match w with WrSending w => [w] | _ => [] end.

Definition is_control (ws : gmap Z outboundWrite) (w : Z) : bool :=
  match ws !! w with Some m => w_control m | None => false end.

(** The ids of the sent writes of one queue, oldest first. *)
Definition sent_ids (ws : gmap Z outboundWrite) (control : bool) (sent : list (Z * Envelope)) : list Z :=
  filter (λ w, is_control ws w = control) sent.*1.

(** All the writes of one queue in the order they pass through it: sent, being
    sent, waiting. *)
Definition pipeline (ws : gmap Z outboundWrite) (control : bool) (sent : list (Z * Envelope))
    (wr : Writer) (queue : list Z) : list Z :=
  sent_ids ws control sent ++ filter (λ w, is_control ws w = control) (in_hand wr) ++ queue.

Arguments pipeline : simpl never.
Arguments sent_ids : simpl never.

Definition increasing (l : list Z) : Prop := StronglySorted Z.lt l.

Record writer_inv (s : Session) : Prop := {
  wi_fresh w : is_Some (s_writes s !! w) → w < s_nextWrite s;
  wi_control : increasing (pipeline (s_writes s) true (s_sent s) (s_writer s) (s_controlQueue s));
  wi_outbound : increasing (pipeline (s_writes s) false (s_sent s) (s_writer s) (s_outboundQueue s));
  wi_control_queue w : w ∈ s_controlQueue s → ∃ m, s_writes s !! w = Some m ∧ w_control m = true ∧
    (w_state m = writeQueued ∨ w_state m = writeCanceled);
  wi_outbound_queue w : w ∈ s_outboundQueue s → ∃ m, s_writes s !! w = Some m ∧ w_control m = false ∧
    (w_state m = writeQueued ∨ w_state m = writeCanceled);
  wi_sending w : s_writer s = WrSending w → ∃ m, s_writes s !! w = Some m ∧ w_state m = writeStarted;
  wi_sent w e : (w, e) ∈ s_sent s → ∃ m, s_writes s !! w = Some m ∧ w_state m = writeDone ∧ w_envelope m = e;
}.

Section writer.
Context `{ProtoSize}.

Abbreviation W := writer_inv.

Definition same_writer (s s' : Session) : Prop :=
  s_writes s' = s_writes s ∧ s_nextWrite s' = s_nextWrite s ∧ s_sent s' = s_sent s ∧
  s_controlQueue s' = s_controlQueue s ∧ s_outboundQueue s' = s_outboundQueue s ∧
  in_hand (s_writer s') = in_hand (s_writer s).

Lemma in_hand_inj w w' : in_hand w = in_hand w' → ∀ i, w = WrSending i → w' = WrSending i.
Proof. destruct w, w'; cbn; naive_solver. Qed.

Lemma writer_same s s' : same_writer s s' → W s → W s'.
Proof.
  intros (E1&E2&E3&E4&E5&E6) [? Hc Ho ? ? Hs ?].
  split; unfold pipeline, sent_ids in *; rewrite ?E1, ?E2, ?E3, ?E4, ?E5, ?E6; try done.
  intros w Hw. apply Hs. by eapply in_hand_inj.
Qed.

Lemma pres_same_writer f : (∀ s, same_writer s (f s)) → preserves W (st_modify f).
Proof. intros Hf. apply preserves_modify. intros s. by apply writer_same. Qed.

(** *** Sorted lists *)

Lemma increasing_snoc l w : increasing l → (∀ x, x ∈ l → x < w) → increasing (l ++ [w]).
Proof.
  intros Hl Hw. induction Hl as [|x l Hl IH Hx]; cbn; [repeat constructor|].
  constructor; [apply IH; set_solver|]. apply Forall_app. split; [done|].
  constructor; [apply Hw; set_solver|constructor].
Qed.

Lemma increasing_remove l1 l2 w : increasing (l1 ++ w :: l2) → increasing (l1 ++ l2).
Proof.
  induction l1 as [|x l1 IH]; cbn; intros Hl; apply StronglySorted_inv in Hl as [Hl Hx]; [done|].
  constructor; [by apply IH|]. apply Forall_app in Hx as [? Hx]. apply Forall_cons in Hx as [_ ?].
  by apply Forall_app.
Qed.

Lemma increasing_NoDup l : increasing l → NoDup l.
Proof.
  induction 1 as [|x l Hl IH Hx]; constructor; [|done]. intros Hin.
  eapply Forall_forall in Hx; [|done]. lia.
Qed.

(** *** Changing the write objects *)

Lemma filter_control_ext ws ws' b (l : list Z) :
  (∀ w, w ∈ l → is_control ws' w = is_control ws w) →
  filter (λ w, is_control ws' w = b) l = filter (λ w, is_control ws w = b) l.
Proof.
  induction l as [|x l IH]; intros Hl; [done|]. rewrite !filter_cons, (Hl x) by set_solver.
  rewrite IH by set_solver. done.
Qed.

Lemma sent_ids_ext ws ws' b (sent : list (Z * Envelope)) :
  (∀ w e, (w, e) ∈ sent → is_control ws' w = is_control ws w) →
  sent_ids ws' b sent = sent_ids ws b sent.
Proof.
  intros Hs. apply filter_control_ext. intros w Hw. apply list_elem_of_fmap in Hw as ([w' e] & -> & Hin). eauto.
Qed.

(** Every write of a pipeline is a known write object. *)
Lemma pipeline_known s b w :
  W s → w ∈ pipeline (s_writes s) b (s_sent s) (s_writer s) (if b then s_controlQueue s else s_outboundQueue s) →
  is_Some (s_writes s !! w).
Proof.
  intros HW. unfold pipeline, sent_ids. rewrite !elem_of_app. intros [Hw|[Hw|Hw]].
  - apply list_elem_of_filter in Hw as [_ Hw]. apply list_elem_of_fmap in Hw as ([w' e] & -> & Hin).
    destruct (wi_sent _ HW w' e Hin) as (m & Hm & _). eauto.
  - apply list_elem_of_filter in Hw as [_ Hw]. destruct (s_writer s) eqn:E; cbn in Hw; try set_solver.
    apply list_elem_of_singleton in Hw as ->. destruct (wi_sending _ HW w0 E) as (m & Hm & _). eauto.
  - destruct b; [destruct (wi_control_queue _ HW w Hw) as (m & Hm & _)
                |destruct (wi_outbound_queue _ HW w Hw) as (m & Hm & _)]; eauto.
Qed.

(** The objects change in a way that keeps the queue of every known write. *)
Lemma pipeline_ext s ws' b :
  W s → (∀ w, is_Some (s_writes s !! w) → is_control ws' w = is_control (s_writes s) w) → ∀ queue,
  pipeline ws' b (s_sent s) (s_writer s) queue = pipeline (s_writes s) b (s_sent s) (s_writer s) queue.
Proof.
  intros HW Hext queue. unfold pipeline. f_equal; [|f_equal].
  - apply sent_ids_ext. intros w e Hin. apply Hext. destruct (wi_sent _ HW w e Hin) as (m & Hm & _). eauto.
  - apply filter_control_ext. intros w Hw. apply Hext. destruct (s_writer s) eqn:E; cbn in Hw; try set_solver.
    apply list_elem_of_singleton in Hw as ->. destruct (wi_sending _ HW w0 E) as (m & Hm & _). eauto.
Qed.

Lemma writer_alter s w m f :
  W s → s_writes s !! w = Some m →
  w_control (f m) = w_control m → w_envelope (f m) = w_envelope m →
  (w ∈ s_controlQueue s ∨ w ∈ s_outboundQueue s → w_state (f m) = writeQueued ∨ w_state (f m) = writeCanceled) →
  (s_writer s = WrSending w → w_state (f m) = writeStarted) →
  (w_state m = writeDone → w_state (f m) = writeDone) →
  W (s <| s_writes ::= alter f w |>).
Proof.
  intros HW Hm Hfc Hfe Hq Hsnd Hdone.
  assert (Hal : ∀ i m', s_writes s !! i = Some m' →
     alter f w (s_writes s) !! i = Some (if decide (w = i) then f m' else m')).
  { intros i m' Hi. rewrite lookup_alter. case_decide; [subst; by rewrite Hi|done]. }
  assert (Hext : ∀ i, is_Some (s_writes s !! i) → is_control (alter f w (s_writes s)) i = is_control (s_writes s) i).
  { intros i [m' Hi]. unfold is_control. rewrite (Hal i m' Hi), Hi. case_decide; [|done]. simplify_eq. done. }
  assert (Hc := pipeline_ext s (alter f w (s_writes s)) true HW Hext (s_controlQueue s)).
  assert (Ho := pipeline_ext s (alter f w (s_writes s)) false HW Hext (s_outboundQueue s)).
  destruct HW as [Hfr ? ? Hcq Hoq Hs Hse]. split; cbn; rewrite ?Hc, ?Ho; try done.
  - intros i. rewrite lookup_alter. case_decide; [subst; rewrite fmap_is_Some|]; auto.
  - intros i Hi. destruct (Hcq i Hi) as (m' & Hm' & ? & ?). rewrite (Hal i m' Hm').
    eexists. split; [done|]. case_decide; [|done]. simplify_eq. rewrite Hfc. auto.
  - intros i Hi. destruct (Hoq i Hi) as (m' & Hm' & ? & ?). rewrite (Hal i m' Hm').
    eexists. split; [done|]. case_decide; [|done]. simplify_eq. rewrite Hfc. auto.
  - intros i Hi. destruct (Hs i Hi) as (m' & Hm' & ?). rewrite (Hal i m' Hm').
    eexists. split; [done|]. case_decide; [|done]. simplify_eq. auto.
  - intros i e Hi. destruct (Hse i e Hi) as (m' & Hm' & ? & ?). rewrite (Hal i m' Hm').
    eexists. split; [done|]. case_decide; [|done]. simplify_eq. rewrite Hfe. auto.
Qed.

Lemma writer_new s m :
  W s → W (s <| s_writes ::= <[s_nextWrite s := m]> |> <| s_nextWrite ::= Z.succ |>).
Proof.
  intros HW. pose proof (wi_fresh _ HW) as Hfr.
  assert (Hal : ∀ i m', s_writes s !! i = Some m' → <[s_nextWrite s := m]> (s_writes s) !! i = Some m').
  { intros i m' Hi. rewrite lookup_insert_ne; [done|]. intros E. specialize (Hfr i (mk_is_Some _ _ Hi)). lia. }
  assert (Hext : ∀ i, is_Some (s_writes s !! i) →
     is_control (<[s_nextWrite s := m]> (s_writes s)) i = is_control (s_writes s) i).
  { intros i [m' Hi]. unfold is_control. by rewrite (Hal i m' Hi), Hi. }
  assert (Hc := pipeline_ext s _ true HW Hext (s_controlQueue s)).
  assert (Ho := pipeline_ext s _ false HW Hext (s_outboundQueue s)).
  destruct HW as [_ ? ? Hcq Hoq Hs Hse]. split; cbn; rewrite ?Hc, ?Ho; try done.
  - intros i. rewrite lookup_insert. case_decide; [lia|]. intros Hi. specialize (Hfr i Hi). lia.
  - intros i Hi. destruct (Hcq i Hi) as (m' & Hm' & ?). eauto.
  - intros i Hi. destruct (Hoq i Hi) as (m' & Hm' & ?). eauto.
  - intros i Hi. destruct (Hs i Hi) as (m' & Hm' & ?). eauto.
  - intros i e Hi. destruct (Hse i e Hi) as (m' & Hm' & ?). eauto.
Qed.

(** A write that is nowhere in the pipelines is dropped. *)
Lemma writer_drop s w :
  W s → w ∉ s_controlQueue s → w ∉ s_outboundQueue s → w ∉ in_hand (s_writer s) → w ∉ (s_sent s).*1 →
  W (s <| s_writes ::= delete w |>).
Proof.
  intros HW N1 N2 N3 N4.
  assert (Hal : ∀ i, i ≠ w → delete w (s_writes s) !! i = s_writes s !! i).
  { intros i Hi. by rewrite lookup_delete_ne. }
  assert (Hsent : ∀ i e, (i, e) ∈ s_sent s → i ≠ w).
  { intros i e Hi ->. apply N4, list_elem_of_fmap. by exists (w, e). }
  assert (Hpipe : ∀ b queue, pipeline (delete w (s_writes s)) b (s_sent s) (s_writer s) queue =
    pipeline (s_writes s) b (s_sent s) (s_writer s) queue).
  { intros b queue. unfold pipeline. f_equal; [|f_equal].
    - apply sent_ids_ext. intros i e Hi. unfold is_control. rewrite Hal; [done|eauto].
    - apply filter_control_ext. intros i Hi. unfold is_control. rewrite Hal; [done|]. intros ->. done. }
  destruct HW as [Hfr ? ? Hcq Hoq Hs Hse]. split; cbn; rewrite ?Hpipe; try done.
  - intros i [m Hm]. apply lookup_delete_Some in Hm as [_ Hm]. eauto.
  - intros i Hi. rewrite Hal by (intros ->; done). auto.
  - intros i Hi. rewrite Hal by (intros ->; done). auto.
  - intros i Hi. rewrite Hal; [auto|]. intros ->. rewrite Hi in N3. cbn in N3. set_solver.
  - intros i e Hi. rewrite Hal by eauto. auto.
Qed.

(** *** Queueing *)

Lemma writer_enqueue s w m (control : bool) :
  W s → s_writes s !! w = Some m → w_control m = control → w_state m = writeQueued →
  (∀ x, x ∈ pipeline (s_writes s) control (s_sent s) (s_writer s)
             (if control then s_controlQueue s else s_outboundQueue s) → x < w) →
  W (if control then s <| s_controlQueue := s_controlQueue s ++ [w] |>
     else s <| s_outboundQueue := s_outboundQueue s ++ [w] |>).
Proof.
  intros [? Hc Ho Hcq Hoq ? ?] Hm Hct Hst Hlt.
  destruct control; split; cbn; try done; unfold pipeline in *; rewrite ?app_assoc;
    try (apply increasing_snoc; rewrite <-?app_assoc; done).
  - intros x Hx. apply elem_of_app in Hx as [Hx| ->%list_elem_of_singleton]; [auto|]. exists m. auto.
  - intros x Hx. apply elem_of_app in Hx as [Hx| ->%list_elem_of_singleton]; [auto|]. exists m. auto.
Qed.

Lemma fresh_nowhere s :
  W s → (s_nextWrite s ∉ s_controlQueue s) ∧ (s_nextWrite s ∉ s_outboundQueue s) ∧
        (s_nextWrite s ∉ in_hand (s_writer s)) ∧ (s_nextWrite s ∉ (s_sent s).*1).
Proof.
  intros HW. pose proof (wi_fresh _ HW) as Hfr.
  assert (Hx : ¬ is_Some (s_writes s !! s_nextWrite s)) by (intros Hx; specialize (Hfr _ Hx); lia).
  split_and!; intros Hin; apply Hx.
  - destruct (wi_control_queue _ HW _ Hin) as (m & ? & _). eauto.
  - destruct (wi_outbound_queue _ HW _ Hin) as (m & ? & _). eauto.
  - destruct (s_writer s) eqn:E; cbn in Hin; try set_solver. apply list_elem_of_singleton in Hin as ->.
    destruct (wi_sending _ HW _ E) as (m & ? & _). eauto.
  - apply list_elem_of_fmap in Hin as ([w e] & -> & Hin). destruct (wi_sent _ HW _ _ Hin) as (m & ? & _). eauto.
Qed.

Lemma pres_post_write_w frame control wantResult after : preserves W (post_write frame control wantResult after).
Proof.
  intros s HW. unfold post_write, new_write. apply wp_bind, wp_bind, wp_get, wp_bind, wp_modify, wp_ret.
  set (m := MkWrite frame control wantResult None after (size_envelope frame) writeQueued).
  set (w := s_nextWrite s). set (s1 := s <| s_writes ::= <[w := m]> |> <| s_nextWrite ::= Z.succ |>).
  assert (HW1 : W s1) by (by apply writer_new).
  destruct (fresh_nowhere s HW) as (N1 & N2 & N3 & N4).
  assert (Hdrop : ∀ s2, same_writer s1 s2 → W (s2 <| s_writes ::= delete w |>)).
  { intros s2 Hs. eapply writer_same; [|apply (writer_drop s1 w); done].
    unfold same_writer in *. cbn in *. destruct_and!. split_and!; try done; congruence. }
  apply wp_bind, wp_try. unfold enqueueWrite, reserveQueueBudget, releaseQueueBudget.
  apply wp_bind, wp_bind, wp_get.
  destruct (_ <? 1); [by apply wp_fail, wp_bind, wp_modify, wp_fail, Hdrop|].
  destruct (_ <? size_envelope frame); [by apply wp_fail, wp_bind, wp_modify, wp_fail, Hdrop|].
  apply wp_modify, wp_bind, wp_get. cbv zeta.
  destruct (s_queuesClosed _); [by apply wp_bind, wp_modify, wp_fail, wp_bind, wp_modify, wp_fail, Hdrop|].
  destruct (_ <? _); [|by apply wp_bind, wp_modify, wp_bind, wp_modify, wp_fail, wp_bind, wp_modify, wp_fail, Hdrop].
  apply wp_modify, wp_ret.
  pose proof (writer_enqueue s1 w m control HW1) as Hen.
  assert (Hlt : ∀ x, x ∈ pipeline (s_writes s1) control (s_sent s1) (s_writer s1)
             (if control then s_controlQueue s1 else s_outboundQueue s1) → x < w).
  { intros x Hx. pose proof (pipeline_known s1 control x HW1 Hx) as Hk.
    pose proof (wi_fresh _ HW1 x Hk) as Hl. cbn in Hl.
    destruct (decide (x = w)) as [->|]; [|lia]. exfalso.
    assert (Hx' : w ∈ pipeline (s_writes s) control (s_sent s) (s_writer s)
             (if control then s_controlQueue s else s_outboundQueue s)).
    { revert Hx. unfold pipeline, sent_ids. rewrite !elem_of_app, !list_elem_of_filter.
      intros [[_ Hx]|[[_ Hx]|Hx]]; [by destruct N4|by destruct N3|]. destruct control; by destruct N1. }
    pose proof (wi_fresh _ HW w (pipeline_known s control w HW Hx')). lia. }
  specialize (Hen ltac:(cbn; by rewrite lookup_insert_eq) eq_refl eq_refl Hlt).
  eapply writer_same; [|exact Hen]. by destruct control.
Qed.

Create HintDb writer.
#[local] Hint Resolve pres_post_write_w : writer.

Ltac w_unit _ :=
  lazymatch goal with
  | |- preserves _ (chan_mod _ _) => apply pres_same_writer; intros; unfold same_writer; done
  | |- preserves _ (st_modify _) =>
      apply pres_same_writer; intros; unfold same_writer; cbn; repeat case_match; cbn; split_and!; reflexivity
  | |- preserves _ _ => first [assumption | solve [auto 2 with writer]]
  end.

Ltac wr := pres_with w_unit.

Lemma pres_channel_shutdown_w id e : preserves W (channel_shutdown id e).
Proof. wr. Qed.
#[local] Hint Resolve pres_channel_shutdown_w : writer.

Lemma pres_shutdown_w e : preserves W (shutdown e).
Proof. wr. Qed.
#[local] Hint Resolve pres_shutdown_w : writer.

Lemma pres_run_after_w a e : preserves W (run_after a e).
Proof. wr. Qed.

(** A goroutine gives up on a queued write. *)
Lemma wp_cancel_write t w err k s : W s → wp (cancel_write t w err k) (λ _ s', W s') s.
Proof.
  intros HW. unfold cancel_write. apply wp_bind, wp_get.
  destruct (s_writes s !! w) as [m|] eqn:Hm; [|by apply wp_ret].
  case_bool_decide as Hst; [|by apply wp_ret]. apply wp_bind, wp_modify, wp_modify.
  eapply writer_same; [|apply (writer_alter s w m (λ m, m <| w_state := writeCanceled |>)); try done].
  - done.
  - by right.
  - intros Hs. destruct (wi_sending _ HW w Hs) as (m' & Hm' & ?). simplify_eq. congruence.
  - congruence.
Qed.

(** *** Taking *)

Lemma writer_dequeue s w rest (control : bool) :
  W s → in_hand (s_writer s) = [] → (if control then s_controlQueue s else s_outboundQueue s) = w :: rest →
  W (if control then s <| s_controlQueue := rest |> else s <| s_outboundQueue := rest |>).
Proof.
  intros [? Hc Ho Hcq Hoq ? ?] Hh Hq. unfold pipeline in *. rewrite Hh in *.
  destruct control; split; cbn; try done; unfold pipeline; rewrite ?Hh; cbn in *; try done.
  - rewrite Hq in Hc. by apply increasing_remove in Hc.
  - intros x Hx. apply Hcq. rewrite Hq. set_solver.
  - rewrite Hq in Ho. by apply increasing_remove in Ho.
  - intros x Hx. apply Hoq. rewrite Hq. set_solver.
Qed.

Lemma writer_start s w rest m (control : bool) :
  W s → in_hand (s_writer s) = [] → (if control then s_controlQueue s else s_outboundQueue s) = w :: rest →
  s_writes s !! w = Some m → w_state m = writeQueued →
  W ((if control then s <| s_controlQueue := rest |> else s <| s_outboundQueue := rest |>)
      <| s_writes ::= alter (λ m, m <| w_state := writeStarted |>) w |> <| s_writer := WrSending w |>).
Proof.
  intros HW Hh Hq Hm Hst. pose proof (writer_dequeue s w rest control HW Hh Hq) as HW1.
  assert (Hct : w_control m = control).
  { destruct control; [destruct (wi_control_queue _ HW w) as (m' & ? & ? & _)
                      |destruct (wi_outbound_queue _ HW w) as (m' & ? & ? & _)]; rewrite ?Hq; try set_solver; congruence. }
  assert (Hnin : w ∉ rest).
  { destruct HW as [_ Hc Ho _ _ _ _]. unfold pipeline in *. rewrite Hh in *. cbn in *.
    destruct control; [rewrite Hq in Hc; apply increasing_NoDup in Hc as Hnd|rewrite Hq in Ho; apply increasing_NoDup in Ho as Hnd];
      apply NoDup_app in Hnd as (_ & _ & Hnd); by apply NoDup_cons in Hnd as [? _]. }
  assert (Hother : w ∉ (if control then s_outboundQueue s else s_controlQueue s)).
  { intros Hin. destruct control; [destruct (wi_outbound_queue _ HW w Hin) as (m' & ? & ? & _)
      |destruct (wi_control_queue _ HW w Hin) as (m' & ? & ? & _)]; congruence. }
  set (s1 := if control then s <| s_controlQueue := rest |> else s <| s_outboundQueue := rest |>) in *.
  assert (HW2 : W (s1 <| s_writes ::= alter (λ m, m <| w_state := writeStarted |>) w |>)).
  { apply (writer_alter s1 w m); try done.
    - by destruct control.
    - destruct control; cbn; intros [?|?]; done.
    - rewrite Hst. done. }
  assert (Hisc : is_control (alter (λ m, m <| w_state := writeStarted |>) w (s_writes s)) w = control).
  { unfold is_control. by rewrite lookup_alter_eq, Hm. }
  assert (Hp : pipeline (s_writes s) control (s_sent s) (s_writer s) (w :: rest) = 
     sent_ids (alter (λ m, m <| w_state := writeStarted |>) w (s_writes s)) control (s_sent s) ++ [w] ++ rest).
  { unfold pipeline. rewrite Hh. cbn. f_equal. symmetry. apply sent_ids_ext. intros i e Hi.
    destruct (wi_sent _ HW i e Hi) as (m' & Hm' & Hd & _). unfold is_control. rewrite lookup_alter.
    case_decide; [|done]. simplify_eq. by rewrite Hm. }
  destruct HW2 as [Hfr Hc Ho Hcq Hoq _ Hse].
  unfold pipeline in *. rewrite Hh in *.
  destruct control; split; cbn in *; try done; unfold pipeline in *; rewrite ?Hh in *; cbn in *.
  all: try (intros w' [= <-]; exists (m <| w_state := writeStarted |>); by rewrite lookup_alter_eq, Hm).
  all: rewrite ?Hisc; cbn; try done; rewrite decide_True by done; cbn.
  - rewrite <-Hp, <-Hq. destruct HW as [_ Hc' _ _ _ _ _]. unfold pipeline in Hc'. by rewrite Hh in Hc'.
  - rewrite <-Hp, <-Hq. destruct HW as [_ _ Ho' _ _ _ _]. unfold pipeline in Ho'. by rewrite Hh in Ho'.
Qed.

(** *** The loop with nothing in hand *)

(** The invariant of a state whose writer is considered idle. *)
Definition W0 (s : Session) : Prop := W (s <| s_writer := WrIdle |>).

Lemma W0_intro s : W s → in_hand (s_writer s) = [] → W0 s.
Proof. intros HW Hh. eapply writer_same; [|exact HW]. unfold same_writer. cbn. by rewrite Hh. Qed.

Lemma W0_elim s wr : W0 s → in_hand wr = [] → W (s <| s_writer := wr |>).
Proof. intros HW Hh. eapply writer_same; [|exact HW]. unfold same_writer. cbn. by rewrite Hh. Qed.

Lemma post_write_writer frame control wantResult after s wr :
  post_write frame control wantResult after (s <| s_writer := wr |>) =
  (let '(s', r) := post_write frame control wantResult after s in (s' <| s_writer := wr |>, r)).
Proof.
  destruct s. unfold post_write, new_write, st_try, enqueueWrite, reserveQueueBudget, releaseQueueBudget, drop_write.
  unfold mbind, ST_bind, st_get, st_modify, mret, ST_ret, st_fail. cbn.
  repeat (match goal with |- context [if ?b then _ else _] => destruct b end; cbn; try done).
Qed.

Lemma pres_post_write_0 frame control wantResult after : preserves W0 (post_write frame control wantResult after).
Proof.
  intros s HW. pose proof (pres_post_write_w frame control wantResult after _ HW) as Hp. unfold wp in *.
  rewrite post_write_writer in Hp. by destruct (post_write _ _ _ _ s).
Qed.

Definition same_writer0 (s s' : Session) : Prop :=
  s_writes s' = s_writes s ∧ s_nextWrite s' = s_nextWrite s ∧ s_sent s' = s_sent s ∧
  s_controlQueue s' = s_controlQueue s ∧ s_outboundQueue s' = s_outboundQueue s.

Lemma W0_same s s' : same_writer0 s s' → W0 s → W0 s'.
Proof. intros (E1&E2&E3&E4&E5). apply writer_same. unfold same_writer. cbn. done. Qed.

Lemma pres_same_0 f : (∀ s, same_writer0 s (f s)) → preserves W0 (st_modify f).
Proof. intros Hf. apply preserves_modify. intros s. by apply W0_same. Qed.

Create HintDb writer0.
#[local] Hint Resolve pres_post_write_0 : writer0.

Ltac w0_unit _ :=
  lazymatch goal with
  | |- preserves _ (chan_mod _ _) => apply pres_same_0; intros; unfold same_writer0; done
  | |- preserves _ (st_modify _) =>
      apply pres_same_0; intros; unfold same_writer0; cbn; repeat case_match; cbn; split_and!; reflexivity
  | |- preserves _ _ => first [assumption | solve [auto 2 with writer0]]
  end.

Ltac wr0 := pres_with w0_unit.

Lemma pres_channel_shutdown_0 id e : preserves W0 (channel_shutdown id e).
Proof. wr0. Qed.
#[local] Hint Resolve pres_channel_shutdown_0 : writer0.

Lemma pres_shutdown_0 e : preserves W0 (shutdown e).
Proof. wr0. Qed.

Lemma pres_run_after_0 a e : preserves W0 (run_after a e).
Proof. wr0. Qed.

Lemma run_after_ok a e s : (run_after a e s).2 = Ok tt.
Proof. destruct a, e; done. Qed.

Lemma shutdown_ok e s : (shutdown e s).2 = Ok tt.
Proof.
  change (wp (shutdown e) (λ r _, r = Ok tt) s). unfold shutdown. apply wp_bind, wp_get.
  destruct (s_shutdownOnce s); [by apply wp_ret|]. cbv zeta. apply wp_bind, wp_modify, wp_bind.
  eapply (wp_mono _ (λ r _, r = Ok tt)); [destruct e as [[]|]; try (by apply wp_ret); by apply wp_bind, wp_try|].
  intros r s1 ->. apply wp_bind, wp_modify, wp_bind.
  eapply (wp_mono _ (λ r s', r = Ok tt ∧ True)); [|intros r' s2 [-> _]; by apply wp_modify].
  apply (wp_iter _ (λ _, True)); [|done]. intros id s2 _.
  eapply wp_mono; [apply channel_shutdown_ok|]. by intros r' s3 ->.
Qed.

Lemma pres_deliver_0 w e : preserves W0 (write_mod w (deliver_result e)).
Proof.
  apply preserves_modify. intros s HW. destruct (s_writes s !! w) as [m|] eqn:Hm.
  - eapply writer_same; [|apply (writer_alter (s <| s_writer := WrIdle |>) w m (deliver_result e) HW Hm)];
      try done; unfold deliver_result; try (by repeat case_match).
    intros Hin. assert (Hst : w_state m = writeQueued ∨ w_state m = writeCanceled).
    { destruct Hin as [Hin|Hin]; [destruct (wi_control_queue _ HW w Hin) as (m' & Hm' & _ & ?)
        |destruct (wi_outbound_queue _ HW w Hin) as (m' & Hm' & _ & ?)]; cbn in Hm'; by simplify_eq. }
    by repeat case_match.
  - eapply W0_same; [|exact HW]. unfold same_writer0. cbn. rewrite alter_none by done. done.
Qed.

Lemma pres_writer_set_0 wr : in_hand wr = [] → preserves W0 (writer_set wr).
Proof. intros Hh. wr0. Qed.

Lemma wp_writer_take s w rest (control : bool) :
  W s → in_hand (s_writer s) = [] → (if control then s_controlQueue s else s_outboundQueue s) = w :: rest →
  wp (writer_take w) (λ _ s', W s')
    (if control then s <| s_controlQueue := rest |> else s <| s_outboundQueue := rest |>).
Proof.
  intros HW Hh Hq. unfold writer_take, releaseQueueBudget. apply wp_bind, wp_get.
  set (s1 := if control then _ else _). assert (Hws : s_writes s1 = s_writes s) by (by destruct control).
  assert (Hwr : s_writer s1 = s_writer s) by (by destruct control).
  pose proof (writer_dequeue s w rest control HW Hh Hq) as HW1. fold s1 in HW1.
  destruct (s_writes s1 !! w) as [m|] eqn:Hm; [|by apply wp_ret].
  rewrite Hws in Hm. apply wp_bind, wp_modify. case_bool_decide as Hst.
  - apply wp_bind, wp_modify, wp_modify.
    eapply writer_same; [|exact (writer_start s w rest m control HW Hh Hq Hm Hst)].
    by destruct control.
  - assert (HW0 : W0 s1) by (apply W0_intro; [done|by rewrite Hwr]).
    apply wp_bind. eapply (wp_mono _ (λ r s', r = Ok tt ∧ W0 s')).
    { split; [apply run_after_ok|]. apply pres_run_after_0. by eapply W0_same; [|exact HW0]. }
    intros r s2 [-> HW2]. apply wp_bind, wp_modify, wp_modify. apply W0_elim; [|done].
    by apply (pres_deliver_0 w (Some context_Canceled)).
Qed.

Lemma wp_take_control s : W s → in_hand (s_writer s) = [] → wp take_control (λ _ s', W s') s.
Proof.
  intros HW Hh. unfold take_control. apply wp_bind, wp_get. destruct (s_controlQueue s) as [|w rest] eqn:Hq.
  - destruct (s_queuesClosed s); [|by apply wp_ret]. apply wp_bind, wp_modify, wp_modify.
    apply W0_elim; [|done].
    by eapply W0_same; [|exact (W0_intro s HW Hh)].
  - apply wp_bind, wp_modify. by apply (wp_writer_take s w rest true).
Qed.

Lemma wp_take_outbound s : W s → in_hand (s_writer s) = [] → wp take_outbound (λ _ s', W s') s.
Proof.
  intros HW Hh. unfold take_outbound. apply wp_bind, wp_get. destruct (s_outboundQueue s) as [|w rest] eqn:Hq.
  - destruct (s_queuesClosed s); [|by apply wp_ret]. apply wp_bind, wp_modify, wp_modify.
    apply W0_elim; [|done].
    by eapply W0_same; [|exact (W0_intro s HW Hh)].
  - apply wp_bind, wp_modify. by apply (wp_writer_take s w rest false).
Qed.

(** *** A send completes *)

(** The object is done, and no longer in hand. *)
Lemma writer_finish s w m err :
  W s → s_writer s = WrSending w → s_writes s !! w = Some m →
  W0 (s <| s_writes ::= alter (λ m, deliver_result err (m <| w_state := writeDone |>)) w |>).
Proof.
  intros HW Hs Hm. assert (HW0 : W0 s).
  { destruct HW as [? Hc Ho ? ? ? ?]. split; try done; unfold pipeline in *; rewrite Hs in *; cbn in *.
    - destruct (decide (is_control (s_writes s) w = true)); cbn in *; [by apply increasing_remove in Hc|done].
    - destruct (decide (is_control (s_writes s) w = false)); cbn in *; [by apply increasing_remove in Ho|done]. }
  destruct (wi_sending _ HW w Hs) as (m' & Hm' & Hst). simplify_eq.
  eapply writer_same; [|apply (writer_alter (s <| s_writer := WrIdle |>) w m
     (λ m, deliver_result err (m <| w_state := writeDone |>)) HW0 Hm)]; try done;
    unfold deliver_result; cbn; try (by repeat case_match).
  intros [Hin|Hin]; [destruct (wi_control_queue _ HW w Hin) as (m' & Hm' & _ & ?)
        |destruct (wi_outbound_queue _ HW w Hin) as (m' & Hm' & _ & ?)]; simplify_eq; intuition congruence.
Qed.

Lemma writer_log s w m err :
  W s → s_writer s = WrSending w → s_writes s !! w = Some m →
  W0 (s <| s_writes ::= alter (λ m, deliver_result err (m <| w_state := writeDone |>)) w |>
        <| s_sent ::= (λ l, l ++ [(w, w_envelope m)]) |>).
Proof.
  intros HW Hs Hm. pose proof (writer_finish s w m err HW Hs Hm) as [Hfr _ _ Hcq Hoq Hsd Hse].
  set (ws' := alter (λ m, deliver_result err (m <| w_state := writeDone |>)) w (s_writes s)).
  cbn in Hfr, Hcq, Hoq, Hsd, Hse. fold ws' in Hfr, Hcq, Hoq, Hsd, Hse.
  assert (Hctl : ∀ i, is_control ws' i = is_control (s_writes s) i).
  { intros i. unfold is_control, ws'. rewrite lookup_alter. case_decide; [subst|done].
    rewrite Hm. unfold deliver_result. cbn. by repeat case_match. }
  assert (Hsent : ∀ b queue, pipeline ws' b (s_sent s ++ [(w, w_envelope m)]) WrIdle queue =
                             pipeline (s_writes s) b (s_sent s) (WrSending w) queue).
  { intros b queue. unfold pipeline, sent_ids. rewrite fmap_app, filter_app, <-app_assoc. f_equal; [|f_equal];
      by apply filter_control_ext. }
  destruct HW as [_ Hc Ho _ _ _ _]. rewrite Hs in *.
  split; cbn; fold ws'; rewrite ?Hsent; try done.
  intros i e Hi. apply elem_of_app in Hi as [Hi|Hi]; [by apply Hse|].
  apply list_elem_of_singleton in Hi as [= -> ->]. unfold ws'. rewrite lookup_alter_eq, Hm.
  eexists. split; [done|]. unfold deliver_result. cbn. by repeat case_match.
Qed.

Lemma run_after_keeps a e s : s_writer (run_after a e s).1 = s_writer s ∧ s_writes (run_after a e s).1 = s_writes s.
Proof. destruct a, e; done. Qed.

Lemma wp_writerLoop_sent s w err :
  W s → s_writer s = WrSending w → wp (writerLoop_sent w err) (λ _ s', W s') s.
Proof.
  intros HW Hs. unfold writerLoop_sent. apply wp_bind, wp_get.
  destruct (s_writes s !! w) as [m|] eqn:Hm; [|by apply wp_ret]. cbv zeta.
  set (e := match err with None => None | Some e => Some _ end).
  apply wp_bind. eapply (wp_mono _ (λ r s', r = Ok tt ∧ W s' ∧ s_writer s' = WrSending w ∧ s_writes s' !! w = Some m)).
  { destruct (run_after_keeps (w_after m) e s) as [K1 K2]. split_and!; [apply run_after_ok|by apply pres_run_after_w|congruence..]. }
  intros r s1 (-> & HW1 & Hs1 & Hm1). apply wp_bind, wp_modify.
  destruct e as [e'|].
  - apply wp_bind. eapply (wp_mono _ (λ r s', r = Ok tt ∧ W0 s')).
    { split; [apply shutdown_ok|]. apply pres_shutdown_0. by eapply writer_finish. }
    intros r s2 [-> HW2]. unfold writer_exit, wg_Done. apply wp_bind, wp_modify, wp_bind, wp_modify, wp_modify.
    eapply writer_same; [|apply (W0_elim s2 WrExited HW2)]; done.
  - apply wp_bind, wp_modify, wp_modify. apply W0_elim; [|done]. by eapply writer_log.
Qed.

(** *** Every step *)

Lemma pres_writer_exit : ∀ s, W s → in_hand (s_writer s) = [] → wp writer_exit (λ _ s', W s') s.
Proof.
  intros s HW Hh. unfold writer_exit, wg_Done. apply wp_bind, wp_modify, wp_bind, wp_modify, wp_modify.
  eapply writer_same; [|apply (W0_elim s WrExited)]; [done|by apply W0_intro|done].
Qed.

Lemma pres_thread_step_w t choice : preserves W (thread_step t choice).
Proof.
  assert (Hc : ∀ t w e k, preserves W (cancel_write t w e k)) by (intros ???? s; apply wp_cancel_write).
  unfold thread_step. wr.
Qed.
#[local] Hint Resolve pres_thread_step_w : writer.

Lemma pres_writer_step a :
  match a with AWriterStart | AWriterPoll | AWriterSelect _ | AWriterSent _ => True | _ => False end →
  preserves W (exec a).
Proof.
  intros Ha s HW. destruct a; try done; cbn [exec]; unfold ret_unit; apply wp_bind;
    (eapply (wp_mono _ (λ _ s', W s')); [|by intros []]).
  - unfold writerLoop_start. apply wp_bind, wp_get. destruct (s_writer s) eqn:E; try (by apply wp_ret).
    destruct (waitForActivation s) as [[]|]; [|by apply pres_writer_exit; [|rewrite E]|by apply wp_ret].
    apply wp_modify, W0_elim; [|done]. apply W0_intro; [done|by rewrite E].
  - apply wp_bind, wp_get. destruct (s_writer s) eqn:E; try (by apply wp_ret).
    unfold writerLoop_poll. apply wp_bind, wp_get.
    destruct (_ && _); [by apply pres_writer_exit; [|rewrite E]|].
    destruct (_ && _); [by apply wp_take_control; [|rewrite E]|].
    apply wp_modify, W0_elim; [|done]. apply W0_intro; [done|by rewrite E].
  - apply wp_bind, wp_get. destruct (s_writer s) eqn:E; try (by apply wp_ret).
    unfold writerLoop_select. apply wp_bind, wp_get. destruct control, (_ : bool); try (by apply wp_ret).
    + by apply wp_take_control; [|rewrite E].
    + by apply wp_take_outbound; [|rewrite E].
  - apply wp_bind, wp_get. destruct (s_writer s) eqn:E; try (by apply wp_ret).
    by apply wp_writerLoop_sent.
Qed.

Lemma pres_exec_w a : preserves W (exec a).
Proof.
  destruct a; try (by apply pres_writer_step); cbn [exec]; unfold ret_unit, on_channel; wr.
Qed.
End writer.

(** ** A canceled write stays canceled *)

Section canceled.
Context `{ProtoSize} (w : Z).

Definition canceled (s : Session) : Prop :=
  (∃ m, s_writes s !! w = Some m ∧ w_state m = writeCanceled) ∧ w < s_nextWrite s.

Lemma canceled_same s s' :
  s_writes s' = s_writes s → s_nextWrite s' = s_nextWrite s → canceled s → canceled s'.
Proof. unfold canceled. by intros -> ->. Qed.

Lemma pres_same_c f :
  (∀ s, s_writes (f s) = s_writes s ∧ s_nextWrite (f s) = s_nextWrite s) → preserves canceled (st_modify f).
Proof. intros Hf. apply preserves_modify. intros s. destruct (Hf s). by apply canceled_same. Qed.

Lemma canceled_alter s i f :
  canceled s → (∀ m, i = w → w_state m = writeCanceled → w_state (f m) = writeCanceled) →
  canceled (s <| s_writes ::= alter f i |>).
Proof.
  intros [(m & Hm & Hst) Hlt] Hf. split; [|done]. cbn. rewrite lookup_alter.
  case_decide; [subst; rewrite Hm; eexists; split; [done|auto]|eauto].
Qed.

Create HintDb canceled.
Ltac c_unit _ :=
  lazymatch goal with
  | |- preserves _ (chan_mod _ _) => apply pres_same_c; intros; done
  | |- preserves _ (write_mod _ _) =>
      apply preserves_modify; intros; apply canceled_alter; [assumption|];
      intros; unfold deliver_result; cbn; repeat case_match; done
  | |- preserves _ (st_modify _) => apply pres_same_c; intros; cbn; repeat case_match; done
  | |- preserves _ _ => first [assumption | solve [auto 2 with canceled]]
  end.

Ltac cn := pres_with c_unit.

Lemma pres_post_write_c frame control wantResult after :
  preserves canceled (post_write frame control wantResult after).
Proof.
  unfold post_write, new_write. intros s [(m & Hm & Hst) Hlt].
  apply wp_bind, wp_bind, wp_get, wp_bind, wp_modify, wp_ret, wp_bind, wp_try.
  apply (preserves_wp canceled); [cn| |].
  - cbn. split; cbn; [|lia]. rewrite lookup_insert_ne by lia. eauto.
  - intros [u|e] s' [(m' & Hm' & Hst') Hlt']; [by split; [eauto|]|].
    apply wp_bind, wp_modify, wp_fail. split; [|done]. cbn.
    rewrite lookup_delete_ne by lia. eauto.
Qed.
#[local] Hint Resolve pres_post_write_c : canceled.

Lemma pres_channel_shutdown_c id e : preserves canceled (channel_shutdown id e).
Proof. cn. Qed.
#[local] Hint Resolve pres_channel_shutdown_c : canceled.

Lemma pres_shutdown_c e : preserves canceled (shutdown e).
Proof. cn. Qed.
#[local] Hint Resolve pres_shutdown_c : canceled.

Lemma pres_writer_take_c i : preserves canceled (writer_take i).
Proof.
  intros s Hc. unfold writer_take. apply wp_bind, wp_get.
  destruct (s_writes s !! i) as [m|] eqn:Hm; [|by apply wp_ret].
  case_bool_decide as Hst; [|apply (preserves_wp canceled); [cn|done|done]].
  apply wp_bind, wp_modify, wp_bind, wp_modify, wp_modify.
  eapply canceled_same; [..|apply (canceled_alter s i (λ m, m <| w_state := writeStarted |>) Hc)]; [done..|].
  intros m' -> Hm'. destruct Hc as [(m0 & Hm0 & ?) _]. simplify_eq. congruence.
Qed.
#[local] Hint Resolve pres_writer_take_c : canceled.

Lemma exec_canceled a s : writer_inv s → canceled s → canceled (exec a s).1.
Proof.
  intros HW Hc. destruct a;
    try (match goal with |- canceled (exec ?a _).1 => assert (preserves canceled (exec a)) as Hp; [|by apply Hp] end;
         cbn [exec]; unfold ret_unit, on_channel; by cn).
  change (wp (exec (AWriterSent err)) (λ _ s', canceled s') s). cbn [exec]. unfold ret_unit.
  apply wp_bind, wp_bind, wp_get. destruct (s_writer s) eqn:Hwr; try (by apply wp_ret, wp_ret).
  destruct (wi_sending _ HW _ Hwr) as (m & Hm & Hst).
  assert (Hne : w0 ≠ w) by (intros ->; destruct Hc as [(? & ? & ?) _]; congruence).
  eapply (wp_mono _ (λ _ s', canceled s')); [|by intros []].
  assert (Hmod : ∀ e, preserves canceled (write_mod w0 (λ m, deliver_result e (m <| w_state := writeDone |>)))).
  { intros e. apply preserves_modify. intros s' Hs'. by apply canceled_alter. }
  apply (preserves_wp canceled); [cn|done|done].
Qed.
End canceled.

(** ** Theorems *)

Lemma reachable_writer `{ProtoSize} cfg s : reachable cfg s → writer_inv s.
Proof.
  apply reachable_ind_inv; [|intros a _; apply pres_exec_w].
  intros h. split; cbn; try (by intros; set_solver); try constructor.
  intros w. rewrite lookup_empty. by intros [? ?].
Qed.

(** C26: Writes reach the connection in the order in which they were queued,
    separately for control and data writes, and each at most once: the ids of
    the sent writes of one queue are increasing and below the ids that wait in
    it, and what is logged is the envelope the write was made with. *)
Theorem writes_in_order `{ProtoSize} (cfg : Config) (s : Session) (Hs : reachable cfg s) :
  increasing (sent_ids (s_writes s) true (s_sent s) ++ s_controlQueue s) ∧
  increasing (sent_ids (s_writes s) false (s_sent s) ++ s_outboundQueue s) ∧
  NoDup (s_sent s).*1 ∧
  ∀ w e, (w, e) ∈ s_sent s → ∃ m, s_writes s !! w = Some m ∧ w_envelope m = e ∧ w_state m = writeDone.
Proof.
  pose proof (reachable_writer cfg s Hs) as [? Hc Ho ? ? ? Hse]. unfold pipeline in *.
  assert (Hrem : ∀ l1 l2 l3 : list Z, increasing (l1 ++ l2 ++ l3) → increasing (l1 ++ l3)).
  { intros l1 l2 l3. induction l2 as [|x l2 IH]; [done|]. intros Hl. apply IH. by apply increasing_remove in Hl. }
  apply Hrem in Hc, Ho. split_and!; [done|done| |naive_solver].
  assert (Hnd : ∀ b, NoDup (sent_ids (s_writes s) b (s_sent s))).
  { intros []; [apply increasing_NoDup, NoDup_app in Hc|apply increasing_NoDup, NoDup_app in Ho]; naive_solver. }
  pose proof (Hnd true) as H1. pose proof (Hnd false) as H2. unfold sent_ids in H1, H2. clear -H1 H2.
  induction (s_sent s).*1 as [|x l IH]; [constructor|].
  rewrite !filter_cons in *. destruct (is_control (s_writes s) x) eqn:E;
    rewrite decide_True in * by done; rewrite decide_False in * by done;
    (match goal with H : NoDup (x :: _) |- _ => apply NoDup_cons in H as [Hx Hl] end);
    (constructor; [|by apply IH]; intros Hin; apply Hx; by apply list_elem_of_filter).
Qed.

Lemma writes_in_order_witness :
  (s_sent open_session).*1 = [0] ∧ NoDup (s_sent open_session).*1.
Proof.
  split; [vm_compute; reflexivity|].
  apply (@writes_in_order toy_size default_config open_session open_session_reachable).
Defined.

(** When a goroutine gives up on a write that is still queued, the write is
    never sent, whatever happens afterwards: [Send] gives its bytes back to the
    peer's window only for data that does not reach the peer. *)
Theorem canceled_never_sent `{ProtoSize} (cfg : Config) (s : Session) (l : list Action) (w : Z) (m : outboundWrite)
    (Hs : reachable cfg s) (Hl : Forall action_wf l)
    (Hw : s_writes s !! w = Some m) (Hm : w_state m = writeCanceled) :
  w ∉ (s_sent (run l s)).*1.
Proof.
  assert (Hc : canceled w s).
  { split; [eauto|]. apply (wi_fresh _ (reachable_writer cfg s Hs)). eauto. }
  clear Hw Hm m. revert s Hs Hc. induction l as [|a l IH]; intros s Hs Hc.
  - intros Hin. apply list_elem_of_fmap in Hin as ([w' e] & -> & Hin).
    destruct (wi_sent _ (reachable_writer cfg s Hs) _ _ Hin) as (m & Hm & Hd & _).
    destruct Hc as [(m' & Hm' & Hcn) _]. cbn in *. congruence.
  - apply Forall_cons in Hl as [Ha Hl]. cbn [run]. apply IH; [done|by apply reach_step|].
    apply exec_canceled; [by eapply reachable_writer|done].
Qed.

(** [Send] queues a data write and its caller's context ends first. *)
Definition canceled_session : Session :=
  @run toy_size [ASend 0 [x61; x62] WakeState; AThread 1 ChooseValue; AThread 1 (ChooseCtx context_Canceled)]
    open_session.

Lemma canceled_never_sent_witness :
  1 ∉ (s_sent (@run toy_size [AThread 1 ChooseValue; AWriterPoll; AWriterSelect false; AWriterPoll] canceled_session)).*1.
Proof.
  apply (@canceled_never_sent toy_size default_config canceled_session
    [AThread 1 ChooseValue; AWriterPoll; AWriterSelect false; AWriterPoll] 1
    (MkWrite (EChannelData (Some (7, [x61; x62]))) false true None AfterNone 1 writeCanceled)).
  - apply run_reachable; [apply open_session_reachable|]. repeat constructor.
  - repeat constructor.
  - vm_compute. reflexivity.
  - reflexivity.
Defined.
