(* ===== verification/SessionShutdown.v ===== *)
(** * Shutdown

    [Session.shutdown] runs once: the first cause is the one that [Wait] and the
    blocked calls report, the channels of the table are ended and their waiters
    answered, and after a protocol error a [Disconnect] is left on the control
    queue. *)

From S2P Require Import Prelude SessionConfig SessionTypes SessionOps SessionSteps SessionChannel SessionBudget SessionTable SessionWriter.

(** A property of the state that the shutdown loop does not touch. *)
Ltac keep_unit _ :=
  lazymatch goal with
  | |- preserves _ (st_modify _) => apply preserves_modify; intros; cbn in *; repeat case_match; cbn in *; assumption
  end.

(** The state of a session that was shut down with these causes. *)
Record down (waitErr : option error) (closeErr : error) (s : Session) : Prop := {
  dn_once : s_shutdownOnce s = true;
  dn_wait : s_waitErr s = waitErr;
  dn_close : s_closeErr s = Some closeErr;
  dn_closing : s_closing s = true;
  dn_queues : s_queuesClosed s = true;
  dn_ctx : is_Some (s_ctx s);
}.

Section down.
Context `{ProtoSize} (we : option error) (ce : error).

Definition same_down (s s' : Session) : Prop :=
  s_shutdownOnce s' = s_shutdownOnce s ∧ s_waitErr s' = s_waitErr s ∧ s_closeErr s' = s_closeErr s ∧
  s_closing s' = s_closing s ∧ s_queuesClosed s' = s_queuesClosed s ∧
  (is_Some (s_ctx s) → is_Some (s_ctx s')).

Lemma pres_down f : (∀ s, same_down s (f s)) → preserves (down we ce) (st_modify f).
Proof.
  intros Hf. apply preserves_modify. intros s []. destruct (Hf s) as (E1&E2&E3&E4&E5&E6).
  split; try congruence. auto.
Qed.

Lemma pres_shutdown_down e : preserves (down we ce) (shutdown e).
Proof.
  intros s Hd. unfold shutdown. apply wp_bind, wp_get. rewrite (dn_once _ _ _ Hd). by apply wp_ret.
Qed.

Ltac dn_unit _ :=
  lazymatch goal with
  | |- preserves _ (shutdown _) => apply pres_shutdown_down
  | |- preserves _ (chan_mod _ _) => apply pres_down; done
  | |- preserves _ (st_modify _) =>
      apply pres_down; intros; unfold same_down; cbn; repeat case_match; cbn; split_and!; eauto
  end.

Lemma pres_exec_down a : preserves (down we ce) (exec a).
Proof. destruct a; cbn [exec]; unfold ret_unit, on_channel; pres_with dn_unit. Qed.
End down.

(** The effect of ending a channel. *)
Definition ended (pending : gset Z) (c : Channel) : Prop :=
  (ch_state c = channelFailed ∨ ch_state c = channelClosed) ∧
  ch_pendingRequests c = ∅ ∧ ch_openWait c = false ∧ ch_frames c = [] ∧
  ch_queuedFrames c = 0 ∧ ch_queuedBytes c = 0 ∧ is_Some (ch_sessionErr c) ∧
  ∀ r, r ∈ pending → is_Some (ch_replies c !! r).

Section shutdown.
Context `{ProtoSize}.

Lemma replies_union (m : gmap Z (res Response)) (p : gset Z) e r :
  is_Some (m !! r) ∨ r ∈ p → is_Some ((m ∪ gset_to_gmap e p) !! r).
Proof.
  intros [Hm|Hp].
  - destruct Hm as [x Hx]. exists x. by apply lookup_union_Some_l.
  - destruct (m !! r) as [x|] eqn:E; [exists x; by apply lookup_union_Some_l|].
    exists e. rewrite lookup_union_r by done. by apply lookup_gset_to_gmap_Some.
Qed.

Lemma store_at (P : Channel → Prop) id i f s :
  (∃ c, s_store s !! id = Some c ∧ P c) → (∀ c, P c → P (f c)) →
  ∃ c, alter f i (s_store s) !! id = Some c ∧ P c.
Proof.
  intros (c & Hc & HP) Hf. rewrite lookup_alter. case_decide; [subst; rewrite Hc; cbn; eauto|eauto].
Qed.

Definition kept (P : Channel → Prop) (id : Z) (s : Session) : Prop := ∃ c, s_store s !! id = Some c ∧ P c.

Lemma pres_kept P id f : (∀ s, s_store (f s) = s_store s) → preserves (kept P id) (st_modify f).
Proof. intros Hf. apply preserves_modify. intros s (c & Hc & HP). exists c. by rewrite Hf. Qed.

Lemma pres_kept_mod P id i f : (∀ c, P c → P (f c)) → preserves (kept P id) (chan_mod i f).
Proof. intros Hf. apply preserves_modify. intros s Hk. by apply store_at. Qed.

Lemma pres_kept_cancel P id i e :
  (∀ c, P c → P (c <| ch_ctx := Some e |>)) → preserves (kept P id) (chan_cancel i e).
Proof. intros Hf. apply preserves_modify. intros s Hk. case_match; [done|]. by apply store_at. Qed.

(** What each locked section of [Channel.shutdown] keeps. *)
Definition shutdown_closed (P : Channel → Prop) : Prop :=
  ∀ c, P c →
    (∀ e, P (match ch_sessionErr c with None => c <| ch_sessionErr := Some e |> | Some _ => c end)) ∧
    (ch_state c ≠ channelClosed → P (c <| ch_state := channelFailed |>)) ∧
    P (c <| ch_queuedFrames := 0 |> <| ch_queuedBytes := 0 |> <| ch_frames := [] |>) ∧
    (∀ e, P (c <| ch_replies := ch_replies c ∪ gset_to_gmap (Err e) (ch_pendingRequests c) |> <| ch_pendingRequests := ∅ |>)) ∧
    (∀ e, P (signalLocked (if ch_openWait c then (send_open_result (Some e) c) <| ch_openWait := false |> else c))) ∧
    (∀ e, P (c <| ch_ctx := Some e |>)).

Lemma pres_kept_shutdown P id i e : shutdown_closed P → preserves (kept P id) (channel_shutdown i e).
Proof.
  intros HP. unfold channel_shutdown, discardQueuedLocked, failPendingRequestsLocked, releaseQueueBudget,
    releasePendingChannelRequest, chan_get.
  apply preserves_bind; [apply pres_kept_mod|].
  { intros c Hc. destruct (HP c Hc) as (H1 & _). specialize (H1 e). cbv zeta. case_bool_decide; [done|].
    by destruct (HP _ H1) as (_ & H2 & _); apply H2. }
  intros _. apply preserves_bind; [|intros _; apply preserves_bind; [|intros _; apply preserves_bind; [|intros _]]].
  - apply preserves_bind; [apply preserves_get_any; intros; apply preserves_ret|]. intros c0.
    apply preserves_bind; [apply pres_kept_mod; intros c Hc; by destruct (HP c Hc) as (_&_&?&_)|].
    intros _. by apply pres_kept.
  - apply preserves_bind; [apply preserves_get_any; intros; apply preserves_ret|]. intros c0.
    apply preserves_bind; [apply pres_kept_mod; intros c Hc; by destruct (HP c Hc) as (_&_&_&?&_)|].
    intros _. apply preserves_iter. intros. by apply pres_kept.
  - apply pres_kept_mod. intros c Hc. by destruct (HP c Hc) as (_&_&_&_&?&_).
  - apply pres_kept_cancel. intros c Hc. by destruct (HP c Hc) as (_&_&_&_&_&?).
Qed.

Lemma ended_closed pending : shutdown_closed (ended pending).
Proof.
  intros c (Hst & Hp & How & Hfr & Hqf & Hqb & Hse & Hr). unfold ended, send_open_result.
  split_and!; intros; cbn; rewrite ?How; cbn; repeat case_match; cbn; split_and?; eauto;
    try (by destruct Hst); try (intros r Hin; apply replies_union; left; auto).
Qed.

Lemma waits_closed (pending : gset Z) :
  shutdown_closed (λ c, ∀ r, r ∈ pending → r ∈ ch_pendingRequests c ∨ is_Some (ch_replies c !! r)).
Proof.
  intros c Hc. unfold send_open_result.
  split_and!; intros; cbn; repeat case_match; cbn; auto.
  right. apply replies_union. destruct (Hc r); auto.
Qed.

(** Ending a channel does it. *)
Lemma wp_channel_ended id e s pending :
  kept (λ c, ∀ r, r ∈ pending → r ∈ ch_pendingRequests c ∨ is_Some (ch_replies c !! r)) id s →
  wp (channel_shutdown id e) (λ r s', r = Ok tt ∧ kept (ended pending) id s') s.
Proof.
  intros (c & Hc & Hw). unfold channel_shutdown, discardQueuedLocked, failPendingRequestsLocked,
    releaseQueueBudget, chan_get.
  apply wp_bind, wp_modify, wp_bind, wp_bind, wp_bind, wp_get, wp_ret, wp_bind, wp_modify, wp_modify.
  apply wp_bind, wp_bind, wp_bind, wp_get, wp_ret, wp_bind, wp_modify.
  match goal with |- wp _ _ ?s1 => set (s2 := s1) end.
  set (c1 := match ch_sessionErr c with None => c <| ch_sessionErr := Some e |> | Some _ => c end).
  set (c2 := if bool_decide (ch_state c1 = channelClosed) then c1 else c1 <| ch_state := channelFailed |>).
  set (c3 := c2 <| ch_queuedFrames := 0 |> <| ch_queuedBytes := 0 |> <| ch_frames := [] |>).
  set (c4 := c3 <| ch_replies := ch_replies c3 ∪ gset_to_gmap (Err e) (ch_pendingRequests c3) |> <| ch_pendingRequests := ∅ |>).
  assert (Hc4 : s_store s2 !! id = Some c4).
  { unfold s2. cbn -[c4]. rewrite !lookup_alter_eq, Hc. done. }
  eapply (wp_mono _ (λ r s', r = Ok tt ∧ s_store s' = s_store s2)).
  { apply (wp_iter _ (λ s', s_store s' = s_store s2)); [|done]. intros x s' Hs'. by apply wp_modify. }
  intros r s3 [-> Hs3]. apply wp_bind, wp_modify. unfold chan_cancel. apply wp_modify. split; [done|].
  set (c5 := signalLocked (if ch_openWait c4 then (send_open_result (Some e) c4) <| ch_openWait := false |> else c4)).
  assert (He : ended pending c5).
  { assert (Hst : ch_state c2 = channelFailed ∨ ch_state c2 = channelClosed).
    { unfold c2. case_bool_decide; [by right|by left]. }
    assert (Hse : is_Some (ch_sessionErr c2)).
    { unfold c2, c1. destruct (ch_sessionErr c) eqn:E; cbn; case_bool_decide; cbn; rewrite ?E; done. }
    assert (Hrep : ∀ r, r ∈ pending → is_Some (ch_replies c4 !! r)).
    { intros r Hr. unfold c4. cbn. apply replies_union. unfold c3, c2, c1.
      destruct (Hw r Hr); [right|left]; destruct (ch_sessionErr c); cbn; case_bool_decide; done. }
    unfold c5, send_open_result. destruct (ch_openWait c4) eqn:Eo; [destruct (ch_openResult c4)|];
      split_and!; cbn -[c4]; try done. }
  assert (Hstore : s_store (s3 <| s_store ::= alter (λ c, signalLocked (if ch_openWait c then
      (send_open_result (Some e) c) <| ch_openWait := false |> else c)) id |>) !! id = Some c5).
  { cbn -[c5]. rewrite lookup_alter_eq, Hs3, Hc4. done. }
  case_match; [by exists c5|]. exists (c5 <| ch_ctx := Some e |>).
  split; [|apply (ended_closed pending c5 He)]. cbn -[c5] in *. by rewrite lookup_alter_eq, Hstore.
Qed.

Lemma wp_all_ended e l s pend (live : Z → Prop) :
  (∀ id, id ∈ l → live id →
     kept (λ c, ∀ r, r ∈ pend id → r ∈ ch_pendingRequests c ∨ is_Some (ch_replies c !! r)) id s) →
  wp (st_iter (λ id, channel_shutdown id e) l)
     (λ r s', r = Ok tt ∧ ∀ id, id ∈ l → live id → kept (ended (pend id)) id s') s.
Proof.
  revert s. induction l as [|x l IH]; intros s Hl; cbn [st_iter].
  - apply wp_ret. split; [done|]. set_solver.
  - apply wp_bind. eapply (wp_mono _ (λ r s', r = Ok tt ∧ (live x → kept (ended (pend x)) x s') ∧
      ∀ id, id ∈ l → live id → kept (λ c, ∀ r, r ∈ pend id → r ∈ ch_pendingRequests c ∨ is_Some (ch_replies c !! r)) id s')).
    { split_and!; [apply channel_shutdown_ok| |].
      - intros Hx. by apply (wp_channel_ended x e s (pend x) (Hl x ltac:(set_solver) Hx)).
      - intros id Hid Hlive. apply (pres_kept_shutdown _ id x e (waits_closed (pend id))). apply Hl; set_solver. }
    intros r s' (-> & Hx & Hl'). eapply (wp_mono _ (λ r s'', (r = Ok tt ∧ ∀ id, id ∈ l → live id → kept (ended (pend id)) id s'') ∧
      (live x → kept (ended (pend x)) x s''))).
    { split; [by apply IH|]. intros Hlx. apply (preserves_iter (kept (ended (pend x)) x)); [|auto].
      intros i. apply pres_kept_shutdown, ended_closed. }
    intros r s'' [[-> Hl''] Hx'']. split; [done|]. intros id [->|Hid]%elem_of_cons; auto.
Qed.

Lemma shutdown_spec err s :
  s_shutdownOnce s = false →
  let closeErr := match err with None => errSessionClosed | Some e => e end in
  let s' := (shutdown err s).1 in
  down err closeErr s' ∧ s_channels s' = ∅ ∧ s_activeChannels s' = 0 ∧ s_pendingOpens s' = 0 ∧
  (∀ id, id ∈ s_channels s → is_Some (s_store s !! id) → ∃ c', s_store s' !! id = Some c' ∧ ended (ch_pendingRequests (chan s id)) c') ∧
  (∀ r, r ∈ s_pendingGlobal s → is_Some (s_globalReplies s' !! r)).
Proof.
  intros Honce. cbv zeta.
  change (wp (shutdown err) (λ _ s', down err (match err with None => errSessionClosed | Some e => e end) s' ∧
    s_channels s' = ∅ ∧ s_activeChannels s' = 0 ∧ s_pendingOpens s' = 0 ∧
    (∀ id, id ∈ s_channels s → is_Some (s_store s !! id) → ∃ c', s_store s' !! id = Some c' ∧ ended (ch_pendingRequests (chan s id)) c') ∧
    (∀ r, r ∈ s_pendingGlobal s → is_Some (s_globalReplies s' !! r))) s).
  unfold shutdown. apply wp_bind, wp_get. rewrite Honce. cbv zeta. apply wp_bind, wp_modify.
  set (ce := match err with None => errSessionClosed | Some e => e end).
  set (Pre := λ s', s_shutdownOnce s' = true ∧ s_waitErr s' = err ∧ s_closeErr s' = Some ce ∧ s_closing s' = true ∧
    s_channels s' = ∅ ∧ s_activeChannels s' = 0 ∧ s_pendingOpens s' = 0).
  apply wp_bind. eapply (wp_mono _ (λ r s', r = Ok tt ∧ Pre s' ∧ s_store s' = s_store s)).
  { assert (Hp : preserves (λ s', Pre s' ∧ s_store s' = s_store s) (sendEnvelopeAsync disconnect_envelope true)).
    { unfold Pre. pres_with keep_unit. }
    destruct err as [[]|]; try (by apply wp_ret). apply wp_bind, wp_try.
    apply (preserves_wp _ _ _ _ Hp); [done|]. intros r s' ?. by apply wp_ret. }
  intros r s1 (-> & Hpre & Hst). apply wp_bind, wp_modify, wp_bind.
  set (s2 := match s_ctx s1 with Some _ => s1 | None => s1 <| s_ctx := Some ce |> end).
  assert (Hpre2 : Pre s2 ∧ s_store s2 = s_store s ∧ is_Some (s_ctx s2)).
  { unfold s2. destruct (s_ctx s1) eqn:E; rewrite ?E; done. }
  destruct Hpre2 as (Hpre2 & Hst2 & Hctx2).
  eapply (wp_mono _ (λ r s', (r = Ok tt ∧ ∀ id, id ∈ elements (s_channels s) → is_Some (s_store s !! id) → kept (ended (ch_pendingRequests (chan s id))) id s')
     ∧ Pre s' ∧ is_Some (s_ctx s'))).
  - split.
    + apply (wp_all_ended ce (elements (s_channels s)) s2 (λ id, ch_pendingRequests (chan s id))
        (λ id, is_Some (s_store s !! id))).
      intros id _ [c Hc]. exists c. rewrite Hst2. split; [done|].
      rewrite (chan_lookup _ _ _ Hc). by left.
    + apply (preserves_iter (λ s', Pre s' ∧ is_Some (s_ctx s'))); [|done]. intros id. unfold Pre. pres_with keep_unit.
  - intros r s3 ([-> He] & (?&?&?&?&?&?&?) & ?). apply wp_modify. split_and!; try done.
    + intros id Hid Hs. destruct (He id) as (c & Hc & Hec); [by apply elem_of_elements|done|]. eauto.
    + intros r Hr. cbn. apply replies_union. by right.
Qed.

(** Either the session runs, or it was shut down. *)
Definition up (s : Session) : Prop :=
  s_shutdownOnce s = false ∧ s_closing s = false ∧ s_queuesClosed s = false ∧ s_closeErr s = None.

Definition up_or_down (s : Session) : Prop := up s ∨ ∃ we ce, down we ce s.

Lemma pres_up_or_down f : (∀ s, same_down s (f s)) → preserves up_or_down (st_modify f).
Proof.
  intros Hf. apply preserves_modify. intros s [Hu|(we & ce & Hd)].
  - left. unfold up in *. destruct (Hf s) as (E1&_&E3&E4&E5&_). by rewrite E1, E3, E4, E5.
  - right. exists we, ce. by apply (pres_down we ce f Hf).
Qed.

Lemma pres_shutdown_ud e : preserves up_or_down (shutdown e).
Proof.
  intros s [Hu|(we & ce & Hd)]; [|right; exists we, ce; by apply pres_shutdown_down].
  right. eexists _, _. by apply shutdown_spec, Hu.
Qed.

Ltac ud_unit _ :=
  lazymatch goal with
  | |- preserves _ (shutdown _) => apply pres_shutdown_ud
  | |- preserves _ (chan_mod _ _) => apply pres_up_or_down; done
  | |- preserves _ (st_modify _) =>
      apply pres_up_or_down; intros; unfold same_down; cbn; repeat case_match; cbn; split_and!; eauto
  end.

Lemma pres_exec_ud a : preserves up_or_down (exec a).
Proof. destruct a; cbn [exec]; unfold ret_unit, on_channel; pres_with ud_unit. Qed.

Lemma reachable_up_or_down cfg s : reachable cfg s → up_or_down s.
Proof. apply reachable_ind_inv; [intros h; by left|intros a _; apply pres_exec_ud]. Qed.
End shutdown.

(** ** Theorems *)

(** The first cause of a shutdown wins: once a session is closing, no step
    of any goroutine changes the error that [Wait] returns or the one that
    blocked calls report, and its context stays canceled and its queues closed. *)
Theorem shutdown_first_cause `{ProtoSize} (cfg : Config) (s : Session) (l : list Action)
    (Hs : reachable cfg s) (Hc : s_closing s = true) :
  let s' := run l s in
  s_waitErr s' = s_waitErr s ∧ closeCause s' = closeCause s ∧ s_closing s' = true ∧
  s_queuesClosed s' = true ∧ is_Some (s_ctx s').
Proof.
  destruct (reachable_up_or_down cfg s Hs) as [(_ & Hn & _)|(we & ce & Hd)]; [congruence|]. cbv zeta.
  assert (Hd' : down we ce (run l s)).
  { clear Hs Hc. revert s Hd. induction l as [|a l IH]; intros s Hd; [done|]. cbn [run].
    apply IH. by apply pres_exec_down. }
  destruct Hd as [_ Hw Hce _ _ _], Hd' as [_ Hw' Hce' Hcl' Hq' Hx'].
  unfold closeCause. rewrite Hw, Hw', Hce, Hce'. done.
Qed.

Definition closed_session : Session := (@exec toy_size AClose open_session).1.

Lemma shutdown_first_cause_witness :
  s_waitErr (@run toy_size [AReceiveError io_ErrUnexpectedEOF] closed_session) = Some context_Canceled.
Proof.
  pose proof (@shutdown_first_cause toy_size default_config closed_session [AReceiveError io_ErrUnexpectedEOF]
    ltac:(apply reach_step; [apply open_session_reachable|exact Logic.I]) ltac:(vm_compute; reflexivity)) as [Hw _].
  cbv zeta in Hw. rewrite Hw. vm_compute. reflexivity.
Defined.



(** ** Protocol errors *)

Lemma post_write_room `{ProtoSizeLaws} cfg D frame control wantResult after s :
  config_ok cfg → budget cfg D s → s_queuesClosed s = false →
  s_queuedFrames s + 1 <= MaxQueuedFramesTotal (limits cfg) →
  s_queuedBytes s + size_envelope frame <= MaxQueuedBytesTotal (limits cfg) →
  wp (post_write frame control wantResult after) (λ r s', ∃ w, r = Ok w ∧
    (if control then s_controlQueue s' = s_controlQueue s ++ [w] else s_outboundQueue s' = s_outboundQueue s ++ [w]) ∧
    s_writes s' !! w = Some (MkWrite frame control wantResult None after (size_envelope frame) writeQueued)) s.
Proof.
  intros Hcfg HB Hq Hf Hb. unfold post_write, new_write.
  apply wp_bind, wp_bind, wp_get, wp_bind, wp_modify, wp_ret, wp_bind, wp_try.
  pose proof (size_envelope_nonneg frame). pose proof (budget_nonneg cfg D s HB).
  pose proof (totals cfg Hcfg) as (T1&T2&_). pose proof (chan_sums cfg D s HB).
  pose proof (b_frames _ _ _ HB) as Hfr. unfold queued_items in Hfr.
  pose proof (blen_nonneg (s_dispatchQueue s)). pose proof (blen_nonneg (s_controlQueue s)).
  pose proof (blen_nonneg (s_outboundQueue s)).
  unfold enqueueWrite, reserveQueueBudget. apply wp_bind, wp_bind, wp_get. cbn [s_config setter set_s_writes set_s_nextWrite s_queuedFrames s_queuedBytes].
  rewrite (b_config _ _ _ HB).
  rewrite (u32_id (_ - s_queuedFrames s)), (u64_id (_ - s_queuedBytes s))
    by (unfold is_u32, is_u64, MaxUint32, MaxUint64; lia).
  destruct (Z.ltb_spec (MaxQueuedFramesTotal (limits cfg) - s_queuedFrames s) 1); [lia|].
  destruct (Z.ltb_spec (MaxQueuedBytesTotal (limits cfg) - s_queuedBytes s) (size_envelope frame)); [lia|].
  apply wp_modify, wp_bind, wp_get. cbn [s_config setter set_s_writes set_s_nextWrite set_s_queuedFrames set_s_queuedBytes
    s_queuesClosed s_controlQueue s_outboundQueue]. rewrite Hq, (b_config _ _ _ HB).
  assert (Hlt : (blen (if control then s_controlQueue s else s_outboundQueue s) <? MaxQueuedFramesTotal (limits cfg)) = true).
  { apply Z.ltb_lt. destruct control; lia. }
  rewrite Hlt. apply wp_modify, wp_ret. exists (s_nextWrite s). split; [done|].
  destruct control; cbn; split; try done; by rewrite lookup_insert_eq.
Qed.

(** A protocol error is announced: when the queue budget has room for one
    more write, shutting down with a [protocolError] leaves a [Disconnect] with
    code "protocol-error" at the end of the control queue, which the writer
    empties before it stops. *)
Theorem protocol_error_disconnects `{ProtoSizeLaws} (cfg : Config) (s : Session) (msg : string)
    (Hcfg : config_ok cfg) (Hs : reachable cfg s) (Hc : s_closing s = false)
    (Hf : s_queuedFrames s + 1 <= MaxQueuedFramesTotal (limits cfg))
    (Hb : s_queuedBytes s + size_envelope disconnect_envelope <= MaxQueuedBytesTotal (limits cfg)) :
  let s' := (shutdown (Some (ProtocolError msg)) s).1 in
  ∃ w m, s_controlQueue s' = s_controlQueue s ++ [w] ∧ s_writes s' !! w = Some m ∧
    w_envelope m = EDisconnect (Some ("protocol-error", "protocol error")%string) ∧
    w_state m = writeQueued.
Proof.
  cbv zeta. destruct (reachable_up_or_down cfg s Hs) as [Hu|(we & ce & [])]; [|congruence].
  destruct Hu as (Honce & _ & Hq & _).
  pose proof (reachable_budget cfg s Hcfg Hs) as HB.
  change (wp (shutdown (Some (ProtocolError msg))) (λ _ s', ∃ w m, s_controlQueue s' = s_controlQueue s ++ [w] ∧
    s_writes s' !! w = Some m ∧ w_envelope m = EDisconnect (Some ("protocol-error", "protocol error")%string) ∧
    w_state m = writeQueued) s).
  unfold shutdown. apply wp_bind, wp_get. rewrite Honce. cbv zeta. apply wp_bind, wp_modify.
  match goal with |- wp _ _ ?s1 => assert (HB1 : budget cfg (λ _, False) s1) end.
  { eapply budget_same; [|exact HB]. unfold same_budget. cbn. split_and!; try done; set_solver. }
  apply wp_bind, wp_bind, wp_try. unfold sendEnvelopeAsync, sendEnvelopeAsyncAfter. apply wp_bind.
  eapply wp_mono; [by apply (post_write_room cfg (λ _, False) disconnect_envelope true false AfterNone)|].
  intros r s1 (w & -> & Hctl & Hw). cbn in Hctl. apply wp_ret, wp_ret.
  set (K := λ s', s_controlQueue s' = s_controlQueue s ++ [w] ∧ s_writes s' !! w =
    Some (MkWrite disconnect_envelope true false None AfterNone (size_envelope disconnect_envelope) writeQueued)).
  apply (preserves_wp K); [unfold K; pres_with keep_unit|done|].
  intros r s2 [H1 H2]. eexists w, _. split; [exact H1|]. split; [exact H2|done].
Qed.

Lemma protocol_error_disconnects_witness :
  ∃ w m, s_controlQueue (@shutdown toy_size (Some (ProtocolError "x")) open_session).1 = [w] ∧
    w_envelope m = EDisconnect (Some ("protocol-error", "protocol error")%string).
Proof.
  destruct (@protocol_error_disconnects toy_size toy_size_laws default_config open_session "x"
    default_config_ok open_session_reachable ltac:(vm_compute; reflexivity)
    ltac:(vm_compute; discriminate) ltac:(vm_compute; discriminate)) as (w & m & Hq & _ & Hm & _).
  exists w, m. split; [|exact Hm]. cbv zeta in Hq. rewrite Hq. vm_compute. reflexivity.
Defined.

(** Data that crosses our [Channel.Close] in flight is fatal to the whole
    session: while a channel is closing, any non-empty [ChannelData] the peer
    sent before it saw the close is a protocol error that shuts the session
    down. *)
Theorem data_while_closing_is_fatal `{ProtoSize} (cfg : Config) (s : Session) (id : Z) (frame : bytes)
    (Hs : reachable cfg s) (Hr : s_receiver s = RcvRunning) (Hc : s_closing s = false)
    (Hid : id ∈ s_channels s) (Hst : ch_state (chan s id) = channelClosing) (Hf : frame ≠ []) :
  let s' := (exec (AReceive (EChannelData (Some (id, frame)))) s).1 in
  s_closing s' = true ∧
  s_waitErr s' = Some (ProtocolError "received channel data in the wrong state") ∧
  s_channels s' = ∅ ∧ s_receiver s' = RcvExited.
Proof.
  cbv zeta. destruct (reachable_up_or_down cfg s Hs) as [Hu|(we & ce & [])]; [|congruence].
  set (e := ProtocolError "received channel data in the wrong state").
  assert (Hroute : wp (routeEnvelope (EChannelData (Some (id, frame)))) (λ r s', r = Err e ∧ s' = s) s).
  { cbn [routeEnvelope]. unfold handleChannelData, lookupChannel, chan_get.
    apply wp_bind, wp_bind, wp_get, wp_ret. rewrite bool_decide_eq_true_2 by done.
    destruct (Z.eqb_spec (blen frame) 0) as [Hz|_]; [by destruct frame|].
    apply wp_bind, wp_bind, wp_get, wp_ret. rewrite Hst. by apply wp_fail. }
  change (wp (exec (AReceive (EChannelData (Some (id, frame))))) (λ _ s', s_closing s' = true ∧
    s_waitErr s' = Some e ∧ s_channels s' = ∅ ∧ s_receiver s' = RcvExited) s).
  cbn [exec]. unfold ret_unit, receiverLoop_frame, shutdown_on_error. apply wp_bind, wp_bind, wp_get.
  rewrite Hr. apply wp_bind, wp_bind, wp_try. eapply wp_mono; [exact Hroute|]. intros r0 s0 [-> ->].
  apply wp_bind. eapply (wp_mono _ (λ r s', r = Ok tt ∧ down (Some e) e s' ∧ s_channels s' = ∅)).
  { destruct (shutdown_spec (Some e) s (proj1 Hu)) as (Hd & Hch & _).
    split_and!; [apply shutdown_ok|exact Hd|exact Hch]. }
  intros r s1 (-> & Hd & Hch). apply wp_ret. unfold receiver_exit, wg_Done. apply wp_bind, wp_modify, wp_modify.
  apply wp_ret. cbn. split_and!; [apply (dn_closing _ _ _ Hd)|apply (dn_wait _ _ _ Hd)|done|done].
Qed.

Lemma data_while_closing_is_fatal_witness :
  s_waitErr (@exec toy_size (AReceive (EChannelData (Some (0, [x61])))) closing_session).1
  = Some (ProtocolError "received channel data in the wrong state").
Proof.
  apply (@data_while_closing_is_fatal toy_size default_config closing_session 0 [x61]).
  - apply reach_step; [apply open_session_reachable|exact Logic.I].
  - vm_compute. reflexivity.
  - vm_compute. reflexivity.
  - apply (bool_decide_unpack _). vm_compute. exact Logic.I.
  - vm_compute. reflexivity.
  - discriminate.
Defined.
