(* ===== verification/SessionStream.v ===== *)
(** * What a session receives, reads and sends

    Facts about single steps of a session ([SessionSteps]) that the composition of two
    sessions ([Network]) needs: what a step does to the data queued on a channel,
    that every envelope a session sends is well formed, and which call of [Send]
    every sent data frame belongs to. *)

From S2P Require Import Prelude SessionConfig SessionTypes SessionOps SessionSteps SessionChannel SessionTable SessionWriter.

(** ** The data queued on a channel *)

(** The queue is as it was, or was discarded at the end of the channel. *)
Definition frames_kept (c c' : Channel) : Prop :=
  ch_frames c' = ch_frames c ∨ ch_frames c' = [] ∧ is_terminal (ch_state c') = true.

Lemma edit_frames cfg P id c c' : edit cfg P id c c' → (∀ data, ¬ pm_data P id data) → ¬ pm_read P id →
  frames_kept c c' ∧ (is_terminal (ch_state c) = true → is_terminal (ch_state c') = true).
Proof.
  intros He Hd Hr. unfold frames_kept. destruct He as [c' Ht| | |? ? ? ? Hs| |? Hp| | |? ? Hp| | | | | | ]; try done; auto.
  - unfold tracked in Ht. simplify_eq. replace (ch_state c') with (ch_state c) by congruence. split; [left; congruence|done].
  - rewrite Hs. split; [by left|done].
  - by apply Hd in Hp.
Qed.

Lemma edits_frames cfg P id c c' : rtc (edit cfg P id) c c' → (∀ data, ¬ pm_data P id data) → ¬ pm_read P id →
  frames_kept c c' ∧ (is_terminal (ch_state c) = true → is_terminal (ch_state c') = true).
Proof.
  intros He Hd Hr. induction He as [c|c c1 c' He _ [IH1 IH2]]; [by split; [left|]|].
  destruct (edit_frames _ _ _ _ _ He Hd Hr) as [H1 H2]. split; [|auto]. unfold frames_kept in *.
  destruct IH1 as [E|[E Ht]]; [|by right]. destruct H1 as [E1|[E1 Ht1]]; [left; congruence|right]. split; [congruence|auto].
Qed.

(** A step in which no data arrives and nothing is read on the channel. *)
Lemma evolves_frames cfg P s s' id c : evolves cfg P s s' → s_store s !! id = Some c →
  (∀ data, ¬ pm_data P id data) → ¬ pm_read P id →
  ∃ c', s_store s' !! id = Some c' ∧ frames_kept c c' ∧ (is_terminal (ch_state c) = true → is_terminal (ch_state c') = true).
Proof.
  intros He Hc Hd Hr. destruct (ev_edits _ _ _ _ He id c Hc) as (c' & Hc' & Hed). exists c'. split; [done|]. by eapply edits_frames.
Qed.

Section steps.
Context `{ProtoSizeLaws} (cfg : Config) (Hcfg : config_ok cfg).

(** Channels that a step creates have received nothing. *)
Lemma step_new s a id c : reachable cfg s → action_wf a → s_store s !! id = None → s_store (exec a s).1 !! id = Some c →
  ch_frames c = [].
Proof.
  intros Hs Ha Hn Hc. destruct (ev_new _ _ _ _ (step_evolves cfg Hcfg s a Hs Ha) id c Hn Hc) as (c0 & Hp & He).
  assert (H1 : ch_frames c0 = [] ∧ (∀ data, ¬ pm_data (permits_of cfg a) id data) ∧ ¬ pm_read (permits_of cfg a) id).
  { destruct Hp as [(typ & payload & h & -> & ->)|(m & -> & ->)]; (split_and!; [done|intros data Hd; discriminate Hd|by intros [? Hd]]). }
  destruct H1 as (E & Hd & Hr). destruct (edits_frames _ _ _ _ _ He Hd Hr) as [[->|[-> _]] _]; done.
Qed.

(** What happens to the queue of a channel in a step that neither brings it data nor
    reads from it. *)
Lemma step_frames s a id c : reachable cfg s → action_wf a → s_store s !! id = Some c →
  (∀ data, a ≠ AReceive (EChannelData (Some (id, data)))) → (∀ wake, a ≠ ARecv id wake) →
  ∃ c', s_store (exec a s).1 !! id = Some c' ∧ frames_kept c c' ∧ (is_terminal (ch_state c) = true → is_terminal (ch_state c') = true).
Proof.
  intros Hs Ha Hc Hd Hr. eapply evolves_frames; [by apply step_evolves|done|exact Hd|]. intros [wake Hw]. by eapply Hr.
Qed.

(** The receiver runs on exactly when the message was handled. *)
Lemma receive_exec s e : s_receiver s = RcvRunning →
  exec (AReceive e) s = match routeEnvelope e s with
    | (s', Ok _) => (s', Ok (Returned (RetUnit (Ok tt))))
    | (s', Err err) => let '(s2, _) := shutdown (Some err) s' in
                       (s2 <| s_receiver := RcvExited |> <| s_wg ::= Z.pred |>, Ok (Returned (RetUnit (Ok tt))))
    end.
Proof.
  intros Hr. cbn [exec]. unfold ret_unit, receiverLoop_frame, shutdown_on_error, st_try, receiver_exit, wg_Done, mbind, ST_bind, st_get, mret, ST_ret, st_modify.
  rewrite Hr. destruct (routeEnvelope e s) as [s1 [[]|err]]; [done|]. pose proof (shutdown_ok (Some err) s1) as Ho.
  destruct (shutdown (Some err) s1) as [s2 r]. cbn in Ho. by subst r.
Qed.

(** Data is queued, or nothing is changed. *)
Lemma wp_data s id data : reachable cfg s → blen data <= MaxUint32 →
  wp (handleChannelData (Some (id, data))) (λ r s', match r with
    | Ok _ => ∃ c c', s_store s !! id = Some c ∧ s_store s' !! id = Some c' ∧ canReceiveData (ch_state c) = true ∧
        ch_state c' = ch_state c ∧ ch_frames c' = ch_frames c ++ [data] ∧ s_receiver s' = s_receiver s
    | Err _ => s' = s
    end) s.
Proof.
  intros Hs Hm. pose proof (blen_nonneg data). unfold handleChannelData, lookupChannel, chan_get, protocolErrorf.
  apply wp_bind, wp_bind, wp_get, wp_ret. case_bool_decide; [|by apply wp_fail]. destruct (_ =? _); [by apply wp_fail|]. cbv zeta.
  apply wp_bind, wp_bind, wp_get, wp_ret. destruct (canReceiveData _) eqn:Hst; simpl negb; cbv iota; [|by apply wp_fail].
  destruct (_ <? _); [by apply wp_fail|]. destruct (_ <? _); [by apply wp_fail|]. apply wp_bind.
  destruct (s_store s !! id) as [c|] eqn:Hc; [|by unfold chan in Hst; rewrite Hc in Hst]. rewrite (chan_lookup _ _ _ Hc) in Hst.
  unfold reserveQueuedLocked, reserveQueueBudget, chan_mod. apply wp_bind, wp_get. cbv zeta.
  destruct (_ <? _); [by apply wp_fail|]. destruct (_ <? _); [by apply wp_fail|]. apply wp_bind, wp_bind, wp_get.
  destruct (_ <? _); [by apply wp_fail|]. destruct (_ <? _); [by apply wp_fail|]. apply wp_modify, wp_modify, wp_modify.
  eexists c, _. split; [done|]. split; [simpl; by rewrite !lookup_alter_eq, Hc|]. done.
Qed.

(** What the arrival of data does to its channel. *)
Lemma receive_data s id data : reachable cfg s → s_receiver s = RcvRunning → blen data <= MaxUint32 →
  let s' := (exec (AReceive (EChannelData (Some (id, data)))) s).1 in
  (s_receiver s' = RcvRunning ∧ ∃ c c', s_store s !! id = Some c ∧ s_store s' !! id = Some c' ∧
     canReceiveData (ch_state c) = true ∧ ch_state c' = ch_state c ∧ ch_frames c' = ch_frames c ++ [data]) ∨
  (s_receiver s' = RcvExited ∧ ∀ c, s_store s !! id = Some c →
     ∃ c', s_store s' !! id = Some c' ∧ frames_kept c c' ∧ (is_terminal (ch_state c) = true → is_terminal (ch_state c') = true)).
Proof.
  intros Hs Hr Hm. cbv zeta. rewrite (receive_exec s _ Hr). cbn [routeEnvelope].
  pose proof (wp_data s id data Hs Hm) as Hd. unfold wp in Hd. destruct (handleChannelData _ s) as [s1 [[]|err]]; simpl in Hd.
  - left. destruct Hd as (c & c' & H1 & H2 & H3 & H4 & H5 & H6). cbn. split; [congruence|]. by exists c, c'.
  - right. subst s1. pose proof (pres_shutdown cfg Hcfg (permits_of cfg AActivate) s (Some err) s (reachable_evolves cfg Hcfg _ s Hs)) as He.
    unfold wp in He. destruct (shutdown (Some err) s) as [s2 r]. cbn. split; [done|]. intros c Hc.
    apply (evolves_frames cfg (permits_of cfg AActivate) s s2 id c He Hc); [intros d Hd; discriminate Hd|]. intros [? Hd]. discriminate Hd.
Qed.

(** The frame that a call of [Recv] took from the queue; it is returned when the window
    adjustment was sent. *)
Definition frame_read (r : Session * res CallResult) : option bytes :=
  match r with
  | (_, Ok (Returned (RetFrame (Ok frame)))) => Some frame
  | (s', Ok (Pending t)) => match s_threads s' !! t with Some (TSend _ _ _ (KRecv frame)) => Some frame | _ => None end
  | _ => None
  end.

Lemma recv_frames s id wake c : s_store s !! id = Some c →
  let r := exec (ARecv id wake) s in
  ∃ c', s_store r.1 !! id = Some c' ∧ ch_state c' = ch_state c ∧
    match ch_frames c with
    | frame :: rest => frame_read r = Some frame ∧ ch_frames c' = rest
    | [] => frame_read r = None ∧ ch_frames c' = []
    end.
Proof.
  intros Hc. cbv zeta. enough (wp (exec (ARecv id wake)) (λ r s', ∃ c', s_store s' !! id = Some c' ∧ ch_state c' = ch_state c ∧
    match ch_frames c with
    | frame :: rest => frame_read (s', r) = Some frame ∧ ch_frames c' = rest
    | [] => frame_read (s', r) = None ∧ ch_frames c' = []
    end) s) as Hw by (unfold wp in Hw; by destruct (exec (ARecv id wake) s)).
  cbn [exec]. unfold on_channel. apply wp_bind, wp_get. rewrite Hc. unfold channel_Recv. apply wp_bind, wp_get. cbv zeta.
  rewrite (chan_lookup _ _ _ Hc). destruct (ch_frames c) as [|frame rest] eqn:Ef.
  - destruct (readEOF (ch_state c)).
    + apply wp_bind. case_bool_decide; [apply wp_modify|apply wp_ret]; apply wp_fail; cbn; [|by exists c].
      rewrite (chan_lookup _ _ _ Hc). destruct (ch_cause s c); [by exists c|]. simpl. rewrite lookup_alter_eq, Hc. by eexists.
    + repeat case_match; first [apply wp_fail|apply wp_ret]; by exists c.
  - apply wp_bind, wp_modify. unfold releaseQueuedLocked, chan_get. apply wp_bind, wp_bind, wp_bind, wp_get, wp_ret. cbv zeta.
    apply wp_bind, wp_modify, wp_modify, wp_bind, wp_modify. destruct (0 <? _).
    + unfold spawn. apply wp_bind, wp_bind, wp_get, wp_bind, wp_modify, wp_ret, wp_ret. cbn. rewrite !lookup_alter_eq, Hc, lookup_insert_eq. by eexists.
    + apply wp_ret. cbn. rewrite !lookup_alter_eq, Hc. by eexists.
Qed.
End steps.

(** ** What a session sends *)

(** The envelopes that carry neither data nor windows. *)
Definition plain (e : Envelope) : bool :=
  match e with
  | EChannelOpen _ | EChannelOpenResult (Some (_, OpenSuccess _ _ _ _)) | EChannelData _ | EChannelWindowAdjust _ => false
  | _ => true
  end.

(** From [s0] to [s] only envelopes of [K] were added, and what is over stays over. *)
Record emitted (K : Envelope → Prop) (s0 s : Session) : Prop := {
  em_write w m : s_writes s !! w = Some m →
    (∃ m0, s_writes s0 !! w = Some m0 ∧ w_envelope m0 = w_envelope m ∧ w_control m0 = w_control m) ∨
    s_nextWrite s0 <= w ∧ K (w_envelope m);
  em_send t ctx e after k : s_threads s !! t = Some (TSend ctx e after k) →
    s_threads s0 !! t = Some (TSend ctx e after k) ∨ s_nextThread s0 <= t ∧ K e;
  em_done t o : s_threads s0 !! t = Some (TDone o) → s_threads s !! t = Some (TDone o);
  em_sent : s_sent s0 `prefix_of` s_sent s;
  em_nextWrite : s_nextWrite s0 <= s_nextWrite s;
  em_nextThread : s_nextThread s0 <= s_nextThread s;
  em_fresh t : is_Some (s_threads s !! t) → t < s_nextThread s;
}.

Section emitted.
Context `{ProtoSize} (K : Envelope → Prop) (HK : ∀ e, plain e = true → K e) (s0 : Session)
  (Hf0 : ∀ t, is_Some (s_threads s0 !! t) → t < s_nextThread s0).

Let I := emitted K s0.

Lemma em_same s s' : s_writes s' = s_writes s → s_threads s' = s_threads s → s_sent s' = s_sent s →
  s_nextWrite s' = s_nextWrite s → s_nextThread s' = s_nextThread s → I s → I s'.
Proof. intros E1 E2 E3 E4 E5 []. split; rewrite ?E1, ?E2, ?E3, ?E4, ?E5; done. Qed.

Lemma pres_em_same f :
  (∀ s, s_writes (f s) = s_writes s ∧ s_threads (f s) = s_threads s ∧ s_sent (f s) = s_sent s ∧
        s_nextWrite (f s) = s_nextWrite s ∧ s_nextThread (f s) = s_nextThread s) → preserves I (st_modify f).
Proof. intros Hf. apply preserves_modify. intros s. destruct (Hf s) as (?&?&?&?&?). by apply em_same. Qed.

Lemma pres_em_chan id f : preserves I (chan_mod id f).
Proof. by apply pres_em_same. Qed.

Lemma pres_em_write_mod w f : (∀ m, w_envelope (f m) = w_envelope m ∧ w_control (f m) = w_control m) → preserves I (write_mod w f).
Proof.
  intros Hf. apply preserves_modify. intros s [Hw ? ? ? ? ?]. split; try done. cbn. intros i m. rewrite lookup_alter.
  case_decide; [subst|by apply Hw]. destruct (s_writes s !! i) as [m0|] eqn:E; [|done]. cbn. intros [= <-].
  destruct (Hf m0) as [-> ->]. by apply Hw.
Qed.

Lemma pres_em_new_write frame control wantResult after : K frame → preserves I (new_write frame control wantResult after).
Proof.
  intros Hk. unfold new_write. apply preserves_get_any. intros s1. apply preserves_bind; [|intros; apply preserves_ret].
  apply preserves_modify. intros s [Hw ? ? ? Hn ?]. split; cbn; try done; [|lia]. intros w m. rewrite lookup_insert.
  case_decide; [subst; intros [= <-]; right; done|apply Hw].
Qed.

Lemma pres_em_drop w : preserves I (drop_write w).
Proof. apply preserves_modify. intros s [Hw ? ? ? ? ?]. split; try done. cbn. intros i m [_ Hm]%lookup_delete_Some. by apply Hw. Qed.

Lemma pres_em_post frame control wantResult after : K frame → preserves I (post_write frame control wantResult after).
Proof.
  intros Hk. unfold post_write, enqueueWrite, reserveQueueBudget, releaseQueueBudget.
  apply preserves_bind; [by apply pres_em_new_write|]. intros w.
  pres_with ltac:(fun _ => lazymatch goal with
    | |- preserves _ (drop_write _) => apply pres_em_drop
    | |- preserves _ (st_modify _) => apply pres_em_same; intros; cbn; repeat case_match; done
    end).
Qed.

Lemma pres_em_spawn ctx e after k : K e → preserves I (spawn (TSend ctx e after k)).
Proof.
  intros Hk. unfold spawn. apply preserves_get_any. intros s1. apply preserves_bind; [|intros; apply preserves_ret].
  apply preserves_modify. intros s [? Hs Hd ? ? Hn Hf]. split; cbn; try done; [| | |].
  - intros t ctx' e' after' k'. rewrite lookup_insert. case_decide; [subst; intros [= <- <- <- <-]; right; done|apply Hs].
  - intros t o Ho. rewrite lookup_insert_ne; [by apply Hd|]. intros <-. specialize (Hf (s_nextThread s)).
    rewrite (Hd _ _ Ho) in Hf. assert (s_nextThread s < s_nextThread s) by (apply Hf; by eexists). lia.
  - lia.
  - intros t. rewrite lookup_insert. case_decide; [lia|]. intros Hx. specialize (Hf t Hx). lia.
Qed.

(** A thread that is under way in [s0]. *)
Definition under_way (t : Z) : Prop := is_Some (s_threads s0 !! t) ∧ ∀ o, s_threads s0 !! t ≠ Some (TDone o).

Lemma pres_em_thread_set t th : (∀ ctx e after k, th ≠ TSend ctx e after k) → under_way t → preserves I (thread_set t th).
Proof.
  intros Hth [Hex Hd0]. apply preserves_modify. intros s [? Hs Hd ? ? ? Hf]. split; cbn; try done.
  - intros t' ctx e after k. rewrite lookup_insert. case_decide; [subst; intros [= ->]; by destruct (Hth ctx e after k)|apply Hs].
  - intros t' o Ho. rewrite lookup_insert_ne; [by apply Hd|]. intros <-. by apply Hd0 in Ho.
  - intros t'. rewrite lookup_insert. case_decide; [subst|by apply Hf]. intros _. apply Hf0 in Hex. lia.
Qed.

Create HintDb emits.

Ltac em_unit _ :=
  lazymatch goal with
  | |- preserves _ (chan_mod _ _) => apply pres_em_chan
  | |- preserves _ (write_mod _ _) => apply pres_em_write_mod; intros; unfold deliver_result; repeat case_match; done
  | |- preserves _ (post_write _ _ _ _) => apply pres_em_post; by auto
  | |- preserves _ (spawn _) => apply pres_em_spawn; by auto
  | |- preserves _ (thread_set _ _) => apply pres_em_thread_set; [intros; repeat case_match; discriminate|assumption]
  | |- preserves _ (st_modify _) => apply pres_em_same; intros; cbn; repeat case_match; cbn; split_and!; reflexivity
  | |- preserves _ _ => first [assumption | solve [auto 2 with emits]]
  end.

Ltac em := pres_with em_unit.

Lemma pres_em_channel_shutdown id e : preserves I (channel_shutdown id e).
Proof. em. Qed.
#[local] Hint Resolve pres_em_channel_shutdown : emits.

Lemma pres_em_shutdown e : preserves I (shutdown e).
Proof. em. Qed.
#[local] Hint Resolve pres_em_shutdown : emits.

Lemma pres_em_run_after a e : preserves I (run_after a e).
Proof. em. Qed.
#[local] Hint Resolve pres_em_run_after : emits.

Lemma pres_em_route e : preserves I (routeEnvelope e).
Proof. em. Qed.
#[local] Hint Resolve pres_em_route : emits.

Lemma pres_em_run_cont t err k : under_way t → preserves I (run_cont t err k).
Proof. intros Hu. em. Qed.

Lemma pres_em_abandon id e : preserves I (abandonOpen id e).
Proof. em. Qed.
#[local] Hint Resolve pres_em_abandon : emits.

Lemma em_refl : I s0.
Proof. split; try done; eauto. Qed.

Lemma pres_em_sent x : preserves I (st_modify (λ s, s <| s_sent ::= (λ l, l ++ [x]) |>)).
Proof. apply preserves_modify. intros s [? ? ? [l E] ? ?]. split; cbn; try done. exists (l ++ [x]). rewrite E. by rewrite <- app_assoc. Qed.

Lemma em_thread t choice : (∀ ctx e after k, s_threads s0 !! t = Some (TSend ctx e after k) → K e) → wp (thread_step t choice) (λ _ s', I s') s0.
Proof.
  intros Hk. unfold thread_step. apply wp_bind, wp_get. destruct (s_threads s0 !! t) as [th|] eqn:Et; [|apply wp_ret, em_refl].
  assert (Hu : (∀ o, th ≠ TDone o) → under_way t) by (intros Hd; split; rewrite Et; [by eexists|intros o [= E]; by destruct (Hd o)]).
  destruct th as [ctx e after k| | | | | |]; try (assert (under_way t) by (by apply Hu); apply (preserves_wp I); [|apply em_refl|by intros]).
  - assert (K e) by eauto. unfold sendEnvelopeAfter_enqueue. em.
  - em.
  - by apply pres_em_run_cont.
  - em.
  - em.
  - em.
  - apply wp_ret, em_refl.
Qed.

(** The envelopes that a step can add, besides the plain ones. *)
Definition emits (s : Session) (a : Action) (e : Envelope) : Prop :=
  match a with
  | ASend id frame _ => ∃ c, s_store s !! id = Some c ∧ canSendData (ch_state c) = true ∧ 0 < blen frame <= ch_maxRemotePacket c ∧
      blen frame <= MaxUint32 ∧ e = EChannelData (Some (ch_peerID c, frame))
  | ARecv id _ => ∃ c n, s_store s !! id = Some c ∧ is_u32 n ∧ e = EChannelWindowAdjust (Some (ch_peerID c, n))
  | AOpenChannel typ payload _ => s_nextLocalChannelID s ≠ MaxUint64 ∧
      e = EChannelOpen (Some (MkChannelOpen typ (s_nextLocalChannelID s) (InitialWindow (s_config s)) (MaxPacketSize (s_config s)) payload))
  | ADecision _ => ∃ msg id payload, s_dispatcher s = DspChannelOpen msg id ∧
      e = EChannelOpenResult (Some (co_SenderChannelId msg, OpenSuccess id (InitialWindow (s_config s)) (MaxPacketSize (s_config s)) payload))
  | AThread t _ => ∃ ctx after k, s_threads s !! t = Some (TSend ctx e after k)
  | _ => False
  end.

Lemma em_exec a : (∀ e, emits s0 a e → K e) → wp (exec a) (λ _ s', I s') s0.
Proof.
  intros Hk.
  assert (Hgen : preserves I (exec a) → wp (exec a) (λ _ s', I s') s0) by (intros Hp; apply (preserves_wp I); [done|apply em_refl|by intros]).
  destruct a; try (apply Hgen; cbn [exec]; unfold ret_unit; by em).
  - cbn [exec]. unfold OpenChannelWithHandler, ensureActive, reserveLocalChannelID, new_channel. apply wp_bind, wp_get, wp_bind, wp_lift.
    destruct (validateTypeAndPayload _ _ _); [|apply em_refl]. apply wp_bind, wp_bind, wp_get.
    assert (Hr := em_refl). repeat (case_match; [by apply wp_fail|]). apply wp_ret.
    apply wp_bind, wp_bind, wp_get. destruct (Z.eqb_spec (s_nextLocalChannelID s0) MaxUint64); [by apply wp_fail|].
    apply wp_bind, wp_modify, wp_ret, wp_bind, wp_modify.
    match goal with |- wp ?m _ ?s => apply (preserves_wp I m (λ _ s', I s') s) end; [|by apply (em_same s0)|by intros].
    assert (K (EChannelOpen (Some (MkChannelOpen typ (s_nextLocalChannelID s0) (InitialWindow (s_config s0)) (MaxPacketSize (s_config s0)) payload))))
      by (apply Hk; by split). em.
  - cbn [exec]. unfold on_channel. apply wp_bind, wp_get. destruct (s_store s0 !! ch) as [c|] eqn:Hc; [|apply wp_ret, em_refl].
    unfold channel_Send. assert (Hr := em_refl). pose proof (blen_nonneg frame). destruct (Z.eqb_spec (blen frame) 0); [by apply wp_fail|].
    destruct (Z.ltb_spec MaxUint32 (blen frame)); [by apply wp_fail|]. apply wp_bind, wp_get. cbv zeta. rewrite (chan_lookup _ _ _ Hc).
    destruct (channelErrorLocked s0 c); [by apply wp_fail|]. destruct (canSendData (ch_state c)) eqn:Hst; simpl negb; cbv iota.
    2:{ destruct (ch_state c); by apply wp_fail. }
    destruct (Z.ltb_spec (ch_maxRemotePacket c) (blen frame)); [by apply wp_fail|].
    apply (preserves_wp I); [|done|by intros]. assert (K (EChannelData (Some (ch_peerID c, frame)))) by (apply Hk; exists c; split_and!; (done || lia)).
    em.
  - cbn [exec]. unfold on_channel. apply wp_bind, wp_get. destruct (s_store s0 !! ch) as [c|] eqn:Hc; [|apply wp_ret, em_refl].
    unfold channel_Recv. apply wp_bind, wp_get. cbv zeta. rewrite (chan_lookup _ _ _ Hc). apply (preserves_wp I); [|apply em_refl|by intros].
    assert (Hn : ∀ n, is_u32 n → K (EChannelWindowAdjust (Some (ch_peerID c, n)))) by (intros n Hn; apply Hk; by exists c, n).
    destruct (ch_frames c) as [|f rest]; [em|]. assert (K (EChannelWindowAdjust (Some (ch_peerID c,
      window_adjust (WindowAdjustThreshold (s_config s0)) (u32 (blen f)) c)))); [|em]. apply Hn. unfold window_adjust, window_pending.
    destruct (_ <=? _); [apply u32_range|unfold is_u32, MaxUint32; lia].
  - cbn [exec]. unfold ret_unit. apply wp_bind, wp_bind, wp_get. destruct (s_dispatcher s0) as [| |msg id| | |] eqn:Ed; try (apply wp_ret, wp_ret, em_refl).
    assert (Hh : wp (handleChannelOpen msg id d) (λ _ s', I s') s0).
    { unfold handleChannelOpen. apply wp_bind, wp_get. cbv zeta. apply (preserves_wp I); [|apply em_refl|by intros].
      assert (∀ payload, K (EChannelOpenResult (Some (co_SenderChannelId msg,
        OpenSuccess id (InitialWindow (s_config s0)) (MaxPacketSize (s_config s0)) payload)))) by (intros payload; apply Hk; by exists msg, id, payload).
      em. }
    unfold dispatcher_run. apply wp_bind, wp_try. eapply wp_mono; [exact Hh|]. intros r s' Hs'.
    destruct r as [[]|e]; [by apply wp_ret, wp_ret|]. apply (preserves_wp I); [em|done|]. intros [] s2 H2; [by apply wp_ret|done].
  - cbn [exec]. unfold ret_unit. apply wp_bind, wp_bind, wp_get. destruct (s_writer s0) as [| | |w|] eqn:Ew; try (apply wp_ret, wp_ret, em_refl).
    apply (preserves_wp I); [|apply em_refl|intros [] s2 H2; [by apply wp_ret|done]]. unfold writerLoop_sent.
    pres_with ltac:(fun _ => lazymatch goal with
      | |- preserves _ (st_modify (λ s, s <| s_sent ::= _ |>)) => apply pres_em_sent
      | _ => em_unit () end).
  - cbn [exec]. unfold ret_unit. apply wp_bind. eapply wp_mono; [apply em_thread|].
    + intros ctx e after k Ht. apply Hk. by exists ctx, after, k.
    + intros [] s' Hs'; [by apply wp_ret|done].
Qed.
End emitted.

(** ** Identifiers and well-formed envelopes *)

Record ids_ok (s : Session) : Prop := {
  ids_next : 0 <= s_nextLocalChannelID s <= MaxUint64;
  ids_store id : is_Some (s_store s !! id) → 0 <= id < s_nextLocalChannelID s;
  ids_dispatch msg id : s_dispatcher s = DspChannelOpen msg id → 0 <= id < s_nextLocalChannelID s;
}.

Section ids.
Context `{ProtoSize}.

Lemma ids_same s s' : s_nextLocalChannelID s' = s_nextLocalChannelID s → (∀ id, is_Some (s_store s' !! id) → is_Some (s_store s !! id)) →
  (∀ msg id, s_dispatcher s' = DspChannelOpen msg id → s_dispatcher s = DspChannelOpen msg id) → ids_ok s → ids_ok s'.
Proof. intros E1 E2 E3 [? ? ?]. split; rewrite ?E1; eauto. Qed.

Lemma pres_ids_chan id f : preserves ids_ok (chan_mod id f).
Proof.
  apply preserves_modify. intros s. apply ids_same; [done| |done]. intros i. cbn. rewrite lookup_alter. case_decide; [subst|done].
  by rewrite fmap_is_Some.
Qed.

Lemma pres_ids_modify f : (∀ s, s_nextLocalChannelID (f s) = s_nextLocalChannelID s ∧ s_store (f s) = s_store s ∧
    (s_dispatcher (f s) = s_dispatcher s ∨ ∀ msg id, s_dispatcher (f s) ≠ DspChannelOpen msg id)) → preserves ids_ok (st_modify f).
Proof.
  intros Hf. apply preserves_modify. intros s. destruct (Hf s) as (E1 & E2 & E3). apply ids_same; [done|by rewrite E2|].
  intros msg id Hd. destruct E3 as [<-|E3]; [done|by apply E3 in Hd].
Qed.

Lemma pres_ids_new {A} c (k : Z → M A) : (∀ id, preserves ids_ok (k id)) →
  preserves ids_ok (reserveLocalChannelID ≫= λ id, new_channel id c ≫= λ _, k id).
Proof.
  intros Hk s HI. unfold reserveLocalChannelID, new_channel. apply wp_bind, wp_bind, wp_get.
  destruct (Z.eqb_spec (s_nextLocalChannelID s) MaxUint64); [by apply wp_fail|].
  apply wp_bind, wp_modify, wp_ret, wp_bind, wp_modify. apply Hk. destruct HI as [Hn Hs Hd]. split; cbn; [lia| |].
  - intros id. rewrite lookup_insert. case_decide; [lia|]. intros Hx. specialize (Hs id Hx). lia.
  - intros msg id Hx. specialize (Hd msg id Hx). lia.
Qed.

Lemma pres_ids_cancel id e : preserves ids_ok (chan_cancel id e).
Proof.
  apply preserves_modify. intros s Hs. case_match; [done|]. by apply (pres_ids_chan id (λ c, c <| ch_ctx := Some e |>) s).
Qed.

Ltac ids_unit _ :=
  lazymatch goal with
  | |- preserves _ (chan_mod _ _) => apply pres_ids_chan
  | |- preserves _ (chan_cancel _ _) => apply pres_ids_cancel
  | |- preserves _ (dispatcher_set _) => apply pres_ids_modify; intros; split_and!; [done..|right; intros; discriminate]
  | |- preserves _ (st_modify _) => apply pres_ids_modify; intros; cbn; repeat case_match; cbn; split_and!; first [reflexivity|left; reflexivity]
  | |- preserves _ (reserveLocalChannelID ≫= _) => apply pres_ids_new; intros
  | |- preserves _ _ => first [assumption | solve [auto 2 with idsdb]]
  end.

Create HintDb idsdb.
Ltac idt := pres_with ids_unit.

Lemma pres_ids_shutdown e : preserves ids_ok (shutdown e).
Proof. idt. Qed.
#[local] Hint Resolve pres_ids_shutdown : idsdb.

Lemma pres_ids_route e : preserves ids_ok (routeEnvelope e).
Proof. idt. Qed.
#[local] Hint Resolve pres_ids_route : idsdb.

Lemma pres_ids_cont t err k : preserves ids_ok (run_cont t err k).
Proof. idt. Qed.
#[local] Hint Resolve pres_ids_cont : idsdb.

Lemma pres_ids_return err : preserves ids_ok (dispatcher_return err).
Proof. idt. Qed.

Lemma pres_ids_exec a : a ≠ ADispatchTake → preserves ids_ok (exec a).
Proof. intros Ha. destruct a; try done; cbn [exec]; unfold ret_unit; idt. Qed.
End ids.

Section wellformed.
Context `{ProtoSizeLaws} (cfg : Config) (Hcfg : config_ok cfg).

Lemma reachable_ids s : reachable cfg s → ids_ok s.
Proof.
  intros Hs. induction Hs as [h|s a Hs IH Ha].
  - split; cbn; [unfold MaxUint64; lia| |done]. intros id. rewrite lookup_empty. by intros [].
  - assert (Hd : a = ADispatchTake ∨ a ≠ ADispatchTake) by (destruct a; (by left) || (by right)).
    destruct Hd as [->|Hne]; [|by apply (pres_ids_exec a)].
    pose proof (reachable_mux cfg s Hcfg Hs) as Hm.
    assert (Hp : ∀ p id, s_peerChannelIDs s !! p = Some id → 0 <= id < s_nextLocalChannelID s).
    { intros p id Hp. apply (ids_store _ IH), (m_table _ _ _ _ Hm). left. by eapply m_peer. }
    change (wp (exec ADispatchTake) (λ _ s', ids_ok s') s). cbn [exec]. unfold ret_unit, dispatchLoop_take, releaseQueueBudget, lookupChannelByPeer.
    apply wp_bind, wp_bind, wp_get. destruct (s_dispatcher s) eqn:Ed; try (by apply wp_ret, wp_ret).
    apply wp_bind, wp_get. destruct (s_dispatchQueue s) as [|[msg|msg] rest]; [by apply wp_ret, wp_ret|..].
    + apply wp_bind, wp_modify, wp_bind, wp_modify, wp_bind, wp_bind, wp_get, wp_ret.
      match goal with |- wp _ _ ?x => set (s2 := x) end.
      assert (H2 : ids_ok s2) by (by apply (ids_same s)).
      change (s_peerChannelIDs s2) with (s_peerChannelIDs s). change (s_channels s2) with (s_channels s).
      destruct (s_peerChannelIDs s !! co_SenderChannelId msg) as [id|] eqn:Ep; [case_bool_decide|].
      * apply wp_modify, wp_ret. split; cbn; [apply IH..|]. intros msg' id' [= <- <-]. eauto.
      * apply (preserves_wp ids_ok); [|done|intros [] s3 H3; [by apply wp_ret|done]]. apply pres_ids_return.
      * apply (preserves_wp ids_ok); [|done|intros [] s3 H3; [by apply wp_ret|done]]. apply pres_ids_return.
    + apply wp_bind, wp_modify, wp_bind, wp_modify, wp_modify, wp_ret. by apply (ids_same s).
Qed.

Lemma reachable_threads s : reachable cfg s → ∀ t, is_Some (s_threads s !! t) → t < s_nextThread s.
Proof.
  intros Hs. induction Hs as [h|s a Hs IH Ha]; cbn; [intros t; rewrite lookup_empty; by intros []|].
  pose proof (em_exec (λ e, plain e = true ∨ emits s a e) (λ e, @or_introl _ _) s IH a (λ e, @or_intror _ _)) as He. unfold wp in He.
  destruct (exec a s) as [s' r]. exact (em_fresh _ _ _ He).
Qed.

(** What a step sends. *)
Lemma step_emitted s a : reachable cfg s → emitted (λ e, plain e = true ∨ emits s a e) s (exec a s).1.
Proof.
  intros Hs. pose proof (em_exec (λ e, plain e = true ∨ emits s a e) (λ e, @or_introl _ _) s (reachable_threads s Hs) a (λ e, @or_intror _ _)) as He. unfold wp in He.
  by destruct (exec a s) as [s' r].
Qed.

(** Every envelope that waits to be sent or was sent is well formed. *)
Lemma emits_wf s a e : reachable cfg s → (∀ t ctx e after k, s_threads s !! t = Some (TSend ctx e after k) → envelope_wf e) →
  emits s a e → envelope_wf e.
Proof.
  intros Hs Ht He. pose proof (reachable_ids s Hs) as Hi. pose proof (ids_next _ Hi). pose proof (cfg_window_bound cfg Hcfg) as Hw.
  assert (Ec : s_config s = cfg) by (apply (ev_config _ _ _ _ (reachable_evolves cfg Hcfg (permits_of cfg a) s Hs))).
  assert (Hwin : is_u32 (InitialWindow cfg) ∧ is_u32 (MaxPacketSize cfg)) by (unfold is_u32; lia).
  destruct a; try done; cbn in He.
  - destruct He as [Hne ->]. cbn. rewrite Ec. unfold is_u64, is_u32 in *. lia.
  - destruct He as (c & _ & _ & _ & Hm & ->). done.
  - destruct He as (c & n & _ & Hn & ->). done.
  - destruct He as (msg & id & payload & Hd & ->). cbn. rewrite Ec. pose proof (ids_dispatch _ Hi _ _ Hd). unfold is_u64, is_u32 in *. lia.
  - destruct He as (ctx & after & k & Hth). by eapply Ht.
Qed.

Lemma plain_wf e : plain e = true → envelope_wf e.
Proof. by destruct e as [[]|[[? []]|]|[]|[[]|]| | | | | | | |]. Qed.

Lemma reachable_out_wf s : reachable cfg s →
  (∀ w m, s_writes s !! w = Some m → envelope_wf (w_envelope m)) ∧
  (∀ t ctx e after k, s_threads s !! t = Some (TSend ctx e after k) → envelope_wf e).
Proof.
  intros Hs. induction Hs as [h|s a Hs [IH1 IH2] Ha]; [by split; cbn; intros *; rewrite lookup_empty|].
  destruct (step_emitted s a Hs) as [Hw Ht _ _ _ _ _]. split.
  - intros w m Hm. destruct (Hw w m Hm) as [(m0 & Hm0 & <- & _)|[_ [Hp|He]]]; [by eapply IH1|by apply plain_wf|by eapply emits_wf].
  - intros t ctx e after k Hth. destruct (Ht _ _ _ _ _ Hth) as [Hth0|[_ [Hp|He]]]; [by eapply IH2|by apply plain_wf|by eapply emits_wf].
Qed.

Lemma sent_wf s w e : reachable cfg s → (w, e) ∈ s_sent s → envelope_wf e.
Proof.
  intros Hs Hin. destruct (wi_sent _ (reachable_writer cfg s Hs) w e Hin) as (m & Hm & _ & <-). by eapply (proj1 (reachable_out_wf s Hs)).
Qed.
End wellformed.

(** ** The receiver *)

Section receiver.
Context `{ProtoSize}.

Definition exited (s : Session) : Prop := s_receiver s = RcvExited.

Lemma pres_ex_modify f : (∀ s, s_receiver (f s) = s_receiver s ∨ s_receiver (f s) = RcvExited) → preserves exited (st_modify f).
Proof. intros Hf. apply preserves_modify. intros s Hs. unfold exited in *. destruct (Hf s) as [->| ->]; done. Qed.

Ltac ex_unit _ :=
  lazymatch goal with
  | |- preserves _ (st_modify _) =>
      apply pres_ex_modify; intros; cbn; repeat case_match; cbn; first [left; reflexivity|right; reflexivity]
  | |- preserves _ _ => first [assumption | solve [auto 2 with exitdb]]
  end.

Create HintDb exitdb.
Ltac ext := pres_with ex_unit.

Lemma pres_ex_shutdown e : preserves exited (shutdown e).
Proof. ext. Qed.
#[local] Hint Resolve pres_ex_shutdown : exitdb.

Lemma pres_ex_route e : preserves exited (routeEnvelope e).
Proof. ext. Qed.
#[local] Hint Resolve pres_ex_route : exitdb.

Lemma pres_ex_cont t err k : preserves exited (run_cont t err k).
Proof. ext. Qed.
#[local] Hint Resolve pres_ex_cont : exitdb.

(** A receiver that has ended does not start again. *)
Lemma exited_stays s a : exited s → exited (exec a s).1.
Proof.
  intros Hs. assert (Hp : a = AReceiverStart ∨ preserves exited (exec a)).
  { destruct a; try (by left); right; cbn [exec]; unfold ret_unit; ext. }
  destruct Hp as [->|Hp]; [|exact (Hp s Hs)].
  cbn [exec]. unfold ret_unit, receiverLoop_start, mbind, ST_bind, st_get. unfold exited in Hs. by rewrite Hs.
Qed.
End receiver.

(** ** A goroutine hands its envelope to the writer *)

Section posting.
Context `{ProtoSize}.

Lemma send_posts s t ctx e after k choice : s_threads s !! t = Some (TSend ctx e after k) →
  let s' := (exec (AThread t choice) s).1 in
  (∃ m, s_writes s' = <[s_nextWrite s := m]> (s_writes s) ∧ w_envelope m = e ∧ w_control m = false ∧
     s_nextWrite s' = s_nextWrite s + 1 ∧ s_threads s' = <[t := TWait ctx (s_nextWrite s) k]> (s_threads s)) ∨
  ((∀ w m, s_writes s' !! w = Some m → s_writes s !! w = Some m) ∧ ∃ err, s_threads s' = <[t := TCont (Some err) k]> (s_threads s)).
Proof.
  intros Ht. cbv zeta. cbn [exec]. unfold ret_unit, thread_step, sendEnvelopeAfter_enqueue, ensureActive, post_write, new_write, st_try,
    enqueueWrite, reserveQueueBudget, releaseQueueBudget, drop_write, thread_set.
  unfold mbind, ST_bind, st_get, st_modify, mret, ST_ret, st_fail. rewrite Ht.
  assert (Hdel : ∀ m w m', delete (s_nextWrite s) (<[s_nextWrite s := m]> (s_writes s)) !! w = Some m' → s_writes s !! w = Some m').
  { intros m w m' [Hne Hw]%lookup_delete_Some. by rewrite lookup_insert_ne in Hw. }
  cbn. repeat (case_match; simplify_eq/=; try (right; split; [by eauto|by eexists])).
  all: try (left; eexists; split_and!; try done; lia).
Qed.
(** A call of [Send] that is admitted becomes a goroutine with its frame. *)
Lemma send_admits s id frame wake :
  let '(s', r) := exec (ASend id frame wake) s in
  (∃ c size, r = Ok (Pending (s_nextThread s)) ∧ s_nextThread s' = s_nextThread s + 1 ∧ s_store s !! id = Some c ∧ canSendData (ch_state c) = true ∧
     s_writes s' = s_writes s ∧ s_nextWrite s' = s_nextWrite s ∧
     s_threads s' = <[s_nextThread s := TSend CtxUser (EChannelData (Some (ch_peerID c, frame))) AfterNone (KSend id size)]> (s_threads s)) ∨
  ((∀ t, r ≠ Ok (Pending t)) ∧ s_writes s' = s_writes s ∧ s_nextWrite s' = s_nextWrite s ∧ s_threads s' = s_threads s ∧ s_nextThread s' = s_nextThread s).
Proof.
  cbn [exec]. unfold on_channel, mbind, ST_bind, st_get. destruct (s_store s !! id) as [c|] eqn:Hc; [|by right].
  unfold channel_Send, spawn, chan_mod, mbind, ST_bind, st_get, st_modify, st_fail, mret, ST_ret. pose proof (chan_lookup _ _ _ Hc) as Ec.
  destruct (canSendData (ch_state c)) eqn:Hst; cbn; rewrite ?Ec, ?Hst; repeat (case_match; simplify_eq/=; try (by right)).
  all: left; exists (chan s id); eexists; split_and!; (done || lia || by apply negb_false_iff).
Qed.
End posting.
