(* ===== verification/SessionResults.v ===== *)
(** * What a call of [Send] reports

    A goroutine of a call goes through its stations alone, and the result it gets is
    that of its own write: a call of [Send] that returns without an error has sent
    its frame. *)

From S2P Require Import Prelude SessionConfig SessionTypes SessionOps SessionSteps SessionWriter SessionStream.

(** From [s0] to [s] only the goroutine [T] moved, and only the write [W] was reported as
    sent. *)
Record settled (T W : Z) (s0 s : Session) : Prop := {
  se_other t : t ≠ T → is_Some (s_threads s0 !! t) → s_threads s !! t = s_threads s0 !! t;
  se_result w m : s_writes s !! w = Some m → w_result m = Some None →
    w = W ∨ ∃ m0, s_writes s0 !! w = Some m0 ∧ w_result m0 = Some None;
  se_write w m : s_writes s0 !! w = Some m → ∃ m', s_writes s !! w = Some m' ∧ w_envelope m' = w_envelope m;
  se_next : s_nextThread s0 <= s_nextThread s ∧ s_nextWrite s0 <= s_nextWrite s;
}.

Section settled.
Context `{ProtoSize} (T W : Z) (s0 : Session) (Hf0 : ∀ t, is_Some (s_threads s0 !! t) → t < s_nextThread s0)
  (Hw0 : ∀ w, is_Some (s_writes s0 !! w) → w < s_nextWrite s0).

Let I := settled T W s0.

Lemma pres_se_same f :
  (∀ s, s_writes (f s) = s_writes s ∧ s_threads (f s) = s_threads s ∧ s_nextThread (f s) = s_nextThread s ∧ s_nextWrite (f s) = s_nextWrite s) →
  preserves I (st_modify f).
Proof. intros Hf. apply preserves_modify. intros s []. destruct (Hf s) as (E1 & E2 & E3 & E4). split; rewrite ?E1, ?E2, ?E3, ?E4; done. Qed.

Lemma pres_se_write_mod w f : w = W ∨ (∀ m, w_result (f m) = Some None → w_result m = Some None) →
  (∀ m, w_envelope (f m) = w_envelope m) → preserves I (write_mod w f).
Proof.
  intros Hf He. apply preserves_modify. intros s [? Hr Hw ?]. split; try done; cbn.
  - intros i m. rewrite lookup_alter. case_decide; [subst i|by apply Hr]. destruct (s_writes s !! w) as [m0|] eqn:E; [|done].
    cbn. intros [= <-] Hm. destruct Hf as [->|Hf]; [by left|]. apply (Hr _ _ E), Hf, Hm.
  - intros i m Hm. destruct (Hw i m Hm) as (m' & Hm' & E'). rewrite lookup_alter. case_decide; [subst i|by eauto].
    rewrite Hm'. eexists. split; [done|]. by rewrite He.
Qed.

Lemma pres_se_spawn th : preserves I (spawn th).
Proof.
  unfold spawn. apply preserves_get_any. intros s1. apply preserves_bind; [|intros; apply preserves_ret].
  apply preserves_modify. intros s [Ho ? ? ?]. split; cbn; try done; [|lia]. intros t Ht Hex. rewrite lookup_insert_ne; [by apply Ho|].
  apply Hf0 in Hex. lia.
Qed.

Lemma pres_se_thread th : preserves I (thread_set T th).
Proof. apply preserves_modify. intros s [Ho ? ? ?]. split; cbn; try done. intros t Ht Hex. rewrite lookup_insert_ne by done. by apply Ho. Qed.

Lemma pres_se_drop w : s_nextWrite s0 <= w → preserves I (drop_write w).
Proof.
  intros Hle. apply preserves_modify. intros s [? Hr Hw ?]. split; try done; cbn.
  - intros i m [_ Hm]%lookup_delete_Some. by apply Hr.
  - intros i m Hm. rewrite lookup_delete_ne; [by apply Hw|]. specialize (Hw0 i (ex_intro _ m Hm)). lia.
Qed.

(** A new write; [post_write] drops no other. *)
Lemma pres_se_new {A} frame control wantResult after (k : Z → M A) :
  (∀ w, s_nextWrite s0 <= w → preserves I (k w)) → preserves I (new_write frame control wantResult after ≫= k).
Proof.
  intros Hk s Hs. unfold new_write. apply wp_bind, wp_bind, wp_get, wp_bind, wp_modify, wp_ret. destruct Hs as [? Hr Hw [? ?]]. apply Hk; [lia|].
  split; cbn; try done; [| |lia].
  - intros w m. rewrite lookup_insert. case_decide; [by intros [= <-]|apply Hr].
  - intros w m Hm. rewrite lookup_insert_ne; [by apply Hw|]. specialize (Hw0 w (ex_intro _ m Hm)). lia.
Qed.

Create HintDb settles.

Ltac se_unit _ :=
  lazymatch goal with
  | |- preserves _ (write_mod _ _) => apply pres_se_write_mod; [right|]; intros m; unfold deliver_result; cbn; repeat case_match; cbn; congruence
  | |- preserves _ (new_write _ _ _ _ ≫= _) => apply pres_se_new; intros
  | |- preserves _ (drop_write _) => apply pres_se_drop; assumption
  | |- preserves _ (spawn _) => apply pres_se_spawn
  | |- preserves _ (thread_set T _) => apply pres_se_thread
  | |- preserves _ (st_modify _) => apply pres_se_same; intros; cbn; repeat case_match; cbn; split_and!; reflexivity
  | |- preserves _ _ => first [assumption | solve [auto 2 with settles]]
  end.

Ltac se := pres_with se_unit.

Lemma pres_se_post frame control wantResult after : preserves I (post_write frame control wantResult after).
Proof. unfold post_write, enqueueWrite, reserveQueueBudget, releaseQueueBudget. se. Qed.
#[local] Hint Resolve pres_se_post : settles.

Lemma pres_se_channel_shutdown id e : preserves I (channel_shutdown id e).
Proof. se. Qed.
#[local] Hint Resolve pres_se_channel_shutdown : settles.

Lemma pres_se_shutdown e : preserves I (shutdown e).
Proof. se. Qed.
#[local] Hint Resolve pres_se_shutdown : settles.

Lemma pres_se_run_after a e : preserves I (run_after a e).
Proof. se. Qed.
#[local] Hint Resolve pres_se_run_after : settles.

Lemma pres_se_route e : preserves I (routeEnvelope e).
Proof. se. Qed.
#[local] Hint Resolve pres_se_route : settles.

Lemma pres_se_cont err k : preserves I (run_cont T err k).
Proof. se. Qed.
#[local] Hint Resolve pres_se_cont : settles.

Lemma pres_se_abandon id e : preserves I (abandonOpen id e).
Proof. se. Qed.
#[local] Hint Resolve pres_se_abandon : settles.

Lemma pres_se_exec a : (∀ t choice, a = AThread t choice → t = T) → a ≠ AWriterSent None → preserves I (exec a).
Proof.
  intros Ht Hw. destruct a as [| | | | | | | | | | | | | | | | | | | | | |[err|]| | | | | | |t choice| | |]; try done;
    try (cbn [exec]; unfold ret_unit; by se).
  rewrite (Ht t choice eq_refl). cbn [exec]. unfold ret_unit, thread_step. se.
Qed.

Lemma se_refl : I s0.
Proof. split; [done|by eauto|by eauto|done]. Qed.

(** The write in hand is sent. *)
Lemma se_sent w m : s_writer s0 = WrSending w → s_writes s0 !! w = Some m → w = W →
  let s' := (exec (AWriterSent None) s0).1 in I s' ∧ (w, w_envelope m) ∈ s_sent s'.
Proof.
  intros Hw Hm E. change (wp (exec (AWriterSent None)) (λ _ s', I s' ∧ (w, w_envelope m) ∈ s_sent s') s0).
  cbn [exec]. unfold ret_unit. apply wp_bind, wp_bind, wp_get. rewrite Hw. unfold writerLoop_sent. apply wp_bind, wp_get. rewrite Hm.
  apply wp_bind. unfold wp at 1. pose proof (run_after_ok (w_after m) None s0) as Hok. pose proof (pres_se_run_after (w_after m) None s0 se_refl) as HI.
  unfold wp in HI. destruct (run_after (w_after m) None s0) as [s1 r]. cbn in Hok. subst r.
  assert (HI2 := pres_se_write_mod w (λ m, deliver_result None (m <| w_state := writeDone |>)) (or_introl E)). specialize (HI2 ltac:(intros m'; unfold deliver_result; cbn; by repeat case_match) s1 HI).
  apply wp_bind, wp_modify, wp_bind, wp_modify, wp_modify, wp_ret. split; [|cbn; set_solver]. destruct HI2. by split.
Qed.
End settled.

Section results.
Context `{ProtoSizeLaws} (cfg : Config).

(** A step of a session, for the goroutine it moves. *)
Lemma step_settled s a T : reachable cfg s → (∀ t choice, a = AThread t choice → t = T) →
  let s' := (exec a s).1 in
  (∀ t, t ≠ T → is_Some (s_threads s !! t) → s_threads s' !! t = s_threads s !! t) ∧
  (∀ w m, s_writes s !! w = Some m → ∃ m', s_writes s' !! w = Some m' ∧ w_envelope m' = w_envelope m) ∧
  (∀ w m', s_writes s' !! w = Some m' → w_result m' = Some None →
     (w, w_envelope m') ∈ s_sent s' ∨ ∃ m, s_writes s !! w = Some m ∧ w_result m = Some None).
Proof.
  intros Hs HT. cbv zeta. pose proof (reachable_threads cfg s Hs) as Hf. pose proof (wi_fresh _ (reachable_writer cfg s Hs)) as Hw.
  assert (Hc : (∃ w m, a = AWriterSent None ∧ s_writer s = WrSending w ∧ s_writes s !! w = Some m) ∨ ∀ W, settled T W s (exec a s).1).
  { assert (Ha : a = AWriterSent None ∨ a ≠ AWriterSent None) by (destruct a as [| | | | | | | | | | | | | | | | | | | | | |[]| | | | | | | | | |]; (by left) || (by right)).
    destruct Ha as [->|Ha]; [|right; intros W; exact (pres_se_exec T W s Hf Hw a HT Ha s (se_refl T W s))].
    assert (Hid : (exec (AWriterSent None) s).1 = s → ∀ W, settled T W s (exec (AWriterSent None) s).1) by (intros -> W; apply se_refl).
    destruct (s_writer s) as [| | |w|] eqn:Ew; try (right; apply Hid; cbn [exec]; unfold ret_unit, mbind, ST_bind, st_get; by rewrite Ew).
    destruct (s_writes s !! w) as [m|] eqn:Em; [left; by exists w, m|]. right. apply Hid. cbn [exec].
    unfold ret_unit, writerLoop_sent, mbind, ST_bind, st_get. by rewrite Ew, Em. }
  destruct Hc as [(w & m & -> & Ew & Em)|Hset].
  - destruct (se_sent T w s Hf Hw w m Ew Em eq_refl) as [[H1 H2 H3 _] Hin]. split_and!; [done..|]. intros i m' Hi Hres.
    destruct (H2 i m' Hi Hres) as [->|?]; [left|by right]. destruct (H3 w m Em) as (m2 & Hm2 & E2). rewrite Hi in Hm2. injection Hm2 as <-. by rewrite E2.
  - split_and!; [by eapply (se_other _ _ _ _ (Hset 0))|by eapply (se_write _ _ _ _ (Hset 0))|]. intros w m Hm Hres. right.
    destruct (se_result _ _ _ _ (Hset (w + 1)) w m Hm Hres) as [?|?]; [lia|done].
Qed.

(** A write that was reported as sent was sent. *)
Lemma result_sent s w m : reachable cfg s → s_writes s !! w = Some m → w_result m = Some None → (w, w_envelope m) ∈ s_sent s.
Proof.
  intros Hs. revert w m. induction Hs as [h|s a Hs IH Ha]; intros w m Hm Hr; [cbn in Hm; by rewrite lookup_empty in Hm|].
  destruct (step_settled s a (match a with AThread t _ => t | _ => 0 end) Hs) as (_ & Hk & Hres); [by intros t choice ->|].
  destruct (Hres w m Hm Hr) as [?|(m0 & Hm0 & Hr0)]; [done|]. specialize (IH w m0 Hm0 Hr0). destruct (Hk w m0 Hm0) as (m' & Hm' & E).
  rewrite Hm in Hm'. injection Hm' as <-. rewrite E. destruct (em_sent _ _ _ (step_emitted cfg s a Hs)) as [l ->]. set_solver.
Qed.

(** ** The stations of a call *)

Lemma wait_station s t ctx w id size choice : s_threads s !! t = Some (TWait ctx w (KSend id size)) →
  let s' := (exec (AThread t choice) s).1 in
  s_threads s' !! t = Some (TWait ctx w (KSend id size)) ∨
  ∃ err, s_threads s' !! t = Some (TCont err (KSend id size)) ∧ (err = None → ∃ m, s_writes s !! w = Some m ∧ w_result m = Some None).
Proof.
  intros Ht. cbv zeta. cbn [exec]. unfold ret_unit, thread_step, cancel_write, thread_set, write_mod, mbind, ST_bind, st_get, st_modify, mret, ST_ret. rewrite Ht.
  repeat (case_match; simplify_eq/=; try (by left)).
  all: right; rewrite lookup_insert_eq; eexists; (split; [done|]); first [done|intros ->; by eauto].
Qed.

Lemma cont_station s t err id size choice : s_threads s !! t = Some (TCont err (KSend id size)) →
  ∃ r, s_threads (exec (AThread t choice) s).1 !! t = Some (TDone (RetUnit r)) ∧ (r = Ok tt → err = None).
Proof.
  intros Ht. cbn [exec]. unfold ret_unit, thread_step, run_cont, chan_get, chan_mod, thread_set, mbind, ST_bind, st_get, st_modify, mret, ST_ret. rewrite Ht.
  destruct err as [e|]; cbn; [destruct (_ <=? _); cbn|]; rewrite lookup_insert_eq; by eexists.
Qed.
End results.
