(* ===== verification/Network.v ===== *)
(** * Two sessions over one connection

    The composition of two sessions ([SessionSteps]) that send their envelopes to
    each other over a reliable, ordered connection, as the encrypted transport
    ([Transport]) provides it.  Both sides do whatever they like: callers, timers,
    handlers and the connection of each end act in any order.  The theorems say
    what the two ends can rely on: what is read from a channel is what was sent to
    it. *)

From Stdlib Require Import Sorting.Sorted.
From S2P Require Import Prelude SessionConfig SessionTypes SessionOps SessionSteps SessionChannel SessionWriter SessionStream SessionResults.

(** One end: its session, how many envelopes of the other end it has received, what
    its callers read, and the sends it admitted (goroutine, channel, frame). *)
Record End := MkEnd {
  e_session : Session;
  e_taken : nat;
  e_read : list (Z * bytes);
  e_calls : list (Z * Z * bytes);
}.

Record Network := MkNetwork { n_a : End; n_b : End }.

Inductive side := A | B.

Inductive NetLabel :=
  | NLocal (x : side) (a : Action)
  | NDeliver (x : side).

Section network.
Context `{ProtoSize}.

Definition read_of (a : Action) (r : Session * res CallResult) : list (Z * bytes) :=
  match a with
  | ARecv id _ => match frame_read r with Some frame => [(id, frame)] | None => [] end
  | _ => []
  end.

Definition call_of (a : Action) (r : Session * res CallResult) : list (Z * Z * bytes) :=
  match a, r with
  | ASend id frame _, (_, Ok (Pending t)) => [(t, id, frame)]
  | _, _ => []
  end.

Definition step_end (a : Action) (e : End) : End :=
  let r := exec a (e_session e) in
  MkEnd r.1 (e_taken e) (e_read e ++ read_of a r) (e_calls e ++ call_of a r).

Definition is_receive (a : Action) : bool := match a with AReceive _ => true | _ => false end.

(** The next envelope that [tx] sent reaches the receiver of [rx]. *)
Definition deliver (tx rx : End) : option End :=
  match (s_sent (e_session tx)).*2 !! e_taken rx, s_receiver (e_session rx) with
  | Some env, RcvRunning => let rx' := step_end (AReceive env) rx in Some (MkEnd (e_session rx') (S (e_taken rx)) (e_read rx) (e_calls rx))
  | _, _ => None
  end.

Definition net_step (l : NetLabel) (n : Network) : option Network :=
  match l with
  | NLocal A a => if is_receive a then None else Some (MkNetwork (step_end a (n_a n)) (n_b n))
  | NLocal B a => if is_receive a then None else Some (MkNetwork (n_a n) (step_end a (n_b n)))
  | NDeliver A => match deliver (n_b n) (n_a n) with Some e => Some (MkNetwork e (n_b n)) | None => None end
  | NDeliver B => match deliver (n_a n) (n_b n) with Some e => Some (MkNetwork (n_a n) e) | None => None end
  end.

Fixpoint net_run (ls : list NetLabel) (n : Network) : option Network :=
  match ls with
  | [] => Some n
  | l :: ls => match net_step l n with Some n' => net_run ls n' | None => None end
  end.

Definition new_end (cfg : Config) (h : option HandlerRef) : End := MkEnd (new_session cfg h) 0 [] [].

(** The states that two new sessions reach. *)
Definition net_reaches (cfgA cfgB : Config) (ls : list NetLabel) (n : Network) : Prop :=
  ∃ hA hB, net_run ls (MkNetwork (new_end cfgA hA) (new_end cfgB hB)) = Some n.
End network.

(** The data for one channel. *)
Fixpoint data_for (id : Z) (l : list Envelope) : list bytes :=
  match l with
  | EChannelData (Some (i, data)) :: l => if i =? id then data :: data_for id l else data_for id l
  | _ :: l => data_for id l
  | [] => []
  end.

Definition reads_for (id : Z) (l : list (Z * bytes)) : list bytes := (filter (λ p, p.1 = id) l).*2.

Lemma data_for_app id l k : data_for id (l ++ k) = data_for id l ++ data_for id k.
Proof.
  induction l as [|e l IH]; [done|]. destruct e as [| |[[i d]|]| | | | | | | | |]; simpl; try done. destruct (i =? id); simpl; by rewrite IH.
Qed.

Lemma reads_for_app id l k : reads_for id (l ++ k) = reads_for id l ++ reads_for id k.
Proof. unfold reads_for. by rewrite filter_app, fmap_app. Qed.

(** ** Streams *)

(** What was read from and what waits in the channel [id] of [e], against the data
    that was delivered for it. *)
Definition stream_ok (e : End) (id : Z) (delivered : list bytes) : Prop :=
  match s_store (e_session e) !! id with
  | None => reads_for id (e_read e) = [] ∧ (¬ exited (e_session e) → delivered = [])
  | Some c => reads_for id (e_read e) ++ ch_frames c `prefix_of` delivered ∧
      (¬ exited (e_session e) → is_terminal (ch_state c) = false → reads_for id (e_read e) ++ ch_frames c = delivered)
  end.

Definition direction_ok (tx rx : End) : Prop :=
  let sent := (s_sent (e_session tx)).*2 in
  (e_taken rx <= length sent)%nat ∧ ∀ id, stream_ok rx id (data_for id (take (e_taken rx) sent)).

Section streams.
Context `{ProtoSizeLaws} (cfg : Config) (Hcfg : config_ok cfg).

Lemma stream_kept (e e' : End) id c c' delivered : s_store (e_session e) !! id = Some c → s_store (e_session e') !! id = Some c' →
  frames_kept c c' → (is_terminal (ch_state c) = true → is_terminal (ch_state c') = true) →
  reads_for id (e_read e') = reads_for id (e_read e) → (exited (e_session e) → exited (e_session e')) →
  stream_ok e id delivered → stream_ok e' id delivered.
Proof.
  intros Hc Hc' Hk Ht Hr Hx. unfold stream_ok. rewrite Hc, Hc', Hr. intros [Hp He]. destruct Hk as [->|[-> Hterm]].
  - split; [done|]. intros Hn H2. apply He; [auto|]. destruct (is_terminal (ch_state c)) eqn:E; [|done]. by rewrite Ht in H2.
  - rewrite app_nil_r. split; [by eapply prefix_app_l|]. by rewrite Hterm.
Qed.

(** A step that brings no data for [id]. *)
Lemma stream_step (e : End) a id delivered : reachable cfg (e_session e) → action_wf a →
  (∀ data, a ≠ AReceive (EChannelData (Some (id, data)))) → stream_ok e id delivered → stream_ok (step_end a e) id delivered.
Proof.
  intros Hs Ha Hd Hok. set (s := e_session e) in *. assert (Hx : exited s → exited (exec a s).1) by apply exited_stays.
  destruct (s_store s !! id) as [c|] eqn:Hc.
  - assert (Hrecv : (∃ wake, a = ARecv id wake) ∨ ∀ wake, a ≠ ARecv id wake).
    { destruct a; try (by right). destruct (decide (ch = id)) as [->|]; [left; by eexists|right; congruence]. }
    destruct Hrecv as [[wake ->]|Hr].
    + destruct (recv_frames s id wake c Hc) as (c' & Hc' & Est & Hf). unfold stream_ok in *. fold s in Hok. rewrite Hc in Hok.
      cbn [step_end e_session e_read]. fold s. rewrite Hc', Est, reads_for_app. cbn [read_of].
      assert (reads_for id (match frame_read (exec (ARecv id wake) s) with Some frame => [(id, frame)] | None => [] end) ++ ch_frames c' = ch_frames c) as E.
      { destruct (ch_frames c) as [|f rest]; destruct Hf as [-> ->]; [done|]. unfold reads_for. by rewrite filter_cons_True. }
      rewrite <- app_assoc, E. destruct Hok as [? Heq]. split; [done|]. intros Hn. apply Heq. auto.
    + destruct (step_frames cfg Hcfg s a id c Hs Ha Hc Hd Hr) as (c' & Hc' & Hk & Ht).
      eapply (stream_kept e (step_end a e)); [exact Hc|exact Hc'|done|done| |exact Hx|exact Hok].
      cbn [step_end e_read]. rewrite reads_for_app. replace (reads_for id (read_of a _)) with (@nil bytes); [by rewrite app_nil_r|].
      destruct a; try done. cbn [read_of]. case_match; [|done]. unfold reads_for. rewrite filter_cons_False; [done|]. cbn. intros Hch. by destruct (Hr wake); rewrite Hch.
  - unfold stream_ok in *. fold s in Hok. rewrite Hc in Hok. destruct Hok as [Hr Hdel]. cbn [step_end e_session e_read]. fold s.
    assert (Hr' : reads_for id (e_read e ++ read_of a (exec a s)) = []).
    { rewrite reads_for_app, Hr. destruct a; try done. cbn [read_of exec]. destruct (decide (ch = id)) as [->|Hne].
      - unfold on_channel, mbind, ST_bind, st_get. by rewrite Hc.
      - case_match; [|done]. unfold reads_for. by rewrite filter_cons_False. }
    rewrite Hr'. assert (Hdel' : ¬ exited (exec a s).1 → delivered = []) by (intros Hn; apply Hdel; auto).
    destruct (s_store (exec a s).1 !! id) as [c|] eqn:Hc'; [|done].
    rewrite (step_new cfg Hcfg s a id c Hs Ha Hc Hc'). split; [by apply prefix_nil|]. intros Hn _. by rewrite Hdel'.
Qed.
End streams.

Section deliveries.
Context `{ProtoSizeLaws} (cfg : Config) (Hcfg : config_ok cfg).

(** The arrival of an envelope. *)
Lemma stream_receive (e : End) env id delivered : reachable cfg (e_session e) → envelope_wf env → s_receiver (e_session e) = RcvRunning →
  stream_ok e id delivered → stream_ok (step_end (AReceive env) e) id (delivered ++ data_for id [env]).
Proof.
  intros Hs Hw Hr Hok.
  assert (Hd : (∃ data, env = EChannelData (Some (id, data))) ∨ ∀ data, env ≠ EChannelData (Some (id, data))).
  { destruct env as [| |[[i d]|]| | | | | | | | |]; try (by right). destruct (decide (i = id)) as [->|]; [left; by eexists|right; congruence]. }
  destruct Hd as [[data ->]|Hd].
  - cbn [data_for]. rewrite Z.eqb_refl. cbn in Hw. set (s := e_session e) in *.
    assert (Hn : ¬ exited s) by (unfold exited; by rewrite Hr). unfold stream_ok in *. fold s in Hok.
    cbn [step_end e_session e_read read_of]. fold s. rewrite app_nil_r.
    destruct (receive_data cfg Hcfg s id data Hs Hr Hw) as [(_ & c & c' & Hc & Hc' & Hst & Est & Ef)|(Hx & Hk)].
    + rewrite Hc in Hok. rewrite Hc', Ef, Est, app_assoc. destruct Hok as [_ Heq].
      rewrite (Heq Hn); [by split|]. by destruct (ch_state c).
    + destruct (s_store s !! id) as [c|] eqn:Hc.
      * destruct (Hk c eq_refl) as (c' & -> & Hf & _). destruct Hok as [Hp _]. split; [|by intros []].
        destruct Hf as [->|[-> _]]; [by apply prefix_app_r|]. rewrite app_nil_r. apply prefix_app_r. by eapply prefix_app_l.
      * destruct Hok as [-> _]. case_match eqn:Hc'; [|split; [done|by intros []]]. split; [|by intros []].
        rewrite (step_new cfg Hcfg s (AReceive (EChannelData (Some (id, data)))) id _ Hs Hw Hc Hc'). by apply prefix_nil.
  - replace (data_for id [env]) with (@nil bytes); [rewrite app_nil_r; apply (stream_step cfg Hcfg); [done|done| |done]; intros d [= Hx]; by apply (Hd d)|].
    destruct env as [| |[[i d]|]| | | | | | | | |]; try done. cbn. destruct (Z.eqb_spec i id) as [->|]; [by destruct (Hd d)|done].
Qed.
End deliveries.

(** ** Calls *)

(** The channel [id] was opened towards the channel [p] of the peer. *)
Definition peer_is (s : Session) (id p : Z) : Prop :=
  ∃ c, s_store s !! id = Some c ∧ ch_state c ≠ channelOpening ∧ ch_peerID c = p.

Definition is_done (s : Session) (t : Z) : Prop := ∃ o, s_threads s !! t = Some (TDone o).

(** Where the call of [Send] with the frame [f] is that the goroutine [t] makes. *)
Definition on_way (o : gmap Z Z) (s : Session) (t : Z) (f : bytes) : Prop :=
  match s_threads s !! t with
  | Some (TSend _ (EChannelData (Some (_, f'))) _ (KSend _ _)) => f' = f
  | Some (TWait _ w (KSend _ _)) => o !! t = Some w ∧ ∃ m p, s_writes s !! w = Some m ∧ w_envelope m = EChannelData (Some (p, f))
  | Some (TCont err (KSend _ _)) => err = None → ∃ w p, o !! t = Some w ∧ (w, EChannelData (Some (p, f))) ∈ s_sent s
  | Some (TDone (RetUnit r)) => r = Ok tt → ∃ w p, o !! t = Some w ∧ (w, EChannelData (Some (p, f))) ∈ s_sent s
  | _ => False
  end.

(** Every data frame that waits or was sent belongs to a call of [Send]; [o] is the
    write that the goroutine of a call made. *)
Record calls_ok (o : gmap Z Z) (e : End) : Prop := {
  ca_write w m p f : s_writes (e_session e) !! w = Some m → w_envelope m = EChannelData (Some (p, f)) →
    w_control m = false ∧ ∃ t id, o !! t = Some w ∧ (t, id, f) ∈ e_calls e ∧ peer_is (e_session e) id p;
  ca_send t ctx p f after k : s_threads (e_session e) !! t = Some (TSend ctx (EChannelData (Some (p, f))) after k) →
    o !! t = None ∧ ∃ id, (t, id, f) ∈ e_calls e ∧ peer_is (e_session e) id p;
  ca_owner t w : o !! t = Some w → w < s_nextWrite (e_session e) ∧ t ∈ (e_calls e).*1.*1;
  ca_inj t t' w : o !! t = Some w → o !! t' = Some w → t = t';
  ca_threads : increasing (e_calls e).*1.*1;
  ca_way t id f : (t, id, f) ∈ e_calls e → on_way o (e_session e) t f;
  ca_fresh t : t ∈ (e_calls e).*1.*1 → t < s_nextThread (e_session e);
}.

(** A call of [Send] is made when the earlier ones on its channel have returned. *)
Definition calm (a : Action) (e : End) : bool :=
  match a with
  | ASend id _ _ => forallb (λ c, negb (c.1.2 =? id) || match s_threads (e_session e) !! c.1.1 with Some (TDone _) => true | _ => false end) (e_calls e)
  | _ => true
  end.

(** The calls on one channel did not overlap. *)
Definition in_turn (o : gmap Z Z) (e : End) : Prop :=
  ∀ t t' id f f', (t, id, f) ∈ e_calls e → (t', id, f') ∈ e_calls e → t < t' →
    is_done (e_session e) t ∧ ∀ w w', o !! t = Some w → o !! t' = Some w' → w < w'.

(** All calls towards the channel [p] of the peer are on the same channel. *)
Definition one_channel (e : End) (p : Z) : Prop :=
  ∀ t id f t' id' f', (t, id, f) ∈ e_calls e → (t', id', f') ∈ e_calls e →
    peer_is (e_session e) id p → peer_is (e_session e) id' p → id = id'.

Section calls.
Context `{ProtoSizeLaws} (cfg : Config) (Hcfg : config_ok cfg).

Lemma peer_stays s a id p : reachable cfg s → action_wf a → peer_is s id p → peer_is (exec a s).1 id p.
Proof.
  intros Hs Ha (c & Hc & Hst & Hp). destruct (step_peer cfg Hcfg s a id c Hs Ha Hc Hst) as (c' & Hc' & Hst' & _ & Ep).
  exists c'. split_and!; [done..|congruence].
Qed.

Lemma done_stays s a t : reachable cfg s → is_done s t → is_done (exec a s).1 t.
Proof. intros Hs [o Ho]. exists o. by apply (em_done _ _ _ (step_emitted cfg s a Hs)). Qed.

(** A call moves on only with its goroutine, and then towards its result. *)
Lemma way_kept o o' s s' t f : s_threads s' !! t = s_threads s !! t → o' !! t = o !! t → (∀ x, x ∈ s_sent s → x ∈ s_sent s') →
  (∀ w m, s_writes s !! w = Some m → ∃ m', s_writes s' !! w = Some m' ∧ w_envelope m' = w_envelope m) → on_way o s t f → on_way o' s' t f.
Proof.
  intros Et Eo Hs Hw. unfold on_way. rewrite Et, Eo. destruct (s_threads s !! t) as [[| ctx w []|err []| | | |[]]|]; try done.
  - intros [? (m & p & Hm & E)]. destruct (Hw w m Hm) as (m' & Hm' & E'). split; [done|]. exists m', p. split; [done|congruence].
  - naive_solver.
  - naive_solver.
Qed.

Lemma sent_grows s a x : reachable cfg s → x ∈ s_sent s → x ∈ s_sent (exec a s).1.
Proof. intros Hs Hx. destruct (em_sent _ _ _ (step_emitted cfg s a Hs)) as [l ->]. set_solver. Qed.

Lemma way_step o s a t f : reachable cfg s → (∀ choice ctx e after k, a = AThread t choice → s_threads s !! t ≠ Some (TSend ctx e after k)) →
  is_Some (s_threads s !! t) → on_way o s t f → on_way o (exec a s).1 t f.
Proof.
  intros Hs Ha Hex Hway. destruct (step_settled cfg s a (match a with AThread t _ => t | _ => t + 1 end) Hs) as (Ho & Hw & _); [by intros ? ? ->|].
  assert (Hcase : (∃ choice, a = AThread t choice) ∨ t ≠ match a with AThread t _ => t | _ => t + 1 end).
  { destruct a; try (right; lia). destruct (decide (t = t0)) as [->|]; [left; by eexists|by right]. }
  destruct Hcase as [[choice ->]|Hne]; [|eapply way_kept; [by apply Ho|done|by intros x; apply sent_grows|done|done]].
  assert (Hw' := Hway). unfold on_way in Hw'. destruct (s_threads s !! t) as [[ctx e after k|ctx w k|err k|?|?|?|out]|] eqn:Et; try done.
  - by destruct (Ha choice ctx e after k eq_refl).
  - destruct k as [| |id size| | | | | | |]; try done. destruct Hw' as (Eo & m & p & Hm & Ee).
    destruct (wait_station s t ctx w id size choice Et) as [E|(err & E & Hres)]; unfold on_way; rewrite E.
    + split; [done|]. destruct (Hw w m Hm) as (m' & Hm' & E'). exists m', p. split; [done|congruence].
    + intros ->. destruct Hres as (m' & Hm' & Hr); [done|]. rewrite Hm in Hm'. injection Hm' as <-. exists w, p. split; [done|].
      apply sent_grows; [done|]. rewrite <- Ee. by apply (result_sent cfg).
  - destruct k as [| |id size| | | | | | |]; try done. destruct (cont_station s t err id size choice Et) as (r & E & Hr). unfold on_way. rewrite E.
    intros Hok. destruct (Hw' (Hr Hok)) as (w & p & Eo & Hin). exists w, p. split; [done|]. by apply sent_grows.
  - eapply way_kept; [|done|by intros x; apply sent_grows|done|done]. rewrite Et. by apply (em_done _ _ _ (step_emitted cfg s (AThread t choice) Hs)).
Qed.

(** A step that adds neither a call nor a data frame. *)
Lemma calls_same o (e e' : End) : (∀ id p, peer_is (e_session e) id p → peer_is (e_session e') id p) →
  (∀ t, is_done (e_session e) t → is_done (e_session e') t) →
  (∀ w m p f, s_writes (e_session e') !! w = Some m → w_envelope m = EChannelData (Some (p, f)) →
     ∃ m0, s_writes (e_session e) !! w = Some m0 ∧ w_envelope m0 = w_envelope m ∧ w_control m0 = w_control m) →
  (∀ t ctx p f after k, s_threads (e_session e') !! t = Some (TSend ctx (EChannelData (Some (p, f))) after k) →
     s_threads (e_session e) !! t = Some (TSend ctx (EChannelData (Some (p, f))) after k)) →
  (∀ t id f, (t, id, f) ∈ e_calls e → on_way o (e_session e) t f → on_way o (e_session e') t f) →
  s_nextWrite (e_session e) <= s_nextWrite (e_session e') → s_nextThread (e_session e) <= s_nextThread (e_session e') → e_calls e' = e_calls e →
  calls_ok o e → calls_ok o e' ∧ (in_turn o e → in_turn o e').
Proof.
  intros Hp Hd Hw Ht Hy Hn1 Hn2 Ec [C1 C2 C3 C4 C5 C7 C6]. split; [split; rewrite ?Ec; try done|].
  - intros w m p f Hm He. destruct (Hw w m p f Hm He) as (m0 & Hm0 & E0 & <-). rewrite He in E0.
    destruct (C1 w m0 p f Hm0 E0) as (Hc & t & id & ? & ? & ?). eauto 7.
  - intros t ctx p f after k Hth. destruct (C2 t ctx p f after k (Ht _ _ _ _ _ _ Hth)) as (? & id & ? & ?). eauto.
  - intros t w Ho. destruct (C3 t w Ho). split; [lia|done].
  - by eauto.
  - intros t Hin. specialize (C6 t Hin). lia.
  - intros Hin. unfold in_turn in *. rewrite Ec. intros t t' id f f' H1 H2 Hlt. destruct (Hin t t' id f f' H1 H2 Hlt). auto.
Qed.

(** The goroutine of a call posts its frame. *)
Lemma calls_posted o (e : End) t choice ctx p f after k : reachable cfg (e_session e) →
  s_threads (e_session e) !! t = Some (TSend ctx (EChannelData (Some (p, f))) after k) → calls_ok o e →
  let e' := step_end (AThread t choice) e in
  ∃ o', calls_ok o' e' ∧ (in_turn o e → in_turn o' e').
Proof.
  intros Hs Ht Hok. cbv zeta. set (s := e_session e) in *. 
  assert (Ec : e_calls (step_end (AThread t choice) e) = e_calls e) by (cbn; apply app_nil_r).
  assert (Es : e_session (step_end (AThread t choice) e) = (exec (AThread t choice) s).1) by done.
  revert Ec Es. generalize (step_end (AThread t choice) e) as e'. intros e' Ec Es.
  pose proof (step_emitted cfg s (AThread t choice) Hs) as Hem. rewrite <- Es in Hem.
  assert (Hpeer : ∀ id q, peer_is s id q → peer_is (e_session e') id q) by (intros id q; rewrite Es; by apply peer_stays).
  assert (Hdone : ∀ u, is_done s u → is_done (e_session e') u) by (intros u; rewrite Es; by apply done_stays).
  destruct (send_posts s t ctx _ after k choice Ht) as [(m & Ew & Ee & Ectl & En & Eth)|(Hold & err & Eth)]; rewrite <- ?Es in *.
  - destruct Hok as [C1 C2 C3 C4 C5 C7 C6]. fold s in C1, C2, C3, C7, C6. destruct (C2 t ctx p f after k Ht) as (Hnone & id & Hin & Hp).
    exists (<[t := s_nextWrite s]> o). split; [split; rewrite ?Ec; try done|].
    + intros w m' q g Hm' He. rewrite Ew in Hm'. apply lookup_insert_Some in Hm' as [[<- <-]|[Hne Hm']].
      * rewrite Ee in He. injection He as <- <-. split; [done|]. exists t, id. rewrite lookup_insert_eq. auto.
      * destruct (C1 w m' q g Hm' He) as (Hc & u & i & Hu & Hi & Hq). split; [done|]. exists u, i. rewrite lookup_insert_ne by congruence. auto.
    + intros u ctx' q g after' k' Hu. rewrite Eth in Hu. apply lookup_insert_Some in Hu as [[_ Hu]|[Hne Hu]]; [done|].
      destruct (C2 u _ _ _ _ _ Hu) as (Hno & i & Hi & Hq). rewrite lookup_insert_ne by done. eauto.
    + rewrite En. intros u w [[<- <-]|[Hne Hu]]%lookup_insert_Some.
      * split; [lia|]. apply list_elem_of_fmap. exists (t, id). split; [done|]. apply list_elem_of_fmap. by exists (t, id, f).
      * destruct (C3 u w Hu). split; [lia|done].
    + intros u u' w. rewrite !lookup_insert_Some. intros [[<- <-]|[Hne Hu]] [[<- ?]|[Hne' Hu']]; try done.
      * apply C3 in Hu' as [? _]. lia.
      * subst w. apply C3 in Hu as [? _]. lia.
      * by eapply C4.
    + intros u i g Hi. destruct (decide (u = t)) as [->|Hne].
      * specialize (C7 t i g Hi). unfold on_way in C7 |- *. rewrite Ht in C7. destruct k; try done. subst g. rewrite Eth, lookup_insert_eq, lookup_insert_eq.
        split; [done|]. exists m, p. by rewrite Ew, lookup_insert_eq.
      * eapply way_kept; [..|exact (C7 u i g Hi)]; [by rewrite Eth, lookup_insert_ne|by rewrite lookup_insert_ne| |].
        -- intros x Hx. rewrite Es. by apply sent_grows.
        -- rewrite Es. by apply (step_settled cfg s (AThread t choice) t Hs ltac:(by intros ? ? [=])).
    + intros u Hu. pose proof (em_nextThread _ _ _ Hem). specialize (C6 u Hu). lia.
    + intros Hturn u u' i g g'. rewrite Ec. intros H1 H2 Hlt. destruct (Hturn u u' i g g' H1 H2 Hlt) as [Hd Hlt'].
      split; [by apply Hdone|]. intros w w'. rewrite !lookup_insert_Some. intros [[<- <-]|[Hne Hu]] [[<- ?]|[Hne' Hu']]; try lia; eauto.
      * destruct Hd as [? Hd]. fold s in Hd. rewrite Ht in Hd. done.
      * apply C3 in Hu as [? _]. lia.
  - exists o. apply (calls_same o e e'); try done.
    + intros w m p' f' Hm He. exists m. split; [|done]. by apply Hold.
    + intros u ctx' q g after' k' Hu. rewrite Eth in Hu. by apply lookup_insert_Some in Hu as [[_ Hu]|[Hne Hu]].
    + intros u i g Hi Hway. destruct (decide (u = t)) as [->|Hne].
      * unfold on_way in Hway |- *. fold s in Hway. rewrite Ht in Hway. rewrite Eth, lookup_insert_eq. by destruct k.
      * eapply way_kept; [..|exact Hway]; [by rewrite Eth, lookup_insert_ne|done| |].
        -- intros x Hx. rewrite Es. by apply sent_grows.
        -- rewrite Es. by apply (step_settled cfg s (AThread t choice) t Hs ltac:(by intros ? ? [=])).
    + by destruct Hem.
    + by destruct Hem.
Qed.
End calls.

Section calls_step.
Context `{ProtoSizeLaws} (cfg : Config) (Hcfg : config_ok cfg).

Lemma calm_done id frame wake (e : End) t f : calm (ASend id frame wake) e = true → (t, id, f) ∈ e_calls e → is_done (e_session e) t.
Proof.
  unfold calm. rewrite forallb_forall. intros Hc Hin. specialize (Hc (t, id, f) (proj1 (list_elem_of_In _ _) Hin)). cbn in Hc. rewrite Z.eqb_refl in Hc. cbn in Hc.
  unfold is_done. destruct (s_threads (e_session e) !! t) as [[]|]; try done. by eexists.
Qed.

(** A call of [Send]. *)
Lemma calls_sent o (e : End) id frame wake : reachable cfg (e_session e) → calls_ok o e →
  let a := ASend id frame wake in
  calls_ok o (step_end a e) ∧ (in_turn o e → calm a e = true → in_turn o (step_end a e)).
Proof.
  intros Hs Hok. cbv zeta. set (s := e_session e) in *. pose proof (send_admits s id frame wake) as Hsend.
  assert (Es : e_session (step_end (ASend id frame wake) e) = (exec (ASend id frame wake) s).1) by done.
  assert (Ec : e_calls (step_end (ASend id frame wake) e) = e_calls e ++ call_of (ASend id frame wake) (exec (ASend id frame wake) s)) by done.
  assert (Hpeer : ∀ i q, peer_is s i q → peer_is (exec (ASend id frame wake) s).1 i q) by (intros i q; by apply (peer_stays cfg)).
  assert (Hdone : ∀ u, is_done s u → is_done (exec (ASend id frame wake) s).1 u) by (intros u; by apply (done_stays cfg)).
  assert (Hgrow : ∀ x, x ∈ s_sent s → x ∈ s_sent (exec (ASend id frame wake) s).1) by (intros x; by apply (sent_grows cfg)).
  revert Ec Es. generalize (step_end (ASend id frame wake) e) as e'. intros e' Ec Es. rewrite <- Es in *.
  destruct (exec (ASend id frame wake) s) as [s' r]. cbn [fst] in *. subst s'.
  destruct Hsend as [(c & size & -> & En & Hc & Hst & Ew & Enw & Eth)|(Hno & Ew & Enw & Eth & En)].
  - cbn in Ec. destruct Hok as [C1 C2 C3 C4 C5 C7 C6]. fold s in C1, C2, C3, C7, C6. set (t0 := s_nextThread s) in *.
    assert (Hnew : t0 ∉ (e_calls e).*1.*1) by (intros Hin; specialize (C6 _ Hin); lia).
    assert (Hp : peer_is (e_session e') id (ch_peerID c)) by (apply Hpeer; exists c; split_and!; [done| |done]; by destruct (ch_state c)).
    assert (Hin : ∀ x, x ∈ e_calls e' ↔ x ∈ e_calls e ∨ x = (t0, id, frame)) by (intros x; rewrite Ec; set_solver).
    assert (Hk : (e_calls e').*1.*1 = (e_calls e).*1.*1 ++ [t0]) by (by rewrite Ec, !fmap_app).
    split; [split; try done|].
    + intros w m p f Hm He. rewrite Ew in Hm. destruct (C1 w m p f Hm He) as (? & t & i & ? & ? & ?). split; [done|]. exists t, i. rewrite Hin. auto.
    + intros t ctx p f after k Ht. rewrite Eth in Ht. apply lookup_insert_Some in Ht as [[<- Ht]|[_ Ht]].
      * injection Ht as <- <- <- <- <-. split; [|exists id; rewrite Hin; auto]. destruct (o !! t0) eqn:Eo; [|done]. by apply C3 in Eo as [_ ?].
      * destruct (C2 _ _ _ _ _ _ Ht) as (? & i & ? & ?). split; [done|]. exists i. rewrite Hin. auto.
    + intros t w Ho. rewrite Enw, Hk. destruct (C3 t w Ho). split; [done|set_solver].
    + rewrite Hk. apply increasing_snoc; [done|]. intros x Hx. by apply C6.
    + intros t i g. rewrite Hin. intros [Hi|[= -> -> ->]]; [|unfold on_way; by rewrite Eth, lookup_insert_eq].
      eapply way_kept; [..|exact (C7 t i g Hi)]; [|done|done|rewrite Ew; by eauto]. rewrite Eth, lookup_insert_ne; [done|]. intros <-. apply Hnew.
      apply list_elem_of_fmap; eexists; split; [|apply list_elem_of_fmap; by eexists]; done.
    + rewrite Hk, En. intros t [Ht| ->%list_elem_of_singleton]%elem_of_app; [apply C6 in Ht; lia|lia].
    + intros Hturn Hcalm t t' i f f'. rewrite !Hin. intros [H1|H1] [H2|H2] Hlt.
      * destruct (Hturn t t' i f f' H1 H2 Hlt). auto.
      * simplify_eq. split; [by eapply Hdone, calm_done|]. intros w w' _ Hw'. by apply C3 in Hw' as [_ ?].
      * simplify_eq. assert (t' ∈ (e_calls e).*1.*1) as Hin' by (apply list_elem_of_fmap; eexists; split; [|apply list_elem_of_fmap; by eexists]; done).
        apply C6 in Hin'. lia.
      * simplify_eq. lia.
  - replace (call_of _ _) with (@nil (Z * Z * bytes)) in Ec by (cbn; destruct r as [[| |t]|]; try done; by destruct (Hno t)).
    rewrite app_nil_r in Ec. destruct (calls_same o e e') as [? Hturn]; try done; fold s; rewrite ?Ew, ?Enw, ?Eth, ?En; try done; eauto.
    intros t i g _. apply way_kept; [by rewrite Eth|done|done|rewrite Ew; by eauto].
Qed.

Lemma calls_step o (e : End) a : reachable cfg (e_session e) → action_wf a → calls_ok o e →
  ∃ o', calls_ok o' (step_end a e) ∧ (in_turn o e → calm a e = true → in_turn o' (step_end a e)).
Proof.
  intros Hs Ha Hok. assert (Hcase : (∃ id frame wake, a = ASend id frame wake) ∨ ∀ id frame wake, a ≠ ASend id frame wake)
    by (destruct a; eauto; right; congruence).
  destruct Hcase as [(id & frame & wake & ->)|Hns]; [exists o; by apply calls_sent|].
  assert (Hth : (∃ t choice ctx p f after k, a = AThread t choice ∧
      s_threads (e_session e) !! t = Some (TSend ctx (EChannelData (Some (p, f))) after k)) ∨
    ∀ p f, ¬ emits (e_session e) a (EChannelData (Some (p, f)))).
  { destruct a; try (right; cbn; intros; naive_solver). cbn.
    destruct (s_threads (e_session e) !! t) as [[ctx [| |[[p f]|]| | | | | | | | |] after k| | | | | |]|] eqn:Et; try (right; naive_solver).
    left. by eauto 10. }
  destruct Hth as [(t & choice & ctx & p & f & after & k & -> & Ht)|Hno].
  - destruct (calls_posted cfg Hcfg o e t choice ctx p f after k Hs Ht Hok) as (o' & ? & ?). exists o'. auto.
  - exists o. destruct (step_emitted cfg (e_session e) a Hs) as [Hw Hsd Hd _ Hn1 Hn2 _].
    destruct (calls_same o e (step_end a e)) as [? Hturn]; try done; [..|by auto].
    + intros id p. by apply (peer_stays cfg).
    + intros t. by apply (done_stays cfg).
    + intros w m p f Hm He. destruct (Hw w m Hm) as [?|[_ [Hp|Hp]]]; [done|by rewrite He in Hp|]. rewrite He in Hp. by apply Hno in Hp.
    + intros t ctx p f after k Ht. destruct (Hsd _ _ _ _ _ Ht) as [?|[_ [Hp|Hp]]]; [done|done|by apply Hno in Hp].
    + intros t id f _ Hway. assert (is_Some (s_threads (e_session e) !! t)) by (unfold on_way in Hway; destruct (s_threads (e_session e) !! t); [by eexists|done]). apply (way_step cfg Hcfg o); [done| |done|done].
      intros choice ctx en after k -> Ht. unfold on_way in Hway. rewrite Ht in Hway.
      destruct en as [| |[[p f']|]| | | | | | | | |]; try done. apply (Hno p f'). cbn. by eauto.
    + cbn. replace (call_of a _) with (@nil (Z * Z * bytes)) by (destruct a; try done; by destruct (Hns ch frame wake)). by rewrite app_nil_r.
Qed.
End calls_step.

(** ** The network *)

Definition other (x : side) : side := match x with A => B | B => A end.
Definition end_of (x : side) (n : Network) : End := match x with A => n_a n | B => n_b n end.
Definition cfg_of (x : side) (cfgA cfgB : Config) : Config := match x with A => cfgA | B => cfgB end.

(** Whether the calls of [Send] on each channel were made one after the other. *)
Fixpoint net_calm `{ProtoSize} (ls : list NetLabel) (n : Network) : bool :=
  match ls with
  | [] => true
  | l :: ls => match net_step l n with
      | Some n' => match l with NLocal x a => calm a (end_of x n) | NDeliver _ => true end && net_calm ls n'
      | None => true
      end
  end.

Record net_inv `{ProtoSize} (cfgA cfgB : Config) (orderly : bool) (n : Network) : Prop := {
  ni_reachable x : reachable (cfg_of x cfgA cfgB) (e_session (end_of x n));
  ni_direction x : direction_ok (end_of (other x) n) (end_of x n);
  ni_calls x : ∃ o, calls_ok o (end_of x n) ∧ (orderly = true → in_turn o (end_of x n));
}.

Section network_inv.
Context `{ProtoSizeLaws} (cfgA cfgB : Config) (HA : config_ok cfgA) (HB : config_ok cfgB).

Lemma cfg_of_ok x : config_ok (cfg_of x cfgA cfgB).
Proof. by destruct x. Qed.

Lemma net_inv_new b hA hB : net_inv cfgA cfgB b (MkNetwork (new_end cfgA hA) (new_end cfgB hB)).
Proof.
  split; intros []; try apply reach_init; try (split; [cbn; lia|done]).
  all: exists ∅; split; [split; cbn; try done; [..|constructor| |]; intros *; rewrite ?lookup_empty; try done; by intros ?%elem_of_nil|intros _ t t' id f f' Hin; by apply elem_of_nil in Hin].
Qed.

(** A step of the sender only adds to what it sent. *)
Lemma direction_sends cfg (tx rx : End) a : reachable cfg (e_session tx) → direction_ok tx rx → direction_ok (step_end a tx) rx.
Proof.
  intros Hs [Hle Hok]. destruct (em_sent _ _ _ (step_emitted cfg (e_session tx) a Hs)) as [more Em].
  unfold direction_ok. cbn [step_end e_session]. rewrite Em, fmap_app, length_app. split; [lia|]. intros id. rewrite take_app_le by done. apply Hok.
Qed.

Lemma direction_local cfg (tx rx : End) a : config_ok cfg → reachable cfg (e_session rx) → is_receive a = false → direction_ok tx rx → direction_ok tx (step_end a rx).
Proof.
  intros Hcfg Hs Ha [Hle Hok]. split; [done|]. intros id. apply (stream_step cfg Hcfg); [done|by destruct a|by destruct a|apply Hok].
Qed.

Lemma deliver_inv (tx rx rx' : End) : deliver tx rx = Some rx' → ∃ env, (s_sent (e_session tx)).*2 !! e_taken rx = Some env ∧
  s_receiver (e_session rx) = RcvRunning ∧
  let e := step_end (AReceive env) rx in e_session rx' = e_session e ∧ e_read rx' = e_read e ∧ e_calls rx' = e_calls e ∧ e_taken rx' = S (e_taken rx).
Proof.
  unfold deliver. intros Hd. case_match eqn:E1; [|done]. case_match eqn:E2; try done. injection Hd as <-. eexists. split; [done|]. split; [done|].
  cbn. by rewrite !app_nil_r.
Qed.

Lemma stream_ok_ext (e e' : End) id l : e_session e' = e_session e → e_read e' = e_read e → stream_ok e id l → stream_ok e' id l.
Proof. unfold stream_ok. by intros -> ->. Qed.

Lemma calls_ok_ext o (e e' : End) : e_session e' = e_session e → e_calls e' = e_calls e →
  (calls_ok o e → calls_ok o e') ∧ (in_turn o e → in_turn o e').
Proof. intros E1 E2. split; [intros []; split; by rewrite ?E1, ?E2|]. unfold in_turn. by rewrite E1, E2. Qed.

Lemma direction_deliver cfg (tx rx rx' : End) : config_ok cfg → reachable cfg (e_session rx) →
  (∀ e, e ∈ (s_sent (e_session tx)).*2 → envelope_wf e) → deliver tx rx = Some rx' → direction_ok tx rx → direction_ok tx rx'.
Proof.
  intros Hcfg Hs Hw Hd [Hle Hok]. destruct (deliver_inv _ _ _ Hd) as (env & Henv & Hr & Es & Er & _ & Et).
  unfold direction_ok. rewrite Et. split; [by apply lookup_lt_Some in Henv; lia|]. intros id.
  rewrite (take_S_r _ _ _ Henv), data_for_app. eapply stream_ok_ext; [done..|]. apply (stream_receive cfg Hcfg); [done| |done|apply Hok].
  apply Hw. by eapply list_elem_of_lookup_2.
Qed.
End network_inv.

Section network_runs.
Context `{ProtoSizeLaws} (cfgA cfgB : Config) (HA : config_ok cfgA) (HB : config_ok cfgB).

Lemma net_step_inv l n n' : net_step l n = Some n' → ∃ x, end_of (other x) n' = end_of (other x) n ∧
  ((∃ a, l = NLocal x a ∧ is_receive a = false ∧ end_of x n' = step_end a (end_of x n)) ∨
   (l = NDeliver x ∧ deliver (end_of (other x) n) (end_of x n) = Some (end_of x n'))).
Proof.
  destruct l as [[] a|[]]; cbn; intros Hn; repeat case_match; simplify_eq/=.
  - exists A. eauto 7.
  - exists B. eauto 7.
  - by exists A; auto.
  - by exists B; auto.
Qed.

Lemma side_cases (x y : side) : y = x ∨ y = other x.
Proof. destruct x, y; auto. Qed.

Lemma other_other x : other (other x) = x.
Proof. by destruct x. Qed.

Lemma sent_all_wf cfg s e : config_ok cfg → reachable cfg s → e ∈ (s_sent s).*2 → envelope_wf e.
Proof. intros Hcfg Hs Hin. apply list_elem_of_fmap in Hin as ([w ?] & -> & Hin). by eapply sent_wf. Qed.

Lemma net_inv_step b l n n' : net_inv cfgA cfgB b n → net_step l n = Some n' →
  net_inv cfgA cfgB (b && match l with NLocal x a => calm a (end_of x n) | NDeliver _ => true end) n'.
Proof.
  intros [Hr Hd Hc] Hn. destruct (net_step_inv l n n' Hn) as (x & Eo & Hx). pose proof (cfg_of_ok cfgA cfgB HA HB x) as Hcfg.
  pose proof (Hr x) as Hrx. pose proof (Hd x) as Hdx. pose proof (Hd (other x)) as Hdo. rewrite other_other in Hdo.
  set (b' := b && _). assert (Hb : b' = true → b = true) by (by intros [? _]%andb_true_iff).
  assert (reachable (cfg_of x cfgA cfgB) (e_session (end_of x n')) ∧ direction_ok (end_of (other x) n) (end_of x n') ∧
    direction_ok (end_of x n') (end_of (other x) n) ∧ ∃ o, calls_ok o (end_of x n') ∧ (b' = true → in_turn o (end_of x n'))) as (G1 & G2 & G3 & G4).
  { destruct (Hc x) as (o & Hok & Hturn). destruct Hx as [(a & -> & Ha & ->)|[-> Hdel]].
    - assert (action_wf a) by (by destruct a). split_and!; [by apply reach_step|by apply (direction_local (cfg_of x cfgA cfgB))|
        by apply (direction_sends (cfg_of x cfgA cfgB))|].
      destruct (calls_step (cfg_of x cfgA cfgB) Hcfg o (end_of x n) a) as (o' & ? & Ht); [done..|]. exists o'. split; [done|]. intros [? ?]%andb_true_iff. auto.
    - assert (Hwf : ∀ e, e ∈ (s_sent (e_session (end_of (other x) n))).*2 → envelope_wf e)
        by (intros e; apply (sent_all_wf (cfg_of (other x) cfgA cfgB)); [by destruct x|apply Hr]).
      pose proof (direction_deliver (cfg_of x cfgA cfgB) _ _ _ Hcfg Hrx Hwf Hdel Hdx) as G2.
      destruct (deliver_inv _ _ _ Hdel) as (env & Henv & _ & Es & _ & Ec & _).
      assert (action_wf (AReceive env)) by (apply Hwf; by eapply list_elem_of_lookup_2).
      split_and!; [rewrite Es; by apply reach_step|done|unfold direction_ok; rewrite Es; by apply (direction_sends (cfg_of x cfgA cfgB))|].
      destruct (calls_step (cfg_of x cfgA cfgB) Hcfg o (end_of x n) (AReceive env)) as (o' & ? & Ht); [done..|].
      destruct (calls_ok_ext o' _ _ Es Ec) as [G3 G4]. exists o'. split; [by apply G3|]. intros Hbt. apply G4, Ht; auto. }
  split; intros y; destruct (side_cases x y) as [->| ->]; rewrite ?other_other, ?Eo; try done.
  destruct (Hc (other x)) as (o & ? & ?). exists o. auto.
Qed.

Lemma net_inv_run ls b n n' : net_inv cfgA cfgB b n → net_run ls n = Some n' → net_inv cfgA cfgB (b && net_calm ls n) n'.
Proof.
  revert b n. induction ls as [|l ls IH]; cbn; intros b n Hn Hr; [injection Hr as <-; by rewrite andb_true_r|].
  destruct (net_step l n) as [n1|] eqn:E; [|done]. rewrite andb_assoc. eapply IH; [|done]. by apply net_inv_step.
Qed.

Lemma net_run_inv ls hA hB n : let n0 := MkNetwork (new_end cfgA hA) (new_end cfgB hB) in
  net_run ls n0 = Some n → net_inv cfgA cfgB (net_calm ls n0) n.
Proof. intros n0 Hr. apply (net_inv_run ls true n0 n); [apply net_inv_new|done]. Qed.
End network_runs.

(** ** The data that was sent *)

(** Two lists in the order of their keys. *)
Lemma sorted_sublist {T} (f : T → Z) (l k : list T) : increasing (f <$> l) → increasing (f <$> k) → l ⊆ k → l `sublist_of` k.
Proof.
  revert l. induction k as [|y k IH]; intros l Hl Hk Hin.
  - destruct l as [|x l]; [constructor|]. assert (x ∈ []) as Hx by (apply Hin; left). by apply elem_of_nil in Hx.
  - unfold increasing in *. rewrite fmap_cons in Hk. apply StronglySorted_inv in Hk as [Hk Hlt]. rewrite Forall_forall in Hlt.
    destruct l as [|x l]; [apply sublist_nil_l|]. rewrite fmap_cons in Hl. apply StronglySorted_inv in Hl as Hl'. destruct Hl' as [Hl' Hlt']. rewrite Forall_forall in Hlt'.
    assert (Hy : ∀ z, z ∈ l → f x < f z) by (intros z Hz; apply Hlt', list_elem_of_fmap; eauto).
    assert (Hy' : ∀ z, z ∈ k → f y < f z) by (intros z Hz; apply Hlt, list_elem_of_fmap; eauto).
    assert (Hx : x ∈ y :: k) by (apply Hin; left). apply elem_of_cons in Hx as [->|Hx].
    + apply sublist_skip, IH; [done..|]. intros z Hz. assert (Hz' : z ∈ y :: k) by (apply Hin; by right).
      apply elem_of_cons in Hz' as [->|]; [|done]. apply Hy in Hz. lia.
    + apply sublist_cons, IH; [done..|]. intros z Hz. assert (Hz' : z ∈ y :: k) by (by apply Hin).
      apply elem_of_cons in Hz' as [->|]; [|done]. apply elem_of_cons in Hz as [->|Hz]; [done|]. apply Hy in Hz. apply Hy' in Hx. lia.
Qed.

(** The writes that carried the data for one channel. *)
Fixpoint data_writes (p : Z) (sent : list (Z * Envelope)) : list (Z * bytes) :=
  match sent with
  | (w, EChannelData (Some (i, data))) :: l => if i =? p then (w, data) :: data_writes p l else data_writes p l
  | _ :: l => data_writes p l
  | [] => []
  end.

Lemma data_writes_data p sent : (data_writes p sent).*2 = data_for p sent.*2.
Proof.
  induction sent as [|[w e] l IH]; [done|]. cbn. destruct e as [| |[[i d]|]| | | | | | | | |]; try done. destruct (i =? p); cbn; by rewrite IH.
Qed.

Lemma data_writes_elem p sent w d : (w, d) ∈ data_writes p sent → (w, EChannelData (Some (p, d))) ∈ sent.
Proof.
  induction sent as [|[i e] l IH]; [by intros ?%elem_of_nil|]. cbn.
  destruct e as [| |[[j c]|]| | | | | | | | |]; try (intros ?; right; by apply IH). destruct (Z.eqb_spec j p) as [->|]; [|intros ?; right; by apply IH].
  intros [[= <- <-]|?]%elem_of_cons; [left|right; by apply IH].
Qed.

Lemma data_writes_intro p sent w d : (w, EChannelData (Some (p, d))) ∈ sent → (w, d) ∈ data_writes p sent.
Proof.
  induction sent as [|[i e] l IH]; [by intros ?%elem_of_nil|]. intros [[= <- <-]|Hin]%elem_of_cons; [cbn; rewrite Z.eqb_refl; left|].
  specialize (IH Hin). cbn. destruct e as [| |[[j c]|]| | | | | | | | |]; try done. destruct (j =? p); [by right|done].
Qed.

Lemma increasing_sublist l k : l `sublist_of` k → increasing k → increasing l.
Proof.
  unfold increasing. induction 1 as [|x l k Hs IH|x l k Hs IH]; intros Hk; [done|..]; apply StronglySorted_inv in Hk as [Hk Hx]; [|by apply IH].
  constructor; [by apply IH|]. rewrite Forall_forall in *. intros y Hy. apply Hx. by eapply elem_of_submseteq, sublist_submseteq.
Qed.

(** Keys that are in one-to-one correspondence with the writes of a list. *)
Lemma keys_NoDup {T U} (o : gmap Z Z) (key : T → Z) (l : list (Z * U)) (cs : list T) :
  Forall2 (λ x c, o !! key c = Some x.1) l cs → NoDup l.*1 → NoDup (key <$> cs).
Proof.
  induction 1 as [|x c l cs Hx Hf IH]; intros Hn; [constructor|]. cbn in Hn |- *. apply NoDup_cons in Hn as [Hn1 Hn2]. constructor; [|by apply IH].
  intros (c' & Ec & Hin)%list_elem_of_fmap. apply Hn1. apply list_elem_of_lookup in Hin as [i Hi].
  destruct (Forall2_lookup_r _ _ _ _ _ Hf Hi) as (x' & Hx' & Ho). rewrite <- Ec, Hx in Ho. injection Ho as ->.
  apply list_elem_of_fmap. exists x'. split; [done|]. by eapply list_elem_of_lookup_2.
Qed.

Lemma keys_increasing {T U} (o : gmap Z Z) (key : T → Z) (l : list (Z * U)) (cs : list T) :
  Forall2 (λ x c, o !! key c = Some x.1) l cs → increasing l.*1 →
  (∀ c c' w w', c ∈ cs → c' ∈ cs → o !! key c = Some w → o !! key c' = Some w' → w < w' → key c < key c') → increasing (key <$> cs).
Proof.
  unfold increasing. induction 1 as [|x c l cs Hx Hf IH]; intros Hn Hk; [constructor|]. cbn in Hn |- *. apply StronglySorted_inv in Hn as [Hn1 Hn2].
  rewrite Forall_forall in Hn2. constructor; [apply IH; [done|]; intros c1 c2 w w' H1 H2; apply Hk; by right|].
  apply Forall_forall. intros k (c' & -> & Hin)%list_elem_of_fmap. assert (Hin' := Hin). apply list_elem_of_lookup in Hin' as [i Hi].
  destruct (Forall2_lookup_r _ _ _ _ _ Hf Hi) as (x' & Hx' & Ho). eapply Hk; [left|by right|done..|]. apply Hn2, list_elem_of_fmap.
  exists x'. split; [done|]. by eapply list_elem_of_lookup_2.
Qed.

Section sent_data.
Context `{ProtoSizeLaws} (cfg : Config) (Hcfg : config_ok cfg) (o : gmap Z Z) (e : End).
Context (Hs : reachable cfg (e_session e)) (Hok : calls_ok o e).

Lemma data_writes_increasing p : increasing (data_writes p (s_sent (e_session e))).*1.
Proof.
  pose proof (reachable_writer cfg _ Hs) as HW. set (s := e_session e) in *.
  assert (Hinc : increasing (sent_ids (s_writes s) false (s_sent s))).
  { eapply increasing_sublist; [|apply (wi_outbound _ HW)]. unfold pipeline. apply sublist_inserts_r. done. }
  eapply increasing_sublist; [|exact Hinc]. unfold sent_ids.
  assert (Hc : ∀ w d, (w, d) ∈ data_writes p (s_sent s) → is_control (s_writes s) w = false).
  { intros w d Hin. apply data_writes_elem in Hin. destruct (wi_sent _ HW _ _ Hin) as (m & Hm & _ & He).
    destruct (ca_write _ _ Hok w m p d Hm He) as [Hctl _]. unfold is_control. by rewrite Hm. }
  revert Hc. generalize (s_sent s) as sent. induction sent as [|[w en] l IH]; intros Hc; [done|]. rewrite fmap_cons, filter_cons. cbn [fst].
  assert (Hskip : (∀ w0 d0, (w0, d0) ∈ data_writes p l → is_control (s_writes s) w0 = false) →
    (data_writes p l).*1 `sublist_of` (if decide (is_control (s_writes s) w = false) then w :: filter (λ w, is_control (s_writes s) w = false) l.*1 else filter (λ w, is_control (s_writes s) w = false) l.*1)).
  { intros Hl. case_decide; [apply sublist_cons|]; by apply IH. }
  cbn in Hc |- *. destruct en as [| |[[i d]|]| | | | | | | | |]; try (by apply Hskip). destruct (i =? p); [|by apply Hskip].
  rewrite decide_True by (apply (Hc w d); left). apply sublist_skip, IH. intros w0 d0 Hin. apply (Hc w0 d0). by right.
Qed.

Definition sent_by p (x : Z * bytes) (c : Z * Z * bytes) : Prop :=
  o !! c.1.1 = Some x.1 ∧ c ∈ e_calls e ∧ c.2 = x.2 ∧ peer_is (e_session e) c.1.2 p.

Lemma owners p l cs : Forall2 (sent_by p) l cs → Forall2 (λ x c, o !! c.1.1 = Some x.1) l cs ∧ cs.*2 = l.*2.
Proof. induction 1 as [|x c l cs (H1 & _ & H2 & _) _ [IH1 IH2]]; [done|]. split; [by constructor|]. cbn. by rewrite H2, IH2. Qed.

Lemma calls_unique t id f id' f' : (t, id, f) ∈ e_calls e → (t, id', f') ∈ e_calls e → id' = id ∧ f' = f.
Proof.
  intros H1 H2. pose proof (increasing_NoDup _ (ca_threads _ _ Hok)) as Hnd. rewrite <- list_fmap_compose in Hnd.
  apply list_elem_of_lookup in H1 as [i Hi], H2 as [j Hj]. assert (i = j) as <-.
  { eapply (NoDup_lookup _ i j t Hnd); rewrite list_lookup_fmap; [by rewrite Hi|by rewrite Hj]. }
  rewrite Hi in Hj. by injection Hj.
Qed.

(** A call that returned without an error was sent. *)
Lemma returned_sent t id f p : (t, id, f) ∈ e_calls e → s_threads (e_session e) !! t = Some (TDone (RetUnit (Ok tt))) →
  peer_is (e_session e) id p → ∃ w, o !! t = Some w ∧ (w, f) ∈ data_writes p (s_sent (e_session e)).
Proof.
  intros Hin Hd Hp. pose proof (ca_way _ _ Hok t id f Hin) as Hway. unfold on_way in Hway. rewrite Hd in Hway.
  destruct (Hway eq_refl) as (w & q & Ho & Hs1). exists w. split; [done|].
  destruct (wi_sent _ (reachable_writer cfg _ Hs) _ _ Hs1) as (m & Hm & _ & He). destruct (ca_write _ _ Hok w m q f Hm He) as (_ & t' & id' & Ho' & Hin' & Hq).
  rewrite (ca_inj _ _ Hok t' t w Ho' Ho) in Hin'. destruct (calls_unique _ _ _ _ _ Hin Hin') as [-> _].
  destruct Hp as (c & Hc & _ & <-), Hq as (c' & Hc' & _ & Eq). rewrite Hc in Hc'. injection Hc' as <-. rewrite Eq. by apply data_writes_intro.
Qed.

(** The calls that sent the data for one channel, in the order in which it was sent. *)
Lemma sent_calls p : ∃ cs : list (Z * Z * bytes), cs.*2 = data_for p (s_sent (e_session e)).*2 ∧ cs ⊆ e_calls e ∧ NoDup cs.*1.*1 ∧
  (∀ t id f, (t, id, f) ∈ cs → peer_is (e_session e) id p) ∧
  (∀ t id f, (t, id, f) ∈ e_calls e → peer_is (e_session e) id p → s_threads (e_session e) !! t = Some (TDone (RetUnit (Ok tt))) → (t, id, f) ∈ cs) ∧
  (in_turn o e → one_channel e p → cs `sublist_of` e_calls e).
Proof.
  pose proof (data_writes_increasing p) as Hinc. set (s := e_session e) in *.
  assert (Hc : ∀ w d, (w, d) ∈ data_writes p (s_sent s) → ∃ t id, o !! t = Some w ∧ (t, id, d) ∈ e_calls e ∧ peer_is s id p).
  { intros w d Hin. apply data_writes_elem in Hin. destruct (wi_sent _ (reachable_writer cfg _ Hs) _ _ Hin) as (m & Hm & _ & He).
    destruct (ca_write _ _ Hok w m p d Hm He) as [_ Hx]. done. }
  assert (∃ cs : list (Z * Z * bytes), Forall2 (sent_by p) (data_writes p (s_sent s)) cs) as [cs Hcs].
  { revert Hc. clear. induction (data_writes p (s_sent s)) as [|[w d] l IH]; intros Hc; [by exists []|].
    destruct IH as [cs Hcs]; [intros w0 d0 Hin; apply (Hc w0 d0); by right|]. destruct (Hc w d) as (t & id & ? & ? & ?); [left|].
    exists ((t, id, d) :: cs). by constructor. }
  exists cs. rewrite <- data_writes_data.
  assert (Hel : ∀ c, c ∈ cs → ∃ w, o !! c.1.1 = Some w ∧ w ∈ (data_writes p (s_sent s)).*1 ∧ c ∈ e_calls e ∧ peer_is s c.1.2 p).
  { intros c Hin. apply list_elem_of_lookup in Hin as [i Hi]. destruct (Forall2_lookup_r _ _ _ _ _ Hcs Hi) as (x & Hx & ? & ? & ? & ?).
    exists x.1. split_and!; try done. apply list_elem_of_fmap. exists x. split; [done|]. by eapply list_elem_of_lookup_2. }
  assert (Hsub : cs ⊆ e_calls e) by (intros c Hin; by destruct (Hel c Hin) as (? & ? & ? & ? & ?)).
  assert (Hinj : NoDup cs.*1.*1) by (rewrite <- list_fmap_compose; eapply (keys_NoDup o _ _ _ (proj1 (owners p _ cs Hcs))), increasing_NoDup, Hinc).
  split_and!; [by eapply owners|done|done| | |].
  - intros t id f Hin. by destruct (Hel _ Hin) as (? & ? & ? & ? & ?).
  - intros t id f Hin Hp Hd. destruct (returned_sent t id f p Hin Hd Hp) as (w & Ho & Hw). apply list_elem_of_lookup in Hw as [i Hi].
    destruct (Forall2_lookup_l _ _ _ _ _ Hcs Hi) as ([[t' id'] f'] & Hc' & Ho' & Hin' & _). cbn in Ho'.
    rewrite (ca_inj _ _ Hok t' t w Ho' Ho) in Hin', Hc'. destruct (calls_unique _ _ _ _ _ Hin Hin') as [-> ->]. by eapply list_elem_of_lookup_2.
  - intros Hturn Hone. apply (sorted_sublist (λ c, c.1.1)); [|pose proof (ca_threads _ _ Hok) as Ht; by rewrite <- list_fmap_compose in Ht|done].
    eapply (keys_increasing o _ _ _ (proj1 (owners p _ cs Hcs))); [done|].
    intros [[t id] f] [[t' id'] f'] w w' H1 H2 Ho Ho' Hlt. cbn in *. destruct (Hel _ H1) as (_ & _ & _ & Hi1 & Hp1). destruct (Hel _ H2) as (_ & _ & _ & Hi2 & Hp2).
    cbn in Hp1, Hp2. rewrite (Hone t id f t' id' f') in Hi1 by done. destruct (Z.lt_trichotomy t t') as [?|[->|Hgt]]; [done| |].
    + rewrite Ho in Ho'. injection Ho' as ->. lia.
    + destruct (Hturn t' t id' f' f Hi2 Hi1 Hgt) as [_ Hw]. specialize (Hw _ _ Ho' Ho). lia.
Qed.
End sent_data.

(** ** Theorems *)

Definition two_ends (cfgA cfgB : Config) (hA hB : option HandlerRef) : Network := MkNetwork (new_end cfgA hA) (new_end cfgB hB).

(** C4: What the callers of a channel read, with what still waits in it, is a prefix of
    what was sent to it: while the receiver runs and the channel is not over, only
    the frames that are on their way are missing.  Every frame that was sent is that
    of one call of [Send] at the other end on a channel opened towards this one,
    and every such call that returned without an error is among them.  When the calls
    were made one after the other, on one channel towards this one, the frames
    arrive in the order of the calls. *)
Theorem channel_stream_faithful `{ProtoSizeLaws} (cfgA cfgB : Config) (hA hB : option HandlerRef) (ls : list NetLabel) (n : Network)
    (x : side) (id : Z) (c : Channel) (HA : config_ok cfgA) (HB : config_ok cfgB)
    (Hrun : net_run ls (two_ends cfgA cfgB hA hB) = Some n) (Hc : s_store (e_session (end_of x n)) !! id = Some c) :
  let rx := end_of x n in
  let tx := end_of (other x) n in
  let got := reads_for id (e_read rx) ++ ch_frames c in
  ∃ cs : list (Z * Z * bytes),
    cs.*2 = data_for id (s_sent (e_session tx)).*2 ∧ got `prefix_of` cs.*2 ∧
    (¬ exited (e_session rx) → is_terminal (ch_state c) = false →
       got ++ data_for id (drop (e_taken rx) (s_sent (e_session tx)).*2) = cs.*2) ∧
    cs ⊆ e_calls tx ∧ NoDup cs.*1.*1 ∧
    (∀ t id' f, (t, id', f) ∈ cs → peer_is (e_session tx) id' id) ∧
    (∀ t id' f, (t, id', f) ∈ e_calls tx → peer_is (e_session tx) id' id →
       s_threads (e_session tx) !! t = Some (TDone (RetUnit (Ok tt))) → (t, id', f) ∈ cs) ∧
    (net_calm ls (two_ends cfgA cfgB hA hB) = true →
       one_channel tx id → cs `sublist_of` e_calls tx).
Proof.
  cbv zeta. destruct (net_run_inv cfgA cfgB HA HB ls hA hB n Hrun) as [Hr Hd Hcalls]. destruct (Hd x) as [_ Hst].
  destruct (Hcalls (other x)) as (o & Hok & Hturn). specialize (Hst id). unfold stream_ok in Hst. rewrite Hc in Hst. destruct Hst as [Hp Heq].
  destruct (sent_calls _ o (end_of (other x) n) (Hr (other x)) Hok id) as (cs & E & H1 & H2 & H3 & H4 & H5). exists cs.
  assert (Hsplit : cs.*2 = data_for id (take (e_taken (end_of x n)) (s_sent (e_session (end_of (other x) n))).*2) ++
    data_for id (drop (e_taken (end_of x n)) (s_sent (e_session (end_of (other x) n))).*2)) by (by rewrite E, <- data_for_app, take_drop).
  split_and!; [done| |by intros Hn Ht; rewrite Hsplit, Heq|done..|].
  - rewrite Hsplit. by apply prefix_app_r.
  - intros Hcalm Hone. apply H5; [by apply Hturn|done].
Qed.

#[local] Existing Instance toy_size.
#[local] Existing Instance toy_size_laws.

Definition on (x : side) (l : list Action) : list NetLabel := NLocal x <$> l.

(** Both sides start; [A] opens a channel and [B] accepts it. *)
Definition connect : list NetLabel :=
  on A (start_loops ++ [AOpenChannel "command" [] (Some UserHandler)] ++ flush 0) ++
  on B start_loops ++ [NDeliver B] ++ on B ([ADispatchTake; ADecision accept_all] ++ flush 0) ++ [NDeliver A].

Definition two_sessions : Network := two_ends default_config default_config (Some UserHandler) (Some UserHandler).

(** [A] sends two frames; [B] has read the first and the second is on its way. *)
Definition exchange : list NetLabel :=
  connect ++ on A (ASend 0 [x61; x62] WakeState :: flush 1) ++ [NDeliver B] ++ on B [ARecv 0 WakeState] ++ on A (ASend 0 [x63] WakeState :: flush 2).

(** The end [x] of the state that a run of the two sessions reaches. *)
Definition reached (ls : list NetLabel) (x : side) : End := end_of x (default two_sessions (net_run ls two_sessions)).

Lemma channel_stream_faithful_witness :
  ∃ cs, cs.*2 = [[x61; x62]; [x63]] ∧ cs `sublist_of` e_calls (reached exchange A).
Proof.
  destruct (net_run exchange two_sessions) as [n|] eqn:Hrun; [|vm_compute in Hrun; discriminate].
  assert (E : ∀ x, end_of x n = reached exchange x) by (intros x; unfold reached; by rewrite Hrun).
  assert (Hc : s_store (e_session (end_of B n)) !! 0 = Some (chan (e_session (reached exchange B)) 0)) by (rewrite E; vm_compute; reflexivity).
  destruct (channel_stream_faithful default_config default_config (Some UserHandler) (Some UserHandler) exchange n B 0 _
    default_config_ok default_config_ok Hrun Hc) as (cs & _ & _ & Heq & _ & _ & _ & _ & Hord).
  cbn [other] in *. rewrite (E A), (E B) in Heq. rewrite (E A) in Hord. exists cs. split.
  - rewrite <- Heq; [vm_compute; reflexivity|vm_compute; discriminate|vm_compute; reflexivity].
  - apply Hord; [vm_compute; reflexivity|].
    assert (Ec : e_calls (reached exchange A) = [(1, 0, [x61; x62]); (2, 0, [x63])]) by (vm_compute; reflexivity).
    intros t i f t' i' f'. rewrite Ec, !elem_of_cons, !elem_of_nil. intros [[=]|[[=]|[]]] [[=]|[[=]|[]]] _ _; congruence.
Defined.

(** ** Many small frames *)

(** [A] sends [k] frames of one byte, one after the other, and [B] reads none. *)
Definition flood (k : nat) : list NetLabel :=
  connect ++ flat_map (λ i, on A (ASend 0 [x61] WakeState :: flush (Z.of_nat i)) ++ [NDeliver B]) (seq 1 k).

(** The window of a channel admits 262144 bytes, and its queue 256 frames: the frames
    that [Send] lets through within the window end the whole session of the
    receiver when there is one too many in the queue. *)
Theorem small_frames_are_fatal :
  exited (e_session (reached (flood 257) B)) ∧ s_waitErr (e_session (reached (flood 257) B)) = Some errResourceLimit ∧
  ch_remoteWindow (chan (e_session (reached (flood 257) A)) 0) = 262144 - 257 ∧
  s_threads (e_session (reached (flood 257) A)) !! 257 = Some (TDone (RetUnit (Ok tt))) ∧
  ch_state (chan (e_session (reached (flood 256) B)) 0) = channelOpen.
Proof. vm_compute. repeat split; reflexivity. Qed.
