(* ===== verification/FlowControl.v ===== *)
(** * Flow control between two endpoints

    One direction of a channel, from the sending [Channel] of one session to the
    receiving [Channel] of the other.  The two endpoints run the window code of
    [lib/session/channel.go] ([Send], [Recv]) and [lib/session/session.go]
    ([handleChannelData], [handleChannelWindowAdjust]); between them are the
    sender's queue of accepted writes, the frames on the wire, and the window
    adjustments on their way back.  An execution is a list of [FlowAction]s in
    any order, so every interleaving of the two sides is covered. *)

From S2P Require Import Prelude SessionConfig SessionTypes SessionOps SessionSteps.

(** [fl_outbox] holds the [ChannelData] writes that are queued and can still be
    canceled, [fl_wire] the ones written, [fl_adjusts] the adjustments written by
    the receiver.  [fl_written] and [fl_read] are history: the frames written so
    far and the frames [Recv] returned.  [fl_broken] records a frame that a
    handler answered with a protocol error. *)
Record Flow := MkFlow {
  fl_tx : Channel;
  fl_rx : Channel;
  fl_outbox : list bytes;
  fl_wire : list bytes;
  fl_adjusts : list Z;
  fl_written : list bytes;
  fl_read : list bytes;
  fl_broken : bool;
}.

Definition eta_Flow (f : Flow) : Flow :=
  MkFlow (fl_tx f) (fl_rx f) (fl_outbox f) (fl_wire f) (fl_adjusts f) (fl_written f) (fl_read f)
    (fl_broken f).

#[export] Instance set_fl_tx : Setter fl_tx := ltac:(derive_setter eta_Flow).
#[export] Instance set_fl_rx : Setter fl_rx := ltac:(derive_setter eta_Flow).
#[export] Instance set_fl_outbox : Setter fl_outbox := ltac:(derive_setter eta_Flow).
#[export] Instance set_fl_wire : Setter fl_wire := ltac:(derive_setter eta_Flow).
#[export] Instance set_fl_adjusts : Setter fl_adjusts := ltac:(derive_setter eta_Flow).
#[export] Instance set_fl_written : Setter fl_written := ltac:(derive_setter eta_Flow).
#[export] Instance set_fl_read : Setter fl_read := ltac:(derive_setter eta_Flow).
#[export] Instance set_fl_broken : Setter fl_broken := ltac:(derive_setter eta_Flow).

(** The window part of the guards of [Channel.Send]. *)
Definition can_send (frame : bytes) (c : Channel) : bool :=
  negb (blen frame =? 0) && (blen frame <=? MaxUint32) && (blen frame <=? ch_maxRemotePacket c)
  && (u32 (blen frame) <=? ch_remoteWindow c).

Inductive FlowAction :=
  | FSend (frame : bytes)
  | FCancel (i : nat)
  | FWrite (i : nat)
  | FDeliver
  | FRecv
  | FAdjust (i : nat).

Section flow.
Context (rcfg : Config).

(** [Send] accepts a frame; without window it waits. *)
Definition flow_send (frame : bytes) (f : Flow) : Flow :=
  if can_send frame (fl_tx f) then
    f <| fl_tx ::= take_window (u32 (blen frame)) |> <| fl_outbox ::= (λ l, l ++ [frame]) |>
  else f.

(** A queued write is canceled by its context; [Send] gives the bytes back. *)
Definition flow_cancel (i : nat) (f : Flow) : Flow :=
  match fl_outbox f !! i with
  | None => f
  | Some frame =>
      let size := u32 (blen frame) in
      f <| fl_outbox ::= delete i |>
        <| fl_tx ::= (λ c, if size <=? MaxUint32 - ch_remoteWindow c then add_window size c else c) |>
  end.

(** The goroutines that called [Send] reach the writer in any order. *)
Definition flow_write (i : nat) (f : Flow) : Flow :=
  match fl_outbox f !! i with
  | None => f
  | Some frame =>
      f <| fl_outbox ::= delete i |> <| fl_wire ::= (λ l, l ++ [frame]) |>
        <| fl_written ::= (λ l, l ++ [frame]) |>
  end.

(** [handleChannelData] on an open channel with queue room. *)
Definition flow_deliver (f : Flow) : Flow :=
  match fl_wire f with
  | [] => f
  | frame :: rest =>
      let size := u32 (blen frame) in
      let f := f <| fl_wire := rest |> in
      if (blen frame =? 0) || (ch_maxLocalPacket (fl_rx f) <? size) || (ch_localWindow (fl_rx f) <? size)
      then f <| fl_broken := true |>
      else f <| fl_rx ::= accept_data size frame |>
  end.

(** [Recv] with a frame waiting. *)
Definition flow_recv (f : Flow) : Flow :=
  match ch_frames (fl_rx f) with
  | [] => f
  | frame :: rest =>
      let size := u32 (blen frame) in
      let adjust := window_adjust (WindowAdjustThreshold rcfg) size (fl_rx f) in
      let f := f <| fl_rx ::= (λ c, consume_window (WindowAdjustThreshold rcfg) size (c <| ch_frames := rest |>)) |>
                 <| fl_read ::= (λ l, l ++ [frame]) |> in
      if 0 <? adjust then f <| fl_adjusts ::= (λ l, l ++ [adjust]) |> else f
  end.

(** [handleChannelWindowAdjust] on an open channel. *)
Definition flow_adjust (i : nat) (f : Flow) : Flow :=
  match fl_adjusts f !! i with
  | None => f
  | Some n =>
      let f := f <| fl_adjusts ::= delete i |> in
      if MaxUint32 - ch_remoteWindow (fl_tx f) <? n then f <| fl_broken := true |>
      else f <| fl_tx ::= add_window n |>
  end.

Definition flow_step (a : FlowAction) : Flow → Flow :=
  match a with
  | FSend frame => flow_send frame
  | FCancel i => flow_cancel i
  | FWrite i => flow_write i
  | FDeliver => flow_deliver
  | FRecv => flow_recv
  | FAdjust i => flow_adjust i
  end.

Definition flow_run (l : list FlowAction) (f : Flow) : Flow := foldl (λ f a, flow_step a f) f l.
End flow.

Definition flow_between (tx rx : Channel) : Flow := MkFlow tx rx [] [] [] [] [] false.

(** The two directions of a channel that was just opened: [ocfg] opened it and
    [acfg] accepted it. *)
Definition opener_end (ocfg acfg : Config) (typ : string) (h : option HandlerRef) (peer : Z) : Channel :=
  accept_open ocfg peer (InitialWindow acfg) (MaxPacketSize acfg) (newPendingChannel typ h).

Definition acceptor_end (ocfg acfg : Config) (typ : string) (h : option HandlerRef) (peer : Z) : Channel :=
  newIncomingChannel acfg peer typ (InitialWindow ocfg) (MaxPacketSize ocfg) h.

Inductive flow_reachable (ocfg acfg : Config) : Config → Flow → Prop :=
  | flow_to_acceptor typ h h' p p' :
      flow_reachable ocfg acfg acfg
        (flow_between (opener_end ocfg acfg typ h p) (acceptor_end ocfg acfg typ h' p'))
  | flow_to_opener typ h h' p p' :
      flow_reachable ocfg acfg ocfg
        (flow_between (acceptor_end ocfg acfg typ h' p') (opener_end ocfg acfg typ h p))
  | flow_next rcfg f a :
      flow_reachable ocfg acfg rcfg f → flow_reachable ocfg acfg rcfg (flow_step rcfg a f).

(** ** The window invariant *)

(** Bytes in a list of frames. *)
Definition total (l : list bytes) : Z := list_sum blen l.

Lemma list_sum_delete {A} (g : A → Z) (l : list A) i x :
  l !! i = Some x → list_sum g (delete i l) = list_sum g l - g x.
Proof.
  revert i. induction l as [|y l IH]; intros [|i] Hx; simplify_eq/=; rewrite ?list_sum_cons; [lia|].
  rewrite (IH i Hx). lia.
Qed.

Record flow_inv (rcfg : Config) (f : Flow) : Prop := {
  fi_credit : ch_remoteWindow (fl_tx f) + total (fl_outbox f) + total (fl_wire f)
    + total (ch_frames (fl_rx f)) + ch_pendingWindowBytes (fl_rx f)
    + list_sum id (fl_adjusts f) = InitialWindow rcfg;
  fi_window : ch_localWindow (fl_rx f) + total (ch_frames (fl_rx f)) = InitialWindow rcfg;
  fi_remote : 0 <= ch_remoteWindow (fl_tx f);
  fi_pending : 0 <= ch_pendingWindowBytes (fl_rx f) < WindowAdjustThreshold rcfg;
  fi_tx_max : ch_maxRemotePacket (fl_tx f) = MaxPacketSize rcfg;
  fi_rx_max : ch_maxLocalPacket (fl_rx f) = MaxPacketSize rcfg;
  fi_frames : Forall (λ b, 0 < blen b <= MaxPacketSize rcfg)
                (fl_outbox f ++ fl_wire f ++ ch_frames (fl_rx f));
  fi_adjusts : Forall (λ n, 0 < n) (fl_adjusts f);
  fi_order : fl_read f ++ ch_frames (fl_rx f) ++ fl_wire f = fl_written f;
  fi_broken : fl_broken f = false;
}.

Lemma total_nonneg l : 0 <= total l.
Proof. apply list_sum_nonneg. intros. apply blen_nonneg. Qed.

Lemma total_nil : total [] = 0.
Proof. done. Qed.

Lemma total_cons b l : total (b :: l) = blen b + total l.
Proof. done. Qed.

Lemma total_app l k : total (l ++ k) = total l + total k.
Proof. apply list_sum_app. Qed.

Lemma total_delete l i b : l !! i = Some b → total (delete i l) = total l - blen b.
Proof. apply list_sum_delete. Qed.

Lemma total_lookup l i b : l !! i = Some b → blen b <= total l.
Proof.
  intros Hb. pose proof (total_delete _ _ _ Hb). pose proof (total_nonneg (delete i l)). lia.
Qed.

Lemma adjusts_nonneg l : Forall (λ n, 0 < n) l → 0 <= list_sum id l.
Proof.
  intros Hl. apply list_sum_nonneg. intros x Hx. rewrite Forall_forall in Hl.
  specialize (Hl x Hx). simpl in Hl. unfold id. lia.
Qed.

Create Rewrite HintDb flow.
#[export] Hint Rewrite total_nil total_cons total_app @list_sum_nil @list_sum_cons @list_sum_app : flow.

Section flow_props.
Context (rcfg : Config) (Hcfg : config_ok rcfg).

Lemma window_bounds : 0 < MaxPacketSize rcfg <= InitialWindow rcfg ∧ InitialWindow rcfg < MaxUint32
  ∧ 0 < WindowAdjustThreshold rcfg <= InitialWindow rcfg.
Proof using Hcfg. destruct Hcfg as (? & ? & ? & ? & _). lia. Qed.

(** The facts the proofs use about every state: nothing is negative, and so no
    32-bit counter wraps. *)
Lemma flow_bounds f : flow_inv rcfg f →
  0 <= total (fl_outbox f) ∧ 0 <= total (fl_wire f) ∧ 0 <= total (ch_frames (fl_rx f))
  ∧ 0 <= list_sum id (fl_adjusts f).
Proof using Hcfg.
  intros []. split_and!; [apply total_nonneg..|by apply adjusts_nonneg].
Qed.

Lemma small_u32 (b : bytes) : blen b <= InitialWindow rcfg → u32 (blen b) = blen b.
Proof using Hcfg.
  intros. apply u32_id. pose proof window_bounds. pose proof (blen_nonneg b). unfold is_u32. lia.
Qed.

Ltac flow_simp := simpl in *; autorewrite with flow in *.

Ltac flow_open Hf :=
  pose proof window_bounds as Hwin; pose proof (flow_bounds _ Hf) as Hpos;
  destruct Hf as [Hcredit Hlocal Hremote Hpending Htx Hrx Hframes Hadj Horder Hbroken].

Lemma flow_send_inv frame f : flow_inv rcfg f → flow_inv rcfg (flow_send frame f).
Proof using Hcfg.
  intros Hf. unfold flow_send, can_send. case_match eqn:E; [|done]. flow_open Hf. bool_simp.
  pose proof (blen_nonneg frame). rewrite small_u32 in * by lia.
  rewrite !Forall_app in Hframes. destruct Hframes as (Hout & Hwire & Hq).
  constructor; flow_simp; try lia; try done.
  rewrite !Forall_app, Forall_singleton. split_and!; try done; lia.
Qed.

Lemma flow_cancel_inv i f : flow_inv rcfg f → flow_inv rcfg (flow_cancel i f).
Proof using Hcfg.
  intros Hf. unfold flow_cancel. case_match eqn:E; [|done]. flow_open Hf.
  rewrite !Forall_app in Hframes. destruct Hframes as (Hout & Hwire & Hq).
  pose proof (total_lookup _ _ _ E). pose proof (total_delete _ _ _ E) as Hd.
  pose proof (Forall_lookup_1 _ _ _ _ Hout E) as Hb. simpl in Hb.
  rewrite small_u32 by lia.
  constructor; flow_simp; rewrite ?(proj2 (Z.leb_le _ _)) by lia; flow_simp; try lia; try done.
  rewrite !Forall_app. split_and!; [by apply Forall_delete|done..].
Qed.

Lemma flow_write_inv i f : flow_inv rcfg f → flow_inv rcfg (flow_write i f).
Proof using Hcfg.
  intros Hf. unfold flow_write. case_match eqn:E; [|done]. flow_open Hf.
  rewrite !Forall_app in Hframes. destruct Hframes as (Hout & Hwire & Hq).
  pose proof (total_delete _ _ _ E) as Hd.
  pose proof (Forall_lookup_1 _ _ _ _ Hout E) as Hb. simpl in Hb.
  constructor; flow_simp; try lia; try done.
  - rewrite !Forall_app, Forall_singleton. split_and!; [by apply Forall_delete|done|lia..|done].
  - by rewrite <-Horder, !(assoc_L (++)).
Qed.

Lemma flow_deliver_inv f : flow_inv rcfg f → flow_inv rcfg (flow_deliver f).
Proof using Hcfg.
  intros Hf. unfold flow_deliver. case_match eqn:E; [done|]. flow_open Hf. rewrite E in *.
  rewrite !Forall_app, Forall_cons in Hframes. flow_simp. destruct_and!.
  match goal with H : fl_wire f = _ :: ?r |- _ => pose proof (total_nonneg r) end.
  rewrite small_u32, Hrx by lia.
  rewrite (proj2 (Z.eqb_neq _ _)), (proj2 (Z.ltb_ge (MaxPacketSize rcfg) _)),
    (proj2 (Z.ltb_ge (ch_localWindow _) _)) by (simpl; lia). simpl.
  constructor; flow_simp; try lia; try done.
  - rewrite !Forall_app, Forall_singleton. split_and!; done || lia.
  - by rewrite <-Horder, <-!(assoc_L (++)).
Qed.

Lemma flow_recv_inv f : flow_inv rcfg f → flow_inv rcfg (flow_recv rcfg f).
Proof using Hcfg.
  intros Hf. unfold flow_recv. case_match eqn:E; [done|]. flow_open Hf. rewrite E in *.
  rewrite !Forall_app, Forall_cons in Hframes. flow_simp. destruct_and!.
  match goal with H : ch_frames _ = _ :: ?r |- _ => pose proof (total_nonneg r) end.
  rewrite small_u32 by lia. unfold window_adjust.
  assert (Hwp : ∀ n c, ch_pendingWindowBytes c = ch_pendingWindowBytes (fl_rx f) → n = blen l →
    window_pending n c = ch_pendingWindowBytes (fl_rx f) + blen l).
  { intros n c Hc ->. unfold window_pending. rewrite Hc. apply u32_id. unfold is_u32. lia. }
  rewrite Hwp by done.
  destruct (Z.leb_spec (WindowAdjustThreshold rcfg) (ch_pendingWindowBytes (fl_rx f) + blen l)).
  - rewrite (proj2 (Z.ltb_lt _ _)) by lia.
    constructor; flow_simp; rewrite ?Hwp, ?(proj2 (Z.leb_le _ _)) by (done || lia);
      rewrite ?u32_id by (unfold is_u32; lia); unfold id in *; try lia; try done.
    + by rewrite !Forall_app.
    + rewrite Forall_app, Forall_singleton. split; [done|lia].
    + by rewrite <-Horder, <-!(assoc_L (++)).
  - rewrite (proj2 (Z.ltb_ge _ _)) by lia.
    constructor; flow_simp; rewrite ?Hwp, ?(proj2 (Z.leb_gt _ _)) by (done || lia);
      rewrite ?u32_id by (unfold is_u32; lia); unfold id in *; try lia; try done.
    + by rewrite !Forall_app.
    + by rewrite <-Horder, <-!(assoc_L (++)).
Qed.

Lemma flow_adjust_inv i f : flow_inv rcfg f → flow_inv rcfg (flow_adjust i f).
Proof using Hcfg.
  intros Hf. unfold flow_adjust. case_match eqn:E; [|done]. flow_open Hf.
  pose proof (list_sum_delete id _ _ _ E) as Hd. unfold id at 3 in Hd.
  pose proof (Forall_lookup_1 _ _ _ _ Hadj E) as Hn. simpl in Hn.
  pose proof (adjusts_nonneg _ (Forall_delete _ _ i Hadj)).
  flow_simp. rewrite (proj2 (Z.ltb_ge _ _)) by lia.
  constructor; flow_simp; try lia; try done. by apply Forall_delete.
Qed.

Lemma flow_step_inv a f : flow_inv rcfg f → flow_inv rcfg (flow_step rcfg a f).
Proof using Hcfg.
  destruct a; simpl; auto using flow_send_inv, flow_cancel_inv, flow_write_inv, flow_deliver_inv,
    flow_recv_inv, flow_adjust_inv.
Qed.
End flow_props.

Lemma reachable_flow_inv ocfg acfg rcfg f :
  config_ok ocfg → config_ok acfg → flow_reachable ocfg acfg rcfg f →
  config_ok rcfg ∧ flow_inv rcfg f.
Proof.
  intros Ho Ha Hf. induction Hf as [| |rcfg f a _ [Hr IH]].
  1-2: split; [done|]; pose proof (window_bounds _ Ho); pose proof (window_bounds _ Ha);
    constructor; cbn -[total]; rewrite ?total_nil, ?list_sum_nil; try lia; done || constructor.
  split; [done|]. by apply flow_step_inv.
Qed.

(** ** What flow control guarantees *)

(** C3: Between two sessions with valid configurations, no interleaving of sends,
    cancellations, deliveries, reads and adjustments makes a peer exceed a window:
    neither side ever answers with a protocol error, the credit in circulation is
    always the receiver's initial window, and what the receiver may still accept
    plus what waits for [Recv] is that window too. *)
Theorem window_conserved (ocfg acfg rcfg : Config) (f : Flow)
  (Ho : config_ok ocfg) (Ha : config_ok acfg) (Hf : flow_reachable ocfg acfg rcfg f) :
  fl_broken f = false ∧
  ch_remoteWindow (fl_tx f) + total (fl_outbox f) + total (fl_wire f)
    + total (ch_frames (fl_rx f)) + ch_pendingWindowBytes (fl_rx f)
    + list_sum id (fl_adjusts f) = InitialWindow rcfg ∧
  ch_localWindow (fl_rx f) + total (ch_frames (fl_rx f)) = InitialWindow rcfg.
Proof. destruct (reachable_flow_inv _ _ _ _ Ho Ha Hf) as [_ []]. done. Qed.

(** What [Recv] returned, then what waits for it, then what is on the wire is
    exactly what was written, in order: no frame is lost, duplicated or reordered. *)
Theorem stream_in_order (ocfg acfg rcfg : Config) (f : Flow)
  (Ho : config_ok ocfg) (Ha : config_ok acfg) (Hf : flow_reachable ocfg acfg rcfg f) :
  fl_read f ++ ch_frames (fl_rx f) ++ fl_wire f = fl_written f.
Proof. destruct (reachable_flow_inv _ _ _ _ Ho Ha Hf) as [_ []]. done. Qed.

(** ** Progress *)

(** Nothing is left to write, deliver, read or adjust. *)
Definition quiescent (f : Flow) : bool :=
  bool_decide (fl_outbox f = []) && bool_decide (fl_wire f = [])
  && bool_decide (ch_frames (fl_rx f) = []) && bool_decide (fl_adjusts f = []).

(** The steps still needed, at most, until the flow is quiescent. *)
Definition work (f : Flow) : nat :=
  4 * length (fl_outbox f) + 3 * length (fl_wire f) + 2 * length (ch_frames (fl_rx f))
  + length (fl_adjusts f).

Definition is_send (a : FlowAction) : bool := match a with FSend _ => true | _ => false end.

Lemma work_decreases rcfg a f : is_send a = false → flow_step rcfg a f = f ∨ (work (flow_step rcfg a f) < work f)%nat.
Proof.
  intros Ha. destruct a; simplify_eq/=;
    unfold flow_cancel, flow_write, flow_deliver, flow_recv, flow_adjust.
  - case_match eqn:E; [right|by left]. pose proof (length_delete _ _ (ex_intro _ _ E)). apply lookup_lt_Some in E.
    unfold work; simpl. lia.
  - case_match eqn:E; [right|by left]. pose proof (length_delete _ _ (ex_intro _ _ E)). apply lookup_lt_Some in E.
    unfold work; simpl. rewrite length_app. simpl. lia.
  - case_match eqn:E; [by left|right]. unfold work; case_match; simpl; rewrite ?E, ?length_app; simpl; lia.
  - case_match eqn:E; [by left|right]. unfold work; case_match; simpl; rewrite ?E, ?length_app; simpl; lia.
  - case_match eqn:E; [right|by left]. pose proof (length_delete _ _ (ex_intro _ _ E)). apply lookup_lt_Some in E.
    unfold work; simpl. case_match; simpl; lia.
Qed.

Lemma work_available rcfg f : quiescent f = false →
  ∃ a, is_send a = false ∧ (work (flow_step rcfg a f) < work f)%nat.
Proof.
  intros Hq. unfold quiescent in Hq.
  destruct (fl_outbox f) as [|b l] eqn:E1.
  2: { exists (FWrite 0). unfold flow_step, flow_write, work. rewrite E1. simpl. rewrite length_app. simpl.
       split; [done|]. rewrite E1. simpl. lia. }
  destruct (fl_wire f) as [|b l] eqn:E2.
  2: { exists FDeliver. destruct (work_decreases rcfg FDeliver f eq_refl) as [E|]; [|done]. exfalso.
       apply (f_equal (length ∘ fl_wire)) in E. simpl in E. unfold flow_deliver in E. rewrite E2 in E.
       case_match; simpl in E; lia. }
  destruct (ch_frames (fl_rx f)) as [|b l] eqn:E3.
  2: { exists FRecv. destruct (work_decreases rcfg FRecv f eq_refl) as [E|]; [|done]. exfalso.
       apply (f_equal (length ∘ fl_read)) in E. simpl in E. unfold flow_recv in E. rewrite E3 in E.
       case_match; simpl in E; rewrite length_app in E; simpl in E; lia. }
  destruct (fl_adjusts f) as [|n l] eqn:E4; [done|].
  exists (FAdjust 0). destruct (work_decreases rcfg (FAdjust 0) f eq_refl) as [E|]; [|done]. exfalso.
  apply (f_equal (length ∘ fl_adjusts)) in E. simpl in E. unfold flow_adjust in E. rewrite E4 in E. simpl in E.
  case_match; simpl in E; rewrite E4 in E; simpl in E; lia.
Qed.


(** ** Concrete flows *)

Definition default_flow : Flow :=
  flow_run default_config [FSend [byte_of_Z 1]; FSend [byte_of_Z 2; byte_of_Z 3]; FWrite 0; FCancel 0; FDeliver; FRecv]
    (flow_between (opener_end default_config default_config "command" None 1)
                  (acceptor_end default_config default_config "command" None 2)).

Lemma flow_run_reachable ocfg acfg rcfg l f :
  flow_reachable ocfg acfg rcfg f → flow_reachable ocfg acfg rcfg (flow_run rcfg l f).
Proof. revert f. induction l; simpl; [done|]. intros. apply IHl. by constructor. Qed.

Lemma default_flow_reachable : flow_reachable default_config default_config default_config default_flow.
Proof. apply flow_run_reachable, flow_to_acceptor. Qed.

Lemma window_conserved_witness :
  fl_broken default_flow = false ∧
  ch_remoteWindow (fl_tx default_flow) + total (fl_outbox default_flow) + total (fl_wire default_flow)
    + total (ch_frames (fl_rx default_flow)) + ch_pendingWindowBytes (fl_rx default_flow)
    + list_sum id (fl_adjusts default_flow) = InitialWindow default_config ∧
  ch_localWindow (fl_rx default_flow) + total (ch_frames (fl_rx default_flow)) = InitialWindow default_config.
Proof.
  apply (window_conserved default_config default_config);
    [apply default_config_ok..|apply default_flow_reachable].
Defined.

Lemma stream_in_order_witness :
  fl_read default_flow ++ ch_frames (fl_rx default_flow) ++ fl_wire default_flow = fl_written default_flow.
Proof.
  apply (stream_in_order default_config default_config default_config);
    [apply default_config_ok..|apply default_flow_reachable].
Defined.


(** A configuration whose packet size and adjustment threshold are both the whole
    window. *)
Definition tight_config : Config := config_withDefaults (MkConfig 1024 1024 1024 0 0 zero_limits).

(** One byte was sent and read. *)
Definition starved_flow : Flow :=
  flow_run tight_config [FSend [byte_of_Z 1]; FWrite 0; FDeliver; FRecv]
    (flow_between (opener_end tight_config tight_config "command" None 1)
                  (acceptor_end tight_config tight_config "command" None 2)).

Lemma starved_stuck a : is_send a = false → flow_step tight_config a starved_flow = starved_flow.
Proof. destruct a as [| [|i] | [|i] | | | [|i]]; intros Ha; [discriminate Ha|vm_compute; reflexivity..]. Qed.

(** [Config.Validate] accepts a packet size and a threshold that together exceed
    the window, and then a sender can wait for ever: after one byte was sent and
    read, the receiver withholds the credit for it, nothing is in transit, and a
    frame of the maximal size the peer announced stays blocked whatever either side
    does, short of sending something smaller. *)
Theorem tight_window_starves :
  config_Validate (MkConfig 1024 1024 1024 0 0 zero_limits) = Ok tt ∧
  quiescent starved_flow = true ∧
  ∀ l frame, Forall (λ a, is_send a = false) l → blen frame = MaxPacketSize tight_config →
    can_send frame (fl_tx (flow_run tight_config l starved_flow)) = false.
Proof.
  split; [vm_compute; reflexivity|]. split; [vm_compute; reflexivity|].
  intros l frame Hl Hframe.
  assert (Hrun : flow_run tight_config l starved_flow = starved_flow).
  { unfold flow_run. induction Hl as [|a l Ha _ IH]; [reflexivity|]. cbn [foldl]. rewrite (starved_stuck a Ha). exact IH. }
  rewrite Hrun. unfold can_send. rewrite Hframe.
  change (ch_remoteWindow (fl_tx starved_flow)) with 1023. 
  replace (u32 (MaxPacketSize tight_config) <=? 1023) with false by (vm_compute; reflexivity).
  by rewrite !andb_false_r.
Qed.

(** ** The sessions implement the flow *)

(** What the flow sees of a channel. *)
Definition flow_view (c : Channel) : Z * Z * Z * Z * Z * list bytes :=
  (ch_localWindow c, ch_remoteWindow c, ch_maxLocalPacket c, ch_maxRemotePacket c,
   ch_pendingWindowBytes c, ch_frames c).


Lemma chan_alter s id c g : s_store s !! id = Some c → chan (s <| s_store ::= alter g id |>) id = g c.
Proof. intros Hc. apply chan_lookup. simpl. by rewrite lookup_alter_eq, Hc. Qed.

(** A frame is charged to the budget without any effect on the windows. *)
Lemma wp_reserve_view id n s c :
  s_store s !! id = Some c →
  wp (reserveQueuedLocked id 1 n)
    (λ r s', match r with
             | Ok _ => ∃ c', s_store s' !! id = Some c' ∧ flow_view c' = flow_view c
             | Err e => e = errResourceLimit
             end) s.
Proof.
  intros Hc. unfold reserveQueuedLocked, reserveQueueBudget, wp, st_get, st_modify, st_fail, chan_mod, mbind, ST_bind.
  simpl. repeat case_match; simplify_eq/=; try done.
  all: rewrite lookup_alter_eq, Hc; simpl; eauto.
Qed.

(** Runs the reads at the head of an operation. *)
Ltac step_reads :=
  repeat lazymatch goal with
  | |- wp (mbind _ st_get) _ _ => apply wp_bind, wp_get; simpl
  | |- wp (mbind _ (mbind _ st_get)) _ _ => apply wp_bind, wp_bind, wp_get; simpl
  | |- wp (mbind _ (mret _)) _ _ => apply wp_bind, wp_ret; simpl
  | |- wp (st_fail _) _ _ => apply wp_fail
  | |- wp (mret _) _ _ => apply wp_ret
  end.

Lemma wp_release_view id f n s c :
  s_store s !! id = Some c →
  wp (releaseQueuedLocked id f n)
    (λ r s', r = Ok tt ∧ ∃ c', s_store s' !! id = Some c' ∧ flow_view c' = flow_view c) s.
Proof.
  intros Hc. unfold releaseQueuedLocked, releaseQueueBudget, chan_get, chan_mod. step_reads.
  apply wp_bind, wp_modify, wp_modify. simpl. rewrite lookup_alter_eq, Hc. simpl. eauto.
Qed.

Lemma deliver_refines s id c frame rest f :
  s_store s !! id = Some c → id ∈ s_channels s → canReceiveData (ch_state c) = true →
  flow_view c = flow_view (fl_rx f) → fl_wire f = frame :: rest →
  wp (handleChannelData (Some (id, frame))) (λ r s',
    match r with
    | Ok _ => flow_view (chan s' id) = flow_view (fl_rx (flow_deliver f))
              ∧ fl_broken (flow_deliver f) = fl_broken f
    | Err e => (is_protocolError e = true ∧ fl_broken (flow_deliver f) = true) ∨ e = errResourceLimit
    end) s.
Proof.
  intros Hc Hin Hst Hv Hw. unfold flow_deliver. rewrite Hw. unfold flow_view in Hv. simplify_eq.
  unfold handleChannelData, lookupChannel, chan_get, protocolErrorf. step_reads.
  rewrite bool_decide_true by done. case_match; step_reads; [by left|]. rewrite (chan_lookup _ _ _ Hc), Hst. simpl.
  repeat match goal with E : ch_maxLocalPacket _ = _ |- _ => rewrite <-E
                       | E : ch_localWindow _ = _ |- _ => rewrite <-E end.
  case_match; step_reads; [by left|]. case_match; step_reads; [by left|].
  apply wp_bind. eapply wp_mono; [by apply wp_reserve_view|].
  intros [[]|e] s'; [|by right]. simpl. intros (c' & Hc' & Hv'). apply wp_modify.
  rewrite (chan_alter _ _ _ _ Hc'). unfold flow_view in *. simplify_eq/=. split; congruence.
Qed.

Lemma recv_refines s id c f wake frame rest :
  s_store s !! id = Some c → flow_view c = flow_view (fl_rx f) → ch_frames c = frame :: rest →
  wp (channel_Recv id wake) (λ r s',
    let f' := flow_recv (s_config s) f in
    flow_view (chan s' id) = flow_view (fl_rx f') ∧ fl_read f' = fl_read f ++ [frame] ∧
    ((fl_adjusts f' = fl_adjusts f ∧ r = Ok (Returned (RetFrame (Ok frame)))) ∨
     ∃ n t, fl_adjusts f' = fl_adjusts f ++ [n] ∧ r = Ok (Pending t) ∧
       s_threads s' !! t = Some (TSend CtxBackground
         (EChannelWindowAdjust (Some (ch_peerID c, n))) AfterNone (KRecv frame)))) s.
Proof.
  intros Hc Hv Hq. unfold flow_recv, channel_Recv. unfold flow_view in Hv. simplify_eq.
  match goal with E : ch_frames c = ch_frames _ |- _ => rewrite <-E end. rewrite Hq.
  step_reads. rewrite (chan_lookup _ _ _ Hc), Hq.
  apply wp_bind, wp_modify. apply wp_bind. eapply wp_mono; [apply wp_release_view; simpl; rewrite lookup_alter_eq, Hc; done|].
  intros r s' (-> & c' & Hc' & Hv'). simpl. apply wp_bind, wp_modify.
  assert (Hpend : ∀ n, window_pending n (fl_rx f) = window_pending n c) by (intros; unfold window_pending; congruence).
  assert (Hview : ∀ s'', chan s'' id = consume_window (WindowAdjustThreshold (s_config s)) (u32 (blen frame)) c' →
    flow_view (chan s'' id) = flow_view (consume_window (WindowAdjustThreshold (s_config s)) (u32 (blen frame))
      (fl_rx f <| ch_frames := rest |>))).
  { intros s'' ->. unfold flow_view in *. simplify_eq/=. unfold window_pending. simpl.
    replace (ch_pendingWindowBytes c') with (ch_pendingWindowBytes (fl_rx f)) by congruence. congruence. }
  unfold window_adjust. rewrite Hpend. case_match eqn:Eadj.
  - unfold spawn. apply wp_bind. step_reads. apply wp_bind, wp_modify. step_reads.
    split; [apply Hview; apply chan_lookup; simpl; by rewrite lookup_alter_eq, Hc'|]. split; [done|]. right.
    eexists _, _. split; [done|]. split; [done|]. simpl. by rewrite lookup_insert_eq.
  - step_reads. split; [apply Hview; apply chan_lookup; simpl; by rewrite lookup_alter_eq, Hc'|]. split; [done|]. by left.
Qed.

Lemma send_refines s id c f wake frame :
  s_store s !! id = Some c → flow_view c = flow_view (fl_tx f) →
  channelErrorLocked s c = None → canSendData (ch_state c) = true →
  wp (channel_Send id frame wake) (λ r s',
    flow_view (chan s' id) = flow_view (fl_tx (flow_send frame f)) ∧
    if can_send frame (fl_tx f) then
      ∃ t, r = Ok (Pending t) ∧
        s_threads s' !! t = Some (TSend CtxUser (EChannelData (Some (ch_peerID c, frame))) AfterNone
          (KSend id (u32 (blen frame))))
    else s' = s ∧ ∀ t, r ≠ Ok (Pending t)) s.
Proof.
  intros Hc Hv He Hst. unfold flow_send, can_send, channel_Send. unfold flow_view in Hv. simplify_eq.
  repeat match goal with E : ch_maxRemotePacket _ = _ |- _ => rewrite <-E
                       | E : ch_remoteWindow _ = _ |- _ => rewrite <-E end.
  assert (Hsame : flow_view (chan s id) = flow_view (fl_tx f)).
  { rewrite (chan_lookup _ _ _ Hc). unfold flow_view. congruence. }
  rewrite (Z.leb_antisym MaxUint32 (blen frame)), (Z.leb_antisym (ch_maxRemotePacket c) (blen frame)).
  case_match; simpl; step_reads; [done|]. case_match; simpl; step_reads; [done|].
  rewrite (chan_lookup _ _ _ Hc), He, Hst. simpl.
  case_match; simpl; step_reads; [done|]. case_match; simpl.
  - apply wp_bind, wp_modify. unfold spawn. apply wp_bind. step_reads. apply wp_bind, wp_modify. step_reads.
    rewrite (chan_lookup _ _ (take_window (u32 (blen frame)) c)); [|simpl; by rewrite lookup_alter_eq, Hc].
    split; [unfold flow_view; simpl; congruence|]. eexists. split; [done|]. simpl. by rewrite lookup_insert_eq.
  - repeat case_match; step_reads; done.
Qed.

Lemma adjust_refines s id c f i n :
  s_store s !! id = Some c → id ∈ s_channels s → allowsRequests (ch_state c) = true →
  flow_view c = flow_view (fl_tx f) → fl_adjusts f !! i = Some n →
  wp (handleChannelWindowAdjust (Some (id, n))) (λ r s',
    match r with
    | Ok _ => flow_view (chan s' id) = flow_view (fl_tx (flow_adjust i f))
              ∧ fl_broken (flow_adjust i f) = fl_broken f
    | Err e => is_protocolError e = true ∧ fl_broken (flow_adjust i f) = true
    end) s.
Proof.
  intros Hc Hin Hst Hv Hw. unfold flow_adjust. rewrite Hw. unfold flow_view in Hv. simplify_eq.
  unfold handleChannelWindowAdjust, lookupChannel, chan_get, protocolErrorf. step_reads.
  rewrite bool_decide_true by done. step_reads. rewrite (chan_lookup _ _ _ Hc), Hst. simpl.
  match goal with E : ch_remoteWindow _ = _ |- _ => rewrite <-E end.
  case_match; step_reads; [done|]. apply wp_modify. rewrite (chan_alter _ _ _ _ Hc).
  unfold flow_view. simpl. split; congruence.
Qed.

(** The receiving half of a session implements the flow: [handleChannelData]
    accepts exactly the frames the flow accepts, with the flow's effect on the
    windows, answers the others with a protocol error, and can otherwise only hit
    the queue limit; [Recv] takes the frame the flow takes and announces credit
    exactly when the flow does. *)
Theorem receiver_refines_flow (s : Session) (id : Z) (c : Channel) (f : Flow)
  (Hc : s_store s !! id = Some c) (Hin : id ∈ s_channels s)
  (Hst : canReceiveData (ch_state c) = true) (Hv : flow_view c = flow_view (fl_rx f)) :
  (∀ frame rest, fl_wire f = frame :: rest →
    wp (handleChannelData (Some (id, frame))) (λ r s',
      match r with
      | Ok _ => flow_view (chan s' id) = flow_view (fl_rx (flow_deliver f))
                ∧ fl_broken (flow_deliver f) = fl_broken f
      | Err e => (is_protocolError e = true ∧ fl_broken (flow_deliver f) = true) ∨ e = errResourceLimit
      end) s) ∧
  (∀ frame rest wake, ch_frames c = frame :: rest →
    wp (channel_Recv id wake) (λ r s',
      let f' := flow_recv (s_config s) f in
      flow_view (chan s' id) = flow_view (fl_rx f') ∧ fl_read f' = fl_read f ++ [frame] ∧
      ((fl_adjusts f' = fl_adjusts f ∧ r = Ok (Returned (RetFrame (Ok frame)))) ∨
       ∃ n t, fl_adjusts f' = fl_adjusts f ++ [n] ∧ r = Ok (Pending t) ∧
         s_threads s' !! t = Some (TSend CtxBackground
           (EChannelWindowAdjust (Some (ch_peerID c, n))) AfterNone (KRecv frame)))) s).
Proof. split; intros; [by eapply deliver_refines|by eapply recv_refines]. Qed.

(** The sending half of a session implements the flow: on a channel that can
    send, [Send] takes window and starts the write exactly when the flow accepts
    the frame and otherwise changes nothing, and [handleChannelWindowAdjust] has
    the flow's effect or answers an overflow with a protocol error. *)
Theorem sender_refines_flow (s : Session) (id : Z) (c : Channel) (f : Flow)
  (Hc : s_store s !! id = Some c) (Hin : id ∈ s_channels s)
  (He : channelErrorLocked s c = None) (Hst : canSendData (ch_state c) = true)
  (Hv : flow_view c = flow_view (fl_tx f)) :
  (∀ frame wake, wp (channel_Send id frame wake) (λ r s',
    flow_view (chan s' id) = flow_view (fl_tx (flow_send frame f)) ∧
    if can_send frame (fl_tx f) then
      ∃ t, r = Ok (Pending t) ∧
        s_threads s' !! t = Some (TSend CtxUser (EChannelData (Some (ch_peerID c, frame))) AfterNone
          (KSend id (u32 (blen frame))))
    else s' = s ∧ ∀ t, r ≠ Ok (Pending t)) s) ∧
  (∀ i n, fl_adjusts f !! i = Some n →
    wp (handleChannelWindowAdjust (Some (id, n))) (λ r s',
      match r with
      | Ok _ => flow_view (chan s' id) = flow_view (fl_tx (flow_adjust i f))
                ∧ fl_broken (flow_adjust i f) = fl_broken f
      | Err e => is_protocolError e = true ∧ fl_broken (flow_adjust i f) = true
      end) s).
Proof.
  split; intros; [by eapply send_refines|]. eapply adjust_refines; try done.
  by destruct (ch_state c).
Qed.

(** The channel of [open_session], with one frame on the wire to it. *)
Definition open_flow : Flow :=
  MkFlow (chan open_session 0) (chan open_session 0) [] [[byte_of_Z 1]] [5] [[byte_of_Z 1]] [] false.

Lemma receiver_refines_flow_witness :
  wp (handleChannelData (Some (0, [byte_of_Z 1]))) (λ r s',
    match r with
    | Ok _ => flow_view (chan s' 0) = flow_view (fl_rx (flow_deliver open_flow))
              ∧ fl_broken (flow_deliver open_flow) = fl_broken open_flow
    | Err e => (is_protocolError e = true ∧ fl_broken (flow_deliver open_flow) = true) ∨ e = errResourceLimit
    end) open_session.
Proof.
  apply (proj1 (receiver_refines_flow open_session 0 (chan open_session 0) open_flow
    ltac:(vm_compute; reflexivity) ltac:(refine (bool_decide_eq_true_1 (0 ∈ s_channels open_session) _); vm_compute; reflexivity)
    ltac:(vm_compute; reflexivity) eq_refl) [byte_of_Z 1] [] eq_refl).
Defined.

Lemma sender_refines_flow_witness :
  wp (handleChannelWindowAdjust (Some (0, 5))) (λ r s',
    match r with
    | Ok _ => flow_view (chan s' 0) = flow_view (fl_tx (flow_adjust 0 open_flow))
              ∧ fl_broken (flow_adjust 0 open_flow) = fl_broken open_flow
    | Err e => is_protocolError e = true ∧ fl_broken (flow_adjust 0 open_flow) = true
    end) open_session.
Proof.
  apply (proj2 (sender_refines_flow open_session 0 (chan open_session 0) open_flow
    ltac:(vm_compute; reflexivity) ltac:(refine (bool_decide_eq_true_1 (0 ∈ s_channels open_session) _); vm_compute; reflexivity)
    ltac:(vm_compute; reflexivity) ltac:(vm_compute; reflexivity) eq_refl) 0%nat 5 eq_refl).
Defined.
