(* ===== verification/GoStrings.v ===== *)
(** * Strings, as the Go standard library treats them

    A Go string is a byte string, here [string]: one [ascii] per byte.  The
    definitions below are the functions of packages [strings], [bytes] and
    [slices] that the application layer calls. *)

From stdpp Require Import sorting.
From Stdlib Require Import Strings.Ascii.
From S2P Require Import Prelude.

Definition code (c : ascii) : Z := Z.of_N (Ascii.N_of_ascii c).

Definition NUL : ascii := Ascii.ascii_of_N 0.

(** [strings.ContainsRune] for a one-byte rune. *)
Fixpoint contains (c : ascii) (s : string) : bool :=
  match s with
  | EmptyString => false
  | String a r => bool_decide (a = c) || contains c r
  end.

(** [strings.ContainsAny] for a set of one-byte runes. *)
Definition contains_any (cs : list ascii) (s : string) : bool := existsb (λ c, contains c s) cs.

(** ** White space

    [unicode.IsSpace] on the UTF-8 encoding: one-, two- and three-byte runes. *)

Definition space1 (a : ascii) : bool :=
  ((9 <=? code a) && (code a <=? 13)) || (code a =? 32).

Definition space2 (a b : ascii) : bool := (code a =? 194) && ((code b =? 133) || (code b =? 160)).

Definition space3 (a b c : ascii) : bool :=
  ((code a =? 225) && (code b =? 154) && (code c =? 128))
  || ((code a =? 226) && (code b =? 128)
      && (((128 <=? code c) && (code c <=? 138)) || (code c =? 168) || (code c =? 169) || (code c =? 175)))
  || ((code a =? 226) && (code b =? 129) && (code c =? 159))
  || ((code a =? 227) && (code b =? 128) && (code c =? 128)).

(** The white-space runes at the front are dropped. *)
Fixpoint trim_left (s : string) : string :=
  match s with
  | EmptyString => s
  | String a r =>
      if space1 a then trim_left r
      else match r with
           | EmptyString => s
           | String b r' =>
               if space2 a b then trim_left r'
               else match r' with
                    | EmptyString => s
                    | String c r'' => if space3 a b c then trim_left r'' else s
                    end
           end
  end.

Definition blank (s : string) : bool := bool_decide (trim_left s = EmptyString).

(** The longest blank suffix is dropped.  A white-space rune starts with a byte
    that continues no other rune, so the suffixes to consider are those that
    start at any byte. *)
Fixpoint trim_right (s : string) : string :=
  if blank s then EmptyString
  else match s with
       | EmptyString => EmptyString
       | String a r => String a (trim_right r)
       end.

(** [strings.TrimSpace]. *)
Definition TrimSpace (s : string) : string := trim_right (trim_left s).

(** [slices.Sort] and [sort.Strings]. *)
Definition sort_strings (l : list string) : list string := merge_sort String.le l.

(** [filepath.IsAbs] on Unix. *)
Definition IsAbs (path : string) : bool := String.prefix "/"%string path.

(** ** Paths

    [filepath.Clean], [Join], [Dir] and [Base] on Unix. *)

Definition slash : ascii := Ascii.ascii_of_N 47.

(** The components between slashes, empty ones included. *)
Fixpoint split_path (s : string) : list string :=
  match s with
  | EmptyString => [EmptyString]
  | String a r =>
      if bool_decide (a = slash) then EmptyString :: split_path r
      else match split_path r with
           | [] => [String a EmptyString]
           | c :: cs => String a c :: cs
           end
  end.

(** The components kept so far, last first. *)
Fixpoint clean_components (rooted : bool) (stack cs : list string) : list string :=
  match cs with
  | [] => rev stack
  | c :: rest =>
      if bool_decide (c = EmptyString) || bool_decide (c = "."%string) then clean_components rooted stack rest
      else if bool_decide (c = ".."%string) then
        match stack with
        | top :: below =>
            if bool_decide (top = ".."%string) then clean_components rooted (c :: stack) rest
            else clean_components rooted below rest
        | [] => clean_components rooted (if rooted then [] else [c]) rest
        end
      else clean_components rooted (c :: stack) rest
  end.

Definition Clean (path : string) : string :=
  let body := String.concat "/" (clean_components (IsAbs path) [] (split_path path)) in
  if IsAbs path then String slash body
  else if bool_decide (body = EmptyString) then "."%string else body.

Definition path_Join (elems : list string) : string :=
  let elems := filter (λ e, e ≠ EmptyString) elems in
  if bool_decide (elems = []) then EmptyString else Clean (String.concat "/" elems).

(** The path up to and including its last slash, and what follows it. *)
Fixpoint split_last (s : string) : string * string :=
  match s with
  | EmptyString => (EmptyString, EmptyString)
  | String a r =>
      let '(dir, base) := split_last r in
      if bool_decide (a = slash) || negb (bool_decide (dir = EmptyString)) then (String a dir, base)
      else (EmptyString, String a base)
  end.

Definition path_Dir (path : string) : string := Clean (split_last path).1.

Fixpoint strip_slashes (s : string) : string :=
  match s with
  | EmptyString => EmptyString
  | String a r =>
      let t := strip_slashes r in
      if bool_decide (a = slash) && bool_decide (t = EmptyString) then EmptyString else String a t
  end.

Definition path_Base (path : string) : string :=
  if bool_decide (path = EmptyString) then "."%string
  else let b := (split_last (strip_slashes path)).2 in
       if bool_decide (b = EmptyString) then "/"%string else b.

Example clean_1 : Clean "/home//user/./.ssh/../keys" = "/home/user/keys"%string.
Proof. reflexivity. Qed.

Example clean_2 : Clean "../a/../../b/" = "../../b"%string.
Proof. reflexivity. Qed.

Example join_1 : path_Join ["/home/u"; ".ssh/authorized_keys"]%string = "/home/u/.ssh/authorized_keys"%string.
Proof. reflexivity. Qed.

Example dir_base : (path_Dir "/etc/mygosh/keys", path_Base "/etc/mygosh/keys") = ("/etc/mygosh", "keys")%string.
Proof. reflexivity. Qed.

(** The range over a map visits the keys in an order of the runtime's choice. *)
Definition map_order {A} (m : gmap string A) (order : list string) : Prop :=
  order ≡ₚ (map_to_list m).*1.

(** ** Facts *)

Lemma trim_left_not_longer s : (String.length (trim_left s) <= String.length s)%nat.
Proof.
  assert (Hlen : ∀ n t, (String.length t <= n)%nat → (String.length (trim_left t) <= String.length t)%nat).
  { intros n. induction n as [|n IH]; intros [|a r] Hn; simpl in *; try lia.
    destruct (space1 a); [specialize (IH r); lia|].
    destruct r as [|b r']; [simpl; lia|]. destruct (space2 a b); [specialize (IH r'); simpl in *; lia|].
    destruct r' as [|c r'']; [simpl; lia|]. destruct (space3 a b c); [specialize (IH r''); simpl in *; lia|].
    simpl. lia. }
  by apply (Hlen (String.length s)).
Qed.

(** A string that starts with no white space. *)
Definition starts_ok (s : string) : Prop := trim_left s = s.

Lemma trim_left_starts s : starts_ok (trim_left s).
Proof.
  assert (H : ∀ n t, (String.length t <= n)%nat → starts_ok (trim_left t)).
  { intros n. unfold starts_ok. induction n as [|n IH]; intros [|a r] Hn; simpl in *; try done; try lia.
    destruct (space1 a) eqn:E1; [apply IH; lia|].
    destruct r as [|b r']; [simpl; by rewrite E1|].
    destruct (space2 a b) eqn:E2; [apply IH; simpl in *; lia|].
    destruct r' as [|c r'']; [simpl; by rewrite E1, E2|].
    destruct (space3 a b c) eqn:E3; [apply IH; simpl in *; lia|].
    simpl. by rewrite E1, E2, E3. }
  by apply (H (String.length s)).
Qed.

Lemma blank_trim s : blank (trim_left s) = blank s.
Proof. unfold blank. by rewrite trim_left_starts. Qed.

Lemma trim_right_blank s : blank s = true → trim_right s = EmptyString.
Proof. intros Hb. destruct s; [done|]. simpl. by rewrite Hb. Qed.

Lemma TrimSpace_blank s : TrimSpace s = EmptyString ↔ blank s = true.
Proof.
  unfold TrimSpace. rewrite <-blank_trim. pose proof (trim_left_starts s) as Hs.
  destruct (trim_left s) as [|a r]; [done|].
  unfold starts_ok in Hs. simpl trim_right. unfold blank. rewrite Hs. simpl. split; congruence.
Qed.

(** ** [TrimSpace] is idempotent *)

(** What [trim_left] looks at: at most three bytes. *)
Lemma starts_ok_prefix p d : starts_ok (p +:+ d) → starts_ok p.
Proof.
  assert (Hshort : ∀ q r, trim_left q = r → (String.length r <= String.length q)%nat).
  { intros q r <-. apply trim_left_not_longer. }
  unfold starts_ok. destruct p as [|a r]; [done|].
  change (trim_left (String a r +:+ d)) with
    (if space1 a then trim_left (r +:+ d)
     else match r +:+ d with
          | EmptyString => String a (r +:+ d)
          | String b r' =>
              if space2 a b then trim_left r'
              else match r' with
                   | EmptyString => String a (r +:+ d)
                   | String c r'' => if space3 a b c then trim_left r'' else String a (r +:+ d)
                   end
          end).
  change (String a r +:+ d) with (String a (r +:+ d)).
  destruct (space1 a) eqn:E1; [intros Hd; apply Hshort in Hd; simpl in Hd; lia|].
  destruct r as [|b r']; [simpl; by rewrite E1|].
  change (String b r' +:+ d) with (String b (r' +:+ d)); cbv iota beta.
  destruct (space2 a b) eqn:E2; [intros Hd; apply Hshort in Hd; simpl in Hd; lia|].
  destruct r' as [|c r'']; [simpl; by rewrite E1, E2|].
  change (String c r'' +:+ d) with (String c (r'' +:+ d)); cbv iota beta.
  destruct (space3 a b c) eqn:E3; [intros Hd; apply Hshort in Hd; simpl in Hd; lia|].
  intros _. simpl. by rewrite E1, E2, E3.
Qed.

Lemma blank_app x d : blank x = true → trim_left (x +:+ d) = trim_left d.
Proof.
  unfold blank. rewrite bool_decide_eq_true.
  assert (H : ∀ n x, (String.length x <= n)%nat → trim_left x = EmptyString → trim_left (x +:+ d) = trim_left d).
  { clear x. intros n. induction n as [|n IH]; intros [|a r] Hn; simpl in *; try done; try lia.
    destruct (space1 a) eqn:E1; [apply IH; lia|].
    destruct r as [|b r']; simpl; [done|].
    destruct (space2 a b) eqn:E2; [apply IH; simpl in *; lia|].
    destruct r' as [|c r'']; simpl; [done|].
    destruct (space3 a b c) eqn:E3; [apply IH; simpl in *; lia|done]. }
  by apply (H (String.length x)).
Qed.

Lemma trim_right_split s : ∃ d, s = trim_right s +:+ d ∧ blank d = true.
Proof.
  induction s as [|a r (d & Hr & Hd)]; [by exists EmptyString|].
  simpl. destruct (blank (String a r)) eqn:E; [by exists (String a r)|].
  exists d. split; [|done]. change (String a r = String a (trim_right r +:+ d)). by rewrite <-Hr.
Qed.

Lemma trim_right_idem s : trim_right (trim_right s) = trim_right s.
Proof.
  induction s as [|a r IH]; [done|]. simpl. destruct (blank (String a r)) eqn:E; [done|].
  simpl. rewrite IH. destruct (blank (String a (trim_right r))) eqn:E'; [|done]. exfalso.
  destruct (trim_right_split r) as (d & Hr & Hd). pose proof (blank_app _ d E') as Hb.
  change (String a (trim_right r) +:+ d) with (String a (trim_right r +:+ d)) in Hb. rewrite <-Hr in Hb.
  unfold blank in E, Hd. rewrite Hb in E. congruence.
Qed.

Lemma TrimSpace_idem s : TrimSpace (TrimSpace s) = TrimSpace s.
Proof.
  unfold TrimSpace. destruct (trim_right_split (trim_left s)) as (d & Hs & _).
  assert (Hok : starts_ok (trim_right (trim_left s))).
  { apply (starts_ok_prefix _ d). rewrite <-Hs. apply trim_left_starts. }
  by rewrite Hok, trim_right_idem.
Qed.

(** ** Sorting *)

Lemma sort_strings_perm l : sort_strings l ≡ₚ l.
Proof. apply merge_sort_Permutation. Qed.

(** The sorted list does not depend on the order the names came in. *)
Lemma sort_strings_unique l k : l ≡ₚ k → sort_strings l = sort_strings k.
Proof.
  intros Hp. unshelve eapply (Sorted_unique String.le); try apply _.
  - apply (Sorted_merge_sort String.le l).
  - apply (Sorted_merge_sort String.le k).
  - by rewrite !sort_strings_perm.
Qed.

Lemma map_order_NoDup {A} (m : gmap string A) order : map_order m order → NoDup order.
Proof. intros Ho. rewrite Ho. apply NoDup_fst_map_to_list. Qed.

Lemma map_order_elem {A} (m : gmap string A) order k : map_order m order → k ∈ order ↔ is_Some (m !! k).
Proof.
  intros Ho. rewrite Ho, list_elem_of_fmap. split.
  - intros ([k' v] & -> & Hv). apply elem_of_map_to_list in Hv. by exists v.
  - intros [v Hv]. exists (k, v). by rewrite elem_of_map_to_list.
Qed.

Lemma sorted_keys {A} (m : gmap string A) order order' :
  map_order m order → map_order m order' → sort_strings order = sort_strings order'.
Proof. intros Ho Ho'. apply sort_strings_unique. by rewrite Ho, Ho'. Qed.
