(* ===== verification/Keys.v ===== *)
(** * Keys (lib/keys)

    Public keys and key pairs with their validation and order, and the parser of
    OpenSSH private keys on top of [lib/bincoder].  Ed25519, SHA-256 and the SSH
    wire format of golang.org/x/crypto are the parameters of [KeyLib]; what the
    code relies on is stated in [KeyLaws]. *)

From S2P Require Import Prelude Bincoder.

Definition AlgorithmEd25519 : string := "ed25519".
Definition ed25519PublicKeySize : Z := 32.
Definition ed25519SeedSize : Z := 32.
Definition opensshEd25519PrivateKeySize : Z := 64.

Record PublicKey := MkPublicKey {
  pk_Algorithm : string;
  pk_bytes : bytes;
  pk_Comment : bytes;
}.

Record Keypair := MkKeypair {
  kp_public : bytes;
  kp_private : bytes;
  kp_Comment : bytes;
}.

#[export] Instance PublicKey_eq_dec : EqDecision PublicKey.
Proof. solve_decision. Defined.

#[export] Instance Keypair_eq_dec : EqDecision Keypair.
Proof. solve_decision. Defined.

(** [ed_public seed] is the public half of [ed25519.NewKeyFromSeed]; [ssh_key]
    is what [ssh.ParsePublicKey] returns, with its [Type] and, for an Ed25519
    key, its bytes. *)
Class KeyLib := {
  ed_public : bytes → bytes;
  ed_sign : bytes → bytes → bytes;
  ed_verify : bytes → bytes → bytes → bool;
  fingerprint : bytes → string;
  ssh_key : Type;
  ssh_type : ssh_key → string;
  ssh_ed25519 : ssh_key → option bytes;
  ssh_NewPublicKey : bytes → res ssh_key;
  ssh_Marshal : ssh_key → bytes;
  ssh_ParsePublicKey : bytes → res ssh_key;
}.

Definition KeyAlgoED25519 : string := "ssh-ed25519".

Class KeyLaws `{KeyLib} := {
  ed_public_size seed : blen (ed_public seed) = ed25519PublicKeySize;
  ed_sign_verify seed msg : ed_verify (ed_public seed) msg (ed_sign seed msg) = true;
  ed_sign_nonempty seed msg : ed_sign seed msg ≠ [];
  fingerprint_nonempty b : fingerprint b ≠ ""%string;
  ssh_NewPublicKey_ok b : blen b = ed25519PublicKeySize →
    ∃ k, ssh_NewPublicKey b = Ok k ∧ ssh_type k = KeyAlgoED25519 ∧ ssh_ed25519 k = Some b;
  ssh_parse_marshal k : ssh_ParsePublicKey (ssh_Marshal k) = Ok k;
  ssh_Marshal_nonempty k : ssh_Marshal k ≠ [];
}.

Section keys.
Context `{KeyLib}.

(** ** keys.go *)

Definition validateAlgorithm (alg : string) : res unit :=
  reject_if (negb (bool_decide (alg = AlgorithmEd25519))) (NewError "unsupported key algorithm").

Definition validateKeyLength (b : bytes) (want : Z) : res unit :=
  reject_if (negb (blen b =? want)) (NewError "key length does not match expected length").

Definition deriveEd25519Public (seed : bytes) : res bytes :=
  wrap_err "derive ed25519 public key" (validateKeyLength seed ed25519SeedSize) ≫= λ _,
  mret (ed_public seed).

Definition GenerateEd25519FromSeed (seed : bytes) : res Keypair :=
  wrap_err "generate ed25519 key from seed" (validateKeyLength seed ed25519SeedSize) ≫= λ _,
  wrap_err "generate ed25519 key from seed" (deriveEd25519Public seed) ≫= λ public,
  mret (MkKeypair public seed []).

(** [generated] is what [ed25519.GenerateKey] answers: the public key and the seed of
    the private one. *)
Definition GenerateEd25519 (generated : res (bytes * bytes)) : res Keypair :=
  wrap_err "generate ed25519 key" generated ≫= λ pair, mret (MkKeypair pair.1 pair.2 []).

Definition Generate (alg : string) (generated : res (bytes * bytes)) : res Keypair :=
  if bool_decide (alg = AlgorithmEd25519) then GenerateEd25519 generated
  else Err (NewError "generate keypair: unsupported algorithm").

Definition keypair_PublicKey (k : Keypair) : PublicKey :=
  MkPublicKey AlgorithmEd25519 (kp_public k) (kp_Comment k).

Definition publicKey_Validate (k : PublicKey) : res unit :=
  validateAlgorithm (pk_Algorithm k) ≫= λ _,
  if bool_decide (pk_Algorithm k = AlgorithmEd25519)
  then validateKeyLength (pk_bytes k) ed25519PublicKeySize
  else Err (NewError "validate public key: unsupported algorithm").

Definition keypair_Validate (k : Keypair) : res unit :=
  validateKeyLength (kp_public k) ed25519PublicKeySize ≫= λ _,
  validateKeyLength (kp_private k) ed25519SeedSize ≫= λ _,
  deriveEd25519Public (kp_private k) ≫= λ derived,
  reject_if (negb (bool_decide (derived = kp_public k)))
    (NewError "ed25519 keypair public key does not match private key").

(** [bytes.Compare]: lexicographic. *)
Fixpoint bytes_Compare (a b : bytes) : comparison :=
  match a, b with
  | [], [] => Eq
  | [], _ :: _ => Lt
  | _ :: _, [] => Gt
  | x :: a', y :: b' =>
      match Z_of_byte x ?= Z_of_byte y with Eq => bytes_Compare a' b' | c => c end
  end.

(** [cmp.Or] of the two comparisons: the first that is not zero. *)
Definition publicKey_Compare (k other : PublicKey) : comparison :=
  match String.compare (pk_Algorithm k) (pk_Algorithm other) with
  | Eq => bytes_Compare (pk_bytes k) (pk_bytes other)
  | c => c
  end.

Definition publicKey_Equal (k other : PublicKey) : bool :=
  match publicKey_Compare k other with Eq => true | _ => false end.

Definition keypair_Equal (k other : Keypair) : bool :=
  bool_decide (kp_public k = kp_public other) && bool_decide (kp_private k = kp_private other).

Definition FingerprintSHA256 (k : PublicKey) : string := fingerprint (pk_bytes k).

Definition IsZero (k : PublicKey) : bool := forallb (λ b, Z_of_byte b =? 0) (pk_bytes k).

(** ** signing.go: [None] is the panic on an invalid key. *)

Definition keypair_Sign (k : Keypair) (msg : bytes) : option bytes :=
  if is_ok (keypair_Validate k) then Some (ed_sign (kp_private k) msg) else None.

Definition publicKey_Verify (k : PublicKey) (msg sig : bytes) : option bool :=
  if is_ok (publicKey_Validate k) then Some (ed_verify (pk_bytes k) msg sig) else None.

Definition keypair_Verify (k : Keypair) (msg sig : bytes) : option bool :=
  if is_ok (keypair_Validate k) then publicKey_Verify (keypair_PublicKey k) msg sig else None.

(** ** ssh_public_key.go *)

Definition ParseSSHPublicKey (k : ssh_key) (comment : bytes) : res (PublicKey * bool) :=
  if negb (bool_decide (ssh_type k = KeyAlgoED25519)) then Ok (MkPublicKey "" [] [], false)
  else match ssh_ed25519 k with
       | None => Err (NewError "ssh public key is not an ed25519 public key")
       | Some b => Ok (MkPublicKey AlgorithmEd25519 b comment, true)
       end.

Definition publicKey_MarshalBinary (k : PublicKey) : res bytes :=
  publicKey_Validate k ≫= λ _,
  wrap_err "encode public key" (ssh_NewPublicKey (pk_bytes k)) ≫= λ sshPublicKey,
  mret (ssh_Marshal sshPublicKey).

Definition ParsePublicKey (b : bytes) : res PublicKey :=
  wrap_err "decode public key" (ssh_ParsePublicKey b) ≫= λ sshPublicKey,
  wrap_err "decode public key" (ParseSSHPublicKey sshPublicKey []) ≫= λ '(publicKey, ok),
  if negb ok then Err (NewError "decode public key: unsupported public key type")
  else mret publicKey.

(** ** openssh_key.go *)

Definition opensshKeyV1Magic : bytes := String.list_byte_of_string "openssh-key-v1" ++ [x00].
Definition opensshEd25519KeyType : bytes := String.list_byte_of_string "ssh-ed25519".
Definition none_name : bytes := String.list_byte_of_string "none".

(** Byte [i] of the padding is [byte(i+1)]. *)
Fixpoint validOpensshPadding_from (i : Z) (padding : bytes) : bool :=
  match padding with
  | [] => true
  | b :: rest => (Z_of_byte b =? u8 (i + 1)) && validOpensshPadding_from (i + 1) rest
  end.

Definition validOpensshPadding (padding : bytes) : bool := validOpensshPadding_from 0 padding.

(** A pending decoder error, wrapped. *)
Definition decoded (msg : string) (e : option error) : res unit :=
  match e with Some e => Err (Wrapped e msg) | None => Ok tt end.

Definition parseOpensshEd25519PublicBlob (blob : bytes) : res bytes :=
  let cursor := Decoder.WithMaxBytes 1024 (Decoder.NewCursor blob) in
  let '(keyType, cursor) := Decoder.UTF8String cursor in
  let '(public, cursor) := Decoder.Bytes cursor in
  decoded "decode public key blob" (Decoder.Done cursor) ≫= λ _,
  reject_if (negb (bool_decide (keyType = opensshEd25519KeyType)))
    (NewError "unsupported public key type") ≫= λ _,
  reject_if (negb (blen public =? ed25519PublicKeySize))
    (NewError "public key length does not match expected length") ≫= λ _,
  mret public.

Definition parseOpensshEd25519PrivateBlob (blob : bytes) : res Keypair :=
  let cursor := Decoder.WithMaxBytes (16 * 1024) (Decoder.NewCursor blob) in
  let '(check1, cursor) := Decoder.U32 cursor in
  let '(check2, cursor) := Decoder.U32 cursor in
  decoded "decode private key block" (Decoder.err cursor) ≫= λ _,
  reject_if (negb (check1 =? check2)) (NewError "checkints don't match") ≫= λ _,
  let '(keyType, cursor) := Decoder.UTF8String cursor in
  let '(public, cursor) := Decoder.Bytes cursor in
  let '(private, cursor) := Decoder.Bytes cursor in
  let '(comment, cursor) := Decoder.UTF8String cursor in
  decoded "decode ed25519 private key" (Decoder.err cursor) ≫= λ _,
  reject_if (negb (bool_decide (keyType = opensshEd25519KeyType)))
    (NewError "unsupported private key type") ≫= λ _,
  reject_if (negb (blen public =? ed25519PublicKeySize))
    (NewError "public key length does not match expected length") ≫= λ _,
  reject_if (negb (blen private =? opensshEd25519PrivateKeySize))
    (NewError "private key length does not match expected length") ≫= λ _,
  reject_if (negb (bool_decide (drop (Z.to_nat ed25519SeedSize) private = public)))
    (NewError "embedded public key does not match public key field") ≫= λ _,
  reject_if (negb (validOpensshPadding (Decoder.Rest cursor)))
    (NewError "invalid OpenSSH private key padding") ≫= λ _,
  let keypair := MkKeypair public (take (Z.to_nat ed25519SeedSize) private) comment in
  wrap_err "decode ed25519 private key" (keypair_Validate keypair) ≫= λ _,
  mret keypair.

Definition parseOpensshPrivateKeyV1 (key : bytes) : res Keypair :=
  let cursor := Decoder.WithMaxBytes (16 * 1024) (Decoder.NewCursor key) in
  let cursor := Decoder.ExpectBytes opensshKeyV1Magic cursor in
  let '(ciphername, cursor) := Decoder.UTF8String cursor in
  let '(kdfname, cursor) := Decoder.UTF8String cursor in
  let '(kdfoptions, cursor) := Decoder.Bytes cursor in
  let '(numKeys, cursor) := Decoder.U32 cursor in
  decoded "decode private key header" (Decoder.err cursor) ≫= λ _,
  reject_if (negb (bool_decide (ciphername = none_name)) || negb (bool_decide (kdfname = none_name)))
    (NewError "encrypted keys not supported") ≫= λ _,
  reject_if (negb (blen kdfoptions =? 0)) (NewError "unexpected kdf options for unencrypted key") ≫= λ _,
  reject_if (negb (numKeys =? 1)) (NewError "only one key per file is supported") ≫= λ _,
  let '(publicBlob, cursor) := Decoder.Bytes cursor in
  let '(privateBlob, cursor) := Decoder.Bytes cursor in
  decoded "decode private key envelope" (Decoder.Done cursor) ≫= λ _,
  parseOpensshEd25519PublicBlob publicBlob ≫= λ public,
  parseOpensshEd25519PrivateBlob privateBlob ≫= λ privateKey,
  reject_if (negb (bool_decide (public = kp_public privateKey)))
    (NewError "public key mismatch between public and private sections") ≫= λ _,
  mret privateKey.
End keys.

(** ** The order on public keys *)

Lemma bytes_Compare_eq a b : bytes_Compare a b = Eq ↔ a = b.
Proof.
  revert b. induction a as [|x a IH]; intros [|y b]; simpl; try done.
  destruct (Z.compare_spec (Z_of_byte x) (Z_of_byte y)) as [E|E|E].
  - rewrite IH. split; [|by intros [= -> ->]]. intros ->.
    by rewrite <-(byte_of_Z_of_byte x), E, byte_of_Z_of_byte.
  - split; [done|]. intros [= -> ->]. lia.
  - split; [done|]. intros [= -> ->]. lia.
Qed.

(** A generated pair passes [Validate] when the library answers with a key that belongs
    to its seed, and no other algorithm generates one. *)
Lemma generated_valid `{KeyLib} alg public seed k : blen seed = ed25519SeedSize → blen public = ed25519PublicKeySize → ed_public seed = public →
  Generate alg (Ok (public, seed)) = Ok k → alg = AlgorithmEd25519 ∧ keypair_Validate k = Ok tt ∧ keypair_PublicKey k = MkPublicKey alg public [].
Proof.
  intros Hs Hp Hd. unfold Generate. case_bool_decide as Ha; [|done]. intros [= <-]. split_and!; [done| |by rewrite Ha].
  unfold keypair_Validate, deriveEd25519Public, validateKeyLength, reject_if. cbn. rewrite Hp, Hs. cbn. by rewrite bool_decide_true.
Qed.

Lemma string_compare_refl s : String.compare s s = Eq.
Proof.
  induction s as [|a s IH]; [done|]. simpl. unfold Ascii.compare. by rewrite N.compare_refl.
Qed.

Lemma publicKey_Equal_iff k k' :
  publicKey_Equal k k' = true ↔ pk_Algorithm k = pk_Algorithm k' ∧ pk_bytes k = pk_bytes k'.
Proof.
  unfold publicKey_Equal, publicKey_Compare.
  destruct (String.compare (pk_Algorithm k) (pk_Algorithm k')) eqn:E.
  - apply String.compare_eq_iff in E. destruct (bytes_Compare _ _) eqn:Eb.
    + apply bytes_Compare_eq in Eb. tauto.
    + split; [done|]. intros [_ Hb]. apply bytes_Compare_eq in Hb. congruence.
    + split; [done|]. intros [_ Hb]. apply bytes_Compare_eq in Hb. congruence.
  - split; [done|]. intros [Ha _]. rewrite Ha, string_compare_refl in E. done.
  - split; [done|]. intros [Ha _]. rewrite Ha, string_compare_refl in E. done.
Qed.

Section key_props.
Context `{HK : KeyLib}.

Lemma keypair_Validate_iff k :
  keypair_Validate k = Ok tt ↔
  blen (kp_public k) = ed25519PublicKeySize ∧ blen (kp_private k) = ed25519SeedSize ∧
  ed_public (kp_private k) = kp_public k.
Proof.
  unfold keypair_Validate, deriveEd25519Public, validateKeyLength, wrap_err. split.
  - intros. res_inv. bool_simp. res_inv. case_match; res_inv. subst. bool_simp. done.
  - intros (H1 & H2 & H3). rewrite !reject_if_then, H1, H2, !Z.eqb_refl. simpl.
    by rewrite bool_decide_true.
Qed.

(** The pair a seed generates is valid. *)
Lemma GenerateEd25519FromSeed_valid `{!KeyLaws} seed k :
  GenerateEd25519FromSeed seed = Ok k → keypair_Validate k = Ok tt.
Proof.
  unfold GenerateEd25519FromSeed, deriveEd25519Public, validateKeyLength, wrap_err. intros.
  destruct (negb (blen seed =? ed25519SeedSize)) eqn:E; simpl in *; [done|]. res_inv. subst.
  bool_simp. apply keypair_Validate_iff. simpl. by rewrite ed_public_size.
Qed.

Lemma publicKey_Validate_keypair k : keypair_Validate k = Ok tt → publicKey_Validate (keypair_PublicKey k) = Ok tt.
Proof.
  rewrite keypair_Validate_iff. intros (Hp & _). unfold publicKey_Validate, validateAlgorithm, validateKeyLength.
  simpl. by rewrite Hp.
Qed.

Lemma publicKey_Validate_iff k :
  publicKey_Validate k = Ok tt ↔ pk_Algorithm k = AlgorithmEd25519 ∧ blen (pk_bytes k) = ed25519PublicKeySize.
Proof.
  unfold publicKey_Validate, validateAlgorithm, validateKeyLength. rewrite reject_if_then.
  destruct (bool_decide_reflect (pk_Algorithm k = AlgorithmEd25519)); simpl; [|naive_solver].
  rewrite reject_if_ok, negb_false_iff, Z.eqb_eq. naive_solver.
Qed.

(** What [MarshalBinary] wrote, [ParsePublicKey] reads back, up to the comment. *)
Lemma publicKey_roundtrip `{!KeyLaws} k b :
  publicKey_MarshalBinary k = Ok b →
  ParsePublicKey b = Ok (MkPublicKey (pk_Algorithm k) (pk_bytes k) []) ∧ b ≠ [].
Proof.
  unfold publicKey_MarshalBinary, ParsePublicKey. intros. res_inv. destruct a.
  apply publicKey_Validate_iff in Ha as [Halg Hlen].
  destruct (ssh_NewPublicKey_ok _ Hlen) as (sk & E & Ht & Hb). rewrite E in Ha0. simpl in Ha0. res_inv. subst.
  rewrite ssh_parse_marshal. unfold ParseSSHPublicKey. simpl. rewrite bool_decide_true by done. simpl.
  rewrite Hb, Halg. split; [done|apply ssh_Marshal_nonempty].
Qed.

Lemma publicKey_Marshal_ok `{!KeyLaws} k : publicKey_Validate k = Ok tt → ∃ b, publicKey_MarshalBinary k = Ok b.
Proof.
  intros Hv. unfold publicKey_MarshalBinary. rewrite Hv. simpl.
  apply publicKey_Validate_iff in Hv as [_ Hlen]. destruct (ssh_NewPublicKey_ok _ Hlen) as (sk & E & _).
  rewrite E. simpl. eauto.
Qed.

(** ** OpenSSH private keys *)

(** The format of an unencrypted file, written with the encoder: the header, the
    public blob, and the private blob with its check integers and its padding. *)
Definition key_padding (n : nat) : bytes := map (λ i, byte_of_Z (Z.of_nat i + 1)) (seq 0 n).

Definition public_blob (k : Keypair) : list item := [IString opensshEd25519KeyType; IBytes (kp_public k)].

Definition private_blob (check : Z) (k : Keypair) : list item :=
  [IU32 check; IU32 check; IString opensshEd25519KeyType; IBytes (kp_public k);
   IBytes (kp_private k ++ kp_public k); IString (kp_Comment k)].

Definition blob_bytes (l : list item) : bytes := concat (map item_bytes l).

Definition openssh_file (check : Z) (pad : nat) (k : Keypair) : list item :=
  [IMagic opensshKeyV1Magic; IString none_name; IString none_name; IBytes []; IU32 1;
   IBytes (blob_bytes (public_blob k));
   IBytes (blob_bytes (private_blob check k) ++ key_padding pad)].

Lemma padding_valid_from i n :
  validOpensshPadding_from (Z.of_nat i) (map (λ j, byte_of_Z (Z.of_nat j + 1)) (seq i n)) = true.
Proof.
  revert i. induction n as [|n IH]; intros i; [done|]. simpl. rewrite Z_of_byte_of_Z.
  unfold u8. rewrite Z.eqb_refl. simpl. replace (Z.of_nat i + 1) with (Z.of_nat (S i)) by lia. apply IH.
Qed.

Lemma padding_ok n : validOpensshPadding (key_padding n) = true.
Proof. apply (padding_valid_from 0). Qed.

(** The cursor [c] with limit [max] stands before [rest]. *)
Definition stands (max : Z) (c : Decoder.t) (rest : bytes) : Prop :=
  at_rest c rest ∧ Decoder.maxBytes c = max.

Lemma stands_new max b : is_u32 max → blen b + MaxUint32 <= MaxUint64 →
  stands max (Decoder.WithMaxBytes max (Decoder.NewCursor b)) b.
Proof.
  intros Hm Hl. pose proof (blen_nonneg b). split; [|done]. split; [|done].
  repeat split; simpl; try lia; apply Hm.
Qed.

Lemma read_bytes max c b rest :
  stands max c (PutUint32 (blen b) ++ b ++ rest) → blen b <= max →
  ∃ c', Decoder.Bytes c = (b, c') ∧ stands max c' rest.
Proof.
  intros [Hc <-] Hb. destruct (Bytes_at b c rest Hb Hc) as (c' & E & Hc' & Hm). by exists c'.
Qed.

Lemma read_string max c b rest :
  stands max c (PutUint32 (blen b) ++ b ++ rest) → blen b <= max → utf8_valid b = true →
  ∃ c', Decoder.UTF8String c = (b, c') ∧ stands max c' rest.
Proof.
  intros Hc Hb Hu. destruct (read_bytes _ _ _ _ Hc Hb) as (c' & E & Hc').
  exists c'. unfold Decoder.UTF8String. rewrite E. pose proof Hc' as ((_ & He & _) & _). by rewrite He, Hu.
Qed.

Lemma read_u32 max c n rest :
  stands max c (PutUint32 n ++ rest) → is_u32 n →
  ∃ c', Decoder.U32 c = (n, c') ∧ stands max c' rest.
Proof. intros [Hc <-] Hn. destruct (U32_at n c rest Hn Hc) as (c' & E & Hc' & Hm). by exists c'. Qed.

Lemma read_magic max c b rest :
  stands max c (b ++ rest) → blen b <= MaxUint32 → stands max (Decoder.ExpectBytes b c) rest.
Proof.
  intros [Hc <-] Hb. destruct (decode_item_at (IMagic b) c rest Hb Hc) as (c' & E & Hc' & Hm).
  simpl in E. simplify_eq. done.
Qed.

Lemma stands_err max c rest : stands max c rest → Decoder.err c = None.
Proof. by intros [(_ & ? & _) _]. Qed.

Lemma stands_Rest max c rest : stands max c rest → Decoder.Rest c = rest.
Proof. intros [(_ & He & Hd) _]. unfold Decoder.Rest. by rewrite He. Qed.

Lemma stands_Done max c : stands max c [] → Decoder.Done c = None.
Proof.
  intros [((Ho & _) & He & Hd) _]. unfold Decoder.Done. rewrite He.
  apply (f_equal length) in Hd. rewrite length_drop in Hd. simpl in Hd.
  rewrite (proj2 (Z.eqb_eq _ _)); [done|]. unfold blen in *. lia.
Qed.

(** Reads the next field with the lemma [lem]. *)
Ltac read lem :=
  match goal with Hs : stands _ _ _ |- _ =>
    edestruct lem as (?c & ?E & ?); [exact Hs|try done; try lia..|]; clear Hs;
    match goal with E : _ = (_, _) |- _ => rewrite E; clear E end
  end.

Lemma blob_bytes_cons i l : blob_bytes (i :: l) = item_bytes i ++ blob_bytes l.
Proof. done. Qed.

Lemma blob_bytes_nil : blob_bytes [] = [].
Proof. done. Qed.

Lemma blen_PutUint32 n : blen (PutUint32 n) = 4.
Proof. done. Qed.

Ltac blob_simp := rewrite ?blob_bytes_cons, ?blob_bytes_nil; cbn [item_bytes]; rewrite <-?app_assoc.

Lemma public_blob_size k :
  keypair_Validate k = Ok tt → blen (blob_bytes (public_blob k)) = 51.
Proof.
  rewrite keypair_Validate_iff. unfold ed25519PublicKeySize. intros (Hp & _). unfold public_blob. blob_simp.
  rewrite !blen_app, !blen_PutUint32, Hp. done.
Qed.

Lemma public_blob_ok k :
  keypair_Validate k = Ok tt → parseOpensshEd25519PublicBlob (blob_bytes (public_blob k)) = Ok (kp_public k).
Proof.
  intros Hk. pose proof (public_blob_size k Hk) as Hsize. apply keypair_Validate_iff in Hk as (Hp & _).
  unfold ed25519PublicKeySize in Hp. unfold parseOpensshEd25519PublicBlob.
  pose proof (stands_new 1024 (blob_bytes (public_blob k)) ltac:(done) ltac:(rewrite Hsize; done)) as Hs.
  unfold public_blob in Hs at 2. revert Hs. blob_simp. intros Hs.
  read read_string. read read_bytes.
  erewrite stands_Done by eassumption. simpl. rewrite Hp. done.
Qed.

Lemma private_blob_size check pad k :
  keypair_Validate k = Ok tt →
  blen (blob_bytes (private_blob check k) ++ key_padding pad) = 131 + blen (kp_Comment k) + Z.of_nat pad.
Proof.
  rewrite keypair_Validate_iff. unfold ed25519PublicKeySize, ed25519SeedSize. intros (Hp & Hs & _).
  unfold private_blob. blob_simp.
  rewrite !blen_app, !blen_PutUint32, Hp, Hs, blen_nil.
  replace (blen (key_padding pad)) with (Z.of_nat pad) by (unfold blen, key_padding; by rewrite length_map, length_seq).
  replace (blen opensshEd25519KeyType) with 11 by done. lia.
Qed.

Lemma private_blob_ok check pad k :
  keypair_Validate k = Ok tt → is_u32 check → utf8_valid (kp_Comment k) = true →
  blen (kp_Comment k) + Z.of_nat pad <= 16000 →
  parseOpensshEd25519PrivateBlob (blob_bytes (private_blob check k) ++ key_padding pad) = Ok k.
Proof.
  intros Hk Hcheck Hu Hsize. pose proof (private_blob_size check pad k Hk) as Hlen.
  pose proof Hk as (Hp & Hse & He)%keypair_Validate_iff. unfold ed25519PublicKeySize, ed25519SeedSize in *.
  unfold parseOpensshEd25519PrivateBlob.
  pose proof (stands_new (16 * 1024) (blob_bytes (private_blob check k) ++ key_padding pad)
    ltac:(done) ltac:(rewrite Hlen; unfold MaxUint32, MaxUint64; lia)) as Hs.
  assert (Hpp : blen (kp_private k ++ kp_public k) = 64) by (rewrite blen_app; lia).
  unfold private_blob in Hs at 2. revert Hs. set (pp := kp_private k ++ kp_public k) in *. blob_simp. intros Hs.
  read read_u32. read read_u32. erewrite stands_err by eassumption.
  read read_string. read read_bytes. read read_bytes. read read_string. erewrite stands_err, stands_Rest by eassumption.
  unfold decoded. rewrite Z.eqb_refl. unfold ed25519PublicKeySize, ed25519SeedSize.
  rewrite Hp, Hpp. unfold pp.
  replace (drop (Z.to_nat 32) (kp_private k ++ kp_public k)) with (kp_public k)
    by (symmetry; apply drop_app_length'; unfold blen in Hse; lia).
  replace (take (Z.to_nat 32) (kp_private k ++ kp_public k)) with (kp_private k)
    by (symmetry; apply take_app_length'; unfold blen in Hse; lia).
  rewrite !bool_decide_true by done. rewrite ?app_nil_l, padding_ok.
  destruct k as [pub priv com]. simpl in *. by rewrite Hk.
Qed.

Lemma blen_magic : blen opensshKeyV1Magic = 15.
Proof. done. Qed.

Lemma blen_none : blen none_name = 4.
Proof. done. Qed.

Lemma openssh_file_size check pad k :
  keypair_Validate k = Ok tt →
  blen (blob_bytes (openssh_file check pad k)) = 229 + blen (kp_Comment k) + Z.of_nat pad.
Proof.
  intros Hk. unfold openssh_file. rewrite ?blob_bytes_cons, ?blob_bytes_nil. cbn [item_bytes].
  rewrite !blen_app, !blen_PutUint32, !blen_nil, <-(blen_app (blob_bytes _)), private_blob_size,
    public_blob_size, blen_magic, blen_none by done. lia.
Qed.

Lemma openssh_file_ok check pad k :
  keypair_Validate k = Ok tt → is_u32 check → utf8_valid (kp_Comment k) = true →
  blen (kp_Comment k) + Z.of_nat pad <= 16000 →
  parseOpensshPrivateKeyV1 (blob_bytes (openssh_file check pad k)) = Ok k.
Proof.
  intros Hk Hcheck Hu Hsize. pose proof (private_blob_size check pad k Hk) as Hlen.
  pose proof (public_blob_size k Hk) as Hplen. unfold parseOpensshPrivateKeyV1.
  pose proof (openssh_file_size check pad k Hk) as Hmax.
  pose proof (stands_new (16 * 1024) _ ltac:(done) ltac:(rewrite Hmax; unfold MaxUint32, MaxUint64; lia)) as Hs.
  clear Hmax.
  unfold openssh_file in Hs at 2. revert Hs. rewrite ?blob_bytes_cons, ?blob_bytes_nil. cbn [item_bytes].
  set (pub := blob_bytes (public_blob k)) in *. set (priv := blob_bytes (private_blob check k) ++ key_padding pad) in *.
  rewrite <-!app_assoc. intros Hs. apply read_magic in Hs; [|done].
  read read_string. read read_string. read read_bytes. read read_u32.
  erewrite stands_err by eassumption. read read_bytes. read read_bytes.
  erewrite stands_Done by eassumption. unfold pub, priv. rewrite public_blob_ok, private_blob_ok by done.
  cbn [decoded]. rewrite !bool_decide_true by done. simpl. by rewrite bool_decide_true.
Qed.
End key_props.

(** A well-formed unencrypted OpenSSH file of any valid key pair, with any
    check integer, comment and padding, is parsed back to that key pair. *)
Theorem openssh_roundtrip `{KeyLib} (check : Z) (pad : nat) (k : Keypair) (file : bytes)
  (Hk : keypair_Validate k = Ok tt) (Hcheck : is_u32 check) (Hu : utf8_valid (kp_Comment k) = true)
  (Hsize : blen (kp_Comment k) + Z.of_nat pad <= 16000)
  (Hfile : Encoder.Result (encode_items (openssh_file check pad k) Encoder.NewEncoder) = Some file) :
  parseOpensshPrivateKeyV1 file = Ok k.
Proof.
  assert (Hok : Forall (item_ok (16 * 1024)) (openssh_file check pad k)).
  { pose proof (private_blob_size check pad k Hk). pose proof (public_blob_size k Hk).
    unfold openssh_file. repeat (apply Forall_cons_2; [cbn [item_ok]; done || lia|]). apply Forall_nil_2. }
  rewrite (encode_items_spec (16 * 1024)) in Hfile by done. unfold Encoder.Result in Hfile.
  cbn [Encoder.err Encoder.buf Encoder.NewEncoder] in Hfile. rewrite app_nil_l in Hfile. injection Hfile as <-.
  by apply openssh_file_ok.
Qed.

(** Whatever bytes it is given, the OpenSSH parser only returns valid key
    pairs: both halves have the right length and the public half belongs to the
    private one, so signing with the result never panics. *)
Theorem openssh_sound `{KeyLib} (file : bytes) (k : Keypair)
  (Hparse : parseOpensshPrivateKeyV1 file = Ok k) :
  keypair_Validate k = Ok tt ∧ ∀ msg, keypair_Sign k msg = Some (ed_sign (kp_private k) msg).
Proof.
  assert (Hv : keypair_Validate k = Ok tt).
  { unfold parseOpensshPrivateKeyV1 in Hparse. repeat case_match. res_inv. subst.
    match goal with Hp : parseOpensshEd25519PrivateBlob _ = Ok _ |- _ => revert Hp end.
    unfold parseOpensshEd25519PrivateBlob. repeat case_match. intros. res_inv. subst.
    match goal with Hp : wrap_err _ _ = Ok ?u |- _ => apply wrap_err_ok in Hp; by destruct u end. }
  split; [done|]. intros msg. unfold keypair_Sign. by rewrite Hv.
Qed.

(** ** A concrete key library *)

Definition toy_keys : KeyLib := {|
  ed_public seed := take 32 (seed ++ replicate 32 x00);
  ed_sign seed msg := x01 :: take 32 (seed ++ replicate 32 x00) ++ msg;
  ed_verify public msg sig := bool_decide (sig = x01 :: public ++ msg);
  fingerprint _ := "SHA256:toy"%string;
  ssh_key := bytes;
  ssh_type _ := KeyAlgoED25519;
  ssh_ed25519 k := Some k;
  ssh_NewPublicKey b := Ok b;
  ssh_Marshal k := x00 :: k;
  ssh_ParsePublicKey b := match b with x00 :: k => Ok k | _ => Err (NewError "ssh: short read") end;
|}.

Lemma toy_keys_laws : @KeyLaws toy_keys.
Proof.
  split; try done.
  - intros seed. unfold blen. cbn [ed_public toy_keys]. rewrite length_take, length_app, length_replicate. unfold ed25519PublicKeySize. lia.
  - intros seed msg. simpl. by apply bool_decide_true.
  - intros b _. by exists b.
Qed.

Definition toy_pair : Keypair := MkKeypair (replicate 32 x07) (replicate 32 x07) [].

Lemma openssh_roundtrip_witness :
  @parseOpensshPrivateKeyV1 toy_keys (blob_bytes (openssh_file 5 2 toy_pair)) = Ok toy_pair.
Proof.
  apply (@openssh_roundtrip toy_keys 5 2 toy_pair); vm_compute; (reflexivity || (split; discriminate) || discriminate).
Defined.

Lemma openssh_sound_witness : @keypair_Validate toy_keys toy_pair = Ok tt.
Proof.
  apply (proj1 (@openssh_sound toy_keys (blob_bytes (openssh_file 5 2 toy_pair)) toy_pair
    ltac:(vm_compute; reflexivity))).
Defined.
