(* ===== verification/Trust.v ===== *)
(** * Trust files (lib/trust)

    Known hosts and authorized keys.  The line parsers of golang.org/x/crypto/ssh
    and [strconv.Unquote] are parameters: [TrustLib] gives, for the remaining
    contents of a file, the next entry and the rest. *)

From S2P Require Import Prelude GoStrings Bincoder Keys.

(** ** known_hosts_ssh.go *)

Inductive KnownHostMarker := KnownHostEmptyMarker | KnownHostCertAuthority | KnownHostRevoked.

#[export] Instance KnownHostMarker_eq_dec : EqDecision KnownHostMarker.
Proof. solve_decision. Defined.

Record KnownHostEntry := MkKnownHost {
  kh_Marker : KnownHostMarker;
  kh_Hosts : list string;
  kh_HostKey : PublicKey;
}.

Inductive HostKeyMatch := HostKeyNoHost | HostKeyMismatch | HostKeyAccepted | HostKeyRevoked.

(** [lo.Contains]. *)
Definition entry_Match (e : KnownHostEntry) (host : string) : bool := bool_decide (host ∈ kh_Hosts e).

(** A marker outside the three is not a value of [KnownHostMarker]. *)
Definition MatchesValid (e : option KnownHostEntry) (host : string) : bool :=
  match e with
  | Some e => negb (bool_decide (kh_Marker e = KnownHostRevoked)) && entry_Match e host
  | None => false
  end.

(** [KnownHosts.Match]: the first entry that the policy takes. *)
Fixpoint known_Match (entries : list KnownHostEntry) (policy : KnownHostEntry → bool) : option KnownHostEntry :=
  match entries with
  | [] => None
  | e :: rest => if policy e then Some e else known_Match rest policy
  end.

(** The keys of [right] are appended host by host, in whatever order the hosts come. *)
Definition JoinHostPublicKeys (left right : gmap string (list PublicKey)) : gmap string (list PublicKey) :=
  map_fold (λ host publicKeys merged, <[host := default [] (merged !! host) ++ publicKeys]> merged) left right.

(** The loop of [MatchHostKey] with its two flags. *)
Fixpoint matchHostKey_loop (entries : list KnownHostEntry) (host : string) (key : PublicKey)
    (hostFound keyAccepted : bool) : HostKeyMatch :=
  match entries with
  | [] =>
      if keyAccepted then HostKeyAccepted
      else if hostFound then HostKeyMismatch else HostKeyNoHost
  | entry :: rest =>
      if negb (entry_Match entry host) then matchHostKey_loop rest host key hostFound keyAccepted
      else if negb (publicKey_Equal (kh_HostKey entry) key)
      then matchHostKey_loop rest host key true keyAccepted
      else match kh_Marker entry with
           | KnownHostRevoked => HostKeyRevoked
           | KnownHostEmptyMarker => matchHostKey_loop rest host key true true
           | KnownHostCertAuthority => matchHostKey_loop rest host key true keyAccepted
           end
  end.

Definition MatchHostKey (entries : option (list KnownHostEntry)) (host : string) (key : PublicKey) : HostKeyMatch :=
  match entries with
  | None => HostKeyNoHost
  | Some entries => matchHostKey_loop entries host key false false
  end.

Definition parseMarkerString (marker : string) : option KnownHostMarker :=
  if bool_decide (marker = ""%string) then Some KnownHostEmptyMarker
  else if bool_decide (marker = "cert-authority"%string) then Some KnownHostCertAuthority
  else if bool_decide (marker = "revoked"%string) then Some KnownHostRevoked
  else None.

Definition ascii_of (z : Z) : Ascii.ascii := Ascii.ascii_of_N (Z.to_N z).

Definition validateKnownHost (host : string) : res unit :=
  reject_if (bool_decide (host = ""%string)) (NewError "known_hosts entry has an empty host identity") ≫= λ _,
  reject_if (String.prefix "|" host) (NewError "hashed known_hosts identity is not supported") ≫= λ _,
  reject_if (String.prefix "!" host) (NewError "negated known_hosts identity is not supported") ≫= λ _,
  reject_if (contains_any [ascii_of 42; ascii_of 63] host)
    (NewError "wildcard known_hosts identity is not supported") ≫= λ _,
  reject_if (String.prefix "[" host) (NewError "host-plus-port known_hosts identity is not supported") ≫= λ _,
  reject_if (contains_any [ascii_of 32; ascii_of 9; ascii_of 13; ascii_of 10; ascii_of 0] host)
    (NewError "invalid known_hosts identity").

Fixpoint validate_hosts (hosts : list string) : res unit :=
  match hosts with
  | [] => Ok tt
  | host :: rest => validateKnownHost host ≫= λ _, validate_hosts rest
  end.

Definition validateKnownHostPatterns (hosts : list string) : res unit :=
  reject_if (bool_decide (hosts = [])) (NewError "known_hosts entry has no host identities") ≫= λ _,
  validate_hosts hosts.

(** ** authorized_keys_ssh.go *)

Record AuthorizedKeyOption := MkOption {
  op_Name : string;
  op_Value : string;
  op_HasValue : bool;
}.

Record AuthorizedKeyEntry := MkAuthorizedKey {
  ak_Options : list AuthorizedKeyOption;
  ak_Key : PublicKey;
}.

Record AuthorizedKeyConstraints := MkConstraints {
  ac_ForcedCommand : string;
  ac_NoPTY : bool;
  ac_Restricted : bool;
}.

Class TrustLib `{KeyLib} := {
  (** [ssh.ParseKnownHosts]: marker, hosts, key, comment and the rest of the file. *)
  parse_known_host : bytes → res (string * list string * ssh_key * bytes * bytes);
  (** [ssh.ParseAuthorizedKey]: key, comment, options and the rest of the file. *)
  parse_authorized_key : bytes → res (ssh_key * bytes * list string * bytes);
  unquote : string → res string;
}.

(** Each call consumes part of the file. *)
Class TrustLaws `{TrustLib} := {
  parse_known_host_rest b m hs k c rest :
    parse_known_host b = Ok (m, hs, k, c, rest) → (length rest < length b)%nat;
  parse_authorized_key_rest b k c o rest :
    parse_authorized_key b = Ok (k, c, o, rest) → (length rest < length b)%nat;
}.

(** [bytes.TrimSpace]. *)
Definition bytes_TrimSpace (b : bytes) : bytes :=
  String.list_byte_of_string (TrimSpace (String.string_of_list_byte b)).

(** [strings.Cut] at the first ['=']. *)
Fixpoint cut_eq (s : string) : string * string * bool :=
  match s with
  | EmptyString => (EmptyString, EmptyString, false)
  | String a r =>
      if bool_decide (a = ascii_of 61) then (EmptyString, r, true)
      else let '(before, after, found) := cut_eq r in (String a before, after, found)
  end.

Definition parseAuthorizedKeyOption (option : string) : res AuthorizedKeyOption :=
  reject_if (bool_decide (option = ""%string)) (NewError "authorized_keys option is empty") ≫= λ _,
  let '(name, value, hasValue) := cut_eq option in
  reject_if (bool_decide (name = ""%string)) (NewError "authorized_keys option name is empty") ≫= λ _,
  mret (MkOption name (if hasValue then value else ""%string) hasValue).

Fixpoint parseAuthorizedKeyOptions (options : list string) : res (list AuthorizedKeyOption) :=
  match options with
  | [] => Ok []
  | option :: rest =>
      parseAuthorizedKeyOption option ≫= λ parsed,
      parseAuthorizedKeyOptions rest ≫= λ more, mret (parsed :: more)
  end.

Definition max_command : Z := 24576.

Section trust.
Context `{TrustLib}.

(** One turn of the loop of [parseAuthorizedKeyConstraints]. *)
Definition apply_option (option : AuthorizedKeyOption) (c : AuthorizedKeyConstraints) : res AuthorizedKeyConstraints :=
  if bool_decide (op_Name option = "command"%string) then
    reject_if (negb (op_HasValue option)) (NewError "authorized_keys command option requires a value") ≫= λ _,
    wrap_err "decode authorized_keys command option" (unquote (op_Value option)) ≫= λ command,
    reject_if (bool_decide (TrimSpace command = ""%string))
      (NewError "authorized_keys command option must not be empty") ≫= λ _,
    reject_if (contains NUL command) (NewError "authorized_keys command option contains NUL") ≫= λ _,
    reject_if (max_command <? slen command)
      (NewError "authorized_keys command option exceeds maximum size") ≫= λ _,
    mret (MkConstraints command (ac_NoPTY c) (ac_Restricted c))
  else if bool_decide (op_Name option = "no-pty"%string) then
    reject_if (op_HasValue option) (NewError "authorized_keys no-pty option must not have a value") ≫= λ _,
    mret (MkConstraints (ac_ForcedCommand c) true (ac_Restricted c))
  else if bool_decide (op_Name option = "restrict"%string) then
    reject_if (op_HasValue option) (NewError "authorized_keys restrict option must not have a value") ≫= λ _,
    mret (MkConstraints (ac_ForcedCommand c) true true)
  else Err (NewError "unsupported authorized_keys option").

Fixpoint constraints_loop (options : list AuthorizedKeyOption) (seen : gset string)
    (c : AuthorizedKeyConstraints) : res AuthorizedKeyConstraints :=
  match options with
  | [] => mret c
  | option :: rest =>
      reject_if (bool_decide (op_Name option ∈ seen)) (NewError "duplicate authorized_keys option") ≫= λ _,
      apply_option option c ≫= λ c',
      constraints_loop rest ({[op_Name option]} ∪ seen) c'
  end.

Definition parseAuthorizedKeyConstraints (options : list AuthorizedKeyOption) : res AuthorizedKeyConstraints :=
  constraints_loop options ∅ (MkConstraints "" false false).

(** [AuthorizedKeys.Match]: the first entry the policy accepts. *)
Fixpoint authorized_Match (entries : list AuthorizedKeyEntry) (policy : AuthorizedKeyEntry → bool)
  : option AuthorizedKeyEntry :=
  match entries with
  | [] => None
  | entry :: rest => if policy entry then Some entry else authorized_Match rest policy
  end.

Definition sshEd25519PublicKey (k : ssh_key) (comment : bytes) : res (PublicKey * bool) :=
  wrap_err "parse ssh public key" (ParseSSHPublicKey k comment).

(** The loop of [ParseAuthorizedKeys]; every turn consumes input, so the length
    of the contents is enough fuel. *)
Fixpoint parse_authorized_loop (fuel : nat) (contents : bytes) : res (list AuthorizedKeyEntry) :=
  if bool_decide (contents = []) then Ok []
  else match fuel with
  | O => Err (NewError "authorized_keys does not end")
  | S fuel =>
      wrap_err "parse authorized_keys entry" (parse_authorized_key contents) ≫= λ '(pk, comment, options, rest),
      let contents := bytes_TrimSpace rest in
      if negb (bool_decide (ssh_type pk = KeyAlgoED25519)) then parse_authorized_loop fuel contents
      else
        wrap_err "parse authorized_keys entry" (sshEd25519PublicKey pk comment) ≫= λ '(publicKey, ok),
        if negb ok then parse_authorized_loop fuel contents
        else
          wrap_err "parse authorized_keys options" (parseAuthorizedKeyOptions options) ≫= λ parsedOptions,
          wrap_err "validate authorized_keys options" (parseAuthorizedKeyConstraints parsedOptions) ≫= λ _,
          parse_authorized_loop fuel contents ≫= λ entries,
          mret (MkAuthorizedKey parsedOptions publicKey :: entries)
  end.

Definition ParseAuthorizedKeys (contents : bytes) : res (list AuthorizedKeyEntry) :=
  let contents := bytes_TrimSpace contents in
  parse_authorized_loop (length contents) contents.

(** The loop of [ParseKnownHosts]. *)
Fixpoint parse_known_loop (fuel : nat) (contents : bytes) : res (list KnownHostEntry) :=
  if bool_decide (contents = []) then Ok []
  else match fuel with
  | O => Err (NewError "known_hosts does not end")
  | S fuel =>
      match parse_known_host contents with
      | Err e => if err_is e io_EOF then Ok [] else Err (Wrapped e "parse known_hosts entry")
      | Ok (markerStr, hosts, publicKey, comment, rest) =>
          match parseMarkerString markerStr with
          | None => Err (NewError "unsupported marker in known_hosts entry")
          | Some marker =>
              reject_if (bool_decide (marker = KnownHostCertAuthority))
                (NewError "known_hosts certificate-authority entries are not supported") ≫= λ _,
              validateKnownHostPatterns hosts ≫= λ _,
              wrap_err "parse known_hosts entry" (sshEd25519PublicKey publicKey comment) ≫= λ '(parsed, ok),
              parse_known_loop fuel rest ≫= λ entries,
              mret (if (ok : bool) then MkKnownHost marker hosts parsed :: entries else entries)
          end
      end
  end.

Definition ParseKnownHosts (contents : bytes) : res (list KnownHostEntry) :=
  parse_known_loop (length contents) contents.
End trust.

(** ** Host keys *)

(** The entry is for this host and this key. *)
Definition entry_for (host : string) (key : PublicKey) (e : KnownHostEntry) : Prop :=
  host ∈ kh_Hosts e ∧ pk_Algorithm (kh_HostKey e) = pk_Algorithm key ∧ pk_bytes (kh_HostKey e) = pk_bytes key.

(** What a known_hosts file says about a host and a key, without an order. *)
Definition host_key_verdict (es : list KnownHostEntry) (host : string) (key : PublicKey) (m : HostKeyMatch) : Prop :=
  match m with
  | HostKeyRevoked => ∃ e, e ∈ es ∧ entry_for host key e ∧ kh_Marker e = KnownHostRevoked
  | HostKeyAccepted =>
      (∃ e, e ∈ es ∧ entry_for host key e ∧ kh_Marker e = KnownHostEmptyMarker) ∧
      ∀ e, e ∈ es → entry_for host key e → kh_Marker e ≠ KnownHostRevoked
  | HostKeyMismatch =>
      (∃ e, e ∈ es ∧ host ∈ kh_Hosts e) ∧
      ∀ e, e ∈ es → entry_for host key e → kh_Marker e = KnownHostCertAuthority
  | HostKeyNoHost => ∀ e, e ∈ es → host ∉ kh_Hosts e
  end.

Lemma ex_snoc {A} (P : A → Prop) l x : (∃ e, e ∈ l ++ [x] ∧ P e) ↔ (∃ e, e ∈ l ∧ P e) ∨ P x.
Proof.
  setoid_rewrite elem_of_app. setoid_rewrite list_elem_of_singleton. split.
  - intros (e & [?| ->] & ?); [left; by exists e|by right].
  - intros [(e & ? & ?)|?]; [exists e; tauto|exists x; tauto].
Qed.

Lemma all_snoc {A} (P Q : A → Prop) l x :
  (∀ e, e ∈ l → P e → Q e) → (P x → Q x) → ∀ e, e ∈ l ++ [x] → P e → Q e.
Proof.
  intros Hl Hx e. rewrite elem_of_app, list_elem_of_singleton. intros [He| ->]; [by apply Hl|done].
Qed.

Lemma matchHostKey_loop_spec es seen host key hf ka :
  (hf = true ↔ ∃ e, e ∈ seen ∧ host ∈ kh_Hosts e) →
  (ka = true ↔ ∃ e, e ∈ seen ∧ entry_for host key e ∧ kh_Marker e = KnownHostEmptyMarker) →
  (∀ e, e ∈ seen → entry_for host key e → kh_Marker e ≠ KnownHostRevoked) →
  host_key_verdict (seen ++ es) host key (matchHostKey_loop es host key hf ka).
Proof.
  revert seen hf ka. induction es as [|x es IH]; intros seen hf ka Hhf Hka Hnr.
  - rewrite app_nil_r. simpl. destruct ka; [split; [by apply Hka|done]|].
    destruct hf; simpl.
    + split; [by apply Hhf|]. intros e He Hfor. destruct (kh_Marker e) eqn:Em; [|done|by destruct (Hnr e)].
      enough (false = true) by done. apply Hka. by exists e.
    + intros e He Hh. enough (false = true) by done. apply Hhf. by exists e.
  - replace (seen ++ x :: es) with ((seen ++ [x]) ++ es) by (by rewrite <-(assoc_L (++))).
    simpl. unfold entry_Match. case_bool_decide as Hh; simpl.
    2: { assert (Hx : ¬ entry_for host key x) by (by intros (? & _)).
         apply IH; [rewrite ex_snoc; tauto..|]. by apply all_snoc. }
    destruct (publicKey_Equal (kh_HostKey x) key) eqn:Eq; simpl.
    + apply publicKey_Equal_iff in Eq. assert (Hx : entry_for host key x) by (by split).
      destruct (kh_Marker x) eqn:Em.
      * apply IH; [rewrite ex_snoc; tauto..|]. apply all_snoc; [done|congruence].
      * apply IH; [rewrite ex_snoc; tauto|rewrite ex_snoc, Hka; intuition congruence|].
        apply all_snoc; [done|congruence].
      * exists x. rewrite !elem_of_app, list_elem_of_singleton. tauto.
    + assert (Hx : ¬ entry_for host key x).
      { intros (_ & Ha & Hb). rewrite (proj2 (publicKey_Equal_iff _ _)) in Eq; done. }
      apply IH; [rewrite ex_snoc; tauto..|]. by apply all_snoc.
Qed.

Lemma host_key_precedence_raw (es : list KnownHostEntry) (host : string) (key : PublicKey) :
  host_key_verdict es host key (MatchHostKey (Some es) host key) ∧
  MatchHostKey None host key = HostKeyNoHost.
Proof.
  split; [|done]. apply (matchHostKey_loop_spec es []).
  1-2: split; [done|]; intros (e & He & _); by apply elem_of_nil in He.
  intros e He. by apply elem_of_nil in He.
Qed.

(** C32: [MatchHostKey] gives the verdict the file as a set of entries stands for,
    whatever their order: a revoked entry for the host and key wins over any
    accepting one, a key is accepted only by an unmarked entry for exactly this
    host and key, and a known host with another key is a mismatch. *)
Theorem host_key_precedence (es : list KnownHostEntry) (host : string) (key : PublicKey) :
  host_key_verdict es host key (MatchHostKey (Some es) host key) ∧
  MatchHostKey None host key = HostKeyNoHost.
Proof. apply host_key_precedence_raw. Qed.

(** ** Options of authorized keys *)

(** A joined file knows the hosts of both, with the keys of both. *)
Lemma join_lookup left right host :
  JoinHostPublicKeys left right !! host = match right !! host with
    | Some ks => Some (default [] (left !! host) ++ ks)
    | None => left !! host
    end.
Proof.
  unfold JoinHostPublicKeys. revert host.
  refine (map_fold_weak_ind (λ merged right, ∀ host, merged !! host = match right !! host with
    | Some ks => Some (default [] (left !! host) ++ ks) | None => left !! host end) _ left _ _ right).
  - intros host. by rewrite lookup_empty.
  - intros h ks m merged Hm IH host. destruct (decide (host = h)) as [->|Hne].
    + by rewrite !lookup_insert_eq, IH, Hm.
    + by rewrite !lookup_insert_ne.
Qed.

(** An entry that stands for a host as valid never stands for it as revoked, and the
    search finds the first of these. *)
Lemma known_match_valid entries host e : known_Match entries (λ e, MatchesValid (Some e) host) = Some e →
  e ∈ entries ∧ host ∈ kh_Hosts e ∧ kh_Marker e ≠ KnownHostRevoked.
Proof.
  induction entries as [|x rest IH]; [done|]. cbn [known_Match]. destruct (MatchesValid (Some x) host) eqn:E.
  - intros [= ->]. apply andb_true_iff in E as [H1 H2]. apply bool_decide_eq_true in H2. apply negb_true_iff, bool_decide_eq_false in H1.
    split_and!; [left|done|done].
  - intros Hm. destruct (IH Hm) as (? & ? & ?). split_and!; [by right|done|done].
Qed.

Section options.
Context `{TrustLib}.

Definition known_options : list string := ["command"; "no-pty"; "restrict"]%string.

(** What a list of options means. *)
Definition has_option (name : string) (os : list AuthorizedKeyOption) : Prop :=
  ∃ o, o ∈ os ∧ op_Name o = name.

Lemma has_option_cons name o os : has_option name (o :: os) ↔ op_Name o = name ∨ has_option name os.
Proof.
  unfold has_option. setoid_rewrite elem_of_cons. split.
  - intros (o' & [->|Hin] & Hn); [by left|right; by exists o'].
  - intros [Hn|(o' & Hin & Hn)]; [exists o; tauto|exists o'; tauto].
Qed.

Lemma constraints_loop_spec os seen c c' :
  constraints_loop os seen c = Ok c' →
  NoDup (op_Name <$> os) ∧
  (∀ o, o ∈ os → (op_Name o ∉ seen) ∧ op_Name o ∈ known_options) ∧
  (ac_Restricted c' = true ↔ ac_Restricted c = true ∨ has_option "restrict" os) ∧
  (ac_NoPTY c' = true ↔ ac_NoPTY c = true ∨ has_option "no-pty" os ∨ has_option "restrict" os) ∧
  (ac_ForcedCommand c' = ac_ForcedCommand c ∧ ¬ has_option "command" os ∨
   ∃ o, o ∈ os ∧ op_Name o = "command"%string ∧ unquote (op_Value o) = Ok (ac_ForcedCommand c') ∧
     TrimSpace (ac_ForcedCommand c') ≠ ""%string ∧ contains NUL (ac_ForcedCommand c') = false ∧
     slen (ac_ForcedCommand c') <= max_command).
Proof.
  revert seen c. induction os as [|o os IH]; intros seen c Hr; simpl in Hr.
  - injection Hr as <-. split; [constructor|]. unfold has_option. split; [intros ? []%elem_of_nil|].
    setoid_rewrite elem_of_nil. naive_solver.
  - res_inv. bool_simp.
    match goal with Hl : constraints_loop os _ _ = Ok _ |- _ =>
      destruct (IH _ _ Hl) as (Hnd & Hin & Hres & Hpty & Hcmd); clear IH Hl end.
    assert (Hfresh : op_Name o ∉ (op_Name <$> os)).
    { rewrite list_elem_of_fmap. intros (o' & Ho' & Hin'). destruct (Hin _ Hin') as [Hseen _]. set_solver. }
    split; [by constructor|]. rewrite !has_option_cons, Hres, Hpty.
    assert (Hall : op_Name o ∈ known_options →
      ∀ o', o' ∈ o :: os → (op_Name o' ∉ seen) ∧ op_Name o' ∈ known_options).
    { intros Hname o' [->|Hin']%elem_of_cons; [done|]. destruct (Hin _ Hin'). split; [set_solver|done]. }
    unfold apply_option in *. repeat case_bool_decide; res_inv; subst; bool_simp; simpl in *;
      try done;
      match goal with E : op_Name o = _ |- _ => rewrite E in Hfresh, Hall |- * end;
      (split; [apply Hall; unfold known_options; set_solver|]); clear Hall Hin.
    + split; [intuition congruence|]. split; [intuition congruence|]. right.
      destruct Hcmd as [[-> _]|(o' & Hin' & Hn & _)].
      2: { exfalso. apply Hfresh. rewrite list_elem_of_fmap. by exists o'. }
      exists o. rewrite wrap_err_ok in *. repeat split; [by left|done..].
    + split; [intuition congruence|]. split; [intuition congruence|].
      destruct Hcmd as [[-> Hno]|(o' & Hin' & ?)]; [left; split; [done|intuition congruence]|].
      right. exists o'. split; [by right|done].
    + split; [intuition congruence|]. split; [intuition congruence|].
      destruct Hcmd as [[-> Hno]|(o' & Hin' & ?)]; [left; split; [done|intuition congruence]|].
      right. exists o'. split; [by right|done].
Qed.

Lemma constraints_spec os c :
  parseAuthorizedKeyConstraints os = Ok c →
  NoDup (op_Name <$> os) ∧ (∀ o, o ∈ os → op_Name o ∈ known_options) ∧
  (ac_Restricted c = true ↔ has_option "restrict" os) ∧
  (ac_NoPTY c = true ↔ has_option "no-pty" os ∨ has_option "restrict" os) ∧
  (has_option "command" os ↔ ac_ForcedCommand c ≠ ""%string) ∧ slen (ac_ForcedCommand c) <= max_command.
Proof.
  intros Hc. destruct (constraints_loop_spec _ _ _ _ Hc) as (Hnd & Hin & Hr & Hp & Hcmd). simpl in *.
  split; [done|]. split; [intros o Ho; by apply Hin|].
  split; [rewrite Hr; intuition congruence|]. split; [rewrite Hp; intuition congruence|].
  destruct Hcmd as [[E Hno]|(o & Ho & Hn & _ & Hne & _ & Hl)].
  - rewrite E. split; [|done]. split; [tauto|done].
  - split; [|done]. split; [|intros _; by exists o]. intros _ E. by rewrite E in Hne.
Qed.

Lemma authorized_loop_spec fuel contents es :
  parse_authorized_loop fuel contents = Ok es →
  ∀ e, e ∈ es → is_ok (parseAuthorizedKeyConstraints (ak_Options e)) = true ∧ pk_Algorithm (ak_Key e) = AlgorithmEd25519.
Proof.
  revert contents es. induction fuel as [|fuel IH]; intros contents es Hp; simpl in Hp;
    case_bool_decide; try done; try (injection Hp as <-; intros e He; by apply elem_of_nil in He).
  apply res_bind_ok in Hp as ([[[pk comment] options] rest] & _ & Hp).
  destruct (negb (bool_decide (ssh_type pk = KeyAlgoED25519))); [by eapply IH|].
  apply res_bind_ok in Hp as ([publicKey ok] & Hk & Hp). rewrite wrap_err_ok in Hk.
  destruct ok; simpl in Hp; [|by eapply IH].
  apply res_bind_ok in Hp as (parsed & _ & Hp). apply res_bind_ok in Hp as (cs & Hcs & Hp).
  apply res_bind_ok in Hp as (entries & Hrest & Hp). injection Hp as <-. rewrite wrap_err_ok in Hcs.
  intros e He. apply elem_of_cons in He as [->|He]; [|by eapply IH].
  simpl. rewrite Hcs. split; [done|].
  unfold sshEd25519PublicKey, ParseSSHPublicKey in Hk. rewrite wrap_err_ok in Hk. repeat case_match; by simplify_eq.
Qed.

(** Trimming does not lengthen, so every turn of the loop has fewer bytes left. *)
Lemma trim_right_not_longer s : (String.length (trim_right s) <= String.length s)%nat.
Proof. induction s as [|a r IH]; [done|]. simpl. destruct (blank (String a r)); simpl; lia. Qed.

Lemma bytes_TrimSpace_length b : (length (bytes_TrimSpace b) <= length b)%nat.
Proof.
  assert (Hl : ∀ s, length (String.list_byte_of_string s) = String.length s).
  { intros s. induction s as [|a s IH]; [done|]. simpl. by rewrite <-IH. }
  unfold bytes_TrimSpace, TrimSpace. rewrite Hl.
  etrans; [apply trim_right_not_longer|]. etrans; [apply trim_left_not_longer|].
  rewrite <-Hl, String.list_byte_of_string_of_list_byte. done.
Qed.

Lemma authorized_loop_total `{!TrustLaws} fuel contents :
  (length contents <= fuel)%nat → parse_authorized_loop fuel contents ≠ Err (NewError "authorized_keys does not end").
Proof.
  revert contents. induction fuel as [|fuel IH]; intros contents Hl; simpl;
    case_bool_decide as Hc; try done; [by destruct contents; simpl in Hl; [|lia]|].
  destruct (parse_authorized_key contents) as [[[[pk comment] options] rest]|] eqn:E; simpl; [|done].
  apply parse_authorized_key_rest in E. pose proof (bytes_TrimSpace_length rest).
  specialize (IH (bytes_TrimSpace rest) ltac:(lia)).
  destruct (negb _); [done|].
  destruct (sshEd25519PublicKey pk comment) as [[publicKey ok]|]; simpl; [|done].
  destruct ok; simpl; [|done].
  destruct (parseAuthorizedKeyOptions options); simpl; [|done].
  destruct (parseAuthorizedKeyConstraints _); simpl; [|done].
  destruct (parse_authorized_loop fuel _); simpl; [done|]. intros [= ->]. by apply IH.
Qed.
End options.


(** ** A concrete file format

    One byte per entry: 2 is a key with [no-pty], 3 a restricted one with a forced
    command, any other byte an unrestricted key. *)

Definition toy_ssh_key : @ssh_key toy_keys := replicate 32 x07.

Definition toy_trust : @TrustLib toy_keys := {|
  parse_known_host b :=
    match b with [] => Err io_EOF | _ :: rest => Ok (""%string, ["host"%string], toy_ssh_key, [], rest) end;
  parse_authorized_key b :=
    match b with
    | [] => Err io_EOF
    | x02 :: rest => Ok (toy_ssh_key, [], ["no-pty"%string], rest)
    | x03 :: rest => Ok (toy_ssh_key, [], ["command=date"; "restrict"]%string, rest)
    | _ :: rest => Ok (toy_ssh_key, [], [], rest)
    end;
  unquote s := Ok s;
|}.

Lemma toy_trust_laws : @TrustLaws toy_keys toy_trust.
Proof.
  split.
  - intros b m hs k c rest. destruct b; simpl; [done|]. intros [= _ _ _ _ <-]. lia.
  - intros b k c o rest Hb. destruct b as [|x b]; simpl in Hb; [done|].
    enough (rest = b) as -> by (simpl; lia). repeat case_match; by simplify_eq.
Qed.

