(* ===== verification/Auth.v ===== *)
(** * Authentication (lib/auth)

    The mutual authentication that runs over the encrypted transport: the client
    side ([client_auth.go]), the server side with its pending decision
    ([server_auth.go]), the signed payloads ([payloads.go]) and the transcript
    hashes ([transcript.go]).  Messages travel through [lib/wire]; the protobuf
    encodings of the signed messages and SHA-256 are the parameters of
    [AuthLib], the random nonces are arguments. *)

From S2P Require Import Prelude GoStrings Bincoder Wire Keys.

Definition ProtocolVersion : string := "mygosh-auth-v1".
Definition ServerAuthContext : string := "mygosh-server-auth-to-sign-v1".
Definition ClientAuthContext : string := "mygosh-client-auth-to-sign-v1".
Definition DigestSize : Z := 32.
Definition NonceSize : Z := 32.

(** ** The messages of lib/auth/authpb *)

Record HostAuthInit := MkHostAuthInit {
  hi_MygoshAuthVersion : string;
  hi_ClientNonce : bytes;
  hi_ReferenceIdentity : string;
}.

Record ServerAuth := MkServerAuth {
  sa_ServerHostKey : bytes;
  sa_ServerNonce : bytes;
  sa_Signature : bytes;
}.

Record ClientAuthRequest := MkClientAuthRequest {
  ca_Username : string;
  ca_ClientPublicKeyOrCert : bytes;
  ca_ClientSigAlg : string;
  ca_Signature : bytes;
}.

(** [ClientAuthResponse]: ok, or a rejection with its code and message; both
    oneofs are required, so a frame without a kind or a response without a
    result does not pass the validation of [ReceiveProto]. *)
Inductive ClientAuthResponse := AuthOk | AuthReject (code message : string).

Inductive AuthFrame :=
  | FHostAuthInit (m : HostAuthInit)
  | FServerAuth (m : ServerAuth)
  | FClientAuthRequest (m : ClientAuthRequest)
  | FClientAuthResponse (m : ClientAuthResponse)
  | FAuthError (code message : string).

(** ** payloads.go *)

Record ServerAuthToSign := MkServerToSign {
  ss_ChannelBinding : bytes;
  ss_HostAuthInitHash : bytes;
  ss_ServerHostKey : bytes;
  ss_ServerNonce : bytes;
}.

Record ClientAuthToSign := MkClientToSign {
  cs_ChannelBinding : bytes;
  cs_HostAuthInitHash : bytes;
  cs_ServerAuthHash : bytes;
  cs_Username : string;
  cs_ClientPublicKeyOrCert : bytes;
  cs_ClientSigAlg : string;
}.

(** Deterministic marshalling of the signed and hashed messages; the payload
    messages carry their context string first. *)
Class AuthLib := {
  marshal_host_init : HostAuthInit → res bytes;
  marshal_server_auth : ServerAuth → res bytes;
  marshal_server_tosign : string → ServerAuthToSign → res bytes;
  marshal_client_tosign : string → ClientAuthToSign → res bytes;
  sha256 : bytes → bytes;
}.

(** What the code relies on: a marshalled payload determines its message, and a
    digest has its fixed size.  ([Marshal] itself may fail: a protobuf string
    must be UTF-8.) *)
Class AuthLaws `{AuthLib} := {
  marshal_client_tosign_inj c m c' m' b :
    marshal_client_tosign c m = Ok b → marshal_client_tosign c' m' = Ok b → c = c' ∧ m = m';
  marshal_server_tosign_inj c m c' m' b :
    marshal_server_tosign c m = Ok b → marshal_server_tosign c' m' = Ok b → c = c' ∧ m = m';
  sha256_size b : blen (sha256 b) = DigestSize;
}.

Definition validateBytesLen (b : bytes) (want : Z) : res unit :=
  reject_if (negb (blen b =? want)) (NewError "length does not match expected length").

Definition validateDigest (b : bytes) : res unit := validateBytesLen b DigestSize.

Definition serverToSign_Validate (p : ServerAuthToSign) : res unit :=
  validateDigest (ss_ChannelBinding p) ≫= λ _,
  validateDigest (ss_HostAuthInitHash p) ≫= λ _,
  reject_if (blen (ss_ServerHostKey p) =? 0) (NewError "server host key is required") ≫= λ _,
  validateBytesLen (ss_ServerNonce p) NonceSize.

Definition clientToSign_Validate (p : ClientAuthToSign) : res unit :=
  validateDigest (cs_ChannelBinding p) ≫= λ _,
  validateDigest (cs_HostAuthInitHash p) ≫= λ _,
  validateDigest (cs_ServerAuthHash p) ≫= λ _,
  reject_if (bool_decide (cs_Username p = ""%string)) (NewError "username is required") ≫= λ _,
  reject_if (blen (cs_ClientPublicKeyOrCert p) =? 0) (NewError "client public key or cert is required") ≫= λ _,
  reject_if (bool_decide (cs_ClientSigAlg p = ""%string)) (NewError "client signature algorithm is required").

Section payloads.
Context `{AuthLib}.

Definition serverToSign_MarshalBinary (p : ServerAuthToSign) : res bytes :=
  serverToSign_Validate p ≫= λ _,
  wrap_err "marshal server auth payload" (marshal_server_tosign ServerAuthContext p).

Definition clientToSign_MarshalBinary (p : ClientAuthToSign) : res bytes :=
  clientToSign_Validate p ≫= λ _,
  wrap_err "marshal client auth payload" (marshal_client_tosign ClientAuthContext p).

(** ** transcript.go *)

Definition HashHostAuthInit (m : HostAuthInit) : res bytes :=
  wrap_err "marshal auth transcript" (marshal_host_init m) ≫= λ packet, mret (sha256 packet).

(** The hash covers the host key and the nonce, not the signature. *)
Definition HashServerAuthFields (serverHostKey serverNonce : bytes) : res bytes :=
  wrap_err "marshal auth transcript" (marshal_server_auth (MkServerAuth serverHostKey serverNonce [])) ≫= λ packet,
  mret (sha256 packet).

Definition HashServerAuthMessage (m : ServerAuth) : res bytes :=
  HashServerAuthFields (sa_ServerHostKey m) (sa_ServerNonce m).
End payloads.

(** ** auth.go *)

Inductive authState :=
  | authStateNoiseEstablished
  | authStateHostAuthInitSent
  | authStateHostAuthInitRecv
  | authStateServerAuthSent
  | authStateServerAuthRecv
  | authStateClientAuthSent
  | authStateClientAuthRecv
  | authStateAuthenticated.

#[export] Instance authState_eq_dec : EqDecision authState.
Proof. solve_decision. Defined.

(** [HostKeyVerifier] and [ClientIdentityProvider] are supplied by the caller. *)
Record ClientConfig := MkClientConfig {
  cc_ReferenceIdentity : string;
  cc_Username : string;
  cc_ClientIdentity : option (string → string → PublicKey → res Keypair);
  cc_VerifyServerHostKey : option (string → PublicKey → option error);
}.

Definition clientConfig_Validate (c : ClientConfig) : res unit :=
  reject_if (bool_decide (cc_ReferenceIdentity c = ""%string)) (NewError "reference identity is required") ≫= λ _,
  reject_if (bool_decide (cc_Username c = ""%string)) (NewError "username is required") ≫= λ _,
  reject_if (match cc_ClientIdentity c with None => true | _ => false end)
    (NewError "client identity provider is required") ≫= λ _,
  reject_if (match cc_VerifyServerHostKey c with None => true | _ => false end)
    (NewError "server host key verifier is required").

Record ClientResult := MkClientResult {
  cl_ReferenceIdentity : string;
  cl_ServerHostKey : PublicKey;
  cl_Username : string;
  cl_PublicKey : PublicKey;
}.

Record VerifiedClient := MkVerified {
  vc_hostIdentity : string;
  vc_requestedUsername : string;
  vc_provenKey : PublicKey;
  vc_serverKey : PublicKey;
}.

Definition NewVerifiedClient (host user : string) (provenKey serverKey : PublicKey) : res VerifiedClient :=
  reject_if (bool_decide (host = ""%string)) (NewError "host identity is required") ≫= λ _,
  reject_if (bool_decide (user = ""%string)) (NewError "requested username is required") ≫= λ _,
  wrap_err "proved client key" (publicKey_Validate provenKey) ≫= λ _,
  wrap_err "server key" (publicKey_Validate serverKey) ≫= λ _,
  mret (MkVerified host user provenKey serverKey).

(** The panic of [Sign] and [Verify] on an invalid key. *)
Definition panicked : error := Sentinel "panic".

Section machine.
Context {S : Type} (fr : Framer S) `{ProtoMessage AuthFrame} `{KeyLib} `{AuthLib}.

(** [authMachine]: the state of the protocol and the connection; the channel
    binding is an argument of the two sides. *)
Record authMachine := MkMachine { am_state : authState; am_conn : S }.

Definition on_conn {A} (m : ST S A) : ST authMachine A := λ am,
  let '(s, r) := m (am_conn am) in (MkMachine (am_state am) s, r).

Definition advance (expected next : authState) : ST authMachine unit :=
  am ← st_get;
  if bool_decide (am_state am = expected) then st_modify (λ am, MkMachine next (am_conn am))
  else st_fail (NewError "auth state cannot transition").

Definition receiveAuthFrame : ST authMachine AuthFrame :=
  r ← st_try (on_conn (ReceiveProto (M:=AuthFrame) (Some fr) (Some tt)));
  st_lift (wrap_err "receive auth frame" r).

Definition sendAuthFrame (frame : AuthFrame) : ST authMachine unit :=
  on_conn (SendProto (Some fr) (Some frame)).

(** A received frame, with the error of [receiveAuthFrame] wrapped again. *)
Definition expect_frame {A} (msg peer : string) (pick : AuthFrame → option A) : ST authMachine A :=
  r ← st_try receiveAuthFrame;
  match r with
  | Err e => st_fail (Wrapped e msg)
  | Ok (FAuthError _ message) => st_fail (NewError (peer +:+ " rejected auth: " +:+ message))
  | Ok frame => match pick frame with
                | Some a => mret a
                | None => st_fail (NewError ("unexpected frame: " +:+ msg))
                end
  end.

Definition receiveHostAuthInit : ST authMachine HostAuthInit :=
  expect_frame "receive host auth init" "peer" (λ f, match f with FHostAuthInit m => Some m | _ => None end).

Definition receiveServerAuth : ST authMachine ServerAuth :=
  expect_frame "receive server auth" "server" (λ f, match f with FServerAuth m => Some m | _ => None end).

Definition receiveClientAuthRequest : ST authMachine ClientAuthRequest :=
  expect_frame "receive client auth request" "peer" (λ f, match f with FClientAuthRequest m => Some m | _ => None end).

Definition receiveClientAuthResponse : ST authMachine ClientAuthResponse :=
  expect_frame "receive client auth response" "server" (λ f, match f with FClientAuthResponse m => Some m | _ => None end).

(** The error of the send is dropped. *)
Definition sendAuthError (code message : string) : ST authMachine unit :=
  r ← st_try (sendAuthFrame (FAuthError code message)); mret tt.

Definition sendClientAuthOK : ST authMachine unit := sendAuthFrame (FClientAuthResponse AuthOk).

Definition sendClientAuthReject (code message : string) : ST authMachine unit :=
  sendAuthFrame (FClientAuthResponse (AuthReject code message)).

(** A Go call that returned an error, wrapped. *)
Definition try_wrap {A} (msg : string) (r : res A) : ST authMachine A := st_lift (wrap_err msg r).

Definition send_wrap (msg : string) (frame : AuthFrame) : ST authMachine unit :=
  r ← st_try (sendAuthFrame frame); try_wrap msg r.

(** A call that panics on an invalid key. *)
Definition or_panic {A} (r : option A) : ST authMachine A :=
  match r with Some a => mret a | None => st_fail panicked end.

(** ** client_auth.go: [nonce] is what [randomBytes] returned. *)
Definition authenticateClient (cfg : ClientConfig) (binding : bytes) (nonce : res bytes) : ST authMachine ClientResult :=
  clientNonce ← try_wrap "generate client nonce" nonce;
  let hostAuthInit := MkHostAuthInit ProtocolVersion clientNonce (cc_ReferenceIdentity cfg) in
  hostAuthInitHash ← try_wrap "hash host auth init" (HashHostAuthInit hostAuthInit);
  send_wrap "send host auth init" (FHostAuthInit hostAuthInit) ≫= λ _,
  advance authStateNoiseEstablished authStateHostAuthInitSent ≫= λ _,
  serverAuth ← receiveServerAuth;
  advance authStateHostAuthInitSent authStateServerAuthRecv ≫= λ _,
  serverHostKey ← try_wrap "parse server host key" (ParsePublicKey (sa_ServerHostKey serverAuth));
  try_wrap "validate server host key" (publicKey_Validate serverHostKey) ≫= λ _,
  serverAuthPayload ← try_wrap "encode server auth payload"
    (serverToSign_MarshalBinary
       (MkServerToSign binding hostAuthInitHash (sa_ServerHostKey serverAuth) (sa_ServerNonce serverAuth)));
  verified ← or_panic (publicKey_Verify serverHostKey serverAuthPayload (sa_Signature serverAuth));
  if negb verified then st_fail (NewError "server auth signature verification failed")
  else
  match cc_VerifyServerHostKey cfg, cc_ClientIdentity cfg with
  | Some verifyHostKey, Some clientIdentity =>
    match verifyHostKey (cc_ReferenceIdentity cfg) serverHostKey with
    | Some e => st_fail (Wrapped e "verify server host key")
    | None =>
      serverAuthHash ← try_wrap "hash server auth" (HashServerAuthMessage serverAuth);
      clientKey ← try_wrap "select client identity"
        (clientIdentity (cc_ReferenceIdentity cfg) (cc_Username cfg) serverHostKey);
      try_wrap "validate client identity" (keypair_Validate clientKey) ≫= λ _,
      let clientPublicKey := keypair_PublicKey clientKey in
      clientPublicKeyBlob ← try_wrap "encode client public key" (publicKey_MarshalBinary clientPublicKey);
      clientAuthPayload ← try_wrap "encode client auth payload"
        (clientToSign_MarshalBinary
           (MkClientToSign binding hostAuthInitHash serverAuthHash (cc_Username cfg) clientPublicKeyBlob
              (pk_Algorithm clientPublicKey)));
      signature ← or_panic (keypair_Sign clientKey clientAuthPayload);
      send_wrap "send client auth request"
        (FClientAuthRequest (MkClientAuthRequest (cc_Username cfg) clientPublicKeyBlob
           (pk_Algorithm clientPublicKey) signature)) ≫= λ _,
      advance authStateServerAuthRecv authStateClientAuthSent ≫= λ _,
      response ← receiveClientAuthResponse;
      match response with
      | AuthReject _ message => st_fail (NewError ("server rejected client auth: " +:+ message))
      | AuthOk =>
          advance authStateClientAuthSent authStateAuthenticated ≫= λ _,
          mret (MkClientResult (cc_ReferenceIdentity cfg) serverHostKey (cc_Username cfg) clientPublicKey)
      end
    end
  | _, _ => st_fail panicked
  end.

(** [conn.ChannelBinding()] is [binding]. *)
Definition RunClient (cfg : ClientConfig) (binding : bytes) (nonce : res bytes) (conn : S) : S * res ClientResult :=
  match clientConfig_Validate cfg with
  | Err e => (conn, Err (Wrapped e "validate client auth config"))
  | Ok _ =>
      let '(am, r) := authenticateClient cfg binding nonce (MkMachine authStateNoiseEstablished conn) in
      (am_conn am, r)
  end.

(** ** server_auth.go *)

Definition authenticationFailed : string := "authentication-failed".

Definition rejectInvalidClient : ST authMachine unit :=
  r ← st_try (sendClientAuthReject authenticationFailed "authentication failed"); mret tt.

(** [r] failed: the client is told, the caller gets the error. *)
Definition or_reject {A} (r : res A) : ST authMachine A :=
  match r with Ok a => mret a | Err e => rejectInvalidClient ≫= λ _, st_fail e end.

Definition verifyClient (hostKey : Keypair) (binding : bytes) (nonce : res bytes) (ctxErr : option error)
  : ST authMachine VerifiedClient :=
  match ctxErr with
  | Some e => st_fail e
  | None =>
    hostAuthInit ← receiveHostAuthInit;
    advance authStateNoiseEstablished authStateHostAuthInitRecv ≫= λ _,
    if negb (bool_decide (hi_MygoshAuthVersion hostAuthInit = ProtocolVersion)) then
      sendAuthError "unsupported-auth-version" "unsupported auth version" ≫= λ _,
      st_fail (NewError "unsupported auth version")
    else
    hostAuthInitHash ← try_wrap "hash host auth init" (HashHostAuthInit hostAuthInit);
    let hostPublicKey := keypair_PublicKey hostKey in
    hostPublicKeyBlob ← try_wrap "encode server host key" (publicKey_MarshalBinary hostPublicKey);
    serverNonce ← try_wrap "generate server nonce" nonce;
    serverAuthPayload ← try_wrap "encode server auth payload"
      (serverToSign_MarshalBinary (MkServerToSign binding hostAuthInitHash hostPublicKeyBlob serverNonce));
    signature ← or_panic (keypair_Sign hostKey serverAuthPayload);
    let serverAuthMsg := MkServerAuth hostPublicKeyBlob serverNonce signature in
    send_wrap "send server auth" (FServerAuth serverAuthMsg) ≫= λ _,
    advance authStateHostAuthInitRecv authStateServerAuthSent ≫= λ _,
    serverAuthHash ← try_wrap "hash server auth" (HashServerAuthMessage serverAuthMsg);
    clientAuthRequest ← receiveClientAuthRequest;
    advance authStateServerAuthSent authStateClientAuthRecv ≫= λ _,
    clientPublicKey ← or_reject (wrap_err "parse client public key"
      (ParsePublicKey (ca_ClientPublicKeyOrCert clientAuthRequest)));
    or_reject (wrap_err "validate client public key" (publicKey_Validate clientPublicKey)) ≫= λ _,
    or_reject (reject_if (negb (bool_decide (ca_ClientSigAlg clientAuthRequest = pk_Algorithm clientPublicKey)))
      (NewError "client signature algorithm does not match key algorithm")) ≫= λ _,
    clientAuthPayload ← or_reject (wrap_err "encode client auth payload"
      (clientToSign_MarshalBinary
         (MkClientToSign binding hostAuthInitHash serverAuthHash (ca_Username clientAuthRequest)
            (ca_ClientPublicKeyOrCert clientAuthRequest) (ca_ClientSigAlg clientAuthRequest))));
    ok ← or_panic (publicKey_Verify clientPublicKey clientAuthPayload (ca_Signature clientAuthRequest));
    or_reject (reject_if (negb ok) (NewError "client auth signature verification failed")) ≫= λ _,
    or_reject (wrap_err "construct verified client"
      (NewVerifiedClient (hi_ReferenceIdentity hostAuthInit) (ca_Username clientAuthRequest)
         clientPublicKey hostPublicKey))
  end.

(** [PendingServerAuth] *)
Record PendingServerAuth := MkPending {
  ps_machine : authMachine;
  ps_verified : VerifiedClient;
  ps_decided : bool;
}.

Definition BeginServer (hostKey : Keypair) (binding : bytes) (nonce : res bytes) (ctxErr : option error) (conn : S)
  : S * res PendingServerAuth :=
  match keypair_Validate hostKey with
  | Err e => (conn, Err (Wrapped (Wrapped e "server host key") "validate server auth config"))
  | Ok _ =>
      let '(am, r) := verifyClient hostKey binding nonce ctxErr (MkMachine authStateNoiseEstablished conn) in
      (am_conn am, match r with Ok v => Ok (MkPending am v false) | Err e => Err e end)
  end.

Definition ErrDecisionMade : error := Sentinel "server auth decision already made".

Definition beginDecision : ST PendingServerAuth unit :=
  p ← st_get;
  if ps_decided p then st_fail ErrDecisionMade
  else st_modify (λ p, MkPending (ps_machine p) (ps_verified p) true).

Definition on_machine {A} (m : ST authMachine A) : ST PendingServerAuth A := λ p,
  let '(am, r) := m (ps_machine p) in (MkPending am (ps_verified p) (ps_decided p), r).

Definition Accept : ST PendingServerAuth unit :=
  beginDecision ≫= λ _,
  on_machine (r ← st_try sendClientAuthOK; try_wrap "send client auth response" r) ≫= λ _,
  on_machine (advance authStateClientAuthRecv authStateAuthenticated).

Definition Reject : ST PendingServerAuth unit :=
  beginDecision ≫= λ _,
  on_machine (r ← st_try (sendClientAuthReject authenticationFailed "authentication failed");
              try_wrap "send client auth rejection" r).

(** [StaticClientIdentityProvider] and [ExactHostKeyVerifier] *)
Definition StaticClientIdentityProvider (keypair : Keypair) : string → string → PublicKey → res Keypair := λ _ _ _,
  wrap_err "client identity key" (keypair_Validate keypair) ≫= λ _, mret keypair.

Definition ExactHostKeyVerifier (referenceIdentity : string) (expected : PublicKey)
  : string → PublicKey → option error := λ reqIdentity hostKey,
  if negb (bool_decide (reqIdentity = referenceIdentity)) then Some (NewError "reference identity does not match expected")
  else if negb (publicKey_Equal hostKey expected) then Some (NewError "unexpected host key fingerprint")
  else None.
End machine.
