(* ===== verification/AuthProofs.v ===== *)
(** * What authentication establishes (lib/auth)

    Theorems about [Auth]: what the server knows when [BeginServer] returns, what
    the client has checked before it signs, which frames either side sends, and
    that a pending authentication is decided once.  The peer and the network are
    an arbitrary [Framer]; [recording] wraps it and keeps the frames a side
    hands to [SendFrame]. *)

From S2P Require Import Prelude GoStrings Bincoder Wire Keys Auth.

(** [log] is the encodings of [frames]. *)
Definition encodes `{ProtoMessage AuthFrame} (frames : list AuthFrame) (log : list bytes) : Prop :=
  Forall2 (λ f b, proto_marshal f = Ok b) frames log.

Section wp_auth.
Context {S : Type} (fr : Framer S) `{ProtoMessage AuthFrame} `{KeyLib} `{AuthLib}.

Abbreviation machine := (authMachine (S:=S * list bytes)).
Abbreviation rec := (recording fr).

(** The log of a machine is [log0] followed by the encodings of [frames]. *)
Definition sent (log0 : list bytes) (frames : list AuthFrame) (am : machine) : Prop :=
  ∃ bs, (am_conn am).2 = log0 ++ bs ∧ encodes frames bs.

Lemma sent_refl (am : machine) : sent (am_conn am).2 [] am.
Proof. exists []. split; [by rewrite app_nil_r|constructor]. Qed.

Lemma wp_advance expected next (Q : res unit → machine → Prop) am log0 frames :
  sent log0 frames am →
  (∀ am', am_state am' = next → sent log0 frames am' → Q (Ok tt) am') →
  (∀ e, Q (Err e) am) →
  wp (advance expected next) Q am.
Proof.
  intros Hs Hok Herr. unfold advance. apply wp_bind, wp_get. case_bool_decide; [apply wp_modify|apply wp_fail]; auto.
Qed.

Lemma wp_try_wrap {A} msg (r : res A) (Q : res A → machine → Prop) am :
  (∀ a, r = Ok a → Q (Ok a) am) → (∀ e, Q (Err e) am) → wp (try_wrap msg r) Q am.
Proof. intros Hok Herr. apply wp_lift. destruct r; simpl; auto. Qed.

Lemma wp_or_panic {A} (r : option A) (Q : res A → machine → Prop) am :
  (∀ a, r = Some a → Q (Ok a) am) → (∀ e, Q (Err e) am) → wp (or_panic r) Q am.
Proof. intros Hok Herr. destruct r; [apply wp_ret|apply wp_fail]; auto. Qed.

(** Sending a frame logs its encoding, or fails before [SendFrame]. *)
Lemma wp_sendAuthFrame frame (Q : res unit → machine → Prop) am log0 frames :
  sent log0 frames am →
  (∀ am', am_state am' = am_state am → sent log0 (frames ++ [frame]) am' → Q (Ok tt) am') →
  (∀ e am', am_state am' = am_state am → sent log0 frames am' ∨ sent log0 (frames ++ [frame]) am' → Q (Err e) am') →
  wp (sendAuthFrame rec frame) Q am.
Proof.
  intros (bs & Hlog & Henc) Hok Herr. unfold wp, sendAuthFrame, on_conn, SendProto.
  destruct (proto_validate frame) as [e|]; simpl.
  { apply Herr; [done|]. left. by exists bs. }
  destruct (proto_marshal frame) as [b|e] eqn:Hb; simpl.
  2:{ apply Herr; [done|]. left. by exists bs. }
  destruct (am_conn am) as [s log] eqn:Hs. simpl in *.
  unfold mbind, ST_bind, st_try, st_lift. simpl.
  assert (Hnew : ∀ s', sent log0 (frames ++ [frame]) (MkMachine (am_state am) (s', log ++ [b]))).
  { intros s'. exists (bs ++ [b]). split; [by rewrite Hlog, app_assoc|].
    apply Forall2_app; [done|]. by repeat constructor. }
  destruct (SendFrame fr b s) as [s' [[]|e]]; simpl; [apply Hok|apply Herr]; auto.
Qed.

Lemma wp_send_wrap msg frame (Q : res unit → machine → Prop) am log0 frames :
  sent log0 frames am →
  (∀ am', am_state am' = am_state am → sent log0 (frames ++ [frame]) am' → Q (Ok tt) am') →
  (∀ e am', am_state am' = am_state am → sent log0 frames am' ∨ sent log0 (frames ++ [frame]) am' → Q (Err e) am') →
  wp (send_wrap rec msg frame) Q am.
Proof.
  intros Hlog Hok Herr. apply wp_bind, wp_try, (wp_sendAuthFrame _ _ _ log0 frames Hlog).
  - intros. apply wp_try_wrap; auto. intros ? [= <-]; auto.
  - intros. apply wp_try_wrap; auto. done.
Qed.

(** Receiving logs nothing; a frame that is delivered has been validated. *)
Lemma wp_expect_frame {A} msg peer (pick : AuthFrame → option A) (Q : res A → machine → Prop) am log0 frames :
  sent log0 frames am →
  (∀ f a am', am_state am' = am_state am → sent log0 frames am' →
     proto_validate f = None → pick f = Some a → Q (Ok a) am') →
  (∀ e am', am_state am' = am_state am → sent log0 frames am' → Q (Err e) am') →
  wp (expect_frame rec msg peer pick) Q am.
Proof.
  intros Hlog Hok Herr. unfold expect_frame. apply wp_bind, wp_try. unfold receiveAuthFrame.
  apply wp_bind, wp_try. unfold wp at 1, on_conn.
  destruct (ReceiveProto _ _ (am_conn am)) as [[s' log'] r] eqn:Hr.
  assert (log' = (am_conn am).2) as ->.
  { revert Hr. unfold ReceiveProto, mbind, ST_bind. destruct (am_conn am) as [s log]. simpl.
    destruct (ReceiveFrame fr s) as [s1 [p|]]; simpl; repeat case_match; by intros [= <- <- <-]. }
  assert (Hsent : sent log0 frames (MkMachine (am_state am) (s', (am_conn am).2))) by done.
  destruct r as [f|e]; simpl; apply wp_lift; simpl; [|by apply wp_fail, Herr].
  apply ReceiveProto_valid in Hr.
  destruct f; first [by apply wp_fail, Herr |
    destruct (pick _) eqn:Hp; [by eapply wp_ret, Hok|by apply wp_fail, Herr]].
Qed.

(** ** The server side *)

(** What the server has checked about a client it reports: the request arrived
    on this channel ([binding]) after the server's own host key and nonce, and
    its signature, by the proven key, covers exactly these values. *)
Definition server_evidence (hostKey : Keypair) (binding : bytes) (nonce : res bytes)
    (v : VerifiedClient) (sa : ServerAuth) : Prop :=
  ∃ (init : HostAuthInit) (req : ClientAuthRequest) h1 h2 payload,
    let tosign := MkClientToSign binding h1 h2 (ca_Username req) (ca_ClientPublicKeyOrCert req)
                    (ca_ClientSigAlg req) in
    proto_validate (FHostAuthInit init) = None ∧ hi_MygoshAuthVersion init = ProtocolVersion ∧
    proto_validate (FClientAuthRequest req) = None ∧
    HashHostAuthInit init = Ok h1 ∧ HashServerAuthMessage sa = Ok h2 ∧
    nonce = Ok (sa_ServerNonce sa) ∧ publicKey_MarshalBinary (keypair_PublicKey hostKey) = Ok (sa_ServerHostKey sa) ∧
    ParsePublicKey (ca_ClientPublicKeyOrCert req) = Ok (vc_provenKey v) ∧
    ca_ClientSigAlg req = pk_Algorithm (vc_provenKey v) ∧
    clientToSign_MarshalBinary tosign = Ok payload ∧
    publicKey_Verify (vc_provenKey v) payload (ca_Signature req) = Some true ∧
    v = MkVerified (hi_ReferenceIdentity init) (ca_Username req) (vc_provenKey v) (keypair_PublicKey hostKey).

(** The frames the server may have sent when it reports a failure. *)
Definition server_refusal (frames : list AuthFrame) : Prop :=
  frames = [] ∨
  (∃ message, frames = [FAuthError "unsupported-auth-version" message]) ∨
  (∃ sa, frames = [FServerAuth sa]) ∨
  (∃ sa, frames = [FServerAuth sa; FClientAuthResponse (AuthReject authenticationFailed "authentication failed")]).

Definition server_post hostKey binding nonce log0 (r : res VerifiedClient) (am : machine) : Prop :=
  match r with
  | Ok v => am_state am = authStateClientAuthRecv ∧
      ∃ sa, sent log0 [FServerAuth sa] am ∧ server_evidence hostKey binding nonce v sa
  | Err _ => ∃ frames, sent log0 frames am ∧ server_refusal frames
  end.

Lemma wp_or_reject {A} (r : res A) (Q : res A → machine → Prop) am log0 sa :
  sent log0 [FServerAuth sa] am →
  (∀ a, r = Ok a → Q (Ok a) am) →
  (∀ e am' frames, sent log0 frames am' → server_refusal frames → Q (Err e) am') →
  wp (or_reject rec r) Q am.
Proof.
  intros Hlog Hok Herr. destruct r as [a|e]; simpl; [apply wp_ret; auto|].
  apply wp_bind. unfold rejectInvalidClient. apply wp_bind, wp_try.
  eapply (wp_sendAuthFrame _ _ _ log0 _ Hlog).
  - intros am' _ Hs. apply wp_ret. simpl. apply wp_fail. eapply Herr; [exact Hs|]. right. right. right. eauto.
  - intros e' am' _ Hs. apply wp_ret. simpl. apply wp_fail.
    destruct Hs as [Hs|Hs]; (eapply Herr; [exact Hs|]); right; right; [left|right]; eauto.
Qed.

Lemma NewVerifiedClient_ok host user k sk v : NewVerifiedClient host user k sk = Ok v → v = MkVerified host user k sk.
Proof. unfold NewVerifiedClient. intros Hv. res_inv. done. Qed.

Lemma refuse_none log0 (am : machine) hostKey binding nonce e :
  sent log0 [] am → server_post hostKey binding nonce log0 (Err e) am.
Proof. intros Hs. exists []. split; [done|by left]. Qed.

Lemma refuse_auth log0 (am : machine) hostKey binding nonce e sa :
  sent log0 [FServerAuth sa] am → server_post hostKey binding nonce log0 (Err e) am.
Proof. intros Hs. exists [FServerAuth sa]. split; [done|]. right. right. left. eauto. Qed.

Ltac refused := intros; first [by apply refuse_none | by eapply refuse_auth].

Lemma wp_refuse_version log0 (am : machine) hostKey binding nonce e :
  sent log0 [] am →
  wp (sendAuthError rec "unsupported-auth-version" "unsupported auth version" ≫= λ _, st_fail e)
     (server_post hostKey binding nonce log0) am.
Proof.
  intros Hs. apply wp_bind. unfold sendAuthError. apply wp_bind, wp_try.
  eapply (wp_sendAuthFrame _ _ _ log0 [] Hs).
  - intros am' _ Hs'. apply wp_ret, wp_fail. eexists; split; [exact Hs'|]. right. left. eauto.
  - intros e' am' _ [Hs'|Hs']; apply wp_ret, wp_fail; [by apply refuse_none|].
    eexists; split; [exact Hs'|]. right. left. eauto.
Qed.

Lemma wp_verifyClient hostKey binding nonce ctxErr am :
  am_state am = authStateNoiseEstablished →
  wp (verifyClient rec hostKey binding nonce ctxErr) (server_post hostKey binding nonce (am_conn am).2) am.
Proof.
  intros Hst. pose proof (sent_refl am) as Hs0. remember (am_conn am).2 as log0 eqn:Hl.
  unfold verifyClient. destruct ctxErr; [by apply wp_fail, refuse_none|].
  apply wp_bind, (wp_expect_frame _ _ _ _ _ log0 [] Hs0);
    [|refused].
  intros [] init am1 Hst1 Hs1 Hv1; try done. intros [= ->].
  apply wp_bind, (wp_advance _ _ _ _ log0 [] Hs1); [|refused].
  clear am1 Hst1 Hs1. intros am1 Hst1 Hs1.
  case_bool_decide as Hver; simpl.
  2:{ by apply wp_refuse_version. }
  apply wp_bind, wp_try_wrap; [|refused]. intros h1 Hh1.
  apply wp_bind, wp_try_wrap; [|refused]. intros blob Hblob.
  apply wp_bind, wp_try_wrap; [|refused]. intros snonce ->.
  apply wp_bind, wp_try_wrap; [|refused]. intros spayload Hsp.
  apply wp_bind, wp_or_panic; [|refused]. intros sig Hsig.
  set (sa := MkServerAuth blob snonce sig).
  apply wp_bind. eapply (wp_send_wrap _ _ _ _ log0 [] Hs1).
  2:{ intros e am' _ [Hs|Hs]; [by apply refuse_none|by eapply refuse_auth]. }
  intros am2 Hst2 Hs2. simpl in Hst2, Hs2.
  apply wp_bind, (wp_advance _ _ _ _ log0 _ Hs2); [|refused].
  clear am2 Hst2 Hs2. intros am2 Hst2 Hs2.
  apply wp_bind, wp_try_wrap; [|refused]. intros h2 Hh2.
  apply wp_bind, (wp_expect_frame _ _ _ _ _ log0 [FServerAuth sa] Hs2); [|refused].
  intros [| |req| |] req' am3 Hst3 Hs3 Hv3; try done. intros [= <-].
  apply wp_bind, (wp_advance _ _ _ _ log0 _ Hs3); [|refused].
  clear am3 Hst3 Hs3. intros am3 Hst3 Hs3.
  assert (Hrej : ∀ e am' frames, sent log0 frames am' → server_refusal frames →
    server_post hostKey binding (Ok snonce) log0 (Err e) am') by (intros; by exists frames).
  apply wp_bind, (wp_or_reject _ _ _ log0 sa Hs3); [|done]. intros k Hk. apply wrap_err_ok in Hk.
  apply wp_bind, (wp_or_reject _ _ _ log0 sa Hs3); [|done]. intros [] _.
  apply wp_bind, (wp_or_reject _ _ _ log0 sa Hs3); [|done]. intros [] Halg. res_inv.
  apply wp_bind, (wp_or_reject _ _ _ log0 sa Hs3); [|done]. intros payload Hpl. apply wrap_err_ok in Hpl.
  apply wp_bind, wp_or_panic; [|refused]. intros ok Hok.
  apply wp_bind, (wp_or_reject _ _ _ log0 sa Hs3); [|done]. intros [] Hok'.
  apply (wp_or_reject _ _ _ log0 sa Hs3); [|done]. intros v Hnv. apply wrap_err_ok, NewVerifiedClient_ok in Hnv as ->.
  split; [done|]. exists sa. split; [done|]. exists init, req, h1, h2, payload. simpl.
  destruct ok; [|done]. repeat split; try done. by case_bool_decide.
Qed.

(** ** The client side *)

(** What the client has checked about a server: the server proved, on this
    channel and for this client's own first message, that it holds the key it
    presents, and the caller's verifier accepts that key for the host. *)
Definition client_trusts (cfg : ClientConfig) (binding : bytes) (init : HostAuthInit) (sa : ServerAuth)
    (hostKey : PublicKey) : Prop :=
  ∃ h1 payload verifier,
    proto_validate (FServerAuth sa) = None ∧
    HashHostAuthInit init = Ok h1 ∧
    ParsePublicKey (sa_ServerHostKey sa) = Ok hostKey ∧ publicKey_Validate hostKey = Ok tt ∧
    serverToSign_MarshalBinary (MkServerToSign binding h1 (sa_ServerHostKey sa) (sa_ServerNonce sa)) = Ok payload ∧
    publicKey_Verify hostKey payload (sa_Signature sa) = Some true ∧
    cc_VerifyServerHostKey cfg = Some verifier ∧ verifier (cc_ReferenceIdentity cfg) hostKey = None.

(** The request the client signs: its identity for that host, over this channel
    and both transcript hashes. *)
Definition client_signs (cfg : ClientConfig) (binding : bytes) (init : HostAuthInit) (sa : ServerAuth)
    (hostKey : PublicKey) (key : Keypair) (req : ClientAuthRequest) : Prop :=
  ∃ h1 h2 blob payload sig provider,
    HashHostAuthInit init = Ok h1 ∧ HashServerAuthMessage sa = Ok h2 ∧
    cc_ClientIdentity cfg = Some provider ∧
    provider (cc_ReferenceIdentity cfg) (cc_Username cfg) hostKey = Ok key ∧ keypair_Validate key = Ok tt ∧
    publicKey_MarshalBinary (keypair_PublicKey key) = Ok blob ∧
    clientToSign_MarshalBinary
      (MkClientToSign binding h1 h2 (cc_Username cfg) blob (pk_Algorithm (keypair_PublicKey key))) = Ok payload ∧
    keypair_Sign key payload = Some sig ∧
    req = MkClientAuthRequest (cc_Username cfg) blob (pk_Algorithm (keypair_PublicKey key)) sig.

Definition client_init (cfg : ClientConfig) (nonce : res bytes) (init : HostAuthInit) : Prop :=
  ∃ n, nonce = Ok n ∧ init = MkHostAuthInit ProtocolVersion n (cc_ReferenceIdentity cfg).

(** The frames a client has sent: nothing, its first message, or its first
    message and one request that it signed for a server it trusts. *)
Definition client_sent (cfg : ClientConfig) (binding : bytes) (nonce : res bytes) (frames : list AuthFrame) : Prop :=
  frames = [] ∨
  ∃ init, client_init cfg nonce init ∧
    (frames = [FHostAuthInit init] ∨
     ∃ sa hostKey key req, client_trusts cfg binding init sa hostKey ∧
       client_signs cfg binding init sa hostKey key req ∧
       frames = [FHostAuthInit init; FClientAuthRequest req]).

Definition client_post (cfg : ClientConfig) (binding : bytes) (nonce : res bytes) log0 (r : res ClientResult) (am : machine) : Prop :=
  match r with
  | Ok res => am_state am = authStateAuthenticated ∧
      ∃ init sa key req, client_init cfg nonce init ∧
        client_trusts cfg binding init sa (cl_ServerHostKey res) ∧
        client_signs cfg binding init sa (cl_ServerHostKey res) key req ∧
        sent log0 [FHostAuthInit init; FClientAuthRequest req] am ∧
        res = MkClientResult (cc_ReferenceIdentity cfg) (cl_ServerHostKey res) (cc_Username cfg) (keypair_PublicKey key)
  | Err _ => ∃ frames, sent log0 frames am ∧ client_sent cfg binding nonce frames
  end.

Lemma stop_none cfg binding nonce log0 (am : machine) e :
  sent log0 [] am → client_post cfg binding nonce log0 (Err e) am.
Proof. intros Hs. exists []. split; [done|by left]. Qed.

Lemma stop_init cfg binding nonce log0 (am : machine) e init :
  client_init cfg nonce init → sent log0 [FHostAuthInit init] am →
  client_post cfg binding nonce log0 (Err e) am.
Proof. intros Hi Hs. exists [FHostAuthInit init]. split; [done|]. right. exists init. eauto. Qed.

Lemma stop_request cfg binding nonce log0 (am : machine) e init sa hostKey key req :
  client_init cfg nonce init → client_trusts cfg binding init sa hostKey →
  client_signs cfg binding init sa hostKey key req →
  sent log0 [FHostAuthInit init; FClientAuthRequest req] am →
  client_post cfg binding nonce log0 (Err e) am.
Proof. intros Hi Ht Hg Hs. eexists. split; [exact Hs|]. right. exists init. split; [done|]. right. eauto 8. Qed.

Ltac stopped := intros; first [by apply stop_none | by eapply stop_init].

Ltac next am Hs :=
  let am' := fresh am in let Hs' := fresh Hs in intros am' ? Hs'; clear dependent am;
  rename am' into am; rename Hs' into Hs; simpl in Hs.

Lemma wp_authenticateClient cfg binding nonce am :
  am_state am = authStateNoiseEstablished →
  wp (authenticateClient rec cfg binding nonce) (client_post cfg binding nonce (am_conn am).2) am.
Proof.
  intros Hst. pose proof (sent_refl am) as Hs. remember (am_conn am).2 as log0 eqn:Hl. clear Hl.
  unfold authenticateClient.
  apply wp_bind, wp_try_wrap; [|stopped]. intros n Hn.
  set (init := MkHostAuthInit _ n _). assert (Hi : client_init cfg nonce init) by by exists n.
  apply wp_bind, wp_try_wrap; [|stopped]. intros h1 Hh1.
  apply wp_bind. eapply (wp_send_wrap _ _ _ _ log0 [] Hs); [|intros ?? _ []; stopped].
  next am Hs.
  apply wp_bind, (wp_advance _ _ _ _ log0 _ Hs); [|stopped]. next am Hs.
  apply wp_bind, (wp_expect_frame _ _ _ _ _ log0 _ Hs); [|stopped].
  intros [|sa| | |] ?; next am Hs; intros Hv; try done; intros [= <-].
  apply wp_bind, (wp_advance _ _ _ _ log0 _ Hs); [|stopped]. next am Hs.
  apply wp_bind, wp_try_wrap; [|stopped]. intros hk Hhk.
  apply wp_bind, wp_try_wrap; [|stopped]. intros [] Hval.
  apply wp_bind, wp_try_wrap; [|stopped]. intros payload Hpl.
  apply wp_bind, wp_or_panic; [|stopped]. intros [|] Hverified; simpl; [|apply wp_fail; stopped].
  destruct (cc_VerifyServerHostKey cfg) as [verify|] eqn:Hc; [|apply wp_fail; stopped].
  destruct (cc_ClientIdentity cfg) as [provider|] eqn:Hp; [|apply wp_fail; stopped].
  destruct (verify _ _) eqn:Hacc; [apply wp_fail; stopped|].
  assert (Ht : client_trusts cfg binding init sa hk) by (exists h1, payload, verify; by repeat split).
  apply wp_bind, wp_try_wrap; [|stopped]. intros h2 Hh2.
  apply wp_bind, wp_try_wrap; [|stopped]. intros key Hkey.
  apply wp_bind, wp_try_wrap; [|stopped]. intros [] Hkv.
  apply wp_bind, wp_try_wrap; [|stopped]. intros blob Hblob.
  apply wp_bind, wp_try_wrap; [|stopped]. intros cpayload Hcp.
  apply wp_bind, wp_or_panic; [|stopped]. intros sig Hsig.
  set (req := MkClientAuthRequest _ _ _ _).
  assert (Hg : client_signs cfg binding init sa hk key req)
    by (exists h1, h2, blob, cpayload, sig, provider; by repeat split).
  assert (Hstop : ∀ e am', sent log0 [FHostAuthInit init; FClientAuthRequest req] am' →
    client_post cfg binding nonce log0 (Err e) am') by (intros; by eapply stop_request).
  apply wp_bind. eapply (wp_send_wrap _ _ _ _ log0 _ Hs); [|intros ?? _ []; [stopped|by apply Hstop]].
  next am Hs.
  apply wp_bind, (wp_advance _ _ _ _ log0 _ Hs); [|by intros; apply Hstop]. next am Hs.
  apply wp_bind, (wp_expect_frame _ _ _ _ _ log0 _ Hs); [|by intros; apply Hstop].
  intros f [|code message]; next am Hs; intros Hv' _; [|apply wp_fail; by apply Hstop].
  apply wp_bind, (wp_advance _ _ _ _ log0 _ Hs); [|by intros; apply Hstop]. intros am' Hst' Hs'.
  apply wp_ret. split; [done|]. by exists init, sa, key, req.
Qed.

(** ** The decision *)

Inductive Decision := DAccept | DReject.

Definition decide_call (d : Decision) : ST (PendingServerAuth (S:=S * list bytes)) unit :=
  match d with DAccept => Accept rec | DReject => Reject rec end.

Definition decision_frame (d : Decision) : AuthFrame :=
  FClientAuthResponse (match d with DAccept => AuthOk | DReject => AuthReject authenticationFailed "authentication failed" end).

(** The calls of an application, in the order in which they pass
    [beginDecision]'s lock, with their results. *)
Fixpoint decide_calls (ds : list Decision) (p : PendingServerAuth) : PendingServerAuth * list (res unit) :=
  match ds with
  | [] => (p, [])
  | d :: ds => let '(p1, r) := decide_call d p in
               let '(p2, rs) := decide_calls ds p1 in (p2, r :: rs)
  end.

Definition pending_sent log0 frames (p : PendingServerAuth) : Prop := sent log0 frames (ps_machine p).

Lemma decided_call d (p : PendingServerAuth (S:=S * list bytes)) :
  ps_decided p = true → decide_call d p = (p, Err ErrDecisionMade).
Proof.
  intros Hd. destruct d; simpl; unfold Accept, Reject, beginDecision, mbind, ST_bind, st_get; by rewrite Hd.
Qed.

Lemma decided_calls ds (p : PendingServerAuth (S:=S * list bytes)) :
  ps_decided p = true → decide_calls ds p = (p, replicate (length ds) (Err ErrDecisionMade)).
Proof. intros Hd. induction ds as [|d ds IH]; simpl; [done|]. rewrite decided_call by done. by rewrite IH. Qed.

Lemma wp_on_machine {A} (m : ST machine A) (Q : res A → PendingServerAuth → Prop) p :
  wp m (λ r am, Q r (MkPending am (ps_verified p) (ps_decided p))) (ps_machine p) → wp (on_machine m) Q p.
Proof. unfold wp, on_machine. by destruct (m (ps_machine p)). Qed.

Lemma wp_beginDecision (Q : res unit → PendingServerAuth (S:=S * list bytes) → Prop) p :
  ps_decided p = false → Q (Ok tt) (MkPending (ps_machine p) (ps_verified p) true) → wp beginDecision Q p.
Proof. intros Hd HQ. unfold beginDecision. apply wp_bind, wp_get. rewrite Hd. by apply wp_modify. Qed.

(** The first call decides: it hands its one response to the connection (or
    fails before that), and the state becomes authenticated only on an accept
    that was sent. *)
Lemma first_decision d (p : PendingServerAuth (S:=S * list bytes)) log0 :
  ps_decided p = false → sent log0 [] (ps_machine p) → am_state (ps_machine p) = authStateClientAuthRecv →
  wp (decide_call d) (λ r p', ps_decided p' = true ∧
    match r with
    | Ok _ => sent log0 [decision_frame d] (ps_machine p') ∧
        am_state (ps_machine p') = match d with DAccept => authStateAuthenticated | DReject => authStateClientAuthRecv end
    | Err _ => (sent log0 [] (ps_machine p') ∨ sent log0 [decision_frame d] (ps_machine p')) ∧
        am_state (ps_machine p') = authStateClientAuthRecv
    end) p.
Proof.
  intros Hd Hs Hst. destruct d; simpl; apply wp_bind, wp_beginDecision; try done.
  - apply wp_bind, wp_on_machine. simpl. apply (wp_send_wrap _ _ _ _ log0 [] Hs); simpl.
    + intros am Hst' Hs'. apply wp_on_machine. simpl. unfold advance. apply wp_bind, wp_get.
      rewrite bool_decide_true by congruence. by apply wp_modify.
    + intros e am Hst' Hs'. rewrite Hst'. by split_and!.
  - apply wp_on_machine. simpl. apply (wp_send_wrap _ _ _ _ log0 [] Hs); simpl; intros; split_and!; try done; congruence.
Qed.
End wp_auth.

Section theorems.
Context {S : Type} (fr : Framer S) `{ProtoMessage AuthFrame} `{KeyLib} `{AuthLib}.

Lemma begin_evidence hostKey binding nonce ctxErr (conn : S) conn' p :
  BeginServer (recording fr) hostKey binding nonce ctxErr (conn, []) = (conn', Ok p) →
  keypair_Validate hostKey = Ok tt ∧ (ps_decided p = false ∧ am_state (ps_machine p) = authStateClientAuthRecv) ∧
  ∃ sa, encodes [FServerAuth sa] conn'.2 ∧ server_evidence hostKey binding nonce (ps_verified p) sa.
Proof.
  intros Hbegin. unfold BeginServer in Hbegin. destruct (keypair_Validate hostKey) as [[]|] eqn:Hk; [|done].
  pose proof (wp_verifyClient fr hostKey binding nonce ctxErr (MkMachine authStateNoiseEstablished (conn, [])) eq_refl) as Hwp.
  unfold wp in Hwp. destruct (verifyClient _ _ _ _ _ _) as [am [v|]]; simplify_eq/=.
  destruct Hwp as (Hst & sa & (bs & Hlog & Henc) & Hev). simplify_eq/=. split_and!; try done. exists sa.
  done.
Qed.

(** C5: whatever the peer and the network do, when [BeginServer] reports a
    client it has received a well-formed first message of this protocol version
    and a well-formed request, and the request's signature verifies under the
    proven key over this channel's binding, the hash of that first message, the
    hash of the server's own host key and fresh nonce, the user name, the key and
    the algorithm; nothing but the server's proof has been sent, and the decision
    is open. *)
Theorem server_proof_sound hostKey binding nonce ctxErr (conn : S) conn' log p
  (Hbegin : BeginServer (recording fr) hostKey binding nonce ctxErr (conn, []) = ((conn', log), Ok p)) :
  keypair_Validate hostKey = Ok tt ∧ ps_decided p = false ∧
  am_state (ps_machine p) = authStateClientAuthRecv ∧
  ∃ sa, encodes [FServerAuth sa] log ∧ server_evidence hostKey binding nonce (ps_verified p) sa.
Proof.
  destruct (begin_evidence hostKey binding nonce ctxErr conn _ p Hbegin) as (? & [? ?] & ?). by split_and!.
Qed.

(** The frames the server sends before the decision: its proof if it reports
    a client; otherwise nothing, a version error, its proof, or its proof and one
    rejection whose text does not depend on why the client was refused.  It never
    sends an acceptance. *)
Theorem server_frames hostKey binding nonce ctxErr (conn : S) :
  let '((_, log), r) := BeginServer (recording fr) hostKey binding nonce ctxErr (conn, []) in
  ∃ frames, encodes frames log ∧
    match r with Ok _ => ∃ sa, frames = [FServerAuth sa] | Err _ => server_refusal frames end.
Proof.
  unfold BeginServer. destruct (keypair_Validate hostKey) as [[]|e].
  2:{ exists []. split; [constructor|by left]. }
  pose proof (wp_verifyClient fr hostKey binding nonce ctxErr (MkMachine authStateNoiseEstablished (conn, [])) eq_refl) as Hwp.
  unfold wp in Hwp. destruct (verifyClient _ _ _ _ _ _) as [am [v|e]]; simpl in Hwp.
  - destruct Hwp as (_ & sa & (bs & Hlog & Henc) & _). destruct (am_conn am); simplify_eq/=. eauto.
  - destruct Hwp as (frames & (bs & Hlog & Henc) & Href). destruct (am_conn am); simplify_eq/=. eauto.
Qed.

Lemma client_checks_raw cfg binding nonce (conn : S) :
  let '((_, log), r) := RunClient (recording fr) cfg binding nonce (conn, []) in
  ∃ frames, encodes frames log ∧ client_sent cfg binding nonce frames ∧
    match r with
    | Ok res => ∃ init sa key req, frames = [FHostAuthInit init; FClientAuthRequest req] ∧
        client_trusts cfg binding init sa (cl_ServerHostKey res) ∧
        client_signs cfg binding init sa (cl_ServerHostKey res) key req ∧
        res = MkClientResult (cc_ReferenceIdentity cfg) (cl_ServerHostKey res) (cc_Username cfg) (keypair_PublicKey key)
    | Err _ => True
    end.
Proof.
  unfold RunClient. destruct (clientConfig_Validate cfg) as [[]|e].
  2:{ exists []. split_and!; [constructor|by left|done]. }
  pose proof (wp_authenticateClient fr cfg binding nonce (MkMachine authStateNoiseEstablished (conn, [])) eq_refl) as Hwp.
  unfold wp in Hwp. destruct (authenticateClient _ _ _ _ _) as [am [v|e]]; simpl in Hwp.
  - destruct Hwp as (_ & init & sa & key & req & Hi & Ht & Hg & (bs & Hlog & Henc) & Hv).
    destruct (am_conn am); simplify_eq/=. eexists. split_and!; [exact Henc| |by exists init, sa, key, req].
    right. exists init. split; [done|]. right. eauto 8.
  - destruct Hwp as (frames & (bs & Hlog & Henc) & Hc). destruct (am_conn am); simplify_eq/=. eauto.
Qed.

(** C6: whatever the peer and the network do, a client sends its first message
    and at most one request, and a request only after the server's signature over
    this channel and that first message verified under the presented key and the
    caller's verifier accepted the key for the host; a successful run also
    received the acceptance and reports that key and the identity it signed
    with. *)
Theorem client_checks_before_signing cfg binding nonce (conn : S) :
  let '((_, log), r) := RunClient (recording fr) cfg binding nonce (conn, []) in
  ∃ frames, encodes frames log ∧ client_sent cfg binding nonce frames ∧
    match r with
    | Ok res => ∃ init sa key req, frames = [FHostAuthInit init; FClientAuthRequest req] ∧
        client_trusts cfg binding init sa (cl_ServerHostKey res) ∧
        client_signs cfg binding init sa (cl_ServerHostKey res) key req ∧
        res = MkClientResult (cc_ReferenceIdentity cfg) (cl_ServerHostKey res) (cc_Username cfg) (keypair_PublicKey key)
    | Err _ => True
    end.
Proof. apply client_checks_raw. Qed.

(** A pending authentication is decided once.  Of any calls of [Accept] and
    [Reject], in the order they pass the lock, only the first hands a response to
    the connection, at most one and the one it names; every later call returns
    [ErrDecisionMade] and changes nothing. *)
Theorem decided_once (p : PendingServerAuth (S:=S * list bytes)) d ds
  (Hopen : ps_decided p = false) (Hstate : am_state (ps_machine p) = authStateClientAuthRecv) :
  ∃ r p', decide_calls fr (d :: ds) p = (p', r :: replicate (length ds) (Err ErrDecisionMade)) ∧
    ∃ bs, (am_conn (ps_machine p')).2 = (am_conn (ps_machine p)).2 ++ bs ∧
      (encodes [decision_frame d] bs ∨ (is_ok r = false ∧ bs = [])) ∧
      (am_state (ps_machine p') = authStateAuthenticated ↔ d = DAccept ∧ r = Ok tt).
Proof.
  pose proof (first_decision fr d p _ Hopen (sent_refl _) Hstate) as Hwp. unfold wp in Hwp.
  simpl decide_calls. destruct (decide_call fr d p) as [p1 r]. simpl in Hwp. destruct Hwp as (Hd & Hr).
  rewrite decided_calls by done. exists r, p1. split; [done|].
  destruct r as [[]|e]; destruct Hr as [Hs Hst].
  - destruct Hs as (bs & Hlog & Henc). exists bs. split_and!; [done|by left|]. rewrite Hst.
    destruct d; split; try done. by intros [? _].
  - destruct Hs as [(bs & Hlog & Henc)|(bs & Hlog & Henc)]; exists bs; (split_and!; [done| |rewrite Hst; by split; [|intros [_ ?]]]).
    + right. by inversion Henc.
    + by left.
Qed.
End theorems.

(** ** Agreement *)

Section agreement.
Context {S : Type} (fr : Framer S) `{ProtoMessage AuthFrame} `{KeyLib} `{AuthLib, !AuthLaws}.

(** The only messages that verify under [key] are payloads that a client signed
    after it had checked its server: the key is used by [RunClient] alone and
    signatures are not forged. *)
Definition signs_only_as_client (key : PublicKey) : Prop :=
  ∀ payload sig, publicKey_Verify key payload sig = Some true →
  ∃ cfg binding init sa hostKey h1 h2 blob,
    client_trusts cfg binding init sa hostKey ∧ HashHostAuthInit init = Ok h1 ∧ HashServerAuthMessage sa = Ok h2 ∧
    clientToSign_MarshalBinary (MkClientToSign binding h1 h2 (cc_Username cfg) blob (pk_Algorithm key)) = Ok payload.

Lemma clientToSign_inj p p' b :
  clientToSign_MarshalBinary p = Ok b → clientToSign_MarshalBinary p' = Ok b → p = p'.
Proof.
  unfold clientToSign_MarshalBinary. intros Hp Hp'. res_inv.
  match goal with A : wrap_err _ _ = Ok _, B : wrap_err _ _ = Ok _ |- _ => apply wrap_err_ok in A, B; by destruct (marshal_client_tosign_inj _ _ _ _ _ A B) end.
Qed.

End agreement.

(** ** An honest run *)

Definition ascii_string (s : string) : bool := forallb (λ b, Z_of_byte b <? 128) (String.list_byte_of_string s).

(** The validation rules of auth.proto. *)
Definition valid_frame (f : AuthFrame) : bool :=
  match f with
  | FHostAuthInit m => negb (bool_decide (hi_MygoshAuthVersion m = ""%string)) && (blen (hi_ClientNonce m) =? 32) &&
      negb (bool_decide (hi_ReferenceIdentity m = ""%string))
  | FServerAuth m => negb (blen (sa_ServerHostKey m) =? 0) && (blen (sa_ServerNonce m) =? 32) &&
      negb (blen (sa_Signature m) =? 0)
  | FClientAuthRequest m => negb (bool_decide (ca_Username m = ""%string)) &&
      negb (blen (ca_ClientPublicKeyOrCert m) =? 0) && negb (bool_decide (ca_ClientSigAlg m = ""%string)) &&
      negb (blen (ca_Signature m) =? 0)
  | FClientAuthResponse AuthOk => true
  | FClientAuthResponse (AuthReject _ message) | FAuthError _ message => negb (bool_decide (message = ""%string))
  end.

Definition ascii_frame (f : AuthFrame) : bool :=
  match f with
  | FHostAuthInit m => ascii_string (hi_MygoshAuthVersion m) && ascii_string (hi_ReferenceIdentity m)
  | FServerAuth _ | FClientAuthResponse AuthOk => true
  | FClientAuthRequest m => ascii_string (ca_Username m) && ascii_string (ca_ClientSigAlg m)
  | FClientAuthResponse (AuthReject code message) | FAuthError code message =>
      ascii_string code && ascii_string message
  end.

(** Messages whose strings are ASCII, hence UTF-8, are marshalled, and messages
    that satisfy the rules pass the validation. *)
Class AuthMarshals `{ProtoMessage AuthFrame, AuthLib} := {
  frame_validates f : valid_frame f = true → proto_validate f = None;
  frame_marshals f : valid_frame f = true → ascii_frame f = true → ∃ b, proto_marshal f = Ok b ∧ b ≠ [];
  host_init_marshals m : ascii_string (hi_MygoshAuthVersion m) = true → ascii_string (hi_ReferenceIdentity m) = true →
    is_ok (marshal_host_init m) = true;
  server_auth_marshals m : is_ok (marshal_server_auth m) = true;
  server_tosign_marshals p : is_ok (marshal_server_tosign ServerAuthContext p) = true;
  client_tosign_marshals p : ascii_string (cs_Username p) = true → ascii_string (cs_ClientSigAlg p) = true →
    is_ok (marshal_client_tosign ClientAuthContext p) = true;
}.

(** A connection whose incoming frames are given and whose sends succeed. *)
Definition queue : Framer (list bytes) := {|
  SendFrame := λ b s, (s, Ok tt);
  ReceiveFrame := λ s, match s with [] => ([], Err (NewError "EOF")) | b :: s' => (s', Ok b) end;
|}.

Definition wire_of `{ProtoMessage AuthFrame} (f : AuthFrame) : bytes :=
  match proto_marshal f with Ok b => b | Err _ => [] end.

Lemma bind_ok {S A B} (m : ST S A) (f : A → ST S B) s s' a out :
  m s = (s', Ok a) → f a s' = out → (m ≫= f) s = out.
Proof. intros Hm Hf. unfold mbind, ST_bind. by rewrite Hm. Qed.

Section honest.
Context `{HP : ProtoMessage AuthFrame, !ProtoLaws AuthFrame} `{HK : KeyLib, !KeyLaws} `{HA : AuthLib, !AuthLaws, !AuthMarshals}.

Abbreviation link := (recording queue).

Definition good (f : AuthFrame) : Prop := valid_frame f = true ∧ ascii_frame f = true.

Lemma good_wire f : good f → proto_validate f = None ∧ proto_marshal f = Ok (wire_of f) ∧
  proto_unmarshal (wire_of f) = Ok f ∧ (blen (wire_of f) =? 0) = false.
Proof.
  intros [Hv Ha]. destruct (frame_marshals f Hv Ha) as (b & Hb & Hne). unfold wire_of. rewrite Hb.
  split_and!; [by apply frame_validates|done|by apply unmarshal_marshal|].
  destruct b as [|c b]; [done|]. rewrite blen_cons. pose proof (blen_nonneg b). lia.
Qed.

Lemma send_good msg f st inbox log : good f →
  send_wrap link msg f (MkMachine st (inbox, log)) = (MkMachine st (inbox, log ++ [wire_of f]), Ok tt).
Proof.
  intros (Hv & Hm & _ & _)%good_wire. unfold send_wrap, sendAuthFrame, on_conn, SendProto.
  by rewrite Hv, Hm.
Qed.

Lemma expect_good {A} msg peer (pick : AuthFrame → option A) f a st inbox log : good f → pick f = Some a →
  (∀ c m, f ≠ FAuthError c m) →
  expect_frame link msg peer pick (MkMachine st (wire_of f :: inbox, log)) = (MkMachine st (inbox, log), Ok a).
Proof.
  intros (Hv & _ & Hu & Hne)%good_wire Hp Hf.
  unfold expect_frame, receiveAuthFrame, on_conn, ReceiveProto, mbind, ST_bind, st_try, st_lift. simpl.
  rewrite Hne, Hu, Hv. simpl. destruct f; [rewrite Hp; done..|]. by destruct (Hf code message).
Qed.

Lemma advance_ok (st next : authState) (c : list bytes * list bytes) :
  advance st next (MkMachine st c) = (MkMachine next c, Ok tt).
Proof. unfold advance, mbind, ST_bind, st_get. simpl. by rewrite bool_decide_true. Qed.

Lemma try_ok {A} msg (a : A) (am : authMachine (S:=list bytes * list bytes)) : try_wrap msg (Ok a) am = (am, Ok a).
Proof. done. Qed.

Lemma hash_init_ok m : ascii_string (hi_MygoshAuthVersion m) = true → ascii_string (hi_ReferenceIdentity m) = true →
  ∃ h, HashHostAuthInit m = Ok h ∧ blen h = DigestSize.
Proof.
  intros Hver Href. pose proof (host_init_marshals m Hver Href). unfold HashHostAuthInit.
  destruct (marshal_host_init m); [|done]. eexists. split; [done|]. apply sha256_size.
Qed.

Lemma hash_server_ok m : ∃ h, HashServerAuthMessage m = Ok h ∧ blen h = DigestSize.
Proof.
  unfold HashServerAuthMessage, HashServerAuthFields. set (m' := MkServerAuth _ _ _).
  pose proof (server_auth_marshals m'). destruct (marshal_server_auth m'); [|done].
  eexists. split; [done|]. apply sha256_size.
Qed.

Lemma server_payload_ok b h k n : blen b = 32 → blen h = DigestSize → k ≠ [] → blen n = 32 →
  ∃ payload, serverToSign_MarshalBinary (MkServerToSign b h k n) = Ok payload.
Proof.
  intros Hb Hh Hk Hn. unfold serverToSign_MarshalBinary, serverToSign_Validate, validateDigest, validateBytesLen. simpl.
  rewrite Hb, Hh, Hn. destruct k as [|c k]; [done|]. rewrite blen_cons. pose proof (blen_nonneg k).
  replace (1 + blen k =? 0) with false by lia. simpl.
  pose proof (server_tosign_marshals (MkServerToSign b h (c :: k) n)) as Hm.
  destruct (marshal_server_tosign _ _); [|done]. eauto.
Qed.

Lemma client_payload_ok b h h' u k : blen b = 32 → blen h = DigestSize → blen h' = DigestSize →
  u ≠ ""%string → ascii_string u = true → k ≠ [] →
  ∃ payload, clientToSign_MarshalBinary (MkClientToSign b h h' u k AlgorithmEd25519) = Ok payload.
Proof.
  intros Hb Hh Hh' Hu Hau Hk. unfold clientToSign_MarshalBinary, clientToSign_Validate, validateDigest, validateBytesLen.
  simpl. rewrite Hb, Hh, Hh', bool_decide_false by done. destruct k as [|c k]; [done|]. rewrite blen_cons. pose proof (blen_nonneg k).
  replace (1 + blen k =? 0) with false by lia. simpl.
  pose proof (client_tosign_marshals (MkClientToSign b h h' u (c :: k) AlgorithmEd25519) Hau eq_refl) as Hm.
  destruct (marshal_client_tosign _ _); [|done]. eauto.
Qed.

(** A valid pair's signature verifies under the key its peer parses. *)
Lemma sign_parsed k msg : keypair_Validate k = Ok tt →
  ∃ sig, keypair_Sign k msg = Some sig ∧ sig ≠ [] ∧
    publicKey_Verify (MkPublicKey AlgorithmEd25519 (kp_public k) []) msg sig = Some true.
Proof.
  intros Hv. unfold keypair_Sign, publicKey_Verify. rewrite Hv. eexists. split; [done|]. split; [apply ed_sign_nonempty|].
  apply keypair_Validate_iff in Hv as (Hp & _ & Hd).
  assert (publicKey_Validate (MkPublicKey AlgorithmEd25519 (kp_public k) []) = Ok tt) as -> by by apply publicKey_Validate_iff.
  simpl. by rewrite <-Hd, ed_sign_verify.
Qed.

Lemma marshalled_pair k : keypair_Validate k = Ok tt →
  ∃ blob, publicKey_MarshalBinary (keypair_PublicKey k) = Ok blob ∧ blob ≠ [] ∧
    ParsePublicKey blob = Ok (MkPublicKey AlgorithmEd25519 (kp_public k) []) ∧
    publicKey_Validate (MkPublicKey AlgorithmEd25519 (kp_public k) []) = Ok tt.
Proof.
  intros Hv. destruct (publicKey_Marshal_ok _ (publicKey_Validate_keypair _ Hv)) as (blob & Hb).
  exists blob. destruct (publicKey_roundtrip _ _ Hb) as [Hp Hne]. split_and!; [done..|].
  apply keypair_Validate_iff in Hv as (Hl & _). by apply publicKey_Validate_iff.
Qed.

(** One client and one server over the same channel. *)
Section one_run.
Context (hostKey clientKey : Keypair) (user ref : string) (binding cn sn : bytes).
Context (Hhost : keypair_Validate hostKey = Ok tt) (Hclient : keypair_Validate clientKey = Ok tt).
Context (Hbinding : blen binding = 32) (Hcn : blen cn = 32) (Hsn : blen sn = 32).
Context (Huser : user ≠ ""%string) (Hauser : ascii_string user = true).
Context (Href : ref ≠ ""%string) (Haref : ascii_string ref = true).

Definition honest_config : ClientConfig :=
  MkClientConfig ref user (Some (StaticClientIdentityProvider clientKey))
    (Some (ExactHostKeyVerifier ref (keypair_PublicKey hostKey))).

Definition parsed (k : Keypair) : PublicKey := MkPublicKey AlgorithmEd25519 (kp_public k) [].

Definition honest_init : HostAuthInit := MkHostAuthInit ProtocolVersion cn ref.

(** The values both sides compute. *)
Definition honest_transcript (sa : ServerAuth) (req : ClientAuthRequest) : Prop :=
  ∃ h1 h2 spayload cpayload,
    HashHostAuthInit honest_init = Ok h1 ∧ HashServerAuthMessage sa = Ok h2 ∧
    publicKey_MarshalBinary (keypair_PublicKey hostKey) = Ok (sa_ServerHostKey sa) ∧
    ParsePublicKey (sa_ServerHostKey sa) = Ok (parsed hostKey) ∧ sa_ServerNonce sa = sn ∧
    serverToSign_MarshalBinary (MkServerToSign binding h1 (sa_ServerHostKey sa) sn) = Ok spayload ∧
    keypair_Sign hostKey spayload = Some (sa_Signature sa) ∧
    publicKey_Verify (parsed hostKey) spayload (sa_Signature sa) = Some true ∧
    ca_Username req = user ∧ ca_ClientSigAlg req = AlgorithmEd25519 ∧
    publicKey_MarshalBinary (keypair_PublicKey clientKey) = Ok (ca_ClientPublicKeyOrCert req) ∧
    ParsePublicKey (ca_ClientPublicKeyOrCert req) = Ok (parsed clientKey) ∧
    clientToSign_MarshalBinary
      (MkClientToSign binding h1 h2 user (ca_ClientPublicKeyOrCert req) AlgorithmEd25519) = Ok cpayload ∧
    keypair_Sign clientKey cpayload = Some (ca_Signature req) ∧
    publicKey_Verify (parsed clientKey) cpayload (ca_Signature req) = Some true.

Lemma parsed_valid k : keypair_Validate k = Ok tt → publicKey_Validate (parsed k) = Ok tt.
Proof. intros (Hl & _)%keypair_Validate_iff. by apply publicKey_Validate_iff. Qed.

Lemma negb_blen (b : bytes) : b ≠ [] → negb (blen b =? 0) = true.
Proof. destruct b as [|c b]; [done|]. rewrite blen_cons. pose proof (blen_nonneg b). lia. Qed.

Lemma honest_transcript_exists : ∃ sa req,
  honest_transcript sa req ∧ good (FServerAuth sa) ∧ good (FClientAuthRequest req).
Proof.
  destruct (hash_init_ok honest_init eq_refl Haref) as (h1 & Hh1 & Hl1).
  destruct (marshalled_pair _ Hhost) as (hblob & Hhb & Hhne & Hhp & _).
  destruct (marshalled_pair _ Hclient) as (cblob & Hcb & Hcne & Hcp & _).
  destruct (server_payload_ok binding h1 hblob sn Hbinding Hl1 Hhne Hsn) as (spayload & Hspl).
  destruct (sign_parsed hostKey spayload Hhost) as (ssig & Hss & Hsne & Hsv).
  set (sa := MkServerAuth hblob sn ssig). destruct (hash_server_ok sa) as (h2 & Hh2 & Hl2).
  destruct (client_payload_ok binding h1 h2 user cblob Hbinding Hl1 Hl2 Huser Hauser Hcne) as (cpayload & Hcpl).
  destruct (sign_parsed clientKey cpayload Hclient) as (csig & Hcs & Hsne' & Hcv).
  exists sa, (MkClientAuthRequest user cblob AlgorithmEd25519 csig). split_and!.
  - by exists h1, h2, spayload, cpayload.
  - split; [|done]. simpl. by rewrite !negb_blen, Hsn.
  - split; simpl; [|by rewrite Hauser]. by rewrite !negb_blen, bool_decide_false.
Qed.

Lemma good_init : good (FHostAuthInit honest_init).
Proof. split; simpl; [by rewrite Hcn, bool_decide_false|by rewrite Haref]. Qed.

Lemma good_accept : good (FClientAuthResponse AuthOk).
Proof. done. Qed.

Lemma honest_client sa req : honest_transcript sa req → good (FServerAuth sa) → good (FClientAuthRequest req) →
  RunClient link honest_config binding (Ok cn)
    ([wire_of (FServerAuth sa); wire_of (FClientAuthResponse AuthOk)], []) =
  (([], [wire_of (FHostAuthInit honest_init); wire_of (FClientAuthRequest req)]),
   Ok (MkClientResult ref (parsed hostKey) user (keypair_PublicKey clientKey))).
Proof.
  intros (h1 & h2 & spl & cpl & Hh1 & Hh2 & Hhb & Hhp & Hn & Hspl & Hss & Hsv & Hu & Ha & Hcb & Hcp & Hcpl & Hcs & Hcv) Hgs Hgr.
  destruct req as [u cblob alg csig]; simpl in *; subst u alg. subst sn.
  assert (Hacc : ExactHostKeyVerifier ref (keypair_PublicKey hostKey) ref (parsed hostKey) = None).
  { unfold ExactHostKeyVerifier. rewrite bool_decide_true by done. simpl.
    by rewrite (proj2 (publicKey_Equal_iff (parsed hostKey) (keypair_PublicKey hostKey)) (conj eq_refl eq_refl)). }
  unfold RunClient, clientConfig_Validate. simpl. rewrite !bool_decide_false by done. simpl.
  match goal with |- context [authenticateClient ?f ?c ?b ?n ?am] =>
    enough (authenticateClient f c b n am = (MkMachine authStateAuthenticated
      ([], [wire_of (FHostAuthInit honest_init); wire_of (FClientAuthRequest (MkClientAuthRequest user cblob AlgorithmEd25519 csig))]),
      Ok (MkClientResult ref (parsed hostKey) user (keypair_PublicKey clientKey)))) as -> by done end.
  unfold authenticateClient.
  eapply bind_ok; [apply try_ok|]. fold honest_init. cbn [cc_ReferenceIdentity cc_Username cc_ClientIdentity cc_VerifyServerHostKey honest_config].
  fold honest_init. rewrite Hh1.
  eapply bind_ok; [apply try_ok|]. eapply bind_ok; [apply send_good, good_init|].
  eapply bind_ok; [apply advance_ok|]. eapply bind_ok; [by eapply (expect_good _ _ _ (FServerAuth sa))|].
  eapply bind_ok; [apply advance_ok|]. rewrite Hhp. eapply bind_ok; [apply try_ok|].
  rewrite parsed_valid by done. eapply bind_ok; [apply try_ok|]. rewrite Hspl.
  eapply bind_ok; [apply try_ok|]. rewrite Hsv. eapply bind_ok; [done|]. cbn [negb]. rewrite Hacc, Hh2.
  eapply bind_ok; [apply try_ok|]. unfold StaticClientIdentityProvider. rewrite Hclient. cbn [wrap_err mbind].
  eapply bind_ok; [apply try_ok|]. rewrite Hclient. eapply bind_ok; [apply try_ok|]. rewrite Hcb.
  eapply bind_ok; [apply try_ok|]. change (pk_Algorithm (keypair_PublicKey clientKey)) with AlgorithmEd25519. rewrite Hcpl.
  eapply bind_ok; [apply try_ok|]. rewrite Hcs. eapply bind_ok; [done|].
  eapply bind_ok; [by apply send_good|]. eapply bind_ok; [apply advance_ok|].
  eapply bind_ok; [by apply (expect_good _ _ _ (FClientAuthResponse AuthOk))|].
  eapply bind_ok; [apply advance_ok|]. done.
Qed.

Lemma honest_server sa req : honest_transcript sa req → good (FServerAuth sa) → good (FClientAuthRequest req) →
  BeginServer link hostKey binding (Ok sn) None
    ([wire_of (FHostAuthInit honest_init); wire_of (FClientAuthRequest req)], []) =
  (([], [wire_of (FServerAuth sa)]),
   Ok (MkPending (MkMachine authStateClientAuthRecv ([], [wire_of (FServerAuth sa)]))
         (MkVerified ref user (parsed clientKey) (keypair_PublicKey hostKey)) false)).
Proof.
  intros (h1 & h2 & spl & cpl & Hh1 & Hh2 & Hhb & Hhp & Hn & Hspl & Hss & Hsv & Hu & Ha & Hcb & Hcp & Hcpl & Hcs & Hcv) Hgs Hgr.
  destruct req as [u cblob alg csig]; simpl in *; subst u alg. destruct sa as [hblob n ssig]; simpl in *; subst n.
  unfold BeginServer. rewrite Hhost.
  match goal with |- context [verifyClient ?f ?c ?b ?n ?x ?am] =>
    enough (verifyClient f c b n x am = (MkMachine authStateClientAuthRecv ([], [wire_of (FServerAuth (MkServerAuth hblob sn ssig))]),
      Ok (MkVerified ref user (parsed clientKey) (keypair_PublicKey hostKey)))) as -> by done end.
  unfold verifyClient.
  eapply bind_ok; [eapply (expect_good _ _ _ (FHostAuthInit honest_init)); [apply good_init|reflexivity|done]|].
  eapply bind_ok; [apply advance_ok|]. cbn [hi_MygoshAuthVersion honest_init]. rewrite bool_decide_true by done. cbn [negb].
  rewrite Hh1. eapply bind_ok; [apply try_ok|]. rewrite Hhb. eapply bind_ok; [apply try_ok|].
  eapply bind_ok; [apply try_ok|]. rewrite Hspl. eapply bind_ok; [apply try_ok|]. rewrite Hss. eapply bind_ok; [done|].
  eapply bind_ok; [by apply send_good|]. eapply bind_ok; [apply advance_ok|]. rewrite Hh2. eapply bind_ok; [apply try_ok|].
  eapply bind_ok; [by eapply (expect_good _ _ _ (FClientAuthRequest _))|]. eapply bind_ok; [apply advance_ok|].
  cbn [ca_ClientPublicKeyOrCert ca_Username ca_ClientSigAlg ca_Signature]. rewrite Hcp. eapply bind_ok; [done|].
  rewrite parsed_valid by done. eapply bind_ok; [done|]. eapply bind_ok; [done|]. rewrite Hcpl.
  eapply bind_ok; [done|]. rewrite Hcv. eapply bind_ok; [done|]. eapply bind_ok; [done|].
  unfold NewVerifiedClient. cbn [hi_ReferenceIdentity honest_init]. rewrite !bool_decide_false by done. cbn [reject_if].
  cbn [mbind]. unfold or_reject. rewrite parsed_valid by done. rewrite publicKey_Validate_keypair by done. done.
Qed.

(** C31: over one channel, a client with a valid identity that trusts the server's
    host key and a server with a valid host key complete: each accepts the frames
    the other sends, the server's acceptance ends the client's run, and the two
    report the same user, host, client key and server key (up to the comment, which
    is not sent). *)
Theorem honest_handshake :
  ∃ f1 f2 f3 f4 p p',
    RunClient link honest_config binding (Ok cn) ([f2; f4], []) =
      (([], [f1; f3]), Ok (MkClientResult ref (parsed hostKey) user (keypair_PublicKey clientKey))) ∧
    BeginServer link hostKey binding (Ok sn) None ([f1; f3], []) = (([], [f2]), Ok p) ∧
    Accept link p = (p', Ok tt) ∧ am_conn (ps_machine p') = ([], [f2; f4]) ∧
    am_state (ps_machine p') = authStateAuthenticated ∧
    vc_hostIdentity (ps_verified p) = ref ∧ vc_requestedUsername (ps_verified p) = user ∧
    publicKey_Equal (vc_provenKey (ps_verified p)) (keypair_PublicKey clientKey) = true ∧
    publicKey_Equal (vc_serverKey (ps_verified p)) (parsed hostKey) = true.
Proof.
  destruct honest_transcript_exists as (sa & req & Ht & Hgs & Hgr).
  do 4 eexists. eexists. eexists. split; [by apply honest_client|]. split; [by apply honest_server|].
  split.
  { unfold Accept. eapply bind_ok; [done|]. eapply bind_ok.
    - unfold on_machine. cbn [ps_machine].
      change (r ← st_try (sendClientAuthOK link); try_wrap "send client auth response" r)
        with (send_wrap link "send client auth response" (FClientAuthResponse AuthOk)).
      by rewrite (send_good _ _ _ _ _ good_accept).
    - unfold on_machine. cbn [ps_machine]. by rewrite advance_ok. }
  split_and!; try done; by apply publicKey_Equal_iff.
Qed.
End one_run.
End honest.

(** ** A concrete message library *)

Abbreviation bs := String.list_byte_of_string.
Abbreviation sb := String.string_of_list_byte.

Definition toy_marshal (f : AuthFrame) : bytes :=
  match f with
  | FHostAuthInit m => x01 :: put_fields [bs (hi_MygoshAuthVersion m); hi_ClientNonce m; bs (hi_ReferenceIdentity m)]
  | FServerAuth m => x02 :: put_fields [sa_ServerHostKey m; sa_ServerNonce m; sa_Signature m]
  | FClientAuthRequest m =>
      x03 :: put_fields [bs (ca_Username m); ca_ClientPublicKeyOrCert m; bs (ca_ClientSigAlg m); ca_Signature m]
  | FClientAuthResponse AuthOk => x04 :: put_fields []
  | FClientAuthResponse (AuthReject c m) => x05 :: put_fields [bs c; bs m]
  | FAuthError c m => x06 :: put_fields [bs c; bs m]
  end.

Definition toy_unmarshal (b : bytes) : res AuthFrame :=
  let bad := Err (NewError "proto: cannot parse") in
  match b with
  | x01 :: b => match get_fields 3 b with
      | Some [v; n; r] => Ok (FHostAuthInit (MkHostAuthInit (sb v) n (sb r))) | _ => bad end
  | x02 :: b => match get_fields 3 b with Some [k; n; s] => Ok (FServerAuth (MkServerAuth k n s)) | _ => bad end
  | x03 :: b => match get_fields 4 b with
      | Some [u; k; a; s] => Ok (FClientAuthRequest (MkClientAuthRequest (sb u) k (sb a) s)) | _ => bad end
  | x04 :: _ => Ok (FClientAuthResponse AuthOk)
  | x05 :: b => match get_fields 2 b with Some [c; m] => Ok (FClientAuthResponse (AuthReject (sb c) (sb m))) | _ => bad end
  | x06 :: b => match get_fields 2 b with Some [c; m] => Ok (FAuthError (sb c) (sb m)) | _ => bad end
  | _ => bad
  end.

#[local] Instance toy_proto : ProtoMessage AuthFrame := {|
  proto_validate f := if valid_frame f then None else Some (NewError "validation failed");
  proto_marshal f := Ok (toy_marshal f);
  proto_unmarshal := toy_unmarshal;
|}.

Lemma toy_unmarshal_marshal f : toy_unmarshal (toy_marshal f) = Ok f.
Proof.
  destruct f as [[v n r]|[k n s]|[u k a s]|[|c m]|c m]; simpl toy_marshal; unfold toy_unmarshal; [| | |done|..];
    match goal with |- context [get_fields _ (put_fields ?l)] =>
      pose proof (get_put_fields l []) as Hg; rewrite app_nil_r in Hg; cbn [length] in Hg; rewrite Hg end;
    cbn beta iota; cbn; by rewrite ?String.string_of_list_byte_of_string.
Qed.

#[local] Instance toy_proto_laws : ProtoLaws AuthFrame.
Proof. split. intros f b Hb. injection Hb as <-. apply toy_unmarshal_marshal. Qed.

#[local] Instance toy_auth : AuthLib := {|
  marshal_host_init m := Ok (put_fields [bs (hi_MygoshAuthVersion m); hi_ClientNonce m; bs (hi_ReferenceIdentity m)]);
  marshal_server_auth m := Ok (put_fields [sa_ServerHostKey m; sa_ServerNonce m; sa_Signature m]);
  marshal_server_tosign c p :=
    Ok (put_fields [bs c; ss_ChannelBinding p; ss_HostAuthInitHash p; ss_ServerHostKey p; ss_ServerNonce p]);
  marshal_client_tosign c p :=
    Ok (put_fields [bs c; cs_ChannelBinding p; cs_HostAuthInitHash p; cs_ServerAuthHash p; bs (cs_Username p);
                    cs_ClientPublicKeyOrCert p; bs (cs_ClientSigAlg p)]);
  sha256 b := take 32 (b ++ replicate 32 x00);
|}.

#[local] Instance toy_auth_laws : AuthLaws.
Proof.
  split.
  - intros c [] c' [] b Hb Hb'. rewrite <-Hb' in Hb. injection Hb as Hb. apply put_fields_inj in Hb; [|done].
    simpl in Hb. injection Hb as Hc ? ? ? Hu ? Ha. apply bs_inj in Hc, Hu, Ha. by subst.
  - intros c [] c' [] b Hb Hb'. rewrite <-Hb' in Hb. injection Hb as Hb. apply put_fields_inj in Hb; [|done].
    simpl in Hb. injection Hb as Hc ? ? ? ?. apply bs_inj in Hc. by subst.
  - intros b. unfold blen. cbn [sha256 toy_auth]. rewrite length_take, length_app, length_replicate. unfold DigestSize. lia.
Qed.

#[local] Instance toy_marshals : AuthMarshals.
Proof.
  split; try done.
  - intros f Hf. simpl. by rewrite Hf.
  - intros f _ _. exists (toy_marshal f). split; [done|]. by destruct f as [| | |[]|].
Qed.

(** ** Witnesses *)

Definition toy_client : Keypair := MkKeypair (replicate 32 x09) (replicate 32 x09) [x63].
Definition toy_binding : bytes := replicate 32 x0a.
Definition toy_cn : bytes := replicate 32 x0b.
Definition toy_sn : bytes := replicate 32 x0c.

Lemma honest_handshake_witness :
  ∃ f1 f2 f3 f4 p p',
    @RunClient _ (recording queue) _ toy_keys _ (@honest_config toy_keys toy_pair toy_client "alice" "host")
      toy_binding (Ok toy_cn) ([f2; f4], []) =
      (([], [f1; f3]), Ok (MkClientResult "host" (parsed toy_pair) "alice" (keypair_PublicKey toy_client))) ∧
    @BeginServer _ (recording queue) _ toy_keys _ toy_pair toy_binding (Ok toy_sn) None ([f1; f3], []) = (([], [f2]), Ok p) ∧
    Accept (recording queue) p = (p', Ok tt) ∧ am_conn (ps_machine p') = ([], [f2; f4]) ∧
    am_state (ps_machine p') = authStateAuthenticated ∧
    vc_hostIdentity (ps_verified p) = "host"%string ∧ vc_requestedUsername (ps_verified p) = "alice"%string ∧
    publicKey_Equal (vc_provenKey (ps_verified p)) (keypair_PublicKey toy_client) = true ∧
    publicKey_Equal (vc_serverKey (ps_verified p)) (parsed toy_pair) = true.
Proof.
  pose proof toy_keys_laws.
  apply (@honest_handshake _ _ toy_keys _ _ _ _ toy_pair toy_client "alice" "host" toy_binding toy_cn toy_sn);
    first [reflexivity | discriminate].
Defined.

(** A client's request to the server, and the pending authentication it gets. *)
Definition toy_outbox : list bytes :=
  (@RunClient _ (recording queue) _ toy_keys _ (@honest_config toy_keys toy_pair toy_client "alice" "host")
     toy_binding (Ok toy_cn)
     ((@BeginServer _ (recording queue) _ toy_keys _ toy_pair toy_binding (Ok toy_sn) None
         ([wire_of (FHostAuthInit (honest_init "host" toy_cn))], [])).1.2, [])).1.2.

Definition toy_begin := @BeginServer _ (recording queue) _ toy_keys _ toy_pair toy_binding (Ok toy_sn) None (toy_outbox, []).

Definition toy_pending : PendingServerAuth :=
  match toy_begin.2 with
  | Ok p => p
  | Err _ => MkPending (MkMachine authStateNoiseEstablished ([], [])) (MkVerified "" "" (parsed toy_pair) (parsed toy_pair)) true
  end.

Lemma server_proof_sound_witness :
  vc_requestedUsername (ps_verified toy_pending) = "alice"%string ∧
  ∃ sa, encodes [FServerAuth sa] toy_begin.1.2 ∧
    @server_evidence _ toy_keys _ toy_pair toy_binding (Ok toy_sn) (ps_verified toy_pending) sa.
Proof.
  split; [vm_compute; reflexivity|].
  apply (@server_proof_sound _ queue _ toy_keys _ toy_pair toy_binding (Ok toy_sn) None toy_outbox [] toy_begin.1.2 toy_pending).
  vm_compute. reflexivity.
Defined.

Lemma decided_once_witness :
  ∃ r p', decide_calls queue [DAccept; DReject; DAccept] toy_pending = (p', [r; Err ErrDecisionMade; Err ErrDecisionMade]) ∧
    ∃ bs, (am_conn (ps_machine p')).2 = (am_conn (ps_machine toy_pending)).2 ++ bs ∧
      (encodes [decision_frame DAccept] bs ∨ (is_ok r = false ∧ bs = [])) ∧
      (am_state (ps_machine p') = authStateAuthenticated ↔ DAccept = DAccept ∧ r = Ok tt).
Proof. apply (decided_once queue toy_pending DAccept [DReject; DAccept]); vm_compute; reflexivity. Defined.

(** A key library in which the client key has signed exactly one payload, the
    one of the run above. *)
Definition toy_h1 : bytes := match HashHostAuthInit (honest_init "host" toy_cn) with Ok h => h | Err _ => [] end.
Definition toy_blob (k : Keypair) : bytes := x00 :: kp_public k.
Definition toy_sa : ServerAuth := MkServerAuth (toy_blob toy_pair) toy_sn [x01].
Definition toy_h2 : bytes := match HashServerAuthMessage toy_sa with Ok h => h | Err _ => [] end.
Definition toy_payload : bytes :=
  match clientToSign_MarshalBinary
    (MkClientToSign toy_binding toy_h1 toy_h2 "alice" (toy_blob toy_client) AlgorithmEd25519) with
  | Ok b => b | Err _ => [] end.

Definition strict_keys : KeyLib := {|
  ed_public seed := take 32 (seed ++ replicate 32 x00);
  ed_sign seed msg := [x01];
  ed_verify public msg sig := if bool_decide (public = kp_public toy_client) then bool_decide (msg = toy_payload) else true;
  fingerprint _ := "SHA256:toy"%string;
  ssh_key := bytes;
  ssh_type _ := KeyAlgoED25519;
  ssh_ed25519 k := Some k;
  ssh_NewPublicKey b := Ok b;
  ssh_Marshal k := x00 :: k;
  ssh_ParsePublicKey b := match b with x00 :: k => Ok k | _ => Err (NewError "ssh: short read") end;
|}.

Definition strict_request : ClientAuthRequest := MkClientAuthRequest "alice" (toy_blob toy_client) AlgorithmEd25519 [x01].

Definition strict_begin := @BeginServer _ (recording queue) _ strict_keys _ toy_pair toy_binding (Ok toy_sn) None
  ([wire_of (FHostAuthInit (honest_init "host" toy_cn)); wire_of (FClientAuthRequest strict_request)], []).

Definition strict_pending : PendingServerAuth :=
  match strict_begin.2 with
  | Ok p => p
  | Err _ => MkPending (MkMachine authStateNoiseEstablished ([], [])) (MkVerified "" "" (parsed toy_pair) (parsed toy_pair)) true
  end.

Lemma strict_signs : @signs_only_as_client _ strict_keys _ (parsed toy_client).
Proof.
  intros payload sig Hv. unfold publicKey_Verify in Hv.
  assert (payload = toy_payload) as ->.
  { change (Some (bool_decide (payload = toy_payload)) = Some true) in Hv. injection Hv as Hv. by apply bool_decide_eq_true in Hv. }
  exists (@honest_config strict_keys toy_pair toy_client "alice" "host"), toy_binding, (honest_init "host" toy_cn), toy_sa,
    (parsed toy_pair), toy_h1, toy_h2, (toy_blob toy_client).
  split; [|split_and!; vm_compute; reflexivity].
  eexists toy_h1, _, _. split_and!; vm_compute; reflexivity.
Qed.

