(* ===== verification/Authz.v ===== *)
(** * Server authorization (app/server/authz, lib/account)

    From a proved client key to credentials, to a channel grant, to an authorized
    launch: [authz.go], [permissions.go], [key_constraints.go], [credentials.go]
    and [launch.go].  The account database, the policies of the embedding
    program, the file system and the address of a new identity token are the
    parameters of [AuthzEnv]. *)

From S2P Require Import Prelude GoStrings Bincoder Keys Trust Wire Auth.

(** ** lib/account/user.go *)

Record Group := MkGroup { g_Id : Z; g_Name : string }.

Record Account := MkAccount {
  a_Username : string;
  a_Name : string;
  a_Id : Z;
  a_PrimaryGroup : Group;
  a_SupplementaryGroups : list Group;
  a_HomeDir : string;
  a_LoginShell : string;
}.

(** ** permissions.go *)

Record PermissionDecision := MkDecision {
  pd_AllowCommand : bool;
  pd_AllowShell : bool;
  pd_AllowExec : bool;
  pd_AllowPTY : bool;
  pd_ForcedCommand : string;
  pd_AllowedEnvironment : list string;
}.

Record ConnectionPermissions := MkPermissions {
  allowCommand : bool;
  allowShell : bool;
  allowExec : bool;
  allowPTY : bool;
  forcedCommand : string;
  allowedEnvironment : list string;
}.

Definition equals_nul : list Ascii.ascii := [ascii_of 61; ascii_of 0].

Definition validateEnvironmentName (name : string) : res unit :=
  reject_if (bool_decide (name = ""%string)) (NewError "environment variable name is required") ≫= λ _,
  reject_if (contains_any equals_nul name) (NewError "invalid environment variable name") ≫= λ _,
  reject_if (256 <? slen name) (NewError "environment variable name exceeds maximum size").

(** The loop over [decision.AllowedEnvironment]. *)
Fixpoint collect_environment (names : list string) (seen : gset string) : res (list string) :=
  match names with
  | [] => Ok []
  | name :: rest =>
      let name := TrimSpace name in
      validateEnvironmentName name ≫= λ _,
      if bool_decide (name ∈ seen) then collect_environment rest seen
      else collect_environment rest ({[name]} ∪ seen) ≫= λ allowed, mret (name :: allowed)
  end.

Definition newConnectionPermissions (decision : PermissionDecision) : res ConnectionPermissions :=
  let forced := TrimSpace (pd_ForcedCommand decision) in
  let has_forced := negb (bool_decide (forced = ""%string)) in
  reject_if (contains NUL forced) (NewError "forced command contains NUL") ≫= λ _,
  reject_if (max_command <? slen forced) (NewError "forced command exceeds maximum size") ≫= λ _,
  reject_if ((pd_AllowShell decision || pd_AllowExec decision || pd_AllowPTY decision || has_forced)
             && negb (pd_AllowCommand decision))
    (NewError "command sub-permissions require command permission") ≫= λ _,
  reject_if (has_forced && negb (pd_AllowShell decision) && negb (pd_AllowExec decision))
    (NewError "forced command requires shell or exec permission") ≫= λ _,
  reject_if (pd_AllowPTY decision && negb (pd_AllowShell decision) && negb (pd_AllowExec decision))
    (NewError "PTY permission requires shell or exec permission") ≫= λ _,
  reject_if (128 <? blen (pd_AllowedEnvironment decision))
    (NewError "too many allowed environment variables") ≫= λ _,
  collect_environment (pd_AllowedEnvironment decision) ∅ ≫= λ allowed,
  mret (MkPermissions (pd_AllowCommand decision) (pd_AllowShell decision) (pd_AllowExec decision)
          (pd_AllowPTY decision) forced (sort_strings allowed)).

Definition decision_of (p : ConnectionPermissions) : PermissionDecision :=
  MkDecision (allowCommand p) (allowShell p) (allowExec p) (allowPTY p) (forcedCommand p) (allowedEnvironment p).

Definition permissions_validate (p : ConnectionPermissions) : res unit :=
  newConnectionPermissions (decision_of p) ≫= λ _, mret tt.

(** ** key_constraints.go *)

Record MatchedKeyConstraints := MkMatched {
  mk_forcedCommand : string;
  mk_noPTY : bool;
  mk_restricted : bool;
}.

Definition newMatchedKeyConstraints (c : AuthorizedKeyConstraints) : MatchedKeyConstraints :=
  MkMatched (ac_ForcedCommand c) (ac_NoPTY c) (ac_Restricted c).

Definition matched_validate (c : MatchedKeyConstraints) : res unit :=
  reject_if (mk_restricted c && negb (mk_noPTY c)) (NewError "restricted authorized key must disable PTY") ≫= λ _,
  reject_if (max_command <? slen (mk_forcedCommand c))
    (NewError "authorized key forced command exceeds maximum size").

Definition applyMatchedKeyConstraints (decision : PermissionDecision) (c : MatchedKeyConstraints)
  : res PermissionDecision :=
  matched_validate c ≫= λ _,
  let decision :=
    if mk_noPTY c
    then MkDecision (pd_AllowCommand decision) (pd_AllowShell decision) (pd_AllowExec decision) false
           (pd_ForcedCommand decision) (pd_AllowedEnvironment decision)
    else decision in
  if negb (bool_decide (mk_forcedCommand c = ""%string)) then
    reject_if (negb (bool_decide (pd_ForcedCommand decision = ""%string))
               && negb (bool_decide (pd_ForcedCommand decision = mk_forcedCommand c)))
      (NewError "configured and authorized-key forced commands conflict") ≫= λ _,
    mret (MkDecision (pd_AllowCommand decision) (pd_AllowShell decision) (pd_AllowExec decision)
            (pd_AllowPTY decision) (mk_forcedCommand c) (pd_AllowedEnvironment decision))
  else mret decision.

(** ** credentials.go *)

Record ConnectionRequest := MkRequest { rq_VerifiedClient : VerifiedClient; rq_PeerAddress : string }.

(** [identityToken] is the address of a [credentialIdentity]; [None] is nil. *)
Record ConnectionCredentials := MkCredentials {
  authenticationMethod : string;
  keyFingerprint : string;
  requestedUsername : string;
  peerAddress : string;
  provedKey : PublicKey;
  account : Account;
  matchedSource : string;
  matchedKeyConstraints : MatchedKeyConstraints;
  permissions : ConnectionPermissions;
  identityToken : option Z;
}.

Definition AuthenticationMethodPublicKey : string := "public-key".

Definition validateAccount (a : Account) : res unit :=
  reject_if (bool_decide (a_Username a = ""%string)) (NewError "resolved username is required") ≫= λ _,
  reject_if (bool_decide (a_HomeDir a = ""%string)) (NewError "account home directory is required").

Section credentials.
Context `{KeyLib}.

(** [token] is the address the runtime returned for [&credentialIdentity{}]. *)
Definition newConnectionCredentials (request : ConnectionRequest) (acc : Account) (source : string)
    (constraints : MatchedKeyConstraints) (perms : ConnectionPermissions) (token : Z) : ConnectionCredentials :=
  let verified := rq_VerifiedClient request in
  {| authenticationMethod := AuthenticationMethodPublicKey;
     keyFingerprint := FingerprintSHA256 (vc_provenKey verified);
     requestedUsername := vc_requestedUsername verified;
     peerAddress := rq_PeerAddress request;
     provedKey := vc_provenKey verified;
     account := acc;
     matchedSource := source;
     matchedKeyConstraints := constraints;
     permissions := perms;
     identityToken := Some token |}.

Definition credentials_validate (c : ConnectionCredentials) : res unit :=
  reject_if (bool_decide (authenticationMethod c = ""%string)) (NewError "authentication method is required") ≫= λ _,
  reject_if (bool_decide (requestedUsername c = ""%string)) (NewError "requested username is required") ≫= λ _,
  wrap_err "proved client key" (publicKey_Validate (provedKey c)) ≫= λ _,
  reject_if (bool_decide (keyFingerprint c = ""%string)) (NewError "client key fingerprint is required") ≫= λ _,
  validateAccount (account c) ≫= λ _,
  reject_if (negb (IsAbs (a_HomeDir (account c)))) (NewError "account home directory must be absolute") ≫= λ _,
  reject_if (bool_decide (matchedSource c = ""%string)) (NewError "matched policy source is required") ≫= λ _,
  wrap_err "matched authorized-key constraints" (matched_validate (matchedKeyConstraints c)) ≫= λ _,
  wrap_err "connection permissions" (permissions_validate (permissions c)) ≫= λ _,
  reject_if ((allowShell (permissions c) || allowExec (permissions c)) && negb (IsAbs (a_LoginShell (account c))))
    (NewError "permitted launch requires an absolute account login shell") ≫= λ _,
  reject_if (negb (bool_decide (is_Some (identityToken c)))) (NewError "credential identity token is required").
End credentials.

(** ** authz.go *)

(** [securefiles.Read] with the policy of [matchAuthorizedKey]: the owner id, the
    anchor directory and the path below it.  A missing file is [os.ErrNotExist]. *)
Definition os_ErrNotExist : error := Sentinel "file does not exist".

Class AuthzEnv := {
  resolve_account : string → res Account;
  authorizedKeysPaths : list string;
  AuthorizeAccount : option (ConnectionRequest → Account → string → option error);
  ResolvePermissions : option (ConnectionRequest → Account → string → res PermissionDecision);
  securefiles_Read : Z → string → string → res bytes;
  os_Getwd : res string;
  ctx_Err : option error;
}.

Record matchedAuthorizedKey := MkMatchedKey { ma_source : string; ma_constraints : MatchedKeyConstraints }.

(** [strings.TrimPrefix] of ["~/"]. *)
Definition trim_home (path : string) : string :=
  match path with String _ (String _ r) => r | _ => path end.

Section authz.
Context `{TrustLib} `{AuthzEnv}.

(** The policies default to allowing the account and to no permission. *)
Definition account_policy (request : ConnectionRequest) (a : Account) (source : string) : option error :=
  match AuthorizeAccount with Some f => f request a source | None => None end.

Definition permission_policy (request : ConnectionRequest) (a : Account) (source : string) : res PermissionDecision :=
  match ResolvePermissions with
  | Some f => f request a source
  | None => Ok (MkDecision false false false false "" [])
  end.

Definition resolveAccountPath (homeDir configuredPath : string) : res (string * string * string) :=
  if String.prefix "~/" configuredPath then
    reject_if (bool_decide (homeDir = ""%string)) (NewError "account home directory is required for ~ path") ≫= λ _,
    let relative := trim_home configuredPath in
    mret (path_Join [homeDir; relative], homeDir, relative)
  else if IsAbs configuredPath then mret (configuredPath, path_Dir configuredPath, path_Base configuredPath)
  else
    wrap_err "resolve relative authorized_keys path" os_Getwd ≫= λ workingDir,
    mret (path_Join [workingDir; configuredPath], workingDir, configuredPath).

(** The loop of [matchAuthorizedKey].  [errs] is the first error that
    [errors.Join] collected; only whether there is one matters. *)
Fixpoint match_loop (paths : list string) (acc : Account) (provedKey : PublicKey)
    (errs : option error) (found : bool) : res matchedAuthorizedKey :=
  match paths with
  | [] =>
      match errs with
      | Some e => Err e
      | None => if negb found then Err (NewError "no authorized keys found for user")
                else Err (NewError "client public key is not authorized for user")
      end
  | configuredPath :: rest =>
      match ctx_Err with
      | Some e => Err e
      | None =>
        let join e := Some (match errs with Some e0 => e0 | None => e end) in
        match resolveAccountPath (a_HomeDir acc) configuredPath with
        | Err e => match_loop rest acc provedKey (join e) found
        | Ok (resolved, anchor, relative) =>
          match securefiles_Read (a_Id acc) anchor relative with
          | Err e =>
              match_loop rest acc provedKey
                (if err_is e os_ErrNotExist then errs else join (Wrapped e "read authorized_keys")) found
          | Ok contents =>
            match ParseAuthorizedKeys contents with
            | Err e => match_loop rest acc provedKey (join (Wrapped e "parse authorized_keys")) found
            | Ok entries =>
                let found := found || bool_decide (is_Some (authorized_Match entries (λ _, true))) in
                match authorized_Match entries (λ entry, publicKey_Equal (ak_Key entry) provedKey) with
                | Some entry =>
                    match errs with
                    | Some e => Err e
                    | None =>
                        wrap_err "resolve authorized_keys constraints"
                          (parseAuthorizedKeyConstraints (ak_Options entry)) ≫= λ constraints,
                        mret (MkMatchedKey resolved (newMatchedKeyConstraints constraints))
                    end
                | None => match_loop rest acc provedKey errs found
                end
            end
          end
        end
      end
  end.

Definition matchAuthorizedKey (acc : Account) (provedKey : PublicKey) : res matchedAuthorizedKey :=
  match_loop authorizedKeysPaths acc provedKey None false.

Definition AuthorizeConnection (request : ConnectionRequest) (token : Z) : res ConnectionCredentials :=
  match ctx_Err with
  | Some e => Err e
  | None =>
    let verified := rq_VerifiedClient request in
    let username := vc_requestedUsername verified in
    let provenKey := vc_provenKey verified in
    reject_if (bool_decide (username = ""%string) || negb (is_ok (publicKey_Validate provenKey)))
      (NewError "verified client proof is incomplete") ≫= λ _,
    wrap_err "resolve account for requested user" (resolve_account username) ≫= λ acc,
    wrap_err "validate resolved account" (validateAccount acc) ≫= λ _,
    matchAuthorizedKey acc provenKey ≫= λ matched,
    match account_policy request acc (ma_source matched) with
    | Some e => Err (Wrapped e "apply account policy")
    | None =>
      wrap_err "resolve connection permissions" (permission_policy request acc (ma_source matched)) ≫= λ decision,
      wrap_err "apply authorized-key constraints"
        (applyMatchedKeyConstraints decision (ma_constraints matched)) ≫= λ decision,
      wrap_err "validate connection permissions" (newConnectionPermissions decision) ≫= λ perms,
      let credentials := newConnectionCredentials request acc (ma_source matched) (ma_constraints matched) perms token in
      wrap_err "validate connection credentials" (credentials_validate credentials) ≫= λ _,
      mret credentials
    end
  end.
End authz.

(** ** launch.go *)

Definition CommandChannelType : string := "command".

Record AuthorizedChannel := MkAuthorizedChannel { channelType : string; credentialIdentity : option Z }.

(** [LaunchKind] is a string type with two constants. *)
Definition LaunchShell : string := "shell".
Definition LaunchExec : string := "exec".

Record PTYRequest := MkPTY { pty_Terminal : string; pty_Rows : Z; pty_Columns : Z }.

Record LaunchRequest := MkLaunch {
  lr_Kind : string;
  lr_Command : string;
  lr_PTY : option PTYRequest;
  lr_Environment : gmap string string;
}.

Record AuthorizedLaunchSpec := MkSpec {
  ls_kind : string;
  ls_command : string;
  ls_executable : string;
  ls_workingDirectory : string;
  ls_pty : option PTYRequest;
  ls_environment : gmap string string;
  ls_account : Account;
}.

Section launch.
Context `{AuthzEnv}.

Definition AuthorizeChannel (c : ConnectionCredentials) (typ : string) : res AuthorizedChannel :=
  match ctx_Err with
  | Some e => Err e
  | None =>
    wrap_err "validate connection credentials" (credentials_validate c) ≫= λ _,
    reject_if (negb (bool_decide (typ = CommandChannelType))) (NewError "unsupported channel type") ≫= λ _,
    reject_if (negb (allowCommand (permissions c))) (NewError "command channels are not permitted") ≫= λ _,
    mret (MkAuthorizedChannel typ (identityToken c))
  end.

(** The loop of [authorizeEnvironment] over the sorted names. *)
Fixpoint environment_loop (requested : gmap string string) (allowed : gset string) (names : list string)
    (environment : gmap string string) : res (gmap string string) :=
  match names with
  | [] => Ok environment
  | name :: rest =>
      validateEnvironmentName name ≫= λ _,
      reject_if (negb (bool_decide (name ∈ allowed))) (NewError "environment variable is not permitted") ≫= λ _,
      let value := default ""%string (requested !! name) in
      reject_if (contains NUL value) (NewError "environment variable contains NUL") ≫= λ _,
      reject_if (16384 <? slen value) (NewError "environment variable exceeds maximum size") ≫= λ _,
      environment_loop requested allowed rest (<[name := value]> environment)
  end.

(** [order] is the order in which the runtime ranges over the requested map. *)
Definition authorizeEnvironment (requested : gmap string string) (allowedNames order : list string)
  : res (gmap string string) :=
  reject_if (128 <? Z.of_nat (size requested)) (NewError "too many environment variables") ≫= λ _,
  environment_loop requested (list_to_set allowedNames) (sort_strings order) ∅.

(** The [switch] on the kind. *)
Definition check_kind (p : ConnectionPermissions) (request : LaunchRequest) : res unit :=
  if bool_decide (lr_Kind request = LaunchShell) then
    reject_if (negb (allowShell p)) (NewError "shell launch is not permitted") ≫= λ _,
    reject_if (negb (bool_decide (TrimSpace (lr_Command request) = ""%string)))
      (NewError "shell request must not contain a command")
  else if bool_decide (lr_Kind request = LaunchExec) then
    reject_if (negb (allowExec p)) (NewError "exec launch is not permitted") ≫= λ _,
    reject_if (bool_decide (TrimSpace (lr_Command request) = ""%string) && bool_decide (forcedCommand p = ""%string))
      (NewError "exec command is required")
  else Err (NewError "unsupported launch kind").

Definition check_pty (p : ConnectionPermissions) (pty : option PTYRequest) : res unit :=
  match pty with
  | None => Ok tt
  | Some r =>
      reject_if (negb (allowPTY p)) (NewError "PTY allocation is not permitted") ≫= λ _,
      reject_if ((pty_Rows r =? 0) || (pty_Columns r =? 0))
        (NewError "PTY rows and columns must be greater than zero") ≫= λ _,
      reject_if (contains NUL (pty_Terminal r)) (NewError "PTY terminal contains NUL")
  end.

Definition AuthorizeLaunch (c : ConnectionCredentials) (channel : AuthorizedChannel) (request : LaunchRequest)
    (order : list string) : res AuthorizedLaunchSpec :=
  match ctx_Err with
  | Some e => Err e
  | None =>
    wrap_err "validate connection credentials" (credentials_validate c) ≫= λ _,
    reject_if (negb (bool_decide (channelType channel = CommandChannelType))
               || negb (bool_decide (is_Some (credentialIdentity channel)))
               || negb (bool_decide (credentialIdentity channel = identityToken c)))
      (NewError "authorized channel does not belong to these credentials") ≫= λ _,
    let p := permissions c in
    check_kind p request ≫= λ _,
    check_pty p (lr_PTY request) ≫= λ _,
    authorizeEnvironment (lr_Environment request) (allowedEnvironment p) order ≫= λ environment,
    let acc := account c in
    reject_if (negb (IsAbs (a_HomeDir acc))) (NewError "account home directory must be absolute") ≫= λ _,
    reject_if (negb (IsAbs (a_LoginShell acc))) (NewError "account login shell must be absolute") ≫= λ _,
    let command := TrimSpace (lr_Command request) in
    reject_if (contains NUL command) (NewError "command contains NUL") ≫= λ _,
    reject_if (max_command <? slen command) (NewError "command exceeds maximum size") ≫= λ _,
    let forced := negb (bool_decide (forcedCommand p = ""%string)) in
    mret {| ls_kind := if forced then LaunchExec else lr_Kind request;
            ls_command := if forced then forcedCommand p else command;
            ls_executable := a_LoginShell acc;
            ls_workingDirectory := a_HomeDir acc;
            ls_pty := lr_PTY request;
            ls_environment := environment;
            ls_account := acc |}
  end.
End launch.

(** ** Permissions are a normal form *)

(** A name as [newConnectionPermissions] stores it. *)
Definition normal_name (n : string) : Prop := TrimSpace n = n ∧ validateEnvironmentName n = Ok tt.

Lemma collect_spec names seen l :
  collect_environment names seen = Ok l →
  NoDup l ∧ (∀ n, n ∈ l → (n ∉ seen) ∧ normal_name n) ∧ (length l <= length names)%nat ∧
  ∀ n, n ∈ l → n ∈ (TrimSpace <$> names).
Proof.
  revert seen l. induction names as [|x names IH]; intros seen l Hl; simpl in Hl.
  { injection Hl as <-. split; [constructor|]. repeat split; try (intros; by apply elem_of_nil in H). done. }
  apply res_bind_ok in Hl as ([] & Hv & Hl). case_bool_decide as Hin.
  - destruct (IH _ _ Hl) as (Hnd & Hn & Hlen & Hsub). simpl. split_and!; try done; [lia|].
    intros n Hn'. apply elem_of_cons. right. by apply Hsub.
  - apply res_bind_ok in Hl as (l' & Hl' & Hl). injection Hl as <-.
    destruct (IH _ _ Hl') as (Hnd & Hn & Hlen & Hsub). split_and!.
    + constructor; [|done]. intros Hx. destruct (Hn _ Hx) as [Hx' _]. set_solver.
    + intros n Hn'. apply elem_of_cons in Hn' as [->|Hn'].
      * split; [done|]. split; [apply TrimSpace_idem|done].
      * destruct (Hn _ Hn') as [Hx' ?]. split; [set_solver|done].
    + simpl. lia.
    + intros n Hn'. simpl. apply elem_of_cons in Hn' as [->|Hn']; apply elem_of_cons; [by left|right; by apply Hsub].
Qed.

Lemma collect_normal l seen :
  NoDup l → (∀ n, n ∈ l → (n ∉ seen) ∧ normal_name n) → collect_environment l seen = Ok l.
Proof.
  revert seen. induction l as [|x l IH]; intros seen Hnd Hn; [done|].
  apply NoDup_cons in Hnd as [Hx Hnd]. destruct (Hn x) as [Hseen [Ht Hv]]; [by left|].
  simpl. rewrite Ht, Hv. simpl. rewrite bool_decide_false by done.
  rewrite IH; [done|done|]. intros n Hin. destruct (Hn n) as [? ?]; [by right|].
  split; [|done]. rewrite not_elem_of_union, not_elem_of_singleton. split; [by intros ->|done].
Qed.

Lemma newPermissions_inv d p :
  newConnectionPermissions d = Ok p →
  forcedCommand p = TrimSpace (pd_ForcedCommand d) ∧ allowCommand p = pd_AllowCommand d ∧
  allowShell p = pd_AllowShell d ∧ allowExec p = pd_AllowExec d ∧ allowPTY p = pd_AllowPTY d ∧
  contains NUL (forcedCommand p) = false ∧ slen (forcedCommand p) <= max_command ∧
  ∃ l, collect_environment (pd_AllowedEnvironment d) ∅ = Ok l ∧ allowedEnvironment p = sort_strings l.
Proof.
  unfold newConnectionPermissions. intros Hp. res_inv. subst. bool_simp. simpl. split_and!; try done. eauto.
Qed.

(** A sub-permission implies the permission it needs. *)
Lemma newPermissions_closed d p :
  newConnectionPermissions d = Ok p →
  (allowShell p || allowExec p || allowPTY p || negb (bool_decide (forcedCommand p = ""%string)) = true →
   allowCommand p = true) ∧
  (forcedCommand p ≠ ""%string → allowShell p || allowExec p = true) ∧
  (allowPTY p = true → allowShell p || allowExec p = true).
Proof.
  unfold newConnectionPermissions. intros Hp. res_inv. subst. simpl.
  destruct d as [ac as' ae ap fc env]. simpl in *.
  destruct ac, as', ae, ap; simpl in *; try done; case_bool_decide; simpl in *; try done; naive_solver.
Qed.

Lemma permissions_normal d p :
  newConnectionPermissions d = Ok p → newConnectionPermissions (decision_of p) = Ok p.
Proof.
  intros Hp. destruct (newPermissions_inv _ _ Hp) as (Hf & E1 & E2 & E3 & E4 & Hnul & Hlen & l & Hl & Henv).
  destruct (collect_spec _ _ _ Hl) as (Hnd & Hn & Hl' & _).
  unfold newConnectionPermissions in Hp |- *. res_inv. unfold decision_of. simpl.
  assert (Hfix : TrimSpace (forcedCommand p) = forcedCommand p) by (rewrite Hf; apply TrimSpace_idem).
  rewrite Hfix, Henv.
  assert (Hc : collect_environment (sort_strings l) ∅ = Ok (sort_strings l)).
  { apply collect_normal; [by rewrite sort_strings_perm|]. intros n Hin. apply Hn.
    by rewrite <-(sort_strings_perm l). }
  rewrite Hc. rewrite !reject_if_then. rewrite E1, E2, E3, E4, Hf. split_and!; try done.
  - bool_simp. apply Z.ltb_ge. unfold blen in *. rewrite (Permutation_length (sort_strings_perm l)). lia.
  - simpl. f_equal. rewrite (sort_strings_unique _ _ (sort_strings_perm l)).
    destruct p; simpl in *. congruence.
Qed.

(** ** Connections *)

Section connections.
Context `{TrustLib} `{AuthzEnv}.

Lemma authorized_Match_some entries policy e :
  authorized_Match entries policy = Some e → e ∈ entries ∧ policy e = true.
Proof.
  induction entries as [|x entries IH]; simpl; [done|]. case_match eqn:E.
  - intros [= ->]. split; [by left|done].
  - intros He. destruct (IH He). split; [by right|done].
Qed.

Lemma authorized_Match_none entries policy e :
  authorized_Match entries policy = None → e ∈ entries → policy e = false.
Proof.
  induction entries as [|x entries IH]; simpl; [by intros _ []%elem_of_nil|]. case_match eqn:E; [done|].
  intros He Hin. apply elem_of_cons in Hin as [->|Hin]; [done|by apply IH].
Qed.

(** The file at a configured path, for an account. *)
Definition keys_file (acc : Account) (path resolved : string) (r : res bytes) : Prop :=
  ∃ anchor relative, resolveAccountPath (a_HomeDir acc) path = Ok (resolved, anchor, relative) ∧
    securefiles_Read (a_Id acc) anchor relative = r.

(** The file lists the key with these constraints. *)
Definition lists_key (acc : Account) (path : string) (key : PublicKey) (m : matchedAuthorizedKey) : Prop :=
  ∃ contents entries entry c, keys_file acc path (ma_source m) (Ok contents) ∧
    ParseAuthorizedKeys contents = Ok entries ∧ entry ∈ entries ∧
    pk_Algorithm (ak_Key entry) = pk_Algorithm key ∧ pk_bytes (ak_Key entry) = pk_bytes key ∧
    parseAuthorizedKeyConstraints (ak_Options entry) = Ok c ∧
    ma_constraints m = newMatchedKeyConstraints c.

(** The file is absent, or is well formed and does not list the key. *)
Definition passes (acc : Account) (path : string) (key : PublicKey) : Prop :=
  ∃ resolved, (∃ e, keys_file acc path resolved (Err e) ∧ err_is e os_ErrNotExist = true) ∨
    ∃ contents entries, keys_file acc path resolved (Ok contents) ∧ ParseAuthorizedKeys contents = Ok entries ∧
      ∀ entry, entry ∈ entries → publicKey_Equal (ak_Key entry) key = false.

Lemma match_loop_sound paths acc key errs found m :
  match_loop paths acc key errs found = Ok m →
  errs = None ∧ ∃ pre path post, paths = pre ++ path :: post ∧ lists_key acc path key m ∧
    ∀ q, q ∈ pre → passes acc q key.
Proof.
  revert errs found. induction paths as [|x paths IH]; intros errs found Hm; simpl in Hm.
  { by repeat case_match. }
  destruct ctx_Err; [done|].
  destruct (resolveAccountPath (a_HomeDir acc) x) as [[[resolved anchor] relative]|e] eqn:Er.
  2: { by destruct (IH _ _ Hm) as [[=] _]. }
  destruct (securefiles_Read (a_Id acc) anchor relative) as [contents|e] eqn:Es.
  2: { destruct (IH _ _ Hm) as (He & pre & path & post & -> & Hl & Hpre).
       destruct (err_is e os_ErrNotExist) eqn:En; [|done].
       split; [done|]. exists (x :: pre), path, post. split; [done|]. split; [done|].
       intros q Hq. apply elem_of_cons in Hq as [->|Hq]; [|by apply Hpre].
       exists resolved. left. exists e. split; [|done]. by exists anchor, relative. }
  destruct (ParseAuthorizedKeys contents) as [entries|e] eqn:Ep.
  2: { by destruct (IH _ _ Hm) as [[=] _]. }
  destruct (authorized_Match entries _) as [entry|] eqn:Em.
  - destruct errs; [done|]. split; [done|]. apply res_bind_ok in Hm as (c & Hc & Hm).
    rewrite wrap_err_ok in Hc. injection Hm as <-.
    apply authorized_Match_some in Em as [Hin Heq]. apply publicKey_Equal_iff in Heq as [? ?].
    exists [], x, paths. split; [done|]. split; [|intros q Hq; by apply elem_of_nil in Hq].
    exists contents, entries, entry, c. split_and!; try done. by exists anchor, relative.
  - destruct (IH _ _ Hm) as (He & pre & path & post & -> & Hl & Hpre).
    split; [done|]. exists (x :: pre), path, post. split; [done|]. split; [done|].
    intros q Hq. apply elem_of_cons in Hq as [->|Hq]; [|by apply Hpre].
    exists resolved. right. exists contents, entries. split; [by exists anchor, relative|]. split; [done|].
    intros entry Hin. by apply (authorized_Match_none _ _ _ Em Hin).
Qed.

(** The permissions that remain when a key's constraints are applied. *)
Lemma constrained_permissions d c d' p :
  applyMatchedKeyConstraints d c = Ok d' → newConnectionPermissions d' = Ok p →
  allowCommand p = pd_AllowCommand d ∧ allowShell p = pd_AllowShell d ∧ allowExec p = pd_AllowExec d ∧
  allowPTY p = (pd_AllowPTY d && negb (mk_noPTY c)) ∧
  forcedCommand p = TrimSpace (if bool_decide (mk_forcedCommand c = ""%string) then pd_ForcedCommand d
                               else mk_forcedCommand c).
Proof.
  intros Hd Hp. destruct (newPermissions_inv _ _ Hp) as (Hf & E1 & E2 & E3 & E4 & _).
  rewrite Hf, E1, E2, E3, E4. clear Hp Hf E1 E2 E3 E4.
  unfold applyMatchedKeyConstraints in Hd. apply res_bind_ok in Hd as (_ & _ & Hd).
  destruct (mk_noPTY c); case_bool_decide; simpl in Hd; res_inv; subst; simpl;
    rewrite ?andb_true_r, ?andb_false_r; done.
Qed.

Lemma connection_inv (request : ConnectionRequest) (token : Z) (c : ConnectionCredentials) :
  AuthorizeConnection request token = Ok c →
  let key := vc_provenKey (rq_VerifiedClient request) in
  let user := vc_requestedUsername (rq_VerifiedClient request) in
  publicKey_Validate key = Ok tt ∧ user ≠ ""%string ∧ resolve_account user = Ok (account c) ∧
  requestedUsername c = user ∧ provedKey c = key ∧ identityToken c = Some token ∧
  credentials_validate c = Ok tt ∧
  (∃ pre path post, authorizedKeysPaths = pre ++ path :: post ∧
     lists_key (account c) path key (MkMatchedKey (matchedSource c) (matchedKeyConstraints c)) ∧
     ∀ q, q ∈ pre → passes (account c) q key) ∧
  account_policy request (account c) (matchedSource c) = None ∧
  ∃ d, permission_policy request (account c) (matchedSource c) = Ok d ∧
    allowCommand (permissions c) = pd_AllowCommand d ∧ allowShell (permissions c) = pd_AllowShell d ∧
    allowExec (permissions c) = pd_AllowExec d ∧
    allowPTY (permissions c) = (pd_AllowPTY d && negb (mk_noPTY (matchedKeyConstraints c))) ∧
    forcedCommand (permissions c) =
      TrimSpace (if bool_decide (mk_forcedCommand (matchedKeyConstraints c) = ""%string)
                 then pd_ForcedCommand d else mk_forcedCommand (matchedKeyConstraints c)) ∧
    ∃ d', newConnectionPermissions d' = Ok (permissions c).
Proof.
  intros Hc. unfold AuthorizeConnection in Hc. destruct ctx_Err; [done|]. rewrite reject_if_then in Hc.
  destruct Hc as [Hk Hc]. bool_simp. destruct (publicKey_Validate _) as [[]|] eqn:Ev; [|done].
  apply res_bind_ok in Hc as (acc & Ha & Hc). apply res_bind_ok in Hc as (_ & _ & Hc).
  apply res_bind_ok in Hc as ([source constraints] & Hm & Hc). cbn [ma_source ma_constraints] in Hc.
  destruct (account_policy request acc source) eqn:Ep; [done|].
  apply res_bind_ok in Hc as (d & Hd & Hc). apply res_bind_ok in Hc as (d' & Hd' & Hc).
  apply res_bind_ok in Hc as (p & Hp & Hc). apply res_bind_ok in Hc as ([] & Hv & Hc).
  injection Hc as <-. apply wrap_err_ok in Ha, Hd, Hd', Hp, Hv. simpl.
  destruct (match_loop_sound _ _ _ _ _ _ Hm) as (_ & Hlist).
  destruct (constrained_permissions _ _ _ _ Hd' Hp) as (?&?&?&?&?).
  split_and!; try done. exists d. split_and!; try done. eauto.
Qed.

End connections.

(** ** Launches *)

Lemma environment_loop_spec requested allowed names env env' :
  environment_loop requested allowed names env = Ok env' →
  (∀ n, n ∈ names → n ∈ allowed ∧ validateEnvironmentName n = Ok tt ∧
     contains NUL (default ""%string (requested !! n)) = false ∧ slen (default ""%string (requested !! n)) <= 16384) ∧
  (∀ n, n ∈ names → env' !! n = Some (default ""%string (requested !! n))) ∧
  (∀ n, n ∉ names → env' !! n = env !! n).
Proof.
  revert env. induction names as [|x names IH]; intros env He; simpl in He.
  { injection He as <-. split_and!; [intros n Hn; by apply elem_of_nil in Hn..|done]. }
  apply res_bind_ok in He as ([] & Hv & He). rewrite !reject_if_then in He. destruct He as (Ha & Hn & Hl & He).
  bool_simp. destruct (IH _ He) as (Hok & Hin & Hout). split_and!.
  - intros n Hx. apply elem_of_cons in Hx as [->|Hx]; [done|by apply Hok].
  - intros n Hx. destruct (decide (n ∈ names)) as [Hx'|Hx']; [by apply Hin|].
    apply elem_of_cons in Hx as [->|Hx]; [|done]. rewrite (Hout _ Hx'). by rewrite lookup_insert_eq.
  - intros n Hx. rewrite not_elem_of_cons in Hx. destruct Hx. rewrite Hout by done. by rewrite lookup_insert_ne.
Qed.

Lemma authorizeEnvironment_spec requested allowed order env :
  map_order requested order → authorizeEnvironment requested allowed order = Ok env →
  env = requested ∧ ∀ n v, requested !! n = Some v →
    n ∈ allowed ∧ validateEnvironmentName n = Ok tt ∧ contains NUL v = false ∧ slen v <= 16384.
Proof.
  intros Ho He. unfold authorizeEnvironment in He. rewrite reject_if_then in He. destruct He as [_ He].
  destruct (environment_loop_spec _ _ _ _ _ He) as (Hok & Hin & Hout).
  assert (Hn : ∀ n, n ∈ sort_strings order ↔ is_Some (requested !! n)).
  { intros n. rewrite sort_strings_perm. by apply map_order_elem. }
  split.
  - apply map_eq. intros n. destruct (requested !! n) as [v|] eqn:E.
    + rewrite Hin by (apply Hn; by rewrite E). by rewrite E.
    + rewrite Hout, lookup_empty; [done|]. rewrite Hn, E. by intros [? ?].
  - intros n v E. destruct (Hok n) as (Ha & ?); [apply Hn; by rewrite E|]. rewrite E in *.
    rewrite elem_of_list_to_set in Ha. done.
Qed.

Section launches.
Context `{AuthzEnv}.

(** What an authorized launch is confined to. *)
Record confined (c : ConnectionCredentials) (request : LaunchRequest) (spec : AuthorizedLaunchSpec) : Prop := {
  cf_kind : lr_Kind request = LaunchShell ∧ allowShell (permissions c) = true ∨
            lr_Kind request = LaunchExec ∧ allowExec (permissions c) = true;
  cf_forced : forcedCommand (permissions c) ≠ ""%string →
              ls_kind spec = LaunchExec ∧ ls_command spec = forcedCommand (permissions c);
  cf_free : forcedCommand (permissions c) = ""%string →
            ls_kind spec = lr_Kind request ∧ ls_command spec = TrimSpace (lr_Command request) ∧
            contains NUL (ls_command spec) = false ∧ slen (ls_command spec) <= max_command;
  cf_pty : ls_pty spec = lr_PTY request ∧ (is_Some (ls_pty spec) → allowPTY (permissions c) = true);
  cf_environment : ls_environment spec = lr_Environment request ∧
    ∀ n v, ls_environment spec !! n = Some v →
      n ∈ allowedEnvironment (permissions c) ∧ validateEnvironmentName n = Ok tt ∧ contains NUL v = false;
  cf_account : ls_account spec = account c ∧ ls_executable spec = a_LoginShell (account c) ∧
    ls_workingDirectory spec = a_HomeDir (account c) ∧
    IsAbs (ls_executable spec) = true ∧ IsAbs (ls_workingDirectory spec) = true;
}.

Lemma launch_confined_raw c channel request order spec :
  map_order (lr_Environment request) order → AuthorizeLaunch c channel request order = Ok spec →
  credentials_validate c = Ok tt ∧ is_Some (identityToken c) ∧ credentialIdentity channel = identityToken c ∧
  channelType channel = CommandChannelType ∧ confined c request spec.
Proof.
  intros Ho Hs. unfold AuthorizeLaunch in Hs. destruct ctx_Err; [done|].
  apply res_bind_ok in Hs as ([] & Hv & Hs). apply wrap_err_ok in Hv.
  rewrite reject_if_then in Hs. destruct Hs as [Htok Hs]. bool_simp.
  apply res_bind_ok in Hs as ([] & Hkind & Hs). apply res_bind_ok in Hs as ([] & Hpty & Hs).
  apply res_bind_ok in Hs as (env & Henv & Hs). rewrite !reject_if_then in Hs.
  destruct Hs as (Hhome & Hshell & Hnul & Hlen & Hs). bool_simp. injection Hs as <-.
  destruct (authorizeEnvironment_spec _ _ _ _ Ho Henv) as [-> Hall].
  split_and!; try done; [congruence|]. constructor; simpl.
  - unfold check_kind in Hkind. repeat case_bool_decide; try done; rewrite reject_if_then in Hkind;
      destruct Hkind; bool_simp; tauto.
  - intros Hf. by rewrite bool_decide_false.
  - intros Hf. rewrite bool_decide_true by done. done.
  - split; [done|]. intros [r Hr]. rewrite Hr in Hpty. simpl in Hpty. rewrite reject_if_then in Hpty.
    destruct Hpty; by bool_simp.
  - split; [done|]. intros n v Hv'. destruct (Hall n v Hv') as (?&?&?&?). done.
  - done.
Qed.
End launches.

(** An authorized launch never exceeds the credentials: it uses a grant with
    their identity token, its kind is permitted, a forced command replaces
    whatever was requested, it has a PTY only if that is permitted, its environment is
    the requested one and every variable of it is allowed, and it runs the
    account's absolute login shell in its absolute home directory.  The order in
    which the runtime ranges over the requested environment does not matter. *)
Theorem launch_confined `{AuthzEnv} (c : ConnectionCredentials) (channel : AuthorizedChannel)
  (request : LaunchRequest) (order : list string) (spec : AuthorizedLaunchSpec)
  (Ho : map_order (lr_Environment request) order)
  (Hs : AuthorizeLaunch c channel request order = Ok spec) :
  credentials_validate c = Ok tt ∧ is_Some (identityToken c) ∧ credentialIdentity channel = identityToken c ∧
  confined c request spec ∧
  ∀ order', map_order (lr_Environment request) order' → AuthorizeLaunch c channel request order' = Ok spec.
Proof.
  destruct (launch_confined_raw _ _ _ _ _ Ho Hs) as (?&?&?&?&?). split_and!; try done.
  intros order' Ho'. rewrite <-Hs. unfold AuthorizeLaunch, authorizeEnvironment.
  by rewrite (sorted_keys _ _ _ Ho' Ho).
Qed.

(** The options of an authorized key cannot be escaped: whatever the client
    requests on whatever channel, a key with [command="..."] only ever runs that
    command, and a key with [no-pty] or [restrict] never gets a terminal; and
    nothing is launched unless the permission policy allows commands. *)
Theorem key_options_inescapable `{TrustLib} `{AuthzEnv} (request : ConnectionRequest) (token : Z)
  (c : ConnectionCredentials) (channel : AuthorizedChannel) (launch : LaunchRequest) (order : list string)
  (spec : AuthorizedLaunchSpec)
  (Hc : AuthorizeConnection request token = Ok c) (Ho : map_order (lr_Environment launch) order)
  (Hs : AuthorizeLaunch c channel launch order = Ok spec) :
  let k := matchedKeyConstraints c in
  (mk_forcedCommand k ≠ ""%string →
     ls_kind spec = LaunchExec ∧ ls_command spec = TrimSpace (mk_forcedCommand k) ∧ ls_command spec ≠ ""%string) ∧
  (mk_noPTY k = true → ls_pty spec = None) ∧
  ∃ d, permission_policy request (account c) (matchedSource c) = Ok d ∧ pd_AllowCommand d = true ∧
    (pd_AllowShell d || pd_AllowExec d = true).
Proof.
  destruct (connection_inv _ _ _ Hc) as (_&_&_&_&_&_&_&Hlist&_&d&Hd&Ec&Es&Ee&Ep&Ef&d'&Hp). simpl in Hlist.
  destruct (launch_confined_raw _ _ _ _ _ Ho Hs) as (_&_&_&_&[Hkind Hforced _ [_ Hpty] _ _]).
  destruct Hlist as (pre & path & post & _ & (contents & entries & entry & kc & _ & _ & _ & _ & _ & Hkc & Ek) & _).
  simpl in Ek. simpl. rewrite Ek in Ep, Ef |- *. simpl in *. split_and!.
  - intros Hne. rewrite bool_decide_false in Ef by done.
    destruct (constraints_loop_spec _ _ _ _ Hkc) as (_&_&_&_&Hcmd).
    destruct Hcmd as [[E _]|(_ & _ & _ & _ & Htrim & _)]; [done|].
    rewrite <-Ef in Htrim. destruct (Hforced Htrim) as [-> ->]. by rewrite <-Ef.
  - intros Hno. destruct (ls_pty spec) eqn:E; [|done]. rewrite Hpty in Ep by done.
    rewrite Hno, andb_false_r in Ep. done.
  - exists d. split; [done|]. destruct (newPermissions_closed _ _ Hp) as (Hcmd & _ & _).
    rewrite <-Ec, <-Es, <-Ee.
    assert (Hor : allowShell (permissions c) || allowExec (permissions c) = true)
      by (destruct Hkind as [[_ ->]|[_ ->]]; [done|by rewrite orb_true_r]).
    split; [|done]. apply Hcmd. by rewrite Hor.
Qed.

(** The permissions [newConnectionPermissions] builds are a normal form:
    validating them again gives the same value, so the check that every later
    step repeats never fails for them; the environment names are distinct,
    trimmed and valid; and no sub-permission comes without the permission it
    needs. *)
Theorem permissions_normal_form (d : PermissionDecision) (p : ConnectionPermissions)
  (Hp : newConnectionPermissions d = Ok p) :
  newConnectionPermissions (decision_of p) = Ok p ∧ permissions_validate p = Ok tt ∧
  NoDup (allowedEnvironment p) ∧ (∀ n, n ∈ allowedEnvironment p → normal_name n) ∧
  (allowShell p || allowExec p || allowPTY p = true → allowCommand p = true) ∧
  (forcedCommand p ≠ ""%string ∨ allowPTY p = true → allowShell p || allowExec p = true).
Proof.
  pose proof (permissions_normal _ _ Hp) as Hn. unfold permissions_validate. rewrite Hn.
  destruct (newPermissions_inv _ _ Hp) as (_&_&_&_&_&_&_& l & Hl & ->).
  destruct (collect_spec _ _ _ Hl) as (Hnd & Hnorm & _).
  destruct (newPermissions_closed _ _ Hp) as (Hc & Hf & Hy).
  split_and!; try done.
  - by rewrite sort_strings_perm.
  - intros n Hin. apply Hnorm. by rewrite <-(sort_strings_perm l).
  - intros Hs. apply Hc. by rewrite Hs.
  - by intros [?|?]; auto.
Qed.

(** A channel grant is bound to credentials by the address of their identity
    token alone: a launch with a grant of other credentials is refused when the
    addresses differ, and goes through exactly as with an own grant when they are
    the same.  [credentialIdentity] is a zero-size type, for which Go gives
    distinct variables no distinct addresses (the runtime returns one address
    for all of them), so the check tells no two connections apart. *)
Theorem grant_bound_by_address `{AuthzEnv} (c1 c2 : ConnectionCredentials) (typ : string)
  (ch1 ch2 : AuthorizedChannel) (request : LaunchRequest) (order : list string)
  (H1 : AuthorizeChannel c1 typ = Ok ch1) (H2 : AuthorizeChannel c2 typ = Ok ch2) :
  (identityToken c1 ≠ identityToken c2 → is_ok (AuthorizeLaunch c2 ch1 request order) = false) ∧
  (identityToken c1 = identityToken c2 →
   AuthorizeLaunch c2 ch1 request order = AuthorizeLaunch c2 ch2 request order).
Proof.
  unfold AuthorizeChannel in H1, H2. unfold AuthorizeLaunch. destruct ctx_Err; [done|].
  res_inv. subst. simpl. split; [|by intros ->].
  intros Hne. destruct (credentials_validate c2) as [[]|]; [|done]. simpl.
  destruct (bool_decide (identityToken c1 = identityToken c2)) eqn:E; [by bool_simp|].
  by rewrite orb_true_r.
Qed.

(** ** A concrete server *)

Definition toy_account : Account :=
  MkAccount "alice" "Alice" 1000 (MkGroup 1000 "alice") [] "/home/alice" "/bin/sh".

Definition toy_env : AuthzEnv := {|
  resolve_account _ := Ok toy_account;
  authorizedKeysPaths := ["/etc/missing"; "~/.ssh/authorized_keys"]%string;
  AuthorizeAccount := None;
  ResolvePermissions := Some (λ _ _ _, Ok (MkDecision true true true true "" ["LANG"; " TERM "]%string));
  securefiles_Read _ anchor _ :=
    if bool_decide (anchor = "/etc"%string) then Err os_ErrNotExist else Ok [x03];
  os_Getwd := Ok "/"%string;
  ctx_Err := None;
|}.

Definition toy_request : ConnectionRequest :=
  MkRequest (MkVerified "host" "alice" (MkPublicKey AlgorithmEd25519 (replicate 32 x07) []) (keypair_PublicKey toy_pair)) "192.0.2.1".

Definition toy_credentials : ConnectionCredentials :=
  MkCredentials "public-key" "SHA256:toy" "alice" "192.0.2.1"
    (MkPublicKey AlgorithmEd25519 (replicate 32 x07) []) toy_account "/home/alice/.ssh/authorized_keys"
    (MkMatched "date" true true) (MkPermissions true true true false "date" ["LANG"; "TERM"]%string) (Some 5).

Example toy_connection :
  @AuthorizeConnection toy_keys toy_trust toy_env toy_request 5 = Ok toy_credentials.
Proof. vm_compute. reflexivity. Qed.

Definition toy_launch : LaunchRequest := MkLaunch LaunchExec "rm -rf /" None {[ "TERM"%string := "xterm"%string ]}.

Definition toy_spec : AuthorizedLaunchSpec :=
  MkSpec LaunchExec "date" "/bin/sh" "/home/alice" None {[ "TERM"%string := "xterm"%string ]} toy_account.

Definition toy_channel : AuthorizedChannel := MkAuthorizedChannel "command" (Some 5).


Lemma launch_confined_witness :
  @confined toy_credentials toy_launch toy_spec.
Proof.
  apply (@launch_confined toy_env toy_credentials toy_channel toy_launch ["TERM"%string] toy_spec).
  - vm_compute. reflexivity.
  - vm_compute. reflexivity.
Defined.

Lemma key_options_inescapable_witness : ls_command toy_spec = TrimSpace "date".
Proof.
  apply (@key_options_inescapable toy_keys toy_trust toy_env toy_request 5 toy_credentials toy_channel toy_launch
    ["TERM"%string] toy_spec).
  - vm_compute. reflexivity.
  - vm_compute. reflexivity.
  - vm_compute. reflexivity.
  - discriminate.
Defined.

Lemma permissions_normal_form_witness :
  permissions_validate (MkPermissions true true true false "date" ["LANG"; "TERM"]%string) = Ok tt.
Proof.
  apply (permissions_normal_form (MkDecision true true true false " date" ["TERM "; "LANG"; "TERM"]%string)).
  vm_compute. reflexivity.
Defined.

(** Credentials of another connection whose token has the same address. *)
Definition other_credentials : ConnectionCredentials :=
  MkCredentials "public-key" "SHA256:toy" "bob" "192.0.2.9"
    (MkPublicKey AlgorithmEd25519 (replicate 32 x09) []) toy_account "/home/bob/.ssh/authorized_keys"
    (MkMatched "" false false) (MkPermissions true true true true "" []) (Some 5).

Lemma grant_bound_by_address_witness :
  @AuthorizeLaunch toy_env toy_credentials toy_channel toy_launch ["TERM"%string]
  = @AuthorizeLaunch toy_env toy_credentials toy_channel toy_launch ["TERM"%string].
Proof.
  apply (@grant_bound_by_address toy_env other_credentials toy_credentials "command");
    vm_compute; reflexivity.
Defined.
