(* ===== verification/GoNet.v ===== *)
(** * Addresses and numbers, as the Go standard library treats them

    [net.SplitHostPort] and [net.JoinHostPort], [strings.Cut] and the functions of
    [strconv] that the configuration, the accounts and the client call. *)

From Stdlib Require Import Strings.Ascii.
From S2P Require Import Prelude GoStrings Trust.

(** ** Addresses *)

Definition colon : ascii := ascii_of 58.
Definition lbracket : ascii := ascii_of 91.
Definition rbracket : ascii := ascii_of 93.
Definition at_sign : ascii := ascii_of 64.

(** Before and after the first, or the last, occurrence of a byte. *)
Fixpoint cut (c : ascii) (s : string) : option (string * string) :=
  match s with
  | EmptyString => None
  | String a r =>
      if bool_decide (a = c) then Some (EmptyString, r)
      else (λ '(x, y), (String a x, y)) <$> cut c r
  end.

Fixpoint cut_last (c : ascii) (s : string) : option (string * string) :=
  match s with
  | EmptyString => None
  | String a r =>
      match cut_last c r with
      | Some (x, y) => Some (String a x, y)
      | None => if bool_decide (a = c) then Some (EmptyString, r) else None
      end
  end.

Definition addrErr (why : string) : error := NewError why.

Definition starts_with (c : ascii) (s : string) : bool :=
  match s with String a _ => bool_decide (a = c) | EmptyString => false end.

(** What follows the first byte. *)
Definition tail (s : string) : string := match s with String _ r => r | EmptyString => EmptyString end.

(** [net.SplitHostPort].  In the bracketed case the first ']' ends the host, and
    what follows it must be the last colon and the port. *)
Definition SplitHostPort (hostport : string) : res (string * string) :=
  match cut_last colon hostport with
  | None => Err (addrErr "missing port in address")
  | Some (before, port) =>
      if starts_with lbracket hostport then
        match cut rbracket hostport with
        | None => Err (addrErr "missing ']' in address")
        | Some (bracketed, rest) =>
            if negb (bool_decide (rest = String colon port)) then
              Err (addrErr (if starts_with colon rest then "too many colons in address" else "missing port in address"))
            else
              reject_if (contains lbracket (tail hostport)) (addrErr "unexpected '[' in address") ≫= λ _,
              reject_if (contains rbracket rest) (addrErr "unexpected ']' in address") ≫= λ _,
              mret (tail bracketed, port)
        end
      else
        reject_if (contains colon before) (addrErr "too many colons in address") ≫= λ _,
        reject_if (contains lbracket hostport) (addrErr "unexpected '[' in address") ≫= λ _,
        reject_if (contains rbracket hostport) (addrErr "unexpected ']' in address") ≫= λ _,
        mret (before, port)
  end.

Definition JoinHostPort (host port : string) : string :=
  if contains colon host then ("[" +:+ host +:+ "]:" +:+ port)%string else (host +:+ ":" +:+ port)%string.

(** ** Numbers *)

Definition digit (a : ascii) : option Z :=
  let d := code a - 48 in if (0 <=? d) && (d <=? 9) then Some d else None.

Fixpoint digits (s : string) (acc : Z) : option Z :=
  match s with
  | EmptyString => Some acc
  | String a r => d ← digit a; digits r (acc * 10 + d)
  end.

(** [strconv.Atoi] with 64-bit integers. *)
Definition Atoi (s : string) : res Z :=
  let '(negative, body) :=
    match s with
    | String a r => if bool_decide (a = ascii_of 45) then (true, r) else if bool_decide (a = ascii_of 43) then (false, r) else (false, s)
    | EmptyString => (false, s)
    end in
  match body with
  | EmptyString => Err (NewError "invalid syntax")
  | _ =>
      match digits body 0 with
      | None => Err (NewError "invalid syntax")
      | Some n =>
          let z := if negative : bool then - n else n in
          if (z <? - 2 ^ 63) || (2 ^ 63 - 1 <? z) then Err (NewError "value out of range") else Ok z
      end
  end.

(** [strconv.FormatUint] in base 10: the digits from the last one. *)
Fixpoint format_digits (fuel : nat) (n : Z) (acc : string) : string :=
  match fuel with
  | O => acc
  | S fuel =>
      let acc := String (ascii_of (48 + n mod 10)) acc in
      if n / 10 =? 0 then acc else format_digits fuel (n / 10) acc
  end.

(** Twenty digits are enough for 64 bits. *)
Definition FormatUint (n : Z) : string := format_digits 20 n EmptyString.

(** [%d]. *)
Definition Sprint_d (n : Z) : string := if n <? 0 then String (ascii_of 45) (FormatUint (- n)) else FormatUint n.

(** [strconv.ParseUint] in base 10. *)
Definition ParseUint (s : string) (bits : Z) : res Z :=
  match s with
  | EmptyString => Err (NewError "invalid syntax")
  | _ =>
      match digits s 0 with
      | None => Err (NewError "invalid syntax")
      | Some n => if 2 ^ bits - 1 <? n then Err (NewError "value out of range") else Ok n
      end
  end.

(** ** Addresses: facts *)

Lemma append_assoc x y z : (x +:+ y) +:+ z = x +:+ (y +:+ z).
Proof. induction x as [|a x IH]; [done|]. exact (f_equal (String a) IH). Qed.

Lemma contains_app c x y : contains c (x +:+ y) = contains c x || contains c y.
Proof. induction x as [|a x IH]; [done|]. simpl. rewrite IH. by rewrite orb_assoc. Qed.

Lemma cut_app c x y : contains c x = false → cut c (x +:+ String c y) = Some (x, y).
Proof.
  induction x as [|a x IH]; simpl; [by rewrite bool_decide_true|]. intros [Ha Hx]%orb_false_iff. rewrite Ha. by rewrite (IH Hx).
Qed.

Lemma cut_spec c s x y : cut c s = Some (x, y) → s = x +:+ String c y ∧ contains c x = false.
Proof.
  revert x. induction s as [|a s IH]; intros x; simpl; [done|]. case_bool_decide as E.
  - intros [= <- <-]. by rewrite E.
  - destruct (cut c s) as [[x' y']|]; [|done]. intros [= <- ->]. destruct (IH x' eq_refl) as [-> Hc]. split; [done|]. simpl.
    by rewrite bool_decide_false.
Qed.

Lemma cut_last_none c s : contains c s = false → cut_last c s = None.
Proof.
  induction s as [|a s IH]; [done|]. simpl. intros [Ha Hs]%orb_false_iff. rewrite (IH Hs). by rewrite Ha.
Qed.

Lemma cut_last_app c x y : contains c y = false → cut_last c (x +:+ String c y) = Some (x, y).
Proof.
  intros Hy. induction x as [|a x IH]; simpl; [by rewrite cut_last_none, bool_decide_true|]. change (String.append x (String c y)) with (x +:+ String c y).
  by rewrite IH.
Qed.

Lemma cut_last_spec c s x y : cut_last c s = Some (x, y) → s = x +:+ String c y ∧ contains c y = false.
Proof.
  revert x y. induction s as [|a s IH]; intros x y; simpl; [done|]. destruct (cut_last c s) as [[x' y']|] eqn:E.
  - intros [= <- <-]. destruct (IH x' y' eq_refl) as [-> Hc]. done.
  - case_bool_decide as Ea; [|done]. intros [= <- <-]. rewrite Ea. split; [done|].
    clear -E. induction s as [|b s IHs]; [done|]. simpl in *. destruct (cut_last c s) as [[? ?]|]; [done|].
    case_bool_decide; [done|]. by apply IHs.
Qed.

(** The parts of an address that [net.JoinHostPort] can represent. *)
Definition plain_host (host : string) : Prop := contains lbracket host = false ∧ contains rbracket host = false.
Definition plain_port (port : string) : Prop := contains colon port = false ∧ contains lbracket port = false ∧ contains rbracket port = false.

Lemma split_join_raw host port : plain_host host → plain_port port → SplitHostPort (JoinHostPort host port) = Ok (host, port).
Proof.
  intros [Hl Hr] (Pc & Pl & Pr). unfold JoinHostPort. destruct (contains colon host) eqn:Ec.
  - change ("[" +:+ host +:+ "]:" +:+ port) with (String lbracket (host +:+ String rbracket (String colon port))).
    unfold SplitHostPort.
    replace (cut_last colon _) with (Some (String lbracket (host +:+ String rbracket EmptyString), port)).
    2:{ symmetry. replace (String lbracket (host +:+ String rbracket (String colon port)))
          with (String lbracket (host +:+ String rbracket EmptyString) +:+ String colon port); [by apply cut_last_app|].
        change (String lbracket ((host +:+ String rbracket EmptyString) +:+ String colon port) =
          String lbracket (host +:+ String rbracket (String colon port))). by rewrite append_assoc. }
    change (starts_with lbracket (String lbracket _)) with true. cbv iota.
    replace (cut rbracket _) with (Some (String lbracket host, String colon port)).
    2:{ symmetry. apply (cut_app rbracket (String lbracket host) (String colon port)). simpl. exact Hr. }
    rewrite bool_decide_true by done. cbn [negb tail]. rewrite contains_app, Hl. cbn [contains]. rewrite Pl, Pr. reflexivity.
  - change (host +:+ ":" +:+ port) with (host +:+ String colon port). unfold SplitHostPort. rewrite (cut_last_app colon host port Pc).
    assert (Hs : starts_with lbracket (host +:+ String colon port) = false).
    { destruct host as [|a host]; [done|]. simpl in Hl |- *. by apply orb_false_iff in Hl as [? _]. }
    rewrite Hs, Ec, !contains_app, Hl, Hr. cbn [contains]. rewrite Pl, Pr. reflexivity.
Qed.

Lemma split_parts s host port : SplitHostPort s = Ok (host, port) →
  (s = host +:+ String colon port ∧ contains colon host = false ∨ s = String lbracket (host +:+ String rbracket (String colon port))) ∧
  plain_host host ∧ plain_port port.
Proof.
  unfold SplitHostPort. destruct (cut_last colon s) as [[before p]|] eqn:El; [|done]. apply cut_last_spec in El as [Es Hp].
  destruct (starts_with lbracket s) eqn:Est.
  - destruct (cut rbracket s) as [[bracketed rest]|] eqn:Ec; [|done]. apply cut_spec in Ec as [Es' Hb]. case_bool_decide as Er; [|done]. cbn [negb].
    rewrite !reject_if_then. intros (Hl & Hr & [= <- <-]). subst rest. destruct bracketed as [|a b].
    { rewrite Es' in Est. done. }
    rewrite Es' in Est, Hl |- *. simpl in Est. apply bool_decide_eq_true in Est as ->. cbn [tail] in *. simpl in Hb.
    change (contains lbracket (b +:+ String rbracket (String colon p)) = false) in Hl.
    rewrite contains_app in Hl. cbn [contains] in Hl, Hr. apply orb_false_iff in Hl as [Hl1 Hl2]. apply orb_false_iff in Hl2 as [_ Hl2].
    apply orb_false_iff in Hl2 as [_ Hl2]. apply orb_false_iff in Hr as [_ Hr]. split; [by right|]. done.
  - rewrite !reject_if_then. intros (Hc & Hl & Hr & [= <- <-]). rewrite Es, contains_app in Hl, Hr. cbn [contains] in Hl, Hr.
    apply orb_false_iff in Hl as [Hl1 [_ Hl2]%orb_false_iff]. apply orb_false_iff in Hr as [Hr1 [_ Hr2]%orb_false_iff].
    split; [by left|]. done.
Qed.

(** Addresses survive: a host without brackets and a port without colons and
    brackets are split from the address they are joined to; and whatever address
    is split, it is the plain or the bracketed form of its parts, and joining the
    parts and splitting again gives the same parts. *)
Theorem host_port_roundtrip :
  (∀ host port, plain_host host → plain_port port → SplitHostPort (JoinHostPort host port) = Ok (host, port)) ∧
  (∀ s host port, SplitHostPort s = Ok (host, port) →
     (s = host +:+ String colon port ∨ s = String lbracket (host +:+ String rbracket (String colon port))) ∧
     SplitHostPort (JoinHostPort host port) = Ok (host, port)).
Proof.
  split; [apply split_join_raw|]. intros s host port Hs. apply split_parts in Hs as (Hf & Hh & Hp).
  split; [tauto|by apply split_join_raw].
Qed.

(** ** Numbers: facts *)

Lemma digit_of d : 0 <= d < 10 → digit (ascii_of (48 + d)) = Some d.
Proof.
  intros Hd. assert (Hall : forallb (λ d, bool_decide (digit (ascii_of (48 + d)) = Some d)) (seqZ 0 10) = true) by (vm_compute; reflexivity).
  rewrite forallb_forall in Hall. assert (Hin : List.In d (seqZ 0 10)) by (apply list_elem_of_In, elem_of_seqZ; lia).
  apply Hall in Hin. by apply bool_decide_eq_true in Hin.
Qed.

Lemma digits_format fuel n acc : 0 <= n < 10 ^ Z.of_nat fuel → digits (format_digits fuel n acc) 0 = digits acc n.
Proof.
  revert n acc. induction fuel as [|fuel IH]; intros n acc Hn.
  { assert (n = 0) as -> by (simpl in Hn; lia). done. }
  pose proof (Z.mod_pos_bound n 10 ltac:(lia)) as Hm. pose proof (Z.div_mod n 10 ltac:(lia)) as Hd.
  rewrite Nat2Z.inj_succ, Z.pow_succ_r in Hn by lia. cbn [format_digits].
  assert (Hstep : ∀ a, digits (String (ascii_of (48 + n mod 10)) acc) a = digits acc (a * 10 + n mod 10))
    by (intros a; cbn [digits]; by rewrite digit_of).
  destruct (Z.eqb_spec (n / 10) 0) as [E|E].
  - rewrite Hstep. f_equal. lia.
  - rewrite IH; [|split; [apply Z.div_pos; lia|apply Z.div_lt_upper_bound; lia]]. rewrite Hstep. f_equal. lia.
Qed.

Lemma format_nonempty fuel n acc : (0 < fuel)%nat → format_digits fuel n acc ≠ EmptyString.
Proof.
  intros Hf. assert (H : ∀ fuel n acc, acc ≠ EmptyString → format_digits fuel n acc ≠ EmptyString).
  { clear. intros fuel. induction fuel as [|fuel IH]; intros n acc Ha; cbn [format_digits]; [done|]. case_match; [done|by apply IH]. }
  destruct fuel as [|fuel]; [lia|]. cbn [format_digits]. case_match; [done|by apply H].
Qed.

Lemma digits_FormatUint n : 0 <= n < 10 ^ 20 → digits (FormatUint n) 0 = Some n.
Proof. intros Hn. unfold FormatUint. by rewrite digits_format. Qed.

(** Numbers survive printing and parsing. *)
Lemma ParseUint_FormatUint n bits : 0 <= n < 2 ^ bits → bits <= 64 → ParseUint (FormatUint n) bits = Ok n.
Proof.
  intros Hn Hb. assert (Hlt : n < 10 ^ 20).
  { assert (2 ^ bits <= 2 ^ 64) by (apply Z.pow_le_mono_r; lia). assert (2 ^ 64 < 10 ^ 20) by (vm_compute; reflexivity). lia. }
  unfold ParseUint. pose proof (format_nonempty 20 n EmptyString ltac:(lia)) as Hne. rewrite digits_FormatUint by lia.
  destruct (FormatUint n) eqn:E; [unfold FormatUint in E; done|]. destruct (Z.ltb_spec (2 ^ bits - 1) n); [lia|done].
Qed.

(** The digits of a number. *)
Definition is_digit (a : ascii) : bool := (48 <=? code a) && (code a <=? 57).

Fixpoint all_digits (s : string) : bool :=
  match s with EmptyString => true | String a r => is_digit a && all_digits r end.

Lemma is_digit_of d : 0 <= d < 10 → is_digit (ascii_of (48 + d)) = true.
Proof.
  intros Hd. assert (Hall : forallb (λ d, is_digit (ascii_of (48 + d))) (seqZ 0 10) = true) by (vm_compute; reflexivity).
  rewrite forallb_forall in Hall. apply Hall, list_elem_of_In, elem_of_seqZ. lia.
Qed.

Lemma all_digits_format fuel n acc : all_digits acc = true → all_digits (format_digits fuel n acc) = true.
Proof.
  revert n acc. induction fuel as [|fuel IH]; intros n acc Ha; cbn [format_digits]; [done|].
  assert (Hd : all_digits (String (ascii_of (48 + n mod 10)) acc) = true).
  { cbn [all_digits]. rewrite is_digit_of; [done|]. apply Z.mod_pos_bound. lia. }
  case_match; [done|by apply IH].
Qed.

Lemma all_digits_contains c s : all_digits s = true → is_digit c = false → contains c s = false.
Proof.
  intros Hs Hc. induction s as [|a s IH]; [done|]. cbn [all_digits] in Hs. apply andb_true_iff in Hs as [Ha Hs]. cbn [contains].
  rewrite (IH Hs), orb_false_r. apply bool_decide_eq_false. intros ->. congruence.
Qed.

Lemma FormatUint_plain n : plain_port (FormatUint n).
Proof. split_and!; (apply all_digits_contains; [by apply all_digits_format|vm_compute; reflexivity]). Qed.

Example split_ipv6 : SplitHostPort "[fe80::1]:22" = Ok ("fe80::1", "22")%string.
Proof. vm_compute. reflexivity. Qed.

Example split_bad : is_ok (SplitHostPort "fe80::1:22") = false ∧ is_ok (SplitHostPort "[::1]") = false.
Proof. vm_compute. done. Qed.

Example atoi_values : (Atoi "-007", is_ok (Atoi "9223372036854775808"), is_ok (Atoi "4 2")) = (Ok (-7), false, false).
Proof. vm_compute. reflexivity. Qed.
