(* ===== verification/AppConfig.v ===== *)
(** * Configuration (app/config, app/logging, app/server/server.go)

    The configuration files of the server and the client after they were decoded:
    their normalization and validation, and what [RunServer] makes of the
    permissions.  Reading and decoding a file with the viper package is an
    argument. *)

From Stdlib Require Import Strings.Ascii.
From S2P Require Import Prelude GoStrings GoNet Bincoder Keys Trust Wire Auth Authz.

(** ** app/logging/logger.go *)

Record LoggingConfig := MkLoggingConfig { lg_Level : string; lg_JSON : bool; lg_File : string }.

(** [strings.ToUpper]: the letters of ASCII and the two other runes whose upper
    case is in ASCII (dotless i and long s).  Other runes stay outside of ASCII, so
    no level that is accepted contains them. *)
Fixpoint ToUpper (s : string) : string :=
  match s with
  | EmptyString => EmptyString
  | String a r =>
      match r with
      | String b r' =>
          if (code a =? 196) && (code b =? 177) then String (ascii_of 73) (ToUpper r')
          else if (code a =? 197) && (code b =? 191) then String (ascii_of 83) (ToUpper r')
          else String (if (97 <=? code a) && (code a <=? 122) then ascii_of (code a - 32) else a) (ToUpper r)
      | EmptyString => String (if (97 <=? code a) && (code a <=? 122) then ascii_of (code a - 32) else a) EmptyString
      end
  end.

Definition levels : list string := [""; "NONE"; "DEBUG"; "INFO"; "WARN"; "ERROR"; "FATAL"]%string.

Definition logging_Validate (c : LoggingConfig) : res unit :=
  reject_if (negb (bool_decide (ToUpper (TrimSpace (lg_Level c)) ∈ levels))) (NewError "log.level must be one of the levels").

Definition NormalizeConfig (cfg : LoggingConfig) (verbosity : Z) : res LoggingConfig :=
  let level := ToUpper (TrimSpace (lg_Level cfg)) in
  let level := if bool_decide (level = "WARNING"%string) then "WARN"%string else level in
  let level := if verbosity =? 1 then "INFO"%string else level in
  let level := if 2 <=? verbosity then "DEBUG"%string else level in
  let cfg := MkLoggingConfig level (lg_JSON cfg) (TrimSpace (lg_File cfg)) in
  logging_Validate cfg ≫= λ _, mret cfg.

Definition enabledLevel (level : string) : bool :=
  let level := ToUpper (TrimSpace level) in
  negb (bool_decide (level = ""%string)) && negb (bool_decide (level = "NONE"%string)).

(** ** app/config/server.go *)

Definition DefaultServerFile : string := "mygosh-server.toml".

Record ServerPermissions := MkServerPermissions {
  cp_AllowShell : bool; cp_AllowExec : bool; cp_AllowPTY : bool; cp_AllowedEnvironment : list string; cp_ForcedCommand : string;
}.

(** Durations are in nanoseconds. *)
Record Server := MkServer {
  cs_ConfigFile : string;
  cs_ListenAddress : string;
  cs_MaxConnections : Z;
  cs_MaxConnectionsPerIP : Z;
  cs_ShutdownTimeout : Z;
  cs_HostKey : string;
  cs_AuthorizedKeys : list string;
  cs_Permissions : option ServerPermissions;
  cs_Log : LoggingConfig;
}.

Fixpoint check_names (names : list string) (seen : gset string) : res unit :=
  match names with
  | [] => Ok tt
  | name :: rest =>
      reject_if (bool_decide (name = ""%string) || contains_any equals_nul name || (256 <? slen name))
        (NewError "authorization.permissions.allowed_environment contains invalid name") ≫= λ _,
      reject_if (bool_decide (name ∈ seen)) (NewError "authorization.permissions.allowed_environment contains duplicate") ≫= λ _,
      check_names rest ({[name]} ∪ seen)
  end.

Definition permissions_Validate (p : ServerPermissions) : res unit :=
  reject_if (cp_AllowPTY p && negb (cp_AllowShell p) && negb (cp_AllowExec p))
    (NewError "authorization.permissions.allow_pty requires shell or exec permission") ≫= λ _,
  reject_if (negb (bool_decide (cp_ForcedCommand p = ""%string)) && negb (cp_AllowShell p) && negb (cp_AllowExec p))
    (NewError "authorization.permissions.forced_command requires shell or exec permission") ≫= λ _,
  reject_if (contains NUL (cp_ForcedCommand p)) (NewError "authorization.permissions.forced_command contains NUL") ≫= λ _,
  reject_if (24576 <? slen (cp_ForcedCommand p)) (NewError "authorization.permissions.forced_command exceeds maximum size") ≫= λ _,
  reject_if (128 <? blen (cp_AllowedEnvironment p))
    (NewError "authorization.permissions.allowed_environment has too many entries") ≫= λ _,
  check_names (cp_AllowedEnvironment p) ∅.

Definition server_Validate (s : Server) : res unit :=
  wrap_err "listen.address must be a host:port address" (SplitHostPort (cs_ListenAddress s)) ≫= λ '(host, portText),
  reject_if (bool_decide (TrimSpace host = ""%string)) (NewError "listen.address host must not be empty") ≫= λ _,
  match Atoi portText with
  | Err _ => Err (NewError "listen.address port must be between 1 and 65535")
  | Ok port =>
      reject_if ((port <? 1) || (65535 <? port)) (NewError "listen.address port must be between 1 and 65535") ≫= λ _,
      reject_if (bool_decide (TrimSpace (cs_HostKey s) = ""%string)) (NewError "identity.host_key must not be empty") ≫= λ _,
      reject_if ((cs_MaxConnections s <? 1) || (4096 <? cs_MaxConnections s))
        (NewError "daemon.max_connections must be between 1 and 4096") ≫= λ _,
      reject_if ((cs_MaxConnectionsPerIP s <? 1) || (cs_MaxConnections s <? cs_MaxConnectionsPerIP s))
        (NewError "daemon.max_connections_per_ip must be between 1 and daemon.max_connections") ≫= λ _,
      reject_if ((cs_ShutdownTimeout s <=? 0) || (300000000000 <? cs_ShutdownTimeout s))
        (NewError "daemon.shutdown_timeout must be greater than zero and at most 5m") ≫= λ _,
      reject_if (bool_decide (cs_AuthorizedKeys s = [])) (NewError "authorization.authorized_keys must not be empty") ≫= λ _,
      reject_if (bool_decide (""%string ∈ cs_AuthorizedKeys s))
        (NewError "authorization.authorized_keys entries must not be empty") ≫= λ _,
      match cs_Permissions s with
      | None => Err (NewError "authorization.permissions must be configured explicitly")
      | Some p => permissions_Validate p ≫= λ _, logging_Validate (cs_Log s)
      end
  end.

Definition trim_permissions (p : ServerPermissions) : ServerPermissions :=
  MkServerPermissions (cp_AllowShell p) (cp_AllowExec p) (cp_AllowPTY p) (TrimSpace <$> cp_AllowedEnvironment p)
    (TrimSpace (cp_ForcedCommand p)).

(** app/config/client.go *)
Record Client := MkClient {
  ct_ConfigFile : string; ct_DefaultPort : Z; ct_PrivateKey : string; ct_KnownHosts : string; ct_Log : LoggingConfig;
}.

(** The viper package: [ReadInConfig] reads a TOML file on top of default values,
    [UnmarshalExact] decodes the settings into a struct. *)
Inductive setting := SString (s : string) | SInt (n : Z) | SBool (b : bool) | SStrings (l : list string).

Class Viper := {
  settings : Type;
  ReadInConfig : string → list (string * setting) → res settings;
  UnmarshalServer : settings → res Server;
  UnmarshalClient : settings → res Client;
}.

Definition defaultAuthorizedKeys : list string := ["~/.mygosh/authorized_keys"; "~/.ssh/authorized_keys"]%string.

(** app/config/common.go *)
Definition setLogDefaults (defaults : list (string * setting)) : list (string * setting) :=
  defaults ++ [("log.level", SString ""); ("log.json", SBool false); ("log.file", SString "")]%string.

Definition server_defaults : list (string * setting) :=
  setLogDefaults
    [("listen.address", SString "localhost:42022"); ("daemon.max_connections", SInt 32); ("daemon.max_connections_per_ip", SInt 4);
     ("daemon.shutdown_timeout", SString "5s"); ("identity.host_key", SString "~/.mygosh/host_ed25519");
     ("authorization.authorized_keys", SStrings defaultAuthorizedKeys)]%string.

Definition LoadServer `{Viper} (path : string) (verbosity : Z) : res Server :=
  let path := if bool_decide (TrimSpace path = ""%string) then DefaultServerFile else path in
  wrap_err "read server config file" (ReadInConfig path server_defaults) ≫= λ reader,
  wrap_err "decode server config" (UnmarshalServer reader) ≫= λ cfg,
  NormalizeConfig (cs_Log cfg) verbosity ≫= λ log,
  let cfg :=
    {| cs_ConfigFile := path; cs_ListenAddress := TrimSpace (cs_ListenAddress cfg);
       cs_MaxConnections := cs_MaxConnections cfg; cs_MaxConnectionsPerIP := cs_MaxConnectionsPerIP cfg;
       cs_ShutdownTimeout := cs_ShutdownTimeout cfg; cs_HostKey := TrimSpace (cs_HostKey cfg);
       cs_AuthorizedKeys := TrimSpace <$> cs_AuthorizedKeys cfg; cs_Permissions := trim_permissions <$> cs_Permissions cfg;
       cs_Log := log |} in
  server_Validate cfg ≫= λ _, mret cfg.

(** ** app/config/client.go *)

Definition DefaultClientFile : string := "mygosh-client.toml".

Definition client_Validate (c : Client) : res unit :=
  reject_if ((ct_DefaultPort c <? 1) || (65535 <? ct_DefaultPort c))
    (NewError "connection.default_port must be between 1 and 65535") ≫= λ _,
  reject_if (bool_decide (TrimSpace (ct_PrivateKey c) = ""%string)) (NewError "identity.private_key must not be empty") ≫= λ _,
  reject_if (bool_decide (TrimSpace (ct_KnownHosts c) = ""%string)) (NewError "trust.known_hosts must not be empty") ≫= λ _,
  logging_Validate (ct_Log c).

Definition client_defaults : list (string * setting) :=
  setLogDefaults
    [("connection.default_port", SInt 42022); ("identity.private_key", SString "~/.mygosh/id_ed25519");
     ("trust.known_hosts", SString "~/.mygosh/known_hosts")]%string.

Definition LoadClient `{Viper} (path : string) (verbosity : Z) : res Client :=
  let path := if bool_decide (TrimSpace path = ""%string) then DefaultClientFile else path in
  wrap_err "read client config file" (ReadInConfig path client_defaults) ≫= λ reader,
  wrap_err "decode client config" (UnmarshalClient reader) ≫= λ cfg,
  NormalizeConfig (ct_Log cfg) verbosity ≫= λ log,
  let cfg := MkClient path (ct_DefaultPort cfg) (TrimSpace (ct_PrivateKey cfg)) (TrimSpace (ct_KnownHosts cfg)) log in
  client_Validate cfg ≫= λ _, mret cfg.

(** ** app/server/server.go *)

(** The permission policy of [RunServer]. *)
Definition configured_decision (p : ServerPermissions) : PermissionDecision :=
  MkDecision (cp_AllowShell p || cp_AllowExec p) (cp_AllowShell p) (cp_AllowExec p) (cp_AllowPTY p) (cp_ForcedCommand p)
    (cp_AllowedEnvironment p).

(** The authorization [RunServer] creates: no account policy, the permissions of
    the file, the rest as in [env]. *)
Definition configured_env (env : AuthzEnv) (cfg : Server) (p : ServerPermissions) : AuthzEnv := {|
  resolve_account := @resolve_account env;
  authorizedKeysPaths := cs_AuthorizedKeys cfg;
  AuthorizeAccount := None;
  ResolvePermissions := Some (λ _ _ _, Ok (configured_decision p));
  securefiles_Read := @securefiles_Read env;
  os_Getwd := @os_Getwd env;
  ctx_Err := @ctx_Err env;
|}.

(** ** The server configuration *)

Lemma check_names_ok names seen : check_names names seen = Ok tt →
  NoDup names ∧ ∀ n, n ∈ names → (n ∉ seen) ∧ validateEnvironmentName n = Ok tt.
Proof.
  revert seen. induction names as [|x names IH]; intros seen Hc; cbn [check_names] in Hc; [by split; [constructor|intros n ?%elem_of_nil]|].
  rewrite !reject_if_then in Hc. destruct Hc as (Hx & Hs & Hc). destruct (IH _ Hc) as [Hnd Hn].
  apply bool_decide_eq_false in Hs. split.
  - constructor; [|done]. intros Hin. apply Hn in Hin as [Hin _]. set_solver.
  - intros n [->|Hin]%elem_of_cons.
    + split; [done|]. unfold validateEnvironmentName. apply orb_false_iff in Hx as [[H1 H2]%orb_false_iff H3]. by rewrite H1, H2, H3.
    + destruct (Hn n Hin) as [? ?]. split; [set_solver|done].
Qed.

(** The permissions of a validated configuration are accepted as they are. *)
Lemma configured_permissions_accepted p0 : let p := trim_permissions p0 in permissions_Validate p = Ok tt →
  newConnectionPermissions (configured_decision p) =
    Ok (MkPermissions (cp_AllowShell p || cp_AllowExec p) (cp_AllowShell p) (cp_AllowExec p) (cp_AllowPTY p) (cp_ForcedCommand p)
          (sort_strings (cp_AllowedEnvironment p))).
Proof.
  intros p Hv. unfold permissions_Validate in Hv. rewrite !reject_if_then in Hv. destruct Hv as (H1 & H2 & H3 & H4 & H5 & Hn).
  destruct (check_names_ok _ _ Hn) as [Hnd Hnames].
  assert (Hf : TrimSpace (cp_ForcedCommand p) = cp_ForcedCommand p) by (unfold p; simpl; apply TrimSpace_idem).
  unfold newConnectionPermissions. cbn [pd_ForcedCommand pd_AllowCommand pd_AllowShell pd_AllowExec pd_AllowPTY pd_AllowedEnvironment configured_decision].
  rewrite Hf, H3. cbn [reject_if mbind res_bind]. change max_command with 24576. rewrite H4, H5.
  rewrite (collect_normal (cp_AllowedEnvironment p) ∅ Hnd).
  2:{ intros n Hin. split; [set_solver|]. split; [|by apply Hnames].
      unfold p in Hin. simpl in Hin. apply list_elem_of_fmap in Hin as (m & -> & _). apply TrimSpace_idem. }
  destruct (bool_decide (cp_ForcedCommand p = ""%string)); destruct (cp_AllowShell p), (cp_AllowExec p), (cp_AllowPTY p); done.
Qed.

(** A configuration with limits, an address and permissions that can be served. *)
Definition servable (s : Server) : Prop :=
  (∃ host port n, SplitHostPort (cs_ListenAddress s) = Ok (host, port) ∧ TrimSpace host ≠ ""%string ∧ Atoi port = Ok n ∧ 1 <= n <= 65535) ∧
  1 <= cs_MaxConnections s <= 4096 ∧ 1 <= cs_MaxConnectionsPerIP s <= cs_MaxConnections s ∧
  0 < cs_ShutdownTimeout s <= 300000000000 ∧ TrimSpace (cs_HostKey s) ≠ ""%string ∧
  cs_AuthorizedKeys s ≠ [] ∧ (""%string ∉ cs_AuthorizedKeys s) ∧
  (∃ p, cs_Permissions s = Some p ∧ permissions_Validate p = Ok tt) ∧ logging_Validate (cs_Log s) = Ok tt.

Lemma server_Validate_spec s : server_Validate s = Ok tt ↔ servable s.
Proof.
  unfold server_Validate, servable. split.
  - intros Hv. apply res_bind_ok in Hv as ([host port] & Hs & Hv). apply wrap_err_ok in Hs.
    rewrite reject_if_then in Hv. destruct Hv as [Hh Hv]. destruct (Atoi port) as [n|] eqn:Ea; [|done].
    rewrite !reject_if_then in Hv. destruct Hv as (H1 & H2 & H3 & H4 & H5 & H6 & H7 & Hv).
    destruct (cs_Permissions s) as [p|]; [|done]. apply res_bind_ok in Hv as ([] & Hp & Hl). bool_simp.
    split_and!; try done; [exists host, port, n; split_and!; try done; lia|lia..|by exists p].
  - intros ((host & port & n & Hs & Hh & Ha & Hn) & H1 & H2 & H3 & H4 & H5 & H6 & (p & Hp & Hpv) & Hl).
    rewrite Hs. cbn [wrap_err mbind res_bind]. rewrite (bool_decide_false (TrimSpace host = _)) by done. cbn [reject_if mbind res_bind].
    rewrite Ha. replace ((n <? 1) || (65535 <? n)) with false by lia.
    rewrite (bool_decide_false (TrimSpace (cs_HostKey s) = _)) by done.
    replace ((cs_MaxConnections s <? 1) || (4096 <? cs_MaxConnections s)) with false by lia.
    replace ((cs_MaxConnectionsPerIP s <? 1) || (cs_MaxConnections s <? cs_MaxConnectionsPerIP s)) with false by lia.
    replace ((cs_ShutdownTimeout s <=? 0) || (300000000000 <? cs_ShutdownTimeout s)) with false by lia.
    rewrite (bool_decide_false (cs_AuthorizedKeys s = [])), (bool_decide_false (""%string ∈ cs_AuthorizedKeys s)), Hp by done.
    cbn [reject_if mbind res_bind]. rewrite Hpv. exact Hl.
Qed.

Lemma LoadServer_inv `{Viper} path verbosity cfg : LoadServer path verbosity = Ok cfg →
  servable cfg ∧ ∃ cfg0, cs_Permissions cfg = trim_permissions <$> cs_Permissions cfg0.
Proof.
  unfold LoadServer. intros Hl. apply res_bind_ok in Hl as (reader & _ & Hl). apply res_bind_ok in Hl as (cfg0 & _ & Hl).
  apply res_bind_ok in Hl as (log & _ & Hl).
  apply res_bind_ok in Hl as ([] & Hv & [= <-]). split; [by apply server_Validate_spec|]. exists cfg0. done.
Qed.

Section enforced.
Context `{Viper} `{TrustLib} (env : AuthzEnv).

(** The steps from the policy to the permissions of a connection. *)
Lemma connection_permissions (env' : AuthzEnv) request token c : @AuthorizeConnection _ _ env' request token = Ok c →
  ∃ d d', @permission_policy env' request (account c) (matchedSource c) = Ok d ∧
    applyMatchedKeyConstraints d (matchedKeyConstraints c) = Ok d' ∧ newConnectionPermissions d' = Ok (permissions c).
Proof.
  intros Hc. unfold AuthorizeConnection in Hc. destruct ctx_Err; [done|]. rewrite reject_if_then in Hc. destruct Hc as [_ Hc].
  apply res_bind_ok in Hc as (acc & _ & Hc). apply res_bind_ok in Hc as (_ & _ & Hc).
  apply res_bind_ok in Hc as ([source constraints] & _ & Hc). cbn [ma_source ma_constraints] in Hc.
  destruct (account_policy request acc source); [done|].
  apply res_bind_ok in Hc as (d & Hd & Hc). apply res_bind_ok in Hc as (d' & Hd' & Hc).
  apply res_bind_ok in Hc as (p & Hp & Hc). apply res_bind_ok in Hc as ([] & _ & [= <-]). apply wrap_err_ok in Hd, Hd', Hp.
  by exists d, d'.
Qed.

Lemma newConnectionPermissions_inv d perms : newConnectionPermissions d = Ok perms →
  allowShell perms = pd_AllowShell d ∧ allowExec perms = pd_AllowExec d ∧ allowPTY perms = pd_AllowPTY d ∧
  forcedCommand perms = TrimSpace (pd_ForcedCommand d) ∧
  ∀ n, n ∈ allowedEnvironment perms → n ∈ TrimSpace <$> pd_AllowedEnvironment d.
Proof.
  unfold newConnectionPermissions. rewrite !reject_if_then. intros (_ & _ & _ & _ & _ & _ & Hn).
  apply res_bind_ok in Hn as (allowed & Ha & [= <-]). split_and!; try done. simpl. intros n Hin.
  rewrite sort_strings_perm in Hin. destruct (collect_spec _ _ _ Ha) as (_ & _ & _ & Hsub). by apply Hsub.
Qed.

(** The constraints of a key only restrict. *)
Lemma constraints_restrict d k d' : applyMatchedKeyConstraints d k = Ok d' →
  pd_AllowShell d' = pd_AllowShell d ∧ pd_AllowExec d' = pd_AllowExec d ∧ (pd_AllowPTY d' = true → pd_AllowPTY d = true) ∧
  pd_AllowedEnvironment d' = pd_AllowedEnvironment d ∧ (pd_ForcedCommand d ≠ ""%string → pd_ForcedCommand d' = pd_ForcedCommand d).
Proof.
  unfold applyMatchedKeyConstraints. intros Ha. apply res_bind_ok in Ha as (_ & _ & Ha).
  set (d1 := if mk_noPTY k then _ else d) in Ha.
  assert (pd_AllowShell d1 = pd_AllowShell d ∧ pd_AllowExec d1 = pd_AllowExec d ∧ (pd_AllowPTY d1 = true → pd_AllowPTY d = true) ∧
    pd_AllowedEnvironment d1 = pd_AllowedEnvironment d ∧ pd_ForcedCommand d1 = pd_ForcedCommand d) as (E1 & E2 & E3 & E4 & E5)
    by (unfold d1; by destruct (mk_noPTY k)).
  case_bool_decide as Ek; cbn [negb] in Ha.
  - injection Ha as <-. by rewrite E5.
  - rewrite reject_if_then in Ha. destruct Ha as [Hc [= <-]]. simpl. split_and!; try done. intros Hne. rewrite E5 in Hc.
    rewrite (bool_decide_false (pd_ForcedCommand d = _)) in Hc by done. cbn [negb andb] in Hc. apply negb_false_iff, bool_decide_eq_true in Hc. done.
Qed.

Lemma config_enforced_raw path verbosity cfg p request token c channel launch order spec
  (Hload : LoadServer path verbosity = Ok cfg) (Hp : cs_Permissions cfg = Some p)
  (Hc : @AuthorizeConnection _ _ (configured_env env cfg p) request token = Ok c)
  (Ho : map_order (lr_Environment launch) order)
  (Hs : @AuthorizeLaunch (configured_env env cfg p) c channel launch order = Ok spec) :
  (lr_Kind launch = LaunchShell ∧ cp_AllowShell p = true ∨ lr_Kind launch = LaunchExec ∧ cp_AllowExec p = true) ∧
  (is_Some (ls_pty spec) → cp_AllowPTY p = true) ∧
  (∀ n v, ls_environment spec !! n = Some v → n ∈ cp_AllowedEnvironment p) ∧
  (cp_ForcedCommand p ≠ ""%string → ls_kind spec = LaunchExec ∧ ls_command spec = cp_ForcedCommand p).
Proof.
  destruct (LoadServer_inv _ _ _ Hload) as (_ & cfg0 & Ep). rewrite Hp in Ep.
  destruct (cs_Permissions cfg0) as [p0|]; [|done]. injection Ep as ->.
  destruct (connection_permissions _ _ _ _ Hc) as (d & d' & [= <-] & Hd' & Hperm).
  destruct (constraints_restrict _ _ _ Hd') as (C1 & C2 & C3 & C4 & C5).
  destruct (newConnectionPermissions_inv _ _ Hperm) as (P1 & P2 & P3 & P4 & P5).
  destruct (launch_confined_raw _ _ _ _ _ Ho Hs) as (_ & _ & _ & _ & [Hk Hf _ [Epty Hpty] [_ Henv] _]).
  rewrite P1, P2, C1, C2 in Hk. split_and!; [exact Hk| | |].
  - intros Hi. apply C3. rewrite <- P3. by apply Hpty.
  - intros n v Hn. destruct (Henv n v Hn) as [Hin _]. apply P5 in Hin. rewrite C4 in Hin. simpl in Hin |- *.
    rewrite <- list_fmap_compose in Hin. erewrite list_fmap_ext in Hin; [exact Hin|]. intros i x _. apply TrimSpace_idem.
  - intros Hne. assert (forcedCommand (permissions c) = cp_ForcedCommand (trim_permissions p0)) as E.
    { rewrite P4, (C5 Hne). simpl. apply TrimSpace_idem. }
    rewrite <- E in Hne |- *. by apply Hf.
Qed.

(** The permissions of the configuration file bind every launch: on a server whose
    configuration was loaded, whatever key authenticated the connection and
    whatever the client requests, a shell, a command or a terminal is launched
    only if the file allows it, the environment has only variables the file lists,
    and with a forced command in the file nothing else runs. *)
Theorem config_enforced path verbosity cfg p request token c channel launch order spec
  (Hload : LoadServer path verbosity = Ok cfg) (Hp : cs_Permissions cfg = Some p)
  (Hc : @AuthorizeConnection _ _ (configured_env env cfg p) request token = Ok c)
  (Ho : map_order (lr_Environment launch) order)
  (Hs : @AuthorizeLaunch (configured_env env cfg p) c channel launch order = Ok spec) :
  (lr_Kind launch = LaunchShell ∧ cp_AllowShell p = true ∨ lr_Kind launch = LaunchExec ∧ cp_AllowExec p = true) ∧
  (is_Some (ls_pty spec) → cp_AllowPTY p = true) ∧
  (∀ n v, ls_environment spec !! n = Some v → n ∈ cp_AllowedEnvironment p) ∧
  (cp_ForcedCommand p ≠ ""%string → ls_kind spec = LaunchExec ∧ ls_command spec = cp_ForcedCommand p).
Proof. by eapply config_enforced_raw. Qed.
End enforced.


(** ** A concrete configuration *)

Definition toy_server : Server :=
  MkServer "" " localhost:42022 " 32 4 5000000000 "~/.mygosh/host_ed25519" ["/etc/missing"; " ~/.ssh/authorized_keys"]%string
    (Some (MkServerPermissions false true false [" TERM "; "LANG"]%string "")) (MkLoggingConfig "warning" false "").

(** A file that sets nothing but the permissions. *)
#[local] Instance toy_viper : Viper := {|
  settings := list (string * setting);
  ReadInConfig path defaults := if bool_decide (path = DefaultServerFile) then Ok defaults else Err (NewError "no such file");
  UnmarshalServer s := if bool_decide (List.length s = 9%nat) then Ok toy_server else Err (NewError "has invalid keys");
  UnmarshalClient _ := Err (NewError "has invalid keys");
|}.

Definition toy_loaded : Server :=
  match LoadServer "" 0 with Ok cfg => cfg | Err _ => toy_server end.

Definition toy_permissions : ServerPermissions := MkServerPermissions false true false ["TERM"; "LANG"]%string "".

Definition toy_configured_credentials : ConnectionCredentials :=
  MkCredentials "public-key" "SHA256:toy" "alice" "192.0.2.1"
    (MkPublicKey AlgorithmEd25519 (replicate 32 x07) []) toy_account "/home/alice/.ssh/authorized_keys"
    (MkMatched "date" true true) (MkPermissions true false true false "date" ["LANG"; "TERM"]%string) (Some 5).


Lemma config_enforced_witness : "TERM"%string ∈ cp_AllowedEnvironment toy_permissions.
Proof.
  refine (proj1 (proj2 (proj2 (@config_enforced toy_viper toy_keys toy_trust toy_env "" 0 toy_loaded toy_permissions toy_request 5
    toy_configured_credentials toy_channel toy_launch ["TERM"%string] toy_spec _ _ _ _ _))) "TERM"%string "xterm"%string _);
    vm_compute; reflexivity.
Defined.
