(* ===== verification/Daemon.v ===== *)
(** * The server daemon (app/server/daemon.go)

    The admission limits and the accept loop of [runDaemon].  The loop, the
    goroutines of the connections and the shutdown interleave as atomic steps:
    one [Accept] of the listener with what follows it, one step of a connection's
    deferred calls, or the end of the loop.  The source address of a connection
    ([normalizedSourceIP]) and the outcome of its handler are inputs. *)

From S2P Require Import Prelude.

Record connectionAdmission := MkAdmission {
  maxTotal : Z;
  maxPerIP : Z;
  total : Z;
  perIP : gmap string Z;
}.

Definition newConnectionAdmission (maxTotal maxPerIP : Z) : connectionAdmission :=
  MkAdmission maxTotal maxPerIP 0 ∅.

(** A missing key of a Go map reads as zero. *)
Definition ip_count (a : connectionAdmission) (source : string) : Z := default 0 (perIP a !! source).

Definition acquire (source : string) (a : connectionAdmission) : connectionAdmission * bool :=
  if (maxTotal a <=? total a) || (maxPerIP a <=? ip_count a source) then (a, false)
  else (MkAdmission (maxTotal a) (maxPerIP a) (total a + 1) (<[source := ip_count a source + 1]> (perIP a)), true).

Definition release (source : string) (a : connectionAdmission) : connectionAdmission :=
  let total' := if 0 <? total a then total a - 1 else total a in
  if ip_count a source <=? 1 then MkAdmission (maxTotal a) (maxPerIP a) total' (delete source (perIP a))
  else MkAdmission (maxTotal a) (maxPerIP a) total' (<[source := ip_count a source - 1]> (perIP a)).

Definition snapshot (source : string) (a : connectionAdmission) : Z * Z := (total a, ip_count a source).

(** The goroutine of a connection: its handler runs (and may panic, which is
    recovered), then its deferred calls release the slot, close the socket and
    leave the wait group. *)
Inductive conn_phase := Handling | Released | SocketClosed.

#[export] Instance conn_phase_eq_dec : EqDecision conn_phase.
Proof. solve_decision. Defined.

Record connection := MkConn { c_id : Z; c_source : string; c_phase : conn_phase }.

Record daemon := MkDaemon {
  admission : connectionAdmission;
  conns : list connection;           (** goroutines that have not called [Done] *)
  waiting : Z;                       (** the counter of the wait group *)
  nextConnectionID : Z;
  temporaryDelay : Z;                (** in milliseconds *)
  accepting : bool;
  outcome : option (res unit);       (** what [runDaemon] returned *)
}.

Definition start_daemon (maxConnections maxConnectionsPerIP : Z) : daemon :=
  MkDaemon (newConnectionAdmission maxConnections maxConnectionsPerIP) [] 0 0 0 true None.

(** [listener.Accept] returned a connection. *)
Definition on_accept (source : string) (d : daemon) : daemon :=
  match acquire source (admission d) with
  | (a, false) => MkDaemon a (conns d) (waiting d) (nextConnectionID d) 0 (accepting d) (outcome d)
  | (a, true) =>
      let id := u64 (nextConnectionID d + 1) in
      MkDaemon a (conns d ++ [MkConn id source Handling]) (waiting d + 1) id 0 (accepting d) (outcome d)
  end.

(** [listener.Accept] failed for a moment: the next delay. *)
Definition next_delay (delay : Z) : Z := Z.min 1000 (if delay =? 0 then 5 else delay * 2).

Definition on_temporary (d : daemon) : daemon :=
  MkDaemon (admission d) (conns d) (waiting d) (nextConnectionID d) (next_delay (temporaryDelay d)) (accepting d) (outcome d).

(** The listener failed for another reason: [runDaemon] returns at once. *)
Definition on_accept_error (d : daemon) : daemon :=
  MkDaemon (admission d) (conns d) (waiting d) (nextConnectionID d) (temporaryDelay d) false
    (Some (Err (NewError "accept connection"))).

(** The context ended: the loop ends and the shutdown waits. *)
Definition on_stop (d : daemon) : daemon :=
  MkDaemon (admission d) (conns d) (waiting d) (nextConnectionID d) (temporaryDelay d) false (outcome d).

(** The next deferred call of the connection at position [i]. *)
Definition finish (i : nat) (d : daemon) : daemon :=
  match conns d !! i with
  | None => d
  | Some c =>
      match c_phase c with
      | Handling =>
          MkDaemon (release (c_source c) (admission d)) (<[i := MkConn (c_id c) (c_source c) Released]> (conns d))
            (waiting d) (nextConnectionID d) (temporaryDelay d) (accepting d) (outcome d)
      | Released =>
          MkDaemon (admission d) (<[i := MkConn (c_id c) (c_source c) SocketClosed]> (conns d))
            (waiting d) (nextConnectionID d) (temporaryDelay d) (accepting d) (outcome d)
      | SocketClosed =>
          MkDaemon (admission d) (delete i (conns d)) (waiting d - 1) (nextConnectionID d) (temporaryDelay d)
            (accepting d) (outcome d)
      end
  end.

Definition shutdown_complete (d : daemon) : daemon :=
  MkDaemon (admission d) (conns d) (waiting d) (nextConnectionID d) (temporaryDelay d) false (Some (Ok tt)).

Definition shutdown_timeout (d : daemon) : daemon :=
  MkDaemon (admission d) (conns d) (waiting d) (nextConnectionID d) (temporaryDelay d) false
    (Some (Err (NewError "server shutdown exceeded"))).

Inductive daemon_step : daemon → daemon → Prop :=
  | step_accept source d : accepting d = true → outcome d = None → daemon_step d (on_accept source d)
  | step_temporary d : accepting d = true → outcome d = None → daemon_step d (on_temporary d)
  | step_accept_error d : accepting d = true → outcome d = None → daemon_step d (on_accept_error d)
  | step_stop d : accepting d = true → outcome d = None → daemon_step d (on_stop d)
  | step_finish i d : daemon_step d (finish i d)
  | step_complete d : accepting d = false → outcome d = None → waiting d = 0 → daemon_step d (shutdown_complete d)
  | step_timeout d : accepting d = false → outcome d = None → daemon_step d (shutdown_timeout d).

Definition daemon_reachable (maxConnections maxConnectionsPerIP : Z) (d : daemon) : Prop :=
  rtc daemon_step (start_daemon maxConnections maxConnectionsPerIP) d.

(** ** The invariant *)

Definition holds_slot (c : connection) : bool := bool_decide (c_phase c = Handling).
Definition from (source : string) (c : connection) : bool := holds_slot c && bool_decide (c_source c = source).

Definition count (f : connection → bool) (l : list connection) : Z := list_sum (λ c, if f c then 1 else 0) l.

Lemma count_app f l k : count f (l ++ k) = count f l + count f k.
Proof. apply list_sum_app. Qed.

Lemma count_nonneg f l : 0 <= count f l.
Proof. apply list_sum_nonneg. intros c _. by destruct (f c). Qed.

Lemma count_one f c : count f [c] = if f c then 1 else 0.
Proof. unfold count. rewrite list_sum_cons, list_sum_nil. lia. Qed.

Lemma count_split f l i c : l !! i = Some c → count f l = count f (take i l) + (if f c then 1 else 0) + count f (drop (S i) l).
Proof.
  intros Hi. rewrite <-(take_drop_middle l i c Hi) at 1.
  replace (take i l ++ c :: drop (S i) l) with (take i l ++ [c] ++ drop (S i) l) by done.
  rewrite !count_app, count_one. lia.
Qed.

Lemma count_insert f l i c c' : l !! i = Some c →
  count f (<[i := c']> l) = count f l - (if f c then 1 else 0) + (if f c' then 1 else 0).
Proof.
  intros Hi. rewrite (count_split f l i c Hi). rewrite insert_take_drop by (by eapply lookup_lt_Some).
  replace (take i l ++ c' :: drop (S i) l) with (take i l ++ [c'] ++ drop (S i) l) by done.
  rewrite !count_app, count_one. lia.
Qed.

Lemma count_delete f l i c : l !! i = Some c → count f (delete i l) = count f l - (if f c then 1 else 0).
Proof. intros Hi. rewrite (count_split f l i c Hi), delete_take_drop, count_app. lia. Qed.

Lemma count_le f g l : (∀ c, f c = true → g c = true) → count f l <= count g l.
Proof.
  intros Hfg. induction l as [|c l IH]; [done|]. unfold count in *. rewrite !list_sum_cons.
  specialize (Hfg c). destruct (f c), (g c); first [lia | by destruct (Hfg eq_refl)].
Qed.

Record daemon_inv (maxT maxP : Z) (d : daemon) : Prop := {
  di_limits : maxTotal (admission d) = maxT ∧ maxPerIP (admission d) = maxP;
  di_total : total (admission d) = count holds_slot (conns d);
  di_perIP source : ip_count (admission d) source = count (from source) (conns d);
  di_keys source n : perIP (admission d) !! source = Some n → 1 <= n;
  di_max_total : total (admission d) <= Z.max 0 maxT;
  di_max_source source : ip_count (admission d) source <= Z.max 0 maxP;
  di_waiting : waiting d = Z.of_nat (length (conns d));
  di_delay : 0 <= temporaryDelay d <= 1000;
}.

Lemma acquire_true maxT maxP d source a :
  daemon_inv maxT maxP d → acquire source (admission d) = (a, true) →
  let c := MkConn (u64 (nextConnectionID d + 1)) source Handling in
  daemon_inv maxT maxP (MkDaemon a (conns d ++ [c]) (waiting d + 1) (c_id c) 0 (accepting d) (outcome d)).
Proof.
  intros [[Hm1 Hm2] Ht Hp Hk Hmt Hms Hw Hd] Ha c. unfold acquire in Ha. case_match eqn:E; simplify_eq.
  rewrite orb_false_iff, !Z.leb_gt in E. destruct E as [E1 E2].
  assert (Hcount : ∀ source', ip_count (MkAdmission (maxTotal (admission d)) (maxPerIP (admission d)) (total (admission d) + 1)
     (<[source := ip_count (admission d) source + 1]> (perIP (admission d)))) source' =
     ip_count (admission d) source' + (if bool_decide (source = source') then 1 else 0)).
  { intros source'. unfold ip_count at 1. simpl. case_bool_decide as Hs.
    - subst. by rewrite lookup_insert_eq.
    - rewrite lookup_insert_ne by done. unfold ip_count. lia. }
  constructor; simpl; try done.
  - by rewrite count_app, count_one, Ht.
  - intros source'. rewrite Hcount, count_app, count_one, Hp. unfold from, holds_slot. simpl. done.
  - intros source' n. rewrite lookup_insert_Some. intros [[<- <-]|[_ Hn]]; [|by eapply Hk].
    rewrite Hp. pose proof (count_nonneg (from source) (conns d)). lia.
  - lia.
  - intros source'. rewrite Hcount. case_bool_decide; [subst; lia|]. pose proof (Hms source'). lia.
  - rewrite length_app. simpl. lia.
Qed.

Lemma release_count source source' a : (∀ s n, perIP a !! s = Some n → 1 <= n) →
  ip_count (release source a) source' = ip_count a source' - (if bool_decide (source = source' ∧ is_Some (perIP a !! source)) then 1 else 0).
Proof.
  intros Hk. unfold release, ip_count. case_bool_decide as Hs.
  - destruct Hs as [<- [n Hn]]. pose proof (Hk _ _ Hn). rewrite Hn. simpl.
    destruct (Z.leb_spec n 1); simpl; [rewrite lookup_delete_eq|rewrite lookup_insert_eq]; simpl; lia.
  - destruct (decide (source = source')) as [->|Hne].
    + destruct (perIP a !! source') as [n|] eqn:Hn; [destruct Hs; eauto|]. simpl. by rewrite lookup_delete_eq.
    + case_match; simpl; [rewrite lookup_delete_ne by done|rewrite lookup_insert_ne by done]; lia.
Qed.

Lemma release_slot maxT maxP d i c :
  daemon_inv maxT maxP d → conns d !! i = Some c → c_phase c = Handling →
  daemon_inv maxT maxP (MkDaemon (release (c_source c) (admission d)) (<[i := MkConn (c_id c) (c_source c) Released]> (conns d))
    (waiting d) (nextConnectionID d) (temporaryDelay d) (accepting d) (outcome d)).
Proof.
  intros [[Hm1 Hm2] Ht Hp Hk Hmt Hms Hw Hd] Hi Hc.
  assert (Hslot : holds_slot c = true) by by apply bool_decide_true.
  assert (Hhas : is_Some (perIP (admission d) !! c_source c)).
  { pose proof (Hp (c_source c)) as Hn. unfold ip_count in Hn. destruct (perIP _ !! _); [by eexists|]. simpl in Hn.
    rewrite (count_split _ _ _ _ Hi) in Hn. unfold from in Hn at 2. rewrite Hslot, bool_decide_true in Hn by done.
    pose proof (count_nonneg (from (c_source c)) (take i (conns d))).
    pose proof (count_nonneg (from (c_source c)) (drop (S i) (conns d))). simpl in Hn. lia. }
  assert (Hpos : 0 < total (admission d)).
  { rewrite Ht, (count_split _ _ _ _ Hi), Hslot.
    pose proof (count_nonneg holds_slot (take i (conns d))). pose proof (count_nonneg holds_slot (drop (S i) (conns d))). lia. }
  assert (Htot : total (release (c_source c) (admission d)) = total (admission d) - 1).
  { unfold release. destruct (Z.ltb_spec 0 (total (admission d))); [|lia]. by case_match. }
  constructor; simpl.
  - unfold release. by case_match.
  - rewrite Htot, (count_insert _ _ _ _ _ Hi), Hslot, Ht. simpl. lia.
  - intros source. rewrite release_count, Hp, (count_insert _ _ _ _ _ Hi) by done. unfold from at 3 4. rewrite Hslot. simpl.
    destruct (decide (c_source c = source)) as [E|E]; [rewrite !bool_decide_true by done|rewrite !bool_decide_false by naive_solver]; lia.
  - intros source n. unfold release. destruct (Z.leb_spec (ip_count (admission d) (c_source c)) 1); simpl.
    + rewrite lookup_delete_Some. intros [_ Hn]. by eapply Hk.
    + rewrite lookup_insert_Some. intros [[_ <-]|[_ Hn]]; [lia|by eapply Hk].
  - lia.
  - intros source. rewrite release_count by done. pose proof (Hms source). case_bool_decide; lia.
  - by rewrite length_insert.
  - done.
Qed.

(** A connection that does not hold a slot can move or leave. *)
Lemma slotless maxT maxP d i c conns' waiting' :
  daemon_inv maxT maxP d → conns d !! i = Some c → holds_slot c = false →
  (∀ f, (∀ x, f x = true → holds_slot x = true) → count f conns' = count f (conns d)) →
  waiting' = Z.of_nat (length conns') →
  daemon_inv maxT maxP (MkDaemon (admission d) conns' waiting' (nextConnectionID d) (temporaryDelay d) (accepting d) (outcome d)).
Proof.
  intros [Hm Ht Hp Hk Hmt Hms Hw Hd] Hi Hc Hcount Hw'. constructor; simpl; try done.
  - rewrite Hcount; [done|auto].
  - intros source. rewrite Hcount; [done|]. unfold from. intros x ?. by destruct (holds_slot x).
Qed.

Lemma finish_inv maxT maxP d i : daemon_inv maxT maxP d → daemon_inv maxT maxP (finish i d).
Proof.
  intros Hinv. unfold finish. destruct (conns d !! i) as [c|] eqn:Hi; [|done].
  pose proof (di_waiting _ _ _ Hinv) as Hw.
  destruct (c_phase c) eqn:Hc; [by apply release_slot|..].
  - assert (Hs : holds_slot c = false) by (apply bool_decide_false; by rewrite Hc).
    eapply slotless; [done..| |by rewrite length_insert].
    intros f Hf. rewrite (count_insert _ _ _ _ _ Hi).
    destruct (f c) eqn:E1; [by rewrite Hf in Hs|]. destruct (f (MkConn _ _ _)) eqn:E2; [by apply Hf in E2|lia].
  - assert (Hs : holds_slot c = false) by (apply bool_decide_false; by rewrite Hc).
    eapply slotless; [done..| |].
    + intros f Hf. rewrite (count_delete _ _ _ _ Hi). destruct (f c) eqn:E1; [by rewrite Hf in Hs|lia].
    + rewrite length_delete by eauto. apply lookup_lt_Some in Hi. lia.
Qed.

Lemma start_inv maxT maxP : daemon_inv maxT maxP (start_daemon maxT maxP).
Proof. constructor; simpl; try done; try lia. intros source. unfold ip_count. simpl. rewrite lookup_empty. simpl. lia. Qed.

Lemma step_inv maxT maxP d d' : daemon_step d d' → daemon_inv maxT maxP d → daemon_inv maxT maxP d'.
Proof.
  intros Hstep Hinv. destruct Hstep; try (by destruct Hinv); [| |by apply finish_inv].
  - unfold on_accept. destruct (acquire source (admission d)) as [a []] eqn:Ha; [by eapply (acquire_true _ _ d)|].
    assert (a = admission d) as -> by (unfold acquire in Ha; by case_match; simplify_eq).
    by destruct Hinv; constructor.
  - destruct Hinv; constructor; simpl; try done. unfold next_delay. case_match; lia.
Qed.

Lemma reachable_inv maxT maxP d : daemon_reachable maxT maxP d → daemon_inv maxT maxP d.
Proof.
  intros Hr. unfold daemon_reachable in Hr. pose proof (start_inv maxT maxP) as H0. revert H0.
  induction Hr as [|x y z Hxy _ IH]; [done|]. intros H0. apply IH. by eapply step_inv.
Qed.

(** C24: the admission of the daemon is exact: whatever connections arrive, end or
    panic in whatever order, the counters are the numbers of connections whose
    handlers run, in all and per source address; both limits hold, every slot is
    returned exactly once; a connection is admitted exactly when both limits leave
    room, and the source map holds no address without a connection. *)
Theorem admission_exact maxT maxP d (HmaxT : 0 <= maxT) (HmaxP : 0 <= maxP) (Hr : daemon_reachable maxT maxP d) :
  snapshot "" (admission d) = (count holds_slot (conns d), count (from "") (conns d)) ∧
  (∀ source, ip_count (admission d) source = count (from source) (conns d) ∧ count (from source) (conns d) <= maxP) ∧
  count holds_slot (conns d) <= maxT ∧
  (∀ source, (acquire source (admission d)).2 = true ↔
     count holds_slot (conns d) < maxT ∧ count (from source) (conns d) < maxP) ∧
  (∀ source, is_Some (perIP (admission d) !! source) ↔ 0 < count (from source) (conns d)).
Proof.
  destruct (reachable_inv _ _ _ Hr) as [[Hm1 Hm2] Ht Hp Hk Hmt Hms Hw Hd]. split_and!.
  - unfold snapshot. by rewrite Ht, Hp.
  - intros source. split; [done|]. rewrite <-Hp. pose proof (Hms source). lia.
  - lia.
  - intros source. unfold acquire. rewrite Hm1, Hm2, Ht, Hp.
    destruct (Z.leb_spec maxT (count holds_slot (conns d))); simpl; [split; [done|lia]|].
    destruct (Z.leb_spec maxP (count (from source) (conns d))); simpl; [split; [done|lia]|].
    split; [lia|done].
  - intros source. rewrite <-Hp. unfold ip_count. split.
    + intros [n Hn]. rewrite Hn. simpl. by apply Hk in Hn; lia.
    + destruct (perIP (admission d) !! source); [by eexists|]. simpl. lia.
Qed.

Lemma reachable_done maxT maxP d : daemon_reachable maxT maxP d → outcome d = Some (Ok tt) → conns d = [].
Proof.
  intros Hr. unfold daemon_reachable in Hr. pose proof (start_inv maxT maxP) as H0.
  assert (Hd0 : outcome (start_daemon maxT maxP) = Some (Ok tt) → conns (start_daemon maxT maxP) = []) by done.
  revert H0 Hd0. induction Hr as [|x y z Hxy _ IH]; [done|]. intros H0 Hd0.
  apply IH; [by eapply step_inv|]. pose proof (di_waiting _ _ _ H0) as Hw.
  destruct Hxy; simpl; try congruence.
  - unfold on_accept. case_match. case_match; simpl; congruence.
  - unfold finish. repeat case_match; simpl; intros Ho; rewrite Hd0 in *; done.
  - intros _. apply length_zero_iff_nil. lia.
Qed.

(** When [runDaemon] returns without an error no goroutine of a connection is
    left: every slot has been returned and the wait group is empty. *)
Theorem clean_shutdown maxT maxP d (Hr : daemon_reachable maxT maxP d) (Hend : outcome d = Some (Ok tt)) :
  conns d = [] ∧ total (admission d) = 0 ∧ perIP (admission d) = ∅ ∧ waiting d = 0.
Proof.
  pose proof (reachable_done _ _ _ Hr Hend) as Hc. destruct (reachable_inv _ _ _ Hr) as [_ Ht Hp Hk _ _ Hw _].
  rewrite Hc in *. split_and!; try done. apply map_eq. intros source. rewrite lookup_empty.
  pose proof (Hp source) as Hs. unfold ip_count in Hs. destruct (perIP _ !! source) eqn:E; [|done].
  apply Hk in E. simpl in Hs. unfold count in Hs. rewrite list_sum_nil in Hs. lia.
Qed.

(** Two connections from one address, the first of which has ended. *)
Definition toy_daemon : daemon := finish 0 (on_accept "192.0.2.1" (on_accept "192.0.2.1" (start_daemon 2 2))).

Lemma toy_daemon_reachable : daemon_reachable 2 2 toy_daemon.
Proof.
  eapply rtc_l; [by apply (step_accept "192.0.2.1")|]. eapply rtc_l; [by apply (step_accept "192.0.2.1")|].
  eapply rtc_l; [by apply (step_finish 0)|]. done.
Qed.

Lemma admission_exact_witness :
  count holds_slot (conns toy_daemon) = 1 ∧
  (∀ source, (acquire source (admission toy_daemon)).2 = true ↔
     count holds_slot (conns toy_daemon) < 2 ∧ count (from source) (conns toy_daemon) < 2).
Proof.
  split; [vm_compute; reflexivity|].
  apply (admission_exact 2 2 toy_daemon ltac:(lia) ltac:(lia) toy_daemon_reachable).
Defined.

Definition toy_end : daemon :=
  shutdown_complete (finish 0 (finish 0 (finish 0 (on_stop (on_accept "192.0.2.1" (start_daemon 2 2)))))).

Lemma toy_end_reachable : daemon_reachable 2 2 toy_end.
Proof.
  eapply rtc_l; [by apply (step_accept "192.0.2.1")|]. eapply rtc_l; [by apply step_stop|].
  do 3 (eapply rtc_l; [by apply (step_finish 0)|]). eapply rtc_l; [by apply step_complete|]. done.
Qed.

Lemma clean_shutdown_witness : total (admission toy_end) = 0 ∧ waiting toy_end = 0.
Proof.
  destruct (clean_shutdown 2 2 toy_end toy_end_reachable eq_refl) as (_ & Ht & _ & Hw). exact (conj Ht Hw).
Defined.
