(* ===== verification/CommandCodec.v ===== *)
(** * The command protocol's messages (lib/command: types.go, frame.go, codec.go)

    Start requests, the chunking of streams into frames and the decoding of
    server events.  The protobuf encodings are the [ProtoMessage] parameters of
    [Wire]; the order in which the runtime ranges over an environment map is an
    argument. *)

From S2P Require Import Prelude GoStrings Wire.

(** ** types.go and the messages of command.proto *)

(** [StartKind] is a [uint8]. *)
Definition StartShell : Z := 1.
Definition StartExec : Z := 2.

Record PTYRequest := MkPTYRequest { Terminal : string; Rows : Z; Columns : Z }.

#[export] Instance PTYRequest_eq_dec : EqDecision PTYRequest.
Proof. solve_decision. Defined.

Record StartRequest := MkStartRequest {
  sr_Kind : Z;
  sr_Command : string;
  sr_PTY : option PTYRequest;
  sr_Environment : gmap string string;
}.

Record WindowSize := MkWindowSize { ws_Rows : Z; ws_Columns : Z }.

Record ExitResult := MkExitResult { ex_Status : Z; ex_Signal : string; ex_RuntimeFailure : string }.

Inductive StartTarget := TShell | TExec (command : string).

Record Start := MkStart {
  st_ProtocolVersion : Z;
  st_Target : option StartTarget;
  st_Pty : option PTYRequest;
  st_Environment : list (string * string);
}.

Inductive ClientFrame :=
  | CStart (start : Start)
  | CStdin (data : bytes)
  | CStdinEof
  | CWindowChange (rows columns : Z).

Inductive ExitMessage := ExStatus (status : Z) | ExSignal (signal : string) | ExRuntimeFailure (message : string).

Inductive ServerFrame :=
  | SStartResult (accepted : bool) (code message : string)
  | SStdout (data : bytes)
  | SStderr (data : bytes)
  | SExit (result : option ExitMessage).

Definition ProtocolVersion : Z := 1.
Definition defaultMaximumFrameSize : Z := 16384.

(** [ProtocolError] *)
Definition protocol_error (msg : string) : error := Wrapped (Sentinel "command protocol error") msg.

(** ** codec.go *)

Section codec.
Context {M : Type} `{ProtoMessage M}.

Definition marshalMessage (message : M) (maximum : Z) : res bytes :=
  match proto_validate message with
  | Some e => Err (Wrapped e "validate command message")
  | None =>
      wrap_err "encode command message" (proto_marshal message) ≫= λ frame,
      reject_if (blen frame =? 0) (NewError "encoded command frame is empty") ≫= λ _,
      reject_if ((0 <? maximum) && (maximum <? blen frame)) (NewError "command frame exceeds maximum size") ≫= λ _,
      mret frame
  end.

Definition unmarshalMessage (frame : bytes) : res M :=
  reject_if (blen frame =? 0) (NewError "empty command frame") ≫= λ _,
  wrap_err "decode command message" (proto_unmarshal frame) ≫= λ message,
  match proto_validate message with
  | Some e => Err (Wrapped e "validate command message")
  | None => mret message
  end.

(** The binary search of [chunkedFrames]; [None] when the fuel runs out. *)
Fixpoint chunk_search (fuel : nat) (build : bytes → M) (data : bytes) (maximum low high best : Z) (encoded : bytes)
  : option (Z * bytes) :=
  match fuel with
  | O => None
  | S fuel =>
      if low <=? high then
        let mid := low + (high - low) / 2 in
        match marshalMessage (build (take (Z.to_nat mid) data)) maximum with
        | Ok frame => chunk_search fuel build data maximum (mid + 1) high mid frame
        | Err _ => chunk_search fuel build data maximum low (mid - 1) best encoded
        end
      else Some (best, encoded)
  end.

Definition does_not_end : error := Sentinel "loop does not end".

Fixpoint chunk_loop (fuel : nat) (build : bytes → M) (maximum : Z) (data : bytes) : res (list bytes) :=
  match data with
  | [] => Ok []
  | _ =>
      match fuel with
      | O => Err does_not_end
      | S fuel =>
          match chunk_search (S (length data)) build data maximum 1 (Z.min (blen data) maximum) 0 [] with
          | None => Err does_not_end
          | Some (best, encoded) =>
              if best =? 0 then Err (NewError "maximum command frame size cannot carry data")
              else chunk_loop fuel build maximum (drop (Z.to_nat best) data) ≫= λ frames, mret (encoded :: frames)
          end
      end
  end.

Definition chunkedFrames (data : bytes) (maximum : Z) (build : bytes → M) : res (list bytes) :=
  if blen data =? 0 then Ok []
  else chunk_loop (length data) build (if maximum <=? 0 then defaultMaximumFrameSize else maximum) data.
End codec.

(** [order] is the order in which the runtime ranges over the environment. *)
Definition encodeStart (request : StartRequest) (order : list string) : res ClientFrame :=
  (if sr_Kind request =? StartShell then
     reject_if (negb (bool_decide (TrimSpace (sr_Command request) = ""%string)))
       (NewError "shell start must not include a command") ≫= λ _, mret TShell
   else if sr_Kind request =? StartExec then
     reject_if (bool_decide (TrimSpace (sr_Command request) = ""%string)) (NewError "exec command is required") ≫= λ _,
     mret (TExec (sr_Command request))
   else Err (NewError "unsupported command start kind")) ≫= λ target,
  mret (CStart (MkStart ProtocolVersion (Some target) (sr_PTY request)
    ((λ name, (name, default ""%string (sr_Environment request !! name))) <$> sort_strings order))).

Definition equals_or_nul : list Ascii.ascii := [Ascii.ascii_of_N 61; NUL].

Fixpoint decode_environment (entries : list (string * string)) (env : gmap string string) : res (gmap string string) :=
  match entries with
  | [] => Ok env
  | (name, value) :: rest =>
      reject_if (contains_any equals_or_nul name) (NewError "invalid environment variable") ≫= λ _,
      reject_if (contains NUL value) (NewError "environment variable contains NUL") ≫= λ _,
      reject_if (bool_decide (is_Some (env !! name))) (NewError "duplicate environment variable") ≫= λ _,
      decode_environment rest (<[name := value]> env)
  end.

Definition decodeStart (start : Start) : res StartRequest :=
  match st_Target start with
  | None => Err (NewError "start target is required")
  | Some target =>
      decode_environment (st_Environment start) ∅ ≫= λ environment,
      mret (MkStartRequest (match target with TShell => StartShell | TExec _ => StartExec end)
              (match target with TShell => "" | TExec command => command end) (st_Pty start) environment)
  end.

Section frames.
Context `{ProtoMessage ClientFrame} `{ProtoMessage ServerFrame}.

Definition EncodeClientStart (request : StartRequest) (order : list string) (maximum : Z) : res bytes :=
  encodeStart request order ≫= λ message, marshalMessage message maximum.

Definition EncodeClientStdin (data : bytes) (maximum : Z) : res (list bytes) := chunkedFrames data maximum CStdin.

Definition EncodeClientStdinEOF (maximum : Z) : res bytes := marshalMessage CStdinEof maximum.

Definition EncodeClientWindowChange (size : WindowSize) (maximum : Z) : res bytes :=
  marshalMessage (CWindowChange (ws_Rows size) (ws_Columns size)) maximum.

(** [ServerEvent]: the fields its kind uses. *)
Inductive ServerEvent :=
  | EventStartResult (accepted : bool) (code message : string)
  | EventStdout (data : bytes)
  | EventStderr (data : bytes)
  | EventExit (exit : ExitResult).

Definition DecodeServerEvent (frame : bytes) : res ServerEvent :=
  unmarshalMessage (M:=ServerFrame) frame ≫= λ message,
  match message with
  | SStartResult accepted code msg =>
      reject_if (accepted && negb (bool_decide (code = ""%string) && bool_decide (msg = ""%string)))
        (protocol_error "accepted start result contains rejection details") ≫= λ _,
      mret (EventStartResult accepted code msg)
  | SStdout data => mret (EventStdout data)
  | SStderr data => mret (EventStderr data)
  | SExit (Some (ExStatus status)) => mret (EventExit (MkExitResult status "" ""))
  | SExit (Some (ExSignal signal)) => mret (EventExit (MkExitResult 0 signal ""))
  | SExit (Some (ExRuntimeFailure message)) => mret (EventExit (MkExitResult 0 "" message))
  | SExit None => Err (protocol_error "exit result is required")
  end.
End frames.

(** ** Facts *)

Section codec_facts.
Context {M : Type} `{HP : ProtoMessage M}.

Lemma marshalMessage_ok (m : M) maximum frame :
  marshalMessage m maximum = Ok frame →
  proto_validate m = None ∧ proto_marshal m = Ok frame ∧ frame ≠ [] ∧ (0 < maximum → blen frame <= maximum).
Proof.
  unfold marshalMessage. destruct (proto_validate m) eqn:Hv; [done|]. intros Hm.
  apply res_bind_ok in Hm as (f & Hf & Hm). apply wrap_err_ok in Hf.
  rewrite !reject_if_then in Hm. destruct Hm as (Hne & Hmax & Hm). injection Hm as <-.
  split_and!; try done.
  - intros ->. done.
  - intros Hpos. destruct (Z.ltb_spec 0 maximum), (Z.ltb_spec maximum (blen f)); simpl in Hmax; lia || done.
Qed.

Lemma unmarshal_frame `{!ProtoLaws M} (m : M) maximum frame :
  marshalMessage m maximum = Ok frame → unmarshalMessage frame = Ok m.
Proof.
  intros (Hv & Hm & Hne & _)%marshalMessage_ok. unfold unmarshalMessage.
  destruct frame as [|b frame]; [done|]. rewrite blen_cons. pose proof (blen_nonneg frame).
  destruct (Z.eqb_spec (1 + blen frame) 0); [lia|]. simpl. rewrite (unmarshal_marshal _ _ Hm). simpl. by rewrite Hv.
Qed.

(** ** The chunks *)

Section chunks.
Context (build : bytes → M).

(** A prefix of the data and the frame it was encoded as. *)
Definition encodes_prefix (data : bytes) (maximum n : Z) (frame : bytes) : Prop :=
  1 <= n <= blen data ∧ marshalMessage (build (take (Z.to_nat n) data)) maximum = Ok frame.

(** The search ends, and its answer is nothing or a prefix with its encoding. *)
Lemma chunk_search_spec fuel data maximum low high best encoded :
  (Z.to_nat (high - low + 1) < fuel)%nat → 1 <= low → high <= blen data →
  (best = 0 ∨ encodes_prefix data maximum best encoded) →
  ∃ n frame, chunk_search fuel build data maximum low high best encoded = Some (n, frame) ∧
    (n = 0 ∨ encodes_prefix data maximum n frame).
Proof.
  revert low high best encoded. induction fuel as [|fuel IH]; intros low high best encoded Hf Hl Hh Hb; [lia|].
  simpl. destruct (Z.leb_spec low high) as [Hle|Hgt]; [|by exists best, encoded].
  assert (0 <= (high - low) / 2 <= high - low) by (split; [apply Z.div_pos; lia|apply Z.div_le_upper_bound; lia]).
  destruct (marshalMessage _ maximum) as [frame|e] eqn:E; apply IH; try lia; [|done].
  right. split; [lia|done].
Qed.

(** With a monotone encoding the answer is the longest prefix that fits. *)
Definition monotone (maximum : Z) : Prop := ∀ data n m, 1 <= m <= n → n <= blen data →
  is_ok (marshalMessage (build (take (Z.to_nat n) data)) maximum) = true →
  is_ok (marshalMessage (build (take (Z.to_nat m) data)) maximum) = true.

Definition fits (data : bytes) (maximum n : Z) : Prop :=
  is_ok (marshalMessage (build (take (Z.to_nat n) data)) maximum) = true.

Lemma chunk_search_max fuel data maximum top low high best encoded n frame :
  monotone maximum → 1 <= low → low <= high + 1 → high <= top → top <= blen data → best = low - 1 →
  (∀ k, high < k <= top → ¬ fits data maximum k) →
  chunk_search fuel build data maximum low high best encoded = Some (n, frame) →
  low - 1 <= n <= high ∧ ∀ k, n < k <= top → ¬ fits data maximum k.
Proof.
  intros Hmono. revert low high best encoded. induction fuel as [|fuel IH]; intros low high best encoded Hl Hlh Hh Ht Hb Hout Hs; [done|].
  simpl in Hs. destruct (Z.leb_spec low high) as [Hle|Hgt].
  2:{ simplify_eq. split; [lia|]. intros k Hk. apply Hout. lia. }
  assert (0 <= (high - low) / 2 <= high - low) by (split; [apply Z.div_pos; lia|apply Z.div_le_upper_bound; lia]).
  destruct (marshalMessage _ maximum) as [f|e] eqn:E.
  - destruct (IH (low + (high - low) / 2 + 1) high (low + (high - low) / 2) f ltac:(lia) ltac:(lia) Hh Ht ltac:(lia) Hout Hs) as [? Hmax]. split; [lia|done].
  - destruct (IH low (low + (high - low) / 2 - 1) best encoded Hl ltac:(lia) ltac:(lia) Ht Hb) as [? Hmax]; [|done|split; [lia|done]].
    intros k Hk Hfit.
    assert (Hbad : is_ok (marshalMessage (build (take (Z.to_nat (low + (high - low) / 2)) data)) maximum) = true).
    { apply (Hmono data k); [lia|lia|done]. }
    by rewrite E in Hbad.
Qed.

(** What the loop returns: chunks that make up the data, each not empty and
    encoded in one frame within the limit. *)
Definition chunked (maximum : Z) (data : bytes) (frames : list bytes) : Prop :=
  ∃ chunks, concat chunks = data ∧
    Forall2 (λ chunk frame, chunk ≠ [] ∧ marshalMessage (build chunk) maximum = Ok frame) chunks frames.

Lemma blen_take_drop n (data : bytes) : 1 <= n <= blen data →
  take (Z.to_nat n) data ≠ [] ∧ (length (drop (Z.to_nat n) data) < length data)%nat.
Proof.
  unfold blen. intros Hn. split.
  - intros E. apply (f_equal length) in E. rewrite length_take in E. simpl in E. lia.
  - rewrite length_drop. lia.
Qed.

Lemma chunk_loop_spec fuel maximum data : (length data <= fuel)%nat → 1 <= maximum →
  match chunk_loop fuel build maximum data with
  | Ok frames => chunked maximum data frames
  | Err e => e = NewError "maximum command frame size cannot carry data"
  end.
Proof.
  revert data. induction fuel as [|fuel IH]; intros data Hf Hm.
  { destruct data; [|simpl in Hf; lia]. by exists []. }
  destruct data as [|b data]; [by exists []|]. cbn [chunk_loop]. set (d := b :: data) in *.
  assert (Hd : 1 <= blen d) by (unfold d; rewrite blen_cons; pose proof (blen_nonneg data); lia).
  destruct (chunk_search_spec (S (length d)) d maximum 1 (Z.min (blen d) maximum) 0 []) as (n & frame & -> & Hn);
    [unfold blen; lia|lia|lia|by left|].
  destruct (Z.eqb_spec n 0) as [->|Hn0]; [done|]. destruct Hn as [?|[Hn Hmsg]]; [done|].
  destruct (blen_take_drop n d Hn) as [Hne Hlt].
  pose proof (IH (drop (Z.to_nat n) d) ltac:(lia) Hm) as IHd.
  destruct (chunk_loop fuel build maximum (drop (Z.to_nat n) d)) as [frames|e]; [|done]. simpl.
  destruct IHd as (chunks & Hc & Hall). exists (take (Z.to_nat n) d :: chunks). split.
  - simpl. rewrite Hc. apply take_drop.
  - by constructor.
Qed.

(** A one-byte message that encodes is enough for the loop to succeed. *)
Lemma chunk_loop_total fuel maximum data : (length data <= fuel)%nat → 1 <= maximum → monotone maximum →
  (∀ b, is_ok (marshalMessage (build [b]) maximum) = true) →
  is_ok (chunk_loop fuel build maximum data) = true.
Proof.
  intros Hf Hm Hmono Hone. revert data Hf. induction fuel as [|fuel IH]; intros data Hf.
  { destruct data; [done|simpl in Hf; lia]. }
  destruct data as [|b data]; [done|]. cbn [chunk_loop]. set (d := b :: data) in *.
  assert (Hd : 1 <= blen d) by (unfold d; rewrite blen_cons; pose proof (blen_nonneg data); lia).
  destruct (chunk_search_spec (S (length d)) d maximum 1 (Z.min (blen d) maximum) 0 []) as (n & frame & Hs & Hn);
    [unfold blen; lia|lia|lia|by left|].
  rewrite Hs. destruct (Z.eqb_spec n 0) as [->|Hn0].
  - eapply (chunk_search_max _ _ _ (Z.min (blen d) maximum)) in Hs; [|done|lia..]. destruct Hs as [_ Hmax].
    destruct (Hmax 1 ltac:(lia)). unfold fits, d. simpl. apply Hone.
  - destruct Hn as [?|[Hn Hmsg]]; [done|]. destruct (blen_take_drop n d Hn) as [_ Hlt].
    pose proof (IH (drop (Z.to_nat n) d) ltac:(lia)) as IHd.
    by destruct (chunk_loop fuel build maximum (drop (Z.to_nat n) d)).
Qed.
End chunks.
End codec_facts.

(** ** Start requests *)

(** An entry the decoder accepts. *)
Definition clean_entry (e : string * string) : Prop :=
  contains_any equals_or_nul e.1 = false ∧ contains NUL e.2 = false.

Lemma decode_environment_iff entries env env' :
  decode_environment entries env = Ok env' ↔
  NoDup entries.*1 ∧ Forall clean_entry entries ∧ (∀ n, n ∈ entries.*1 → env !! n = None) ∧
  env' = list_to_map entries ∪ env.
Proof.
  revert env. induction entries as [|[name value] entries IH]; intros env; simpl.
  { split.
    - intros [= ->]. split_and!; [constructor|constructor|by intros n ?%elem_of_nil|by rewrite (left_id_L ∅ (∪))].
    - intros (_ & _ & _ & ->). by rewrite (left_id_L ∅ (∪)). }
  rewrite !reject_if_then, IH, NoDup_cons, Forall_cons, bool_decide_eq_false. unfold clean_entry at 2. simpl.
  assert (Hmap : env !! name = None → name ∉ entries.*1 →
    (list_to_map entries ∪ <[name := value]> env : gmap string string) = <[name := value]> (list_to_map entries) ∪ env).
  { intros Hn Hnot. rewrite <-insert_union_r by by apply not_elem_of_list_to_map. by rewrite insert_union_l. }
  split.
  - intros (Hname & Hval & Hnone & Hnd & Hall & Hout & ->). apply eq_None_not_Some in Hnone.
    assert (Hnot : name ∉ entries.*1) by (intros Hin; by specialize (Hout _ Hin); rewrite lookup_insert_eq in Hout).
    split_and!; try done; [|by apply Hmap].
    intros n [->|Hin]%elem_of_cons; [done|]. specialize (Hout _ Hin). by apply lookup_insert_None in Hout as [? _].
  - intros ([Hnot Hnd] & [[Hname Hval] Hall] & Hout & ->).
    assert (Hnone : env !! name = None) by (apply Hout; left).
    split_and!; try done; [by rewrite Hnone; intros [? ?]| |by rewrite Hmap].
    intros n Hin. rewrite lookup_insert_ne by (intros ->; done). apply Hout. by right.
Qed.

(** The entries [encodeStart] writes are the map. *)
Lemma encoded_environment (env : gmap string string) order : map_order env order →
  let entries := (λ name, (name, default ""%string (env !! name))) <$> sort_strings order in
  NoDup entries.*1 ∧ (list_to_map entries : gmap string string) = env ∧ (∀ e, e ∈ entries → env !! e.1 = Some e.2).
Proof.
  intros Ho entries.
  assert (Hfst : entries.*1 = sort_strings order).
  { unfold entries. rewrite <-list_fmap_compose. by apply list_fmap_id. }
  assert (Hnd : NoDup entries.*1) by (rewrite Hfst, sort_strings_perm; by eapply map_order_NoDup).
  assert (Hin : ∀ e, e ∈ entries → env !! e.1 = Some e.2).
  { intros e (name & -> & Hn)%list_elem_of_fmap. simpl. rewrite sort_strings_perm in Hn.
    apply (map_order_elem _ _ _ Ho) in Hn as [v Hv]. by rewrite Hv. }
  split_and!; try done. apply map_eq. intros n. destruct (list_to_map entries !! n) as [v|] eqn:E.
  - apply elem_of_list_to_map in E; [|done]. apply Hin in E. simpl in E. by rewrite E.
  - apply not_elem_of_list_to_map in E. rewrite Hfst, sort_strings_perm, (map_order_elem _ _ _ Ho) in E.
    symmetry. by apply eq_None_not_Some.
Qed.

(** The request the server sees: a shell start carries no command. *)
Definition canonical (r : StartRequest) : StartRequest :=
  MkStartRequest (sr_Kind r) (if sr_Kind r =? StartShell then "" else sr_Command r) (sr_PTY r) (sr_Environment r).

Definition clean_environment (env : gmap string string) : Prop := ∀ n v, env !! n = Some v → clean_entry (n, v).

Lemma encode_decode_start r order frame : map_order (sr_Environment r) order → clean_environment (sr_Environment r) →
  encodeStart r order = Ok frame → ∃ start, frame = CStart start ∧ decodeStart start = Ok (canonical r).
Proof.
  intros Ho Hclean He. unfold encodeStart in He. apply res_bind_ok in He as (target & Ht & He). injection He as <-.
  eexists. split; [done|]. unfold decodeStart. simpl.
  destruct (encoded_environment _ _ Ho) as (Hnd & Hmap & Hin). set (entries := _ <$> sort_strings order) in *.
  assert (Hdec : decode_environment entries ∅ = Ok (sr_Environment r)).
  { apply decode_environment_iff. rewrite Hmap, (right_id_L ∅ (∪)). split_and!; try done.
    apply Forall_forall. intros [n v] He. apply Hclean. by apply (Hin (n, v)). }
  rewrite Hdec. simpl. unfold canonical. destruct (Z.eqb_spec (sr_Kind r) StartShell) as [->|].
  { apply reject_if_then in Ht as [_ Ht]. by injection Ht as <-. }
  destruct (Z.eqb_spec (sr_Kind r) StartExec) as [->|]; [|done].
  apply reject_if_then in Ht as [_ Ht]. by injection Ht as <-.
Qed.

Section client.
Context `{HC : ProtoMessage ClientFrame, !ProtoLaws ClientFrame}.

(** A start request that [EncodeClientStart] encodes is decoded by the server to
    the same request (a shell start without its blank command), whatever order the
    environment map is ranged over; the encoding does not depend on that order and
    respects the frame limit. *)
Theorem start_roundtrip (r : StartRequest) order maximum frame
  (Ho : map_order (sr_Environment r) order) (Hclean : clean_environment (sr_Environment r))
  (He : EncodeClientStart r order maximum = Ok frame) :
  (∃ start, unmarshalMessage frame = Ok (CStart start) ∧ decodeStart start = Ok (canonical r)) ∧
  (0 < maximum → blen frame <= maximum) ∧
  ∀ order', map_order (sr_Environment r) order' → EncodeClientStart r order' maximum = Ok frame.
Proof.
  unfold EncodeClientStart in *. split_and!.
  - apply res_bind_ok in He as (m & Hm & He).
    destruct (encode_decode_start _ _ _ Ho Hclean Hm) as (start & -> & Hd). exists start. split; [|done].
    by eapply unmarshal_frame.
  - apply res_bind_ok in He as (m & Hm & He). by apply marshalMessage_ok in He as (_ & _ & _ & ?).
  - intros order' Ho'. rewrite <-He. unfold encodeStart. by rewrite (sorted_keys _ _ _ Ho' Ho).
Qed.

(** Whatever bytes a client sends as its start, a request the server decodes is
    well formed: a known kind, no command for a shell, and an environment whose
    names and values are free of separators and NUL; every variable was sent
    exactly once. *)
Theorem decoded_start_clean (start : Start) (r : StartRequest) (Hd : decodeStart start = Ok r) :
  (sr_Kind r = StartShell ∧ sr_Command r = ""%string ∨ sr_Kind r = StartExec ∧ st_Target start = Some (TExec (sr_Command r))) ∧
  sr_PTY r = st_Pty start ∧ clean_environment (sr_Environment r) ∧ NoDup (st_Environment start).*1 ∧
  ∀ n v, sr_Environment r !! n = Some v ↔ (n, v) ∈ st_Environment start.
Proof.
  unfold decodeStart in Hd. destruct (st_Target start) as [target|]; [|done].
  apply res_bind_ok in Hd as (env & Henv & Hd). injection Hd as <-. simpl.
  apply decode_environment_iff in Henv as (Hnd & Hall & _ & Hmap). rewrite (right_id_L ∅ (∪)) in Hmap. subst env.
  assert (Hin : ∀ n v, list_to_map (M:=gmap string string) (st_Environment start) !! n = Some v ↔ (n, v) ∈ st_Environment start).
  { intros n v. by rewrite elem_of_list_to_map. }
  split_and!; try done.
  - destruct target; [by left|by right].
  - intros n v Hn. apply Hin in Hn. rewrite Forall_forall in Hall. by apply (Hall (n, v)).
Qed.
End client.

(** ** Streams *)

Section streams.
Context {M : Type} `{HP : ProtoMessage M, !ProtoLaws M}.

(** Cutting a stream into frames loses nothing and always ends: if
    [chunkedFrames] succeeds, the frames decode, in order, to non-empty chunks
    whose concatenation is the data, and each frame is within the limit (the
    default one if none is given); its only error is a limit too small for
    data. *)
Theorem chunks_roundtrip (build : bytes → M) (data : bytes) (maximum : Z) :
  let limit := if maximum <=? 0 then defaultMaximumFrameSize else maximum in
  match chunkedFrames data maximum build with
  | Ok frames => ∃ chunks, concat chunks = data ∧
      Forall2 (λ chunk frame, chunk ≠ [] ∧ unmarshalMessage frame = Ok (build chunk) ∧ blen frame <= limit) chunks frames
  | Err e => e = NewError "maximum command frame size cannot carry data"
  end.
Proof.
  intros limit. assert (Hlim : 1 <= limit) by (unfold limit, defaultMaximumFrameSize; destruct (Z.leb_spec maximum 0); lia).
  unfold chunkedFrames. destruct (Z.eqb_spec (blen data) 0) as [Hz|Hz].
  { exists []. split; [|constructor]. destruct data as [|b data]; [done|]. rewrite blen_cons in Hz. pose proof (blen_nonneg data). lia. }
  fold limit. pose proof (chunk_loop_spec build (length data) limit data (le_n _) Hlim) as Hspec.
  destruct (chunk_loop _ _ _ _) as [frames|e]; [|done]. destruct Hspec as (chunks & Hc & Hall).
  exists chunks. split; [done|]. eapply Forall2_impl; [exact Hall|]. intros chunk frame [Hne Hm].
  split_and!; [done|by eapply unmarshal_frame|]. apply marshalMessage_ok in Hm as (_ & _ & _ & Hmax). apply Hmax. lia.
Qed.

(** With an encoding in which a prefix never needs a larger frame, a stream can
    be cut whatever it holds, as soon as a single byte fits a frame. *)
Theorem chunks_succeed (build : bytes → M) (data : bytes) (maximum : Z) (Hpos : 1 <= maximum)
  (Hmono : monotone build maximum) (Hone : ∀ b, is_ok (marshalMessage (build [b]) maximum) = true) :
  is_ok (chunkedFrames data maximum build) = true.
Proof.
  unfold chunkedFrames. destruct (blen data =? 0); [done|]. destruct (Z.leb_spec maximum 0); [lia|].
  by apply chunk_loop_total.
Qed.
End streams.

(** ** Witnesses *)

(** An encoding of input chunks and of exec starts with one variable. *)
#[local] Instance toy_client_frame : ProtoMessage ClientFrame := {|
  proto_validate _ := None;
  proto_marshal f :=
    match f with
    | CStdin data => Ok (x02 :: data)
    | CStart (MkStart 1 (Some (TExec command)) None [(name, value)]) =>
        Ok (x01 :: put_fields [String.list_byte_of_string command; String.list_byte_of_string name;
                               String.list_byte_of_string value])
    | _ => Err (NewError "not supported")
    end;
  proto_unmarshal b :=
    match b with
    | x02 :: data => Ok (CStdin data)
    | x01 :: b =>
        match get_fields 3 b with
        | Some [c; n; v] =>
            Ok (CStart (MkStart 1 (Some (TExec (String.string_of_list_byte c))) None
                  [(String.string_of_list_byte n, String.string_of_list_byte v)]))
        | _ => Err (NewError "proto: cannot parse")
        end
    | _ => Err (NewError "proto: cannot parse")
    end;
|}.

#[local] Instance toy_client_frame_laws : ProtoLaws ClientFrame.
Proof.
  split. intros f b Hb. destruct f as [[v t p env]|data| |]; simpl in Hb; try discriminate.
  - repeat case_match; try discriminate. simplify_eq. cbn [proto_unmarshal toy_client_frame].
    match goal with |- context [get_fields _ (put_fields ?l)] =>
      pose proof (get_put_fields l []) as Hg; rewrite app_nil_r in Hg; cbn [length] in Hg; rewrite Hg end.
    by rewrite !String.string_of_list_byte_of_string.
  - by injection Hb as <-.
Qed.

Definition toy_start : StartRequest := MkStartRequest StartExec "make" None {[ "TERM" := "xterm" ]}.

Lemma toy_start_clean : clean_environment (sr_Environment toy_start).
Proof. intros n v Hn. unfold toy_start in Hn. cbn [sr_Environment] in Hn. apply lookup_singleton_Some in Hn as [<- <-]. by split. Qed.

Definition toy_start_frame : bytes := match EncodeClientStart toy_start ["TERM"] 100 with Ok b => b | Err _ => [] end.

Lemma start_roundtrip_witness :
  ∃ start, unmarshalMessage toy_start_frame = Ok (CStart start) ∧ decodeStart start = Ok (canonical toy_start).
Proof.
  apply (start_roundtrip toy_start ["TERM"] 100 toy_start_frame).
  - unfold map_order, toy_start. cbn [sr_Environment]. by rewrite map_to_list_singleton.
  - exact toy_start_clean.
  - vm_compute. reflexivity.
Defined.

Lemma decoded_start_clean_witness : clean_environment {[ "TERM" := "xterm" ]}.
Proof.
  apply (decoded_start_clean (MkStart 1 (Some (TExec "make")) None [("TERM", "xterm")]) toy_start). reflexivity.
Defined.

Lemma chunks_succeed_witness : is_ok (chunkedFrames [x61; x62; x63; x64; x65] 3 CStdin) = true.
Proof.
  apply (chunks_succeed CStdin [x61; x62; x63; x64; x65] 3); [lia| |reflexivity].
  intros data n m Hm Hn. unfold marshalMessage. cbn [proto_validate proto_marshal toy_client_frame wrap_err mbind res_bind].
  rewrite !blen_cons. pose proof (blen_nonneg (take (Z.to_nat n) data)). pose proof (blen_nonneg (take (Z.to_nat m) data)).
  assert (blen (take (Z.to_nat m) data) <= blen (take (Z.to_nat n) data)) by (unfold blen; rewrite !length_take; lia).
  repeat (match goal with |- context [?a =? ?b] => destruct (Z.eqb_spec a b) end; try lia).
  repeat (match goal with |- context [?a <? ?b] => destruct (Z.ltb_spec a b) end; try lia); simpl; try done; lia.
Defined.

Lemma chunks_roundtrip_witness :
  ∃ chunks, concat chunks = [x61; x62; x63; x64; x65] ∧
    Forall2 (λ chunk frame, chunk ≠ [] ∧ unmarshalMessage frame = Ok (CStdin chunk) ∧ blen frame <= 3) chunks
      [[x02; x61; x62]; [x02; x63; x64]; [x02; x65]].
Proof. exact (chunks_roundtrip CStdin [x61; x62; x63; x64; x65] 3). Defined.
