(* ===== verification/CommandChannel.v ===== *)
(** * Commands over a session channel (app/commandchannel/conn.go)

    The adapter that presents a channel of a session ([SessionOps]) as the frame
    connection of the command protocol ([CommandCodec]), with the check both ends
    of that protocol make before they use it (lib/command/frame.go). *)

From S2P Require Import Prelude Wire SessionConfig SessionTypes SessionOps SessionSteps SessionChannel CommandCodec.

(** [Conn]: the channel it wraps; [None] when the connection or its channel is nil. *)
Definition Conn : Type := option Z.

Definition errNoConnection : error := NewError "command channel connection is required".

(** [Channel.MaxSendFrameSize] *)
Definition channel_MaxSendFrameSize (s : Session) (id : Z) : Z := ch_maxRemotePacket (chan s id).

Section adapter.
Context `{ProtoSize}.

Definition commandchannel_New (channel : option Z) : res Conn :=
  match channel with
  | None => Err (NewError "session channel is required")
  | Some id => Ok (Some id)
  end.

Definition conn_Context (c : Conn) : CtxRef :=
  match c with None => CtxBackground | Some id => CtxChannel id end.

Definition conn_SendFrame (c : Conn) (frame : bytes) (wake : Wake) : M CallResult :=
  match c with None => st_fail errNoConnection | Some id => channel_Send id frame wake end.

Definition conn_ReceiveFrame (c : Conn) (wake : Wake) : M CallResult :=
  match c with None => st_fail errNoConnection | Some id => channel_Recv id wake end.

Definition conn_MaxSendFrameSize (c : Conn) (s : Session) : Z :=
  match c with None => 0 | Some id => channel_MaxSendFrameSize s id end.

Definition conn_Close (c : Conn) : M unit :=
  match c with None => mret tt | Some id => channel_Close id end.

(** frame.go; [None] is the nil interface. *)
Definition validateFrameConn (conn : option Conn) (s : Session) : res unit :=
  match conn with
  | None => Err (NewError "command frame connection is required")
  | Some c => reject_if (conn_MaxSendFrameSize c s <=? 0) (NewError "command maximum send frame size must be greater than zero")
  end.
End adapter.

(** ** What was encoded for a channel can be sent on it *)

Section fits.
Context `{ProtoSizeLaws} (cfg : Config) (Hcfg : config_ok cfg).

Lemma run_peer l s id c : reachable cfg s → Forall action_wf l → s_store s !! id = Some c → ch_state c ≠ channelOpening →
  ∃ c', s_store (run l s) !! id = Some c' ∧ ch_maxRemotePacket c' = ch_maxRemotePacket c ∧ ch_peerID c' = ch_peerID c.
Proof.
  revert s c. induction l as [|a l IH]; intros s c Hs Hl Hc Hst; [by exists c|]. apply Forall_cons in Hl as [Ha Hl].
  destruct (step_peer cfg Hcfg s a id c Hs Ha Hc Hst) as (c1 & Hc1 & Hst1 & <- & <-). apply IH; [by constructor|done..].
Qed.

(** Why [Send] refuses a frame that fits. *)
Definition send_refused (s : Session) (c : Channel) (wake : Wake) (e : error) : Prop :=
  channelErrorLocked s c = Some e ∨
  canSendData (ch_state c) = false ∧ (e = errChannelWriteEOF ∨ e = errChannelClosed) ∨
  wake = WakeCtx e ∨ wake = WakeChannel ∧ is_Some (ch_cause s c) ∧ e = errChannelClosed.

Lemma send_fitting s id c frame wake : s_store s !! id = Some c → is_u32 (ch_maxRemotePacket c) →
  0 < blen frame <= ch_maxRemotePacket c →
  wp (channel_Send id frame wake) (λ r s',
    match r with
    | Ok (Pending t) => ch_remoteWindow (chan s' id) = ch_remoteWindow c - blen frame ∧
        s_threads s' !! t = Some (TSend CtxUser (EChannelData (Some (ch_peerID c, frame))) AfterNone (KSend id (blen frame)))
    | Ok Blocked => s' = s ∧ ch_remoteWindow c < blen frame
    | Ok (Returned _) => False
    | Err e => s' = s ∧ send_refused s c wake e
    end) s.
Proof.
  intros Hc Hm Hf. unfold is_u32 in Hm. unfold channel_Send.
  rewrite (proj2 (Z.eqb_neq _ _)), (proj2 (Z.ltb_ge MaxUint32 _)) by lia. apply wp_bind, wp_get. cbv zeta.
  rewrite (chan_lookup _ _ _ Hc), (u32_id (blen frame)) by (unfold is_u32; lia). unfold send_refused.
  destruct (channelErrorLocked s c) as [e|] eqn:He; [apply wp_fail; auto|].
  destruct (canSendData (ch_state c)) eqn:Hst; simpl negb; cbv iota.
  2:{ destruct (ch_state c); apply wp_fail; auto 6. }
  rewrite (proj2 (Z.ltb_ge (ch_maxRemotePacket c) _)) by lia. destruct (Z.leb_spec (blen frame) (ch_remoteWindow c)).
  - apply wp_bind, wp_modify. unfold spawn. apply wp_bind, wp_bind, wp_get, wp_bind, wp_modify, wp_ret, wp_ret.
    rewrite (chan_lookup _ _ (take_window (blen frame) c)); [|simpl; by rewrite lookup_alter_eq, Hc].
    split; [done|]. simpl. by rewrite lookup_insert_eq.
  - destruct wake as [e| |]; [apply wp_fail; auto 6| |by apply wp_ret].
    destruct (ch_cause s c) as [e|] eqn:Ec; [|by apply wp_ret]. apply wp_fail. split; [done|]. do 3 right. eauto.
Qed.

End fits.

(** ** A concrete channel *)

#[local] Existing Instance toy_size.
#[local] Existing Instance toy_size_laws.

(** Messages that are their own encoding. *)
#[local] Instance plain_message : ProtoMessage bytes := {|
  proto_validate _ := None;
  proto_marshal b := Ok b;
  proto_unmarshal b := Ok b;
|}.


Example toy_frame_sent :
  (conn_SendFrame (Some 0) [x01; x02] WakeState open_session).2 = Ok (Pending (s_nextThread open_session)) ∧
  is_ok (conn_SendFrame None [x01] WakeState open_session).2 = false ∧ commandchannel_New (Some 0) = Ok (Some 0).
Proof. vm_compute. done. Qed.
