(* ===== verification/CommandServer.v ===== *)
(** * The command server (lib/command/server.go)

    One command over one frame connection: the start exchange, the input loop, the
    copying of output, the select loop that supervises them, the drain and the
    exit message.  The connection is a [Framer]; the process ([RunningProcess])
    and the [Starter] are arguments.  The goroutines of [serve] appear as the
    events its select loops receive; a [ReceiveFrame] of the input loop and a
    [Read] of a copier are elements of a list of results. *)

From S2P Require Import Prelude GoStrings Wire CommandCodec.

Definition genericStartRejectCode : string := "start-rejected".
Definition genericStartRejectMessage : string := "command could not be started".
Definition genericRuntimeMessage : string := "command terminated because of a protocol or runtime failure".

Definition ErrUnexpectedEOF : error := Sentinel "unexpected EOF".
Definition DeadlineExceeded : error := Sentinel "context deadline exceeded".

(** int32(result.Status) *)
Definition int32 (z : Z) : Z := (z + 2147483648) mod 4294967296 - 2147483648.

(** ** Sending *)

Section sending.
Context {S : Type} (conn : Framer S) (maxSendFrameSize : Z) `{ProtoMessage ClientFrame} `{ProtoMessage ServerFrame}.

Definition validateFrameConn : res unit :=
  reject_if (maxSendFrameSize <=? 0) (NewError "command maximum send frame size must be greater than zero").

Definition sendEncoded (frame : bytes) : ST S unit := SendFrame conn frame.

Definition sendMessage (message : ServerFrame) : ST S unit :=
  frame ← st_lift (marshalMessage message maxSendFrameSize); sendEncoded frame.

Definition sendStartResult (accepted : bool) : ST S unit :=
  sendMessage (if accepted then SStartResult true "" ""
               else SStartResult false genericStartRejectCode genericStartRejectMessage).

Definition exit_message (result : ExitResult) : ExitMessage :=
  if negb (bool_decide (ex_RuntimeFailure result = ""%string)) then ExRuntimeFailure (ex_RuntimeFailure result)
  else if negb (bool_decide (ex_Signal result = ""%string)) then ExSignal (ex_Signal result)
  else ExStatus (int32 (ex_Status result)).

Definition sendExit (result : ExitResult) : ST S unit := sendMessage (SExit (Some (exit_message result))).

(** ** copyOutput *)

(** What one [Read] returned: the bytes and, at the end, [Some None] for EOF or
    [Some (Some e)] for another error. *)
Definition read_result : Type := bytes * option (option error).

Fixpoint send_frames (frames : list bytes) : ST S unit :=
  match frames with
  | [] => mret tt
  | frame :: rest => sendEncoded frame ≫= λ _, send_frames rest
  end.

(** The result sent on the channel; [None] while reads go on. *)
Fixpoint copyOutput (build : bytes → ServerFrame) (reads : list read_result) : ST S (option (option error)) :=
  match reads with
  | [] => mret None
  | (data, err) :: rest =>
      r ← st_try (if blen data =? 0 then mret tt
                  else (frames ← st_lift (chunkedFrames data maxSendFrameSize build); send_frames frames));
      match r with
      | Err e => mret (Some (Some e))
      | Ok _ => match err with Some result => mret (Some result) | None => copyOutput build rest end
      end
  end.
End sending.

(** ** receiveInput *)

Inductive call := PWriteStdin (data : bytes) | PCloseStdin | PResize (size : WindowSize).

Section input.
Context {P : Type} (perform : call → ST P unit) `{ProtoMessage ClientFrame}.

(** The call a message asks for, or the protocol error it is. *)
Definition input_call (hasPTY stdinEOF : bool) (message : ClientFrame) : res call :=
  match message with
  | CStart _ => Err (protocol_error "duplicate start")
  | CStdin data => reject_if stdinEOF (protocol_error "stdin after EOF") ≫= λ _, mret (PWriteStdin data)
  | CStdinEof => reject_if stdinEOF (protocol_error "duplicate stdin EOF") ≫= λ _, mret PCloseStdin
  | CWindowChange rows columns =>
      reject_if (negb hasPTY) (protocol_error "window change requires PTY") ≫= λ _,
      mret (PResize (MkWindowSize rows columns))
  end.

Definition call_error (c : call) : string :=
  match c with
  | PWriteStdin _ => "write process stdin" | PCloseStdin => "close process stdin" | PResize _ => "resize process PTY"
  end.

(** The error [receiveInput] returned; [None] while it waits for a frame. *)
Fixpoint receiveInput (hasPTY stdinEOF : bool) (received : list (res bytes)) : ST P (option error) :=
  match received with
  | [] => mret None
  | Err e :: _ => mret (Some e)
  | Ok frame :: rest =>
      match unmarshalMessage (M:=ClientFrame) frame with
      | Err e => mret (Some (Wrapped e "invalid client frame"))
      | Ok message =>
          match input_call hasPTY stdinEOF message with
          | Err e => mret (Some e)
          | Ok c =>
              r ← st_try (perform c);
              match r with
              | Err e => mret (Some (Wrapped e (call_error c)))
              | Ok _ => receiveInput hasPTY (stdinEOF || match c with PCloseStdin => true | _ => false end) rest
              end
          end
      end
  end.
End input.

(** ** serve *)

Inductive serve_phase :=
  | Starting
  | Supervising         (** the first select loop: the process runs *)
  | Draining            (** the second: its output is drained *)
  | Finished (result : option error).

#[export] Instance serve_phase_eq_dec : EqDecision serve_phase.
Proof. solve_decision. Defined.

(** Calls of [serve] on the process besides those of the input loop. *)
Inductive control := PTerminate (cause : error) | PWait | PCloseOutput.

Record server := MkServer {
  sv_phase : serve_phase;
  sv_control : list control;
  sv_pendingOutputs : Z;
  sv_inputPending : bool;
  sv_failure : option error;              (** protocolFailure *)
  sv_result : option ExitResult;          (** processResult, once processExited *)
  sv_connCause : option error;            (** context.Cause(conn.Context()) *)
  sv_sent : list ServerFrame;             (** messages of serve itself: the start result and the exit *)
}.

Definition new_server : server := MkServer Starting [] 0 false None None None [].

(** What the starter returned for the decoded request. *)
Inductive start_outcome := StartFailed (e : error) | NoProcess | Started (hasStderr : bool).

(** The outcome of a [sendMessage] of serve: [None] is success. *)
Definition sent_ok (e : option error) : bool := match e with None => true | Some _ => false end.

(** [fail] *)
Definition serve_fail (err : option error) (s : server) : server :=
  let err := default ErrUnexpectedEOF err in
  match sv_failure s with
  | Some _ => s
  | None => MkServer (sv_phase s) (sv_control s ++ [PTerminate err]) (sv_pendingOutputs s) (sv_inputPending s)
              (Some err) (sv_result s) (sv_connCause s) (sv_sent s)
  end.

Definition finish_with (r : option error) (calls : list control) (frames : list ServerFrame) (s : server) : server :=
  MkServer (Finished r) (sv_control s ++ calls) (sv_pendingOutputs s) (sv_inputPending s) (sv_failure s) (sv_result s)
    (sv_connCause s) (sv_sent s ++ frames).

Definition reject_frame : ServerFrame := SStartResult false genericStartRejectCode genericStartRejectMessage.

(** The start exchange: the first frame, the starter, and the outcome [sent] of
    the acceptance. *)
Definition serve_start `{ProtoMessage ClientFrame} (first : res bytes) (starter : StartRequest → start_outcome)
    (sent : option error) (s : server) : server :=
  match first with
  | Err e => finish_with (Some (Wrapped e "receive command start")) [] [] s
  | Ok frame =>
    match unmarshalMessage (M:=ClientFrame) frame with
    | Err e => finish_with (Some (Wrapped e "invalid initial client frame")) [] [reject_frame] s
    | Ok (CStart start) =>
      match decodeStart start with
      | Err e => finish_with (Some (Wrapped e "invalid start request")) [] [reject_frame] s
      | Ok request =>
        match starter request with
        | StartFailed e => finish_with (Some (Wrapped e "start command")) [] [reject_frame] s
        | NoProcess => finish_with (Some (NewError "command starter returned no running process")) [] [reject_frame] s
        | Started hasStderr =>
          match sent with
          | Some e => finish_with (Some (Wrapped e "send command start acceptance")) [PTerminate e; PWait]
                        [SStartResult true "" ""] s
          | None => MkServer Supervising (sv_control s) (if hasStderr then 2 else 1) true None None (sv_connCause s)
                      (sv_sent s ++ [SStartResult true "" ""])
          end
        end
      end
    | Ok _ => finish_with (Some (protocol_error "first client frame must be start")) [] [reject_frame] s
    end
  end.

(** What a select of [serve] receives; [ConnClosed] is the moment the context of
    the connection ends. *)
Inductive event :=
  | InputDone (err : option error)
  | OutputDone (err : option error)
  | ProcessExit (result : ExitResult)
  | ConnDone
  | ConnClosed (cause : error)
  | DrainTimeout
  | ExitSent (err : option error).        (** the outcome of the last message *)

Definition with_pending (n : Z) (s : server) : server :=
  MkServer (sv_phase s) (sv_control s) n (sv_inputPending s) (sv_failure s) (sv_result s) (sv_connCause s) (sv_sent s).

Definition no_input (s : server) : server :=
  MkServer (sv_phase s) (sv_control s) (sv_pendingOutputs s) false (sv_failure s) (sv_result s) (sv_connCause s) (sv_sent s).

Definition close_output (s : server) : server :=
  MkServer (sv_phase s) (sv_control s ++ [PCloseOutput]) 0 (sv_inputPending s) (sv_failure s) (sv_result s)
    (sv_connCause s) (sv_sent s).

Definition output_done (msg : string) (err : option error) (s : server) : server :=
  let s := with_pending (sv_pendingOutputs s - 1) s in
  match err, sv_connCause s with
  | Some e, None => serve_fail (Some (Wrapped e msg)) s
  | _, _ => s
  end.

(** The result that is reported. *)
Definition reported (s : server) (r : ExitResult) : ExitResult :=
  match sv_failure s with Some _ => MkExitResult 0 "" genericRuntimeMessage | None => r end.

(** One step; [None] when the event cannot happen in the state. *)
Definition serve_step (e : event) (s : server) : option server :=
  match e, sv_phase s with
  | ConnClosed cause, (Supervising | Draining) =>
      match sv_connCause s with
      | None => Some (MkServer (sv_phase s) (sv_control s) (sv_pendingOutputs s) (sv_inputPending s) (sv_failure s)
                        (sv_result s) (Some cause) (sv_sent s))
      | Some _ => None
      end
  | InputDone err, Supervising =>
      if sv_inputPending s then
        Some (match sv_connCause s with None => serve_fail err (no_input s) | Some _ => no_input s end)
      else None
  | OutputDone err, Supervising =>
      if 0 <? sv_pendingOutputs s then Some (output_done "forward command output" err s) else None
  | ProcessExit result, Supervising =>
      Some (MkServer Draining (sv_control s) (sv_pendingOutputs s) (sv_inputPending s) (sv_failure s) (Some result)
              (sv_connCause s) (sv_sent s))
  | ConnDone, Supervising =>
      match sv_connCause s with Some cause => Some (serve_fail (Some cause) s) | None => None end
  | OutputDone err, Draining =>
      if 0 <? sv_pendingOutputs s then Some (output_done "drain command output" err s) else None
  | DrainTimeout, Draining =>
      if 0 <? sv_pendingOutputs s then Some (close_output (serve_fail (Some DeadlineExceeded) s)) else None
  | ConnDone, Draining =>
      match sv_connCause s with
      | Some cause => if 0 <? sv_pendingOutputs s then Some (close_output (serve_fail (Some cause) s)) else None
      | None => None
      end
  | ExitSent err, Draining =>
      match sv_result s with
      | Some result =>
          if 0 <? sv_pendingOutputs s then None
          else Some (finish_with (match err with Some e => Some (Wrapped e "send command exit") | None => sv_failure s end)
                       [] [SExit (Some (exit_message (reported s result)))] s)
      | None => None
      end
  | _, _ => None
  end.

Fixpoint serve_run (events : list event) (s : server) : option server :=
  match events with
  | [] => Some s
  | e :: rest => match serve_step e s with Some s' => serve_run rest s' | None => None end
  end.

(** ** The input loop *)

(** The calls made on the process, in order, whether or not they succeed. *)
Definition logged {P} (perform : call → ST P unit) : call → ST (P * list call) unit := λ c '(p, log),
  let '(p', r) := perform c p in ((p', log ++ [c]), r).

(** What a message asks for, without the protocol checks. *)
Definition call_of (m : ClientFrame) : list call :=
  match m with
  | CStart _ => [] | CStdin data => [PWriteStdin data] | CStdinEof => [PCloseStdin]
  | CWindowChange rows columns => [PResize (MkWindowSize rows columns)]
  end.

Section input_facts.
Context {P : Type} (perform : call → ST P unit) `{ProtoMessage ClientFrame}.

Lemma input_call_ok hasPTY eof m c : input_call hasPTY eof m = Ok c →
  call_of m = [c] ∧ (eof = true → ∃ size, c = PResize size) ∧ (∀ size, c = PResize size → hasPTY = true).
Proof.
  destruct m; simpl; [done|..]; rewrite reject_if_then; intros [Hb [= <-]]; (split; [done|]); split; try done.
  - by rewrite Hb.
  - by rewrite Hb.
  - eauto.
  - by apply negb_false_iff in Hb.
Qed.

(** The log of the loop from any point. *)
Lemma receiveInput_log hasPTY eof received p log0 p' log r :
  receiveInput (logged perform) hasPTY eof received (p, log0) = ((p', log), r) →
  ∃ messages calls rest, log = log0 ++ calls ∧ received = rest.1 ++ rest.2 ∧
    Forall2 (λ x m, ∃ f, x = Ok f ∧ unmarshalMessage f = Ok m) rest.1 messages ∧
    calls = concat (call_of <$> messages) ∧
    (∀ pre c post, calls = pre ++ c :: post → eof = true ∨ PCloseStdin ∈ pre → ∃ size, c = PResize size) ∧
    (∀ size, PResize size ∈ calls → hasPTY = true).
Proof.
  revert eof p log0. induction received as [|x received IH]; intros eof p log0 Hr; simpl in Hr.
  { injection Hr as <- <- _. exists [], [], ([], []). rewrite app_nil_r.
    split_and!; try done; intros []; intros; by set_solver. }
  assert (Hstop : (p, log0) = (p', log) → ∃ messages calls rest, log = log0 ++ calls ∧ x :: received = rest.1 ++ rest.2 ∧
    Forall2 (λ x m, ∃ f, x = Ok f ∧ unmarshalMessage f = Ok m) rest.1 messages ∧ calls = concat (call_of <$> messages) ∧
    (∀ pre c post, calls = pre ++ c :: post → eof = true ∨ PCloseStdin ∈ pre → ∃ size, c = PResize size) ∧
    (∀ size, PResize size ∈ calls → hasPTY = true)).
  { intros [= <- <-]. exists [], [], ([], x :: received). rewrite app_nil_r.
    split_and!; try done; intros []; intros; by set_solver. }
  destruct x as [frame|e]; [|injection Hr as ???; apply Hstop; congruence].
  destruct (unmarshalMessage frame) as [m|e] eqn:Hm; [|injection Hr as ???; apply Hstop; congruence].
  destruct (input_call hasPTY eof m) as [c|e] eqn:Hc; [|injection Hr as ???; apply Hstop; congruence]. clear Hstop.
  destruct (input_call_ok _ _ _ _ Hc) as (Hcall & Heof & Hpty).
  unfold mbind, ST_bind, st_try, logged at 1 in Hr. destruct (perform c p) as [p1 [[]|e]].
  2:{ injection Hr as <- <- _. exists [m], [c], ([Ok frame], received).
      split_and!; try done; [repeat constructor; eauto|by simpl; rewrite Hcall| |].
      - intros pre c' post Hpre [?|Hin]; destruct pre as [|? [|]]; simplify_eq/=; [auto|by apply elem_of_nil in Hin].
      - intros size [?|?%elem_of_nil]%elem_of_cons; [by eapply Hpty|done]. }
  apply IH in Hr as (messages & calls & rest & -> & -> & Hall & -> & Hdisc & Hres).
  exists (m :: messages), (c :: concat (call_of <$> messages)), (Ok frame :: rest.1, rest.2).
  split_and!; simpl; [by rewrite <-app_assoc|done|constructor; eauto|by rewrite Hcall| |].
  - intros pre c' post Hpre Hcl. destruct pre as [|c0 pre]; simplify_eq/=.
    { destruct Hcl as [?|?%elem_of_nil]; [auto|done]. }
    apply (Hdisc pre c' post); [done|]. destruct Hcl as [->|Hin]; [by left|].
    apply elem_of_cons in Hin as [<-|Hin]; [left; by rewrite orb_true_r|by right].
  - intros size Hin. apply elem_of_cons in Hin as [Heq|Hin]; [by eapply (Hpty size)|by eapply Hres].
Qed.

(** The process sees its input as the client sent it: the calls made on it are
    those of a prefix of the received messages, in order; after the end of input
    only window changes follow, so nothing is written after the end and it is
    closed at most once; and a window change reaches only a process with a
    terminal. *)
Theorem input_in_order hasPTY received (p p' : P) log r
  (Hr : receiveInput (logged perform) hasPTY false received (p, []) = ((p', log), r)) :
  (∃ messages taken left, received = taken ++ left ∧
     Forall2 (λ x m, ∃ f, x = Ok f ∧ unmarshalMessage f = Ok m) taken messages ∧
     log = concat (call_of <$> messages)) ∧
  (∀ pre c post, log = pre ++ c :: post → PCloseStdin ∈ pre → ∃ size, c = PResize size) ∧
  (∀ size, PResize size ∈ log → hasPTY = true).
Proof.
  destruct (receiveInput_log _ _ _ _ _ _ _ _ Hr) as (messages & calls & [taken left] & -> & Hrec & Hall & -> & Hdisc & Hres).
  split_and!; [by exists messages, taken, left| |done]. intros pre c post Hp Hin. eapply Hdisc; [exact Hp|by right].
Qed.
End input_facts.

(** ** Output *)

(** The bytes a copier has read: up to the read that ended it. *)
Fixpoint read_data (reads : list read_result) : bytes :=
  match reads with
  | [] => []
  | (data, err) :: rest => data ++ match err with Some _ => [] | None => read_data rest end
  end.

Section carrying.
Context {M : Type} `{HP : ProtoMessage M, !ProtoLaws M} (maxSize : Z) (build : bytes → M).

(** [frames] carry [data], cut into chunks. *)
Definition carries (frames : list bytes) (data : bytes) : Prop :=
  ∃ chunks, concat chunks = data ∧ Forall2 (λ frame chunk, unmarshalMessage frame = Ok (build chunk)) frames chunks.

Lemma carries_nil : carries [] [].
Proof. exists []. by split; [|constructor]. Qed.

Lemma carries_app f d f' d' : carries f d → carries f' d' → carries (f ++ f') (d ++ d').
Proof.
  intros (c & <- & Hf) (c' & <- & Hf'). exists (c ++ c'). split; [by rewrite concat_app|by apply Forall2_app].
Qed.

Lemma chunked_carries data frames : chunkedFrames data maxSize build = Ok frames → carries frames data.
Proof.
  intros Hc. unfold chunkedFrames in Hc. destruct (Z.eqb_spec (blen data) 0) as [Hz|Hz].
  { injection Hc as <-. destruct data as [|b data]; [apply carries_nil|]. rewrite blen_cons in Hz. pose proof (blen_nonneg data). lia. }
  set (limit := if maxSize <=? 0 then _ else _) in Hc.
  assert (1 <= limit) by (unfold limit, defaultMaximumFrameSize; destruct (Z.leb_spec maxSize 0); lia).
  pose proof (chunk_loop_spec build (length data) limit data (le_n _) ltac:(done)) as Hspec. rewrite Hc in Hspec.
  destruct Hspec as (chunks & <- & Hall). exists chunks. split; [done|]. apply Forall2_flip.
  eapply Forall2_impl; [exact Hall|]. intros chunk frame [_ Hm]. by eapply unmarshal_frame.
Qed.

Lemma carries_prefix frames data pre : carries frames data → pre `prefix_of` frames →
  ∃ d, d `prefix_of` data ∧ carries pre d.
Proof.
  intros (chunks & <- & Hall) [post ->]. apply Forall2_app_inv_l in Hall as (c1 & c2 & H1 & H2 & ->).
  exists (concat c1). split; [rewrite concat_app; by eexists|by exists c1].
Qed.
End carrying.

Section output_facts.
Context {S : Type} (fr : Framer S) (maxSize : Z) `{HS : ProtoMessage ServerFrame, !ProtoLaws ServerFrame}.
Context (build : bytes → ServerFrame).

(** Sending stops at the first failure; the frames handed to the connection are
    a prefix, all of them on success. *)
Lemma send_frames_log frames s log s' log' r :
  send_frames (recording fr) frames (s, log) = ((s', log'), r) →
  ∃ sent, log' = log ++ sent ∧ sent `prefix_of` frames ∧ (r = Ok tt → sent = frames).
Proof.
  revert s log. induction frames as [|f frames IH]; intros s log Hs; simpl in Hs.
  { injection Hs as <- <- <-. exists []. by rewrite app_nil_r. }
  unfold mbind, ST_bind, sendEncoded in Hs. simpl in Hs. destruct (SendFrame fr f s) as [s1 [[]|e]].
  - apply IH in Hs as (sent & -> & Hp & Hok). exists (f :: sent). rewrite <-app_assoc.
    split_and!; [done|by apply prefix_cons|intros Hr; by rewrite Hok].
  - injection Hs as <- <- <-. exists [f]. split_and!; [done|apply prefix_cons, prefix_nil|done].
Qed.

Lemma copyOutput_log reads s log s' log' r :
  copyOutput (recording fr) maxSize build reads (s, log) = ((s', log'), r) →
  ∃ frames data, log' = log ++ frames ∧ carries build frames data ∧ data `prefix_of` read_data reads ∧
    (r = Ok (Some None) → data = read_data reads).
Proof.
  revert s log. induction reads as [|[data err] reads IH]; intros s log Hc; simpl in Hc.
  { injection Hc as <- <- <-. exists [], []. rewrite app_nil_r. split_and!; [done|apply carries_nil|done..]. }
  unfold mbind, ST_bind, st_try in Hc.
  match type of Hc with context [(if blen data =? 0 then ?a else ?b) (s, log)] =>
    set (step := (if blen data =? 0 then a else b) (s, log)) in Hc end.
  assert (Hstep : ∃ sent d, step.1.2 = log ++ sent ∧ carries build sent d ∧ d `prefix_of` data ∧
    (∀ u, step.2 = Ok u → d = data)).
  { unfold step. destruct (Z.eqb_spec (blen data) 0) as [Hz|Hz].
    { exists [], []. destruct data as [|b data]; [|rewrite blen_cons in Hz; pose proof (blen_nonneg data); lia].
      rewrite app_nil_r. split_and!; [done|apply carries_nil|done..]. }
    unfold st_lift. destruct (chunkedFrames data maxSize build) as [frames|e] eqn:Hf.
    2:{ exists [], []. rewrite app_nil_r. split_and!; [done|apply carries_nil|apply prefix_nil|done]. }
    destruct (send_frames (recording fr) frames (s, log)) as [[s1 log1] r1] eqn:Hs.
    apply send_frames_log in Hs as (sent & -> & Hp & Hok). simpl.
    apply (chunked_carries maxSize build) in Hf. destruct (carries_prefix build _ _ _ Hf Hp) as (d & Hd & Hcar).
    destruct r1 as [[]|e]; [|exists sent, d; by split_and!].
    exists sent, data. rewrite (Hok eq_refl). by split_and!. }
  destruct step as [[s1 log1] r1]. simpl in Hstep. destruct Hstep as (sent & d & -> & Hcar & Hd & Hok). simpl in Hc.
  destruct r1 as [u|e].
  2:{ injection Hc as <- <- <-. exists sent, d. split_and!; [done..|by apply prefix_app_r|done]. }
  assert (d = data) as -> by by eapply Hok. destruct err as [result|].
  { injection Hc as <- <- <-. exists sent, data. simpl. rewrite app_nil_r. by split_and!. }
  apply IH in Hc as (frames & data' & -> & Hcar' & Hp' & Hr). exists (sent ++ frames), (data ++ data').
  simpl. split_and!; [by rewrite app_assoc|by apply carries_app|by apply prefix_app|intros E; by rewrite Hr].
Qed.
End output_facts.

Section output_theorems.
Context {S : Type} (fr : Framer S) (maxSize : Z) `{HS : ProtoMessage ServerFrame, !ProtoLaws ServerFrame}.

(** The event a client gets for a chunk of a stream. *)
Definition stream_event (stderr : bool) (chunk : bytes) : ServerEvent :=
  if stderr then EventStderr chunk else EventStdout chunk.

Definition stream_frame (stderr : bool) (chunk : bytes) : ServerFrame := if stderr then SStderr chunk else SStdout chunk.

(** The output of a process reaches the client unchanged: the frames a copier
    sends decode, in order, to chunks of its own stream whose concatenation is a
    prefix of what it read, and all of it when the copier reports the end of the
    stream. *)
Theorem output_intact (stderr : bool) reads (s : S) :
  let '((_, log), r) := copyOutput (recording fr) maxSize (stream_frame stderr) reads (s, []) in
  ∃ chunks, Forall2 (λ frame chunk, DecodeServerEvent frame = Ok (stream_event stderr chunk)) log chunks ∧
    concat chunks `prefix_of` read_data reads ∧ (r = Ok (Some None) → concat chunks = read_data reads).
Proof.
  destruct (copyOutput _ _ _ _ _) as [[s' log] r] eqn:Hc.
  destruct (copyOutput_log fr maxSize (stream_frame stderr) _ _ _ _ _ _ Hc) as (frames & data & -> & (chunks & <- & Hall) & Hp & Hr).
  exists chunks. split_and!; [|done|done]. simpl. eapply Forall2_impl; [exact Hall|]. intros frame chunk Hf.
  unfold DecodeServerEvent. rewrite Hf. by destruct stderr.
Qed.

(** The exit of a process reaches the client as one result: a failure of the
    runtime before a signal before a status, the status cut to 32 bits. *)
Theorem exit_roundtrip (result : ExitResult) (s s' : S) log
  (Hsend : sendExit (recording fr) maxSize result (s, []) = ((s', log), Ok tt)) :
  ∃ frame, log = [frame] ∧ DecodeServerEvent frame = Ok (EventExit
    (if bool_decide (ex_RuntimeFailure result = ""%string) then
       if bool_decide (ex_Signal result = ""%string) then MkExitResult (int32 (ex_Status result)) "" ""
       else MkExitResult 0 (ex_Signal result) ""
     else MkExitResult 0 "" (ex_RuntimeFailure result))).
Proof.
  unfold sendExit, sendMessage, mbind, ST_bind, st_lift, sendEncoded in Hsend.
  destruct (marshalMessage _ _) as [frame|] eqn:Hm; [|done]. simpl in Hsend.
  destruct (SendFrame fr frame s) as [s1 r1]. injection Hsend as _ <- _. exists frame. split; [done|].
  unfold DecodeServerEvent. rewrite (unmarshal_frame _ _ _ Hm). simpl. unfold exit_message.
  by repeat case_bool_decide.
Qed.
End output_theorems.

(** ** The supervision *)

Definition is_terminate (c : control) : bool := match c with PTerminate _ => true | _ => false end.

Definition terminations (l : list control) : nat := length (filter (λ c, is_terminate c = true) l).

Lemma terminations_app l k : terminations (l ++ k) = (terminations l + terminations k)%nat.
Proof. unfold terminations. by rewrite filter_app, length_app. Qed.

Definition accept_frame : ServerFrame := SStartResult true "" "".

(** The states of [serve] once the process was accepted. *)
Record supervised (s : server) : Prop := {
  su_pending : 0 <= sv_pendingOutputs s <= 2;
  su_terminated : terminations (sv_control s) = match sv_failure s with Some _ => 1%nat | None => 0%nat end;
  su_phase : match sv_phase s with
             | Starting => False
             | Supervising => sv_result s = None ∧ sv_sent s = [accept_frame]
             | Draining => is_Some (sv_result s) ∧ sv_sent s = [accept_frame]
             | Finished r => sv_pendingOutputs s = 0 ∧
                 ∃ result, sv_result s = Some result ∧
                   sv_sent s = [accept_frame; SExit (Some (exit_message (reported s result)))] ∧
                   (r = None → sv_failure s = None)
             end;
}.

Lemma serve_fail_failure err s : is_Some (sv_failure (serve_fail err s)).
Proof. unfold serve_fail. destruct (sv_failure s) eqn:E; [by rewrite E|]. eexists. done. Qed.

Lemma serve_fail_keeps err s :
  sv_phase (serve_fail err s) = sv_phase s ∧ sv_pendingOutputs (serve_fail err s) = sv_pendingOutputs s ∧
  sv_result (serve_fail err s) = sv_result s ∧ sv_sent (serve_fail err s) = sv_sent s ∧
  sv_connCause (serve_fail err s) = sv_connCause s.
Proof. unfold serve_fail. by destruct (sv_failure s). Qed.

(** Failing keeps the invariant in a running phase. *)
Lemma serve_fail_supervised err s : supervised s → (∀ r, sv_phase s ≠ Finished r) → supervised (serve_fail err s).
Proof.
  intros [Hp Ht Hph] Hrun. unfold serve_fail. destruct (sv_failure s) eqn:E; [by constructor; rewrite ?E|].
  constructor; simpl; [done| |].
  - by rewrite terminations_app, Ht.
  - destruct (sv_phase s) eqn:E'; try done. by destruct (Hrun result).
Qed.

Lemma with_pending_supervised n s : supervised s → (∀ r, sv_phase s ≠ Finished r) → 0 <= n <= 2 → supervised (with_pending n s).
Proof.
  intros [Hp Ht Hph] Hrun Hn. constructor; simpl; try done. destruct (sv_phase s) eqn:E'; try done. by destruct (Hrun result).
Qed.

Lemma output_done_supervised msg err s : supervised s → (∀ r, sv_phase s ≠ Finished r) → 0 < sv_pendingOutputs s →
  supervised (output_done msg err s).
Proof.
  intros Hs Hrun Hpos. unfold output_done.
  assert (Hw : supervised (with_pending (sv_pendingOutputs s - 1) s)).
  { apply with_pending_supervised; [done..|]. destruct Hs. lia. }
  destruct err; [|done]. destruct (sv_connCause _); [done|]. by apply serve_fail_supervised.
Qed.

Lemma close_output_supervised s : supervised s → (∀ r, sv_phase s ≠ Finished r) → supervised (close_output s).
Proof.
  intros [Hp Ht Hph] Hrun. constructor; simpl; [lia|by rewrite terminations_app, Ht, Nat.add_0_r|].
  destruct (sv_phase s) eqn:E'; try done. by destruct (Hrun result).
Qed.

Lemma serve_step_supervised e s s' : supervised s → serve_step e s = Some s' → supervised s'.
Proof.
  intros Hs Hstep.
  assert (Hrun : ∀ r, sv_phase s ≠ Finished r) by (intros r Hr; unfold serve_step in Hstep; rewrite Hr in Hstep; by destruct e).
  assert (Hfail : ∀ err, supervised (close_output (serve_fail err s))).
  { intros err. apply close_output_supervised; [by apply serve_fail_supervised|].
    by destruct (serve_fail_keeps err s) as [-> _]. }
  pose proof (su_phase _ Hs) as Hph. unfold serve_step in Hstep.
  destruct e, (sv_phase s) eqn:Hphase; try done; try (by destruct (Hrun result));
    repeat (case_match; try done); simplify_eq;
    try (apply output_done_supervised; [done|by rewrite Hphase|by apply Z.ltb_lt]); try apply Hfail;
    try (apply serve_fail_supervised; [|by rewrite ?Hphase; simpl; rewrite ?Hphase]); try done;
    try (destruct Hs as [Hp Ht _]; constructor; simpl; rewrite ?Hphase; done).
  1:{ destruct Hs as [Hp Ht _]. destruct Hph as [_ Hsent]. constructor; simpl; [done|done|]. split; [by eexists|done]. }
  all: destruct Hs as [Hp Ht _]; destruct Hph as [_ Hsent];
    constructor; simpl; [done|by rewrite terminations_app, Nat.add_0_r|];
    match goal with Hz : (0 <? _) = false |- _ => apply Z.ltb_ge in Hz end; split; [lia|];
    eexists; rewrite Hsent; by split_and!.
Qed.

(** What the start exchange leaves: a supervised process, or an end in which the
    client was told at most a rejection, or an acceptance that could not be sent
    and a process that was terminated and awaited. *)
Definition start_post (s : server) : Prop :=
  supervised s ∧ sv_phase s = Supervising ∨
  (∃ r, sv_phase s = Finished (Some r)) ∧
    ((sv_sent s = [] ∨ sv_sent s = [reject_frame]) ∧ sv_control s = [] ∨
     sv_sent s = [accept_frame] ∧ ∃ e, sv_control s = [PTerminate e; PWait]).

Section serve_facts.
Context `{ProtoMessage ClientFrame}.

Lemma serve_start_post first starter sent : start_post (serve_start first starter sent new_server).
Proof.
  unfold serve_start. destruct first as [frame|e]; [|right; split; [by eexists|left; split; [by left|done]]].
  assert (Hrej : ∀ e, start_post (finish_with (Some e) [] [reject_frame] new_server)).
  { intros e. right. split; [by eexists|left; split; [by right|done]]. }
  destruct (unmarshalMessage frame) as [[start| | |]|e]; try apply Hrej.
  destruct (decodeStart start) as [request|e]; [|apply Hrej].
  destruct (starter request) as [e| |hasStderr]; [apply Hrej..|].
  destruct sent as [e|].
  { right. split; [by eexists|]. right. split; [done|by exists e]. }
  left. split; [|done]. constructor; simpl; [by destruct hasStderr|done|done].
Qed.

(** A run: the start exchange and then events. *)
Definition served (first : res bytes) (starter : StartRequest → start_outcome) (sent : option error)
    (events : list event) (s : server) : Prop :=
  serve_run events (serve_start first starter sent new_server) = Some s.

Lemma finished_stays events s s' r : sv_phase s = Finished r → serve_run events s = Some s' → s' = s.
Proof.
  destruct events as [|e events]; simpl; [by intros _ [= ->]|]. intros Hp. unfold serve_step. rewrite Hp. by destruct e.
Qed.

Lemma serve_run_supervised events s s' : supervised s → serve_run events s = Some s' → supervised s'.
Proof.
  revert s. induction events as [|e events IH]; intros s Hs; simpl; [by intros [= <-]|].
  destruct (serve_step e s) eqn:E; [|done]. apply IH. by eapply serve_step_supervised.
Qed.

End serve_facts.

(** ** The drain *)

(** What is left of the drain: the outputs still to come, the end of the
    connection if it has not been seen, and the exit message. *)
Definition drain_measure (s : server) : Z :=
  match sv_phase s with
  | Draining => sv_pendingOutputs s + (match sv_connCause s with None => 1 | Some _ => 0 end) + 1
  | _ => 0
  end.

Lemma output_done_keeps msg err s :
  sv_phase (output_done msg err s) = sv_phase s ∧ sv_pendingOutputs (output_done msg err s) = sv_pendingOutputs s - 1 ∧
  sv_connCause (output_done msg err s) = sv_connCause s.
Proof.
  unfold output_done. destruct err as [e|]; [|done]. case_match; [done|].
  destruct (serve_fail_keeps (Some (Wrapped e msg)) (with_pending (sv_pendingOutputs s - 1) s)) as (-> & -> & _ & _ & ->). done.
Qed.

Lemma drain_decreases e s s' : sv_phase s = Draining → 0 <= sv_pendingOutputs s → serve_step e s = Some s' →
  drain_measure s' < drain_measure s ∧ (sv_phase s' = Draining ∨ ∃ r, sv_phase s' = Finished r).
Proof.
  intros Hp Hpend. unfold serve_step. rewrite Hp. destruct e; intros Hstep; try done; repeat (case_match; try done); simplify_eq;
    unfold drain_measure; rewrite Hp; simpl.
  all: try (match goal with |- context [serve_fail ?c ?x] =>
    destruct (serve_fail_keeps c x) as (-> & _ & _ & _ & ->); rewrite Hp;
    match goal with Hz : (0 <? _) = true |- _ => apply Z.ltb_lt in Hz end; split; [case_match; lia|by left] end).
  - destruct (output_done_keeps "drain command output" err s) as (-> & -> & ->). rewrite Hp. split; [lia|by left].
  - split; [match goal with E : sv_connCause s = None |- _ => rewrite E end; lia|by left].
  - split; [case_match; lia|by right; eexists].
  - split; [case_match; lia|by right; eexists].
Qed.

Section drain.
Context `{ProtoMessage ClientFrame}.

(** Once the process has exited, [serve] ends: whatever happens, at most four
    more events occur, and as long as it has not finished there is one that does
    not depend on the client or the process (the drain timer, or the sending of
    the exit message). *)
Theorem drain_terminates first starter sent events more s s'
  (Hs : served first starter sent events s) (Hd : sv_phase s = Draining)
  (Hmore : serve_run more s = Some s') :
  (length more <= 4)%nat ∧
  ((∃ r, sv_phase s' = Finished r) ∨
   sv_phase s' = Draining ∧ (is_Some (serve_step DrainTimeout s') ∨ ∀ err, is_Some (serve_step (ExitSent err) s'))).
Proof.
  assert (Hsup : supervised s).
  { destruct (serve_start_post first starter sent) as [[Hsup _]|[[r Hp] _]]; [by eapply serve_run_supervised|].
    unfold served in Hs. apply (finished_stays _ _ _ _ Hp) in Hs as ->. congruence. }
  assert (Hgen : ∀ more s, supervised s → sv_phase s = Draining ∨ (∃ r, sv_phase s = Finished r) → serve_run more s = Some s' →
    Z.of_nat (length more) <= drain_measure s ∧ supervised s' ∧ (sv_phase s' = Draining ∨ ∃ r, sv_phase s' = Finished r)).
  { clear. induction more as [|e more IH]; intros s Hsup Hp; simpl.
    { intros [= <-]. split_and!; [|done..]. destruct Hsup. unfold drain_measure. repeat case_match; lia. }
    destruct (serve_step e s) as [s1|] eqn:E; [|done]. intros Hrun.
    destruct Hp as [Hp|[r Hp]]; [|unfold serve_step in E; rewrite Hp in E; by destruct e].
    destruct (drain_decreases e s s1 Hp ltac:(destruct Hsup; lia) E) as [Hlt Hp1].
    destruct (IH s1 (serve_step_supervised _ _ _ Hsup E) Hp1 Hrun) as (Hlen & ? & ?). split_and!; [lia|done..]. }
  destruct (Hgen more s Hsup (or_introl Hd) Hmore) as (Hlen & Hsup' & Hp'). split.
  { unfold drain_measure in Hlen. rewrite Hd in Hlen. destruct Hsup as [Hpend _ _]. case_match; lia. }
  destruct Hp' as [Hp'|Hp']; [right|by left]. split; [done|].
  pose proof (su_phase _ Hsup') as Hph. rewrite Hp' in Hph. destruct Hph as [[result Hres] _].
  destruct (Z.ltb_spec 0 (sv_pendingOutputs s')).
  - left. unfold serve_step. rewrite Hp'. destruct (Z.ltb_spec 0 (sv_pendingOutputs s')); [by eexists|lia].
  - right. intros err. unfold serve_step. rewrite Hp', Hres. destruct (Z.ltb_spec 0 (sv_pendingOutputs s')); [lia|by eexists].
Qed.
End drain.

(** The first loop can spin: once the context of the connection has ended and the
    failure is recorded, the select is ready at once and changes nothing until
    the process exits. *)
Lemma closed_connection_spins s cause : sv_phase s = Supervising → sv_connCause s = Some cause → is_Some (sv_failure s) →
  serve_step ConnDone s = Some s.
Proof. intros Hp Hc [e He]. unfold serve_step, serve_fail. by rewrite Hp, Hc, He. Qed.

(** ** Witnesses *)

#[local] Instance toy_server_frame : ProtoMessage ServerFrame := {|
  proto_validate _ := None;
  proto_marshal f :=
    match f with
    | SExit (Some (ExSignal s)) => Ok (x01 :: String.list_byte_of_string s)
    | SStdout data => Ok (x02 :: data)
    | _ => Err (NewError "not supported")
    end;
  proto_unmarshal b :=
    match b with
    | x01 :: b => Ok (SExit (Some (ExSignal (String.string_of_list_byte b))))
    | x02 :: b => Ok (SStdout b)
    | _ => Err (NewError "proto: cannot parse")
    end;
|}.

#[local] Instance toy_server_frame_laws : ProtoLaws ServerFrame.
Proof.
  split. intros f b Hb. simpl in Hb. repeat case_match; simplify_eq; simpl; [done|].
  by rewrite String.string_of_list_byte_of_string.
Qed.

#[local] Instance toy_input_frame : ProtoMessage ClientFrame := {|
  proto_validate _ := None;
  proto_marshal _ := Err (NewError "not supported");
  proto_unmarshal b :=
    match b with
    | x01 :: _ => Ok (CStart (MkStart 1 (Some TShell) None []))
    | x02 :: data => Ok (CStdin data)
    | _ => Ok CStdinEof
    end;
|}.

Definition any_call : call → ST unit unit := λ _, mret tt.

Lemma input_in_order_witness :
  ∃ messages taken left, [Ok [x02; x61]; Ok [x03]; Ok [x02; x62]] = taken ++ left ∧
    Forall2 (λ x m, ∃ f, x = Ok f ∧ unmarshalMessage f = Ok m) taken messages ∧
    [PWriteStdin [x61]; PCloseStdin] = concat (call_of <$> messages).
Proof.
  apply (input_in_order any_call false [Ok [x02; x61]; Ok [x03]; Ok [x02; x62]] tt tt [PWriteStdin [x61]; PCloseStdin]
    (Ok (Some (protocol_error "stdin after EOF")))).
  vm_compute. reflexivity.
Defined.

Lemma exit_roundtrip_witness :
  ∃ frame, [x01 :: String.list_byte_of_string "KILL"] = [frame] ∧
    DecodeServerEvent frame = Ok (EventExit (MkExitResult 0 "KILL" "")).
Proof. apply (exit_roundtrip list_framer 100 (MkExitResult 0 "KILL" "") [] (x01 :: String.list_byte_of_string "KILL")). reflexivity. Defined.

Definition toy_starter : StartRequest → start_outcome := λ _, Started true.
Definition toy_events : list event :=
  [OutputDone None; InputDone None; ProcessExit (MkExitResult 0 "KILL" ""); OutputDone None; ExitSent None].

Definition toy_served (events : list event) : server :=
  default new_server (serve_run events (serve_start (Ok [x01]) toy_starter None new_server)).


Lemma drain_terminates_witness : (length [OutputDone None; DrainTimeout; ExitSent None] <= 4)%nat.
Proof.
  apply (drain_terminates (Ok [x01]) toy_starter None [ProcessExit (MkExitResult 7 "" "")]
    [OutputDone None; DrainTimeout; ExitSent None] (toy_served [ProcessExit (MkExitResult 7 "" "")])
    (toy_served [ProcessExit (MkExitResult 7 "" ""); OutputDone None; DrainTimeout; ExitSent None])); vm_compute; reflexivity.
Defined.

Lemma output_intact_witness :
  ∃ chunks, Forall2 (λ frame chunk, DecodeServerEvent frame = Ok (stream_event false chunk)) [[x02; x61; x62]; [x02; x63]] chunks ∧
    concat chunks `prefix_of` [x61; x62; x63] ∧ (@Ok (option (option error)) (Some None) = Ok (Some None) → concat chunks = [x61; x62; x63]).
Proof. exact (output_intact list_framer 3 false [([x61; x62; x63], None); ([], Some None)] []). Defined.

(** A command that does not read all of its input is terminated and its result is
    lost: the write to its closed pipe fails, which ends the input with an error. *)
Lemma unread_input_terminates :
  let s := toy_served [InputDone (Some (Wrapped (Sentinel "broken pipe") "write process stdin")); ProcessExit (MkExitResult 0 "" "");
                       OutputDone None; OutputDone None; ExitSent None] in
  terminations (sv_control s) = 1%nat ∧ sv_sent s = [accept_frame; SExit (Some (ExRuntimeFailure genericRuntimeMessage))].
Proof. vm_compute. split; reflexivity. Qed.
