(* ===== verification/CommandClient.v ===== *)
(** * The client end of the command protocol (app/client/command)

    The state machine of client.go, shared by the goroutines of a command: the call
    of [start], the receive loop, and the forwarding of input and of window sizes
    that [Run] starts once [start] has returned (run.go).  A step is what one of them
    does between two points where another may run: a section under the mutex, a
    frame sent, a frame received, a value put into the channel [started].  The
    outcomes of sends, of received frames and of writes to the local streams are
    inputs of the steps. *)

From S2P Require Import Prelude GoStrings Wire CommandCodec CommandServer.

(** ** errors.go *)

(** The errors a command ends with. *)
Inductive command_error :=
  | StartRejectedError (code message : string)
  | ExitStatusError (status : Z)
  | ExitSignalError (signal : string)
  | RuntimeError (message : string)
  | OtherError (e : error).

#[export] Instance command_error_eq_dec : EqDecision command_error.
Proof. solve_decision. Defined.

Definition terminalResult (result : ExitResult) : option command_error :=
  if negb (bool_decide (ex_RuntimeFailure result = ""%string)) then Some (RuntimeError (ex_RuntimeFailure result))
  else if negb (bool_decide (ex_Signal result = ""%string)) then Some (ExitSignalError (ex_Signal result))
  else if negb (ex_Status result =? 0) then Some (ExitStatusError (ex_Status result))
  else None.

Record RemoteExitError := MkRemoteExit { re_Code : Z; re_Cause : command_error; re_silent : bool }.

(** [signalNum] is [unix.SignalNum] of the name in upper case, 0 if there is none. *)
Definition normalizeRemoteExit (signalNum : string → Z) (err : option command_error) : option RemoteExitError :=
  match err with
  | None => None
  | Some (ExitStatusError status as e) =>
      Some (MkRemoteExit (if (status <? 1) || (255 <? status) then 255 else status) e true)
  | Some (ExitSignalError signal as e) =>
      Some (MkRemoteExit (if signalNum signal =? 0 then 255 else 128 + signalNum signal) e false)
  | Some e => Some (MkRemoteExit 255 e false)
  end.

(** ** client.go *)

Inductive clientState := clientIdle | clientStarting | clientRunning | clientExited | clientClosed.

#[export] Instance clientState_eq_dec : EqDecision clientState.
Proof. solve_decision. Defined.

(** Which of the two streams has a writer. *)
Record outputSink := MkSink { sink_stdout : bool; sink_stderr : bool }.

(** Where the call of [start] is. *)
Inductive start_pc :=
  | StartIdle
  | StartSending (frame : bytes)
  | StartWaiting
  | StartReturned (err : option command_error).

(** Where the receive loop is: after the copy of the state in [handleServerEvent],
    before a value is put into [started], and before the [finish] of an exit. *)
Inductive loop_pc :=
  | LoopNone
  | LoopReceive
  | LoopHandle (event : ServerEvent) (state : clientState) (sink : outputSink) (hasPTY : bool)
  | LoopSignal (v : option command_error)
  | LoopFinish (v : option command_error)
  | LoopEnded.

(** Where the forwarding of input is: frames of a [writeStdin] or the frame of a
    [closeStdin] still to be sent. *)
Inductive input_pc := InputIdle | InputSending (frames : list bytes) | InputClosing (frame : bytes).

Record client := MkClient {
  cl_state : clientState;
  cl_hasPTY : bool;
  cl_stdinEOF : bool;
  cl_sink : outputSink;
  cl_started : option (option command_error);   (** the channel of capacity one *)
  cl_done : bool;
  cl_waitErr : option command_error;
  cl_close : bool;                              (** the [sync.Once] was used *)
  cl_connClosed : bool;
  cl_start : start_pc;
  cl_loop : loop_pc;
  cl_inputs : input_pc;
  cl_resizes : option bytes;                    (** a window change still to be sent *)
  cl_sent : list bytes;                         (** what was sent, in order *)
  cl_stdout : bytes;                            (** what was written to the local streams *)
  cl_stderr : bytes;
}.

Definition eta_client (c : client) : client :=
  MkClient (cl_state c) (cl_hasPTY c) (cl_stdinEOF c) (cl_sink c) (cl_started c) (cl_done c) (cl_waitErr c) (cl_close c)
    (cl_connClosed c) (cl_start c) (cl_loop c) (cl_inputs c) (cl_resizes c) (cl_sent c) (cl_stdout c) (cl_stderr c).

#[export] Instance set_cl_state : Setter cl_state := ltac:(derive_setter eta_client).
#[export] Instance set_cl_hasPTY : Setter cl_hasPTY := ltac:(derive_setter eta_client).
#[export] Instance set_cl_stdinEOF : Setter cl_stdinEOF := ltac:(derive_setter eta_client).
#[export] Instance set_cl_sink : Setter cl_sink := ltac:(derive_setter eta_client).
#[export] Instance set_cl_started : Setter cl_started := ltac:(derive_setter eta_client).
#[export] Instance set_cl_done : Setter cl_done := ltac:(derive_setter eta_client).
#[export] Instance set_cl_waitErr : Setter cl_waitErr := ltac:(derive_setter eta_client).
#[export] Instance set_cl_close : Setter cl_close := ltac:(derive_setter eta_client).
#[export] Instance set_cl_connClosed : Setter cl_connClosed := ltac:(derive_setter eta_client).
#[export] Instance set_cl_start : Setter cl_start := ltac:(derive_setter eta_client).
#[export] Instance set_cl_loop : Setter cl_loop := ltac:(derive_setter eta_client).
#[export] Instance set_cl_inputs : Setter cl_inputs := ltac:(derive_setter eta_client).
#[export] Instance set_cl_resizes : Setter cl_resizes := ltac:(derive_setter eta_client).
#[export] Instance set_cl_sent : Setter cl_sent := ltac:(derive_setter eta_client).
#[export] Instance set_cl_stdout : Setter cl_stdout := ltac:(derive_setter eta_client).
#[export] Instance set_cl_stderr : Setter cl_stderr := ltac:(derive_setter eta_client).

Definition newClient : client :=
  MkClient clientIdle false false (MkSink false false) None false None false false StartIdle LoopNone InputIdle None [] [] [].

Definition is_state (s : clientState) (c : client) : bool := bool_decide (cl_state c = s).

Definition finish (err : option command_error) (c : client) : client :=
  if cl_close c then c
  else
    c <| cl_close := true |>
      <| cl_waitErr ::= λ w, match w with None => err | Some _ => w end |>
      <| cl_started ::= λ v, if is_state clientStarting c then match v with None => Some err | Some _ => v end else v |>
      <| cl_state ::= λ s, if bool_decide (s = clientExited) then s else clientClosed |>
      <| cl_connClosed := true |>
      <| cl_done := true |>.

(** An error ends the loop. *)
Definition loop_fails (err : command_error) (c : client) : client := finish (Some err) (c <| cl_loop := LoopEnded |>).

Definition protocol_failure (msg : string) : command_error := OtherError (protocol_error msg).

(** What follows the copy of the state in [handleServerEvent]; [written] is the
    outcome of the write to the local stream. *)
Definition handleServerEvent (event : ServerEvent) (state : clientState) (sink : outputSink) (hasPTY : bool)
    (written : option error) (c : client) : client :=
  match event with
  | EventStartResult accepted code message =>
      if negb (bool_decide (state = clientStarting)) then
        loop_fails (protocol_failure "duplicate or out-of-order start result") c
      else if accepted then c <| cl_state := clientRunning |> <| cl_loop := LoopSignal None |>
      else c <| cl_loop := LoopSignal (Some (StartRejectedError code message)) |>
  | EventStdout data =>
      if negb (bool_decide (state = clientRunning)) then
        loop_fails (protocol_failure "stdout before start acceptance or after exit") c
      else if negb (sink_stdout sink) then loop_fails (protocol_failure "stdout sink is not configured") c
      else match written with
           | Some e => loop_fails (OtherError (Wrapped e "write command stdout")) c
           | None => c <| cl_stdout ::= λ out, out ++ data |> <| cl_loop := LoopReceive |>
           end
  | EventStderr data =>
      if negb (bool_decide (state = clientRunning)) then
        loop_fails (protocol_failure "stderr before start acceptance or after exit") c
      else if hasPTY then loop_fails (protocol_failure "stderr is not legal for a PTY command") c
      else if negb (sink_stderr sink) then loop_fails (protocol_failure "stderr sink is not configured") c
      else match written with
           | Some e => loop_fails (OtherError (Wrapped e "write command stderr")) c
           | None => c <| cl_stderr ::= λ out, out ++ data |> <| cl_loop := LoopReceive |>
           end
  | EventExit exit =>
      if negb (bool_decide (state = clientRunning)) then loop_fails (protocol_failure "duplicate or out-of-order exit") c
      else c <| cl_state := clientExited |> <| cl_waitErr := terminalResult exit |>
             <| cl_loop := LoopFinish (terminalResult exit) |>
  end.

(** The call of [writeStdin] returns after its last frame. *)
Definition sending (frames : list bytes) : input_pc := match frames with [] => InputIdle | _ => InputSending frames end.

Section steps.
Context `{ProtoMessage ClientFrame} `{ProtoMessage ServerFrame} (maxSendFrameSize : Z).

(** The steps of the goroutines. *)
Inductive label :=
  | LStart (request : StartRequest) (order : list string) (sink : outputSink)
  | LStartSent (err : option error)
  | LStartTake
  | LStartCancel (e : error)
  | LReceived (r : res bytes)
  | LHandled (written : option error)
  | LSignaled
  | LFinished
  | LWriteStdin (data : bytes)
  | LCloseStdin
  | LInputSent (err : option error)
  | LResize (size : WindowSize)
  | LResizeSent (err : option error)
  | LCloseClient.

(** [start] up to the first send; an encoding error or a second call changes nothing. *)
Definition start_begin (request : StartRequest) (order : list string) (sink : outputSink) (c : client) : client :=
  match EncodeClientStart request order maxSendFrameSize with
  | Err _ => c
  | Ok frame =>
      if negb (is_state clientIdle c) then c
      else c <| cl_state := clientStarting |> <| cl_hasPTY := bool_decide (is_Some (sr_PTY request)) |> <| cl_sink := sink |>
             <| cl_loop := LoopReceive |> <| cl_start := StartSending frame |>
  end.

(** The frames of a [writeStdin], or the error it returns. *)
Definition writeStdin_begin (data : bytes) (c : client) : res (list bytes) :=
  if bool_decide (data = []) then Ok []
  else
    reject_if (negb (is_state clientRunning c)) (protocol_error "stdin is legal only after start acceptance") ≫= λ _,
    reject_if (cl_stdinEOF c) (protocol_error "stdin after EOF") ≫= λ _,
    EncodeClientStdin data maxSendFrameSize.

Definition closeStdin_begin (c : client) : client * res bytes :=
  if negb (is_state clientRunning c) then (c, Err (protocol_error "stdin EOF is legal only after start acceptance"))
  else if cl_stdinEOF c then (c, Err (protocol_error "duplicate stdin EOF"))
  else (c <| cl_stdinEOF := true |>, EncodeClientStdinEOF maxSendFrameSize).

Definition resize_begin (size : WindowSize) (c : client) : res bytes :=
  reject_if (negb (is_state clientRunning c) || negb (cl_hasPTY c)) (protocol_error "window change requires an accepted PTY start") ≫= λ _,
  EncodeClientWindowChange size maxSendFrameSize.

(** The body of the receive loop up to the copy of the state. *)
Definition receive_frame (r : res bytes) (c : client) : client :=
  match r with
  | Err e => loop_fails (OtherError (Wrapped (if err_is e io_EOF then io_ErrUnexpectedEOF else e) "receive command frame")) c
  | Ok frame =>
      match DecodeServerEvent frame with
      | Err _ => loop_fails (protocol_failure "invalid server frame") c
      | Ok event => c <| cl_loop := LoopHandle event (cl_state c) (cl_sink c) (cl_hasPTY c) |>
      end
  end.

(** [Run] forwards input and window sizes once [start] has returned without error. *)
Definition forwarding (c : client) : bool := match cl_start c with StartReturned None => true | _ => false end.

(** The rest of [start]: the first frame is sent, and the select. *)
Definition start_sent (err : option error) (c : client) : option client :=
  match cl_start c, err with
  | StartSending frame, None => Some (c <| cl_sent ::= λ l, l ++ [frame] |> <| cl_start := StartWaiting |>)
  | StartSending _, Some e =>
      Some (finish (Some (OtherError (Wrapped e "send command start"))) (c <| cl_start := StartReturned (Some (OtherError e)) |>))
  | _, _ => None
  end.

Definition start_take (c : client) : option client :=
  match cl_start c, cl_started c with
  | StartWaiting, Some v => Some (c <| cl_started := None |> <| cl_start := StartReturned v |>)
  | _, _ => None
  end.

Definition start_cancel (e : error) (c : client) : option client :=
  match cl_start c with
  | StartWaiting => Some (finish (Some (OtherError e)) (c <| cl_start := StartReturned (Some (OtherError e)) |>))
  | _ => None
  end.

(** The receive loop. *)
Definition loop_received (r : res bytes) (c : client) : option client :=
  match cl_loop c with LoopReceive => Some (receive_frame r c) | _ => None end.

Definition loop_handled (written : option error) (c : client) : option client :=
  match cl_loop c with
  | LoopHandle event state sink hasPTY => Some (handleServerEvent event state sink hasPTY written c)
  | _ => None
  end.

Definition loop_signaled (c : client) : option client :=
  match cl_loop c, cl_started c with
  | LoopSignal v, None =>
      let c := c <| cl_started := Some v |> in
      Some (match v with None => c <| cl_loop := LoopReceive |> | Some e => loop_fails e c end)
  | _, _ => None
  end.

Definition loop_finished (c : client) : option client :=
  match cl_loop c with LoopFinish v => Some (finish v (c <| cl_loop := LoopReceive |>)) | _ => None end.

(** The forwarding of input. *)
Definition write_stdin (data : bytes) (c : client) : option client :=
  match forwarding c, cl_inputs c with
  | true, InputIdle =>
      Some (match writeStdin_begin data c with Ok frames => c <| cl_inputs := sending frames |> | Err _ => c end)
  | _, _ => None
  end.

Definition close_stdin (c : client) : option client :=
  match forwarding c, cl_inputs c with
  | true, InputIdle =>
      Some (match closeStdin_begin c with (c, Ok frame) => c <| cl_inputs := InputClosing frame |> | (c, Err _) => c end)
  | _, _ => None
  end.

Definition input_sent (err : option error) (c : client) : option client :=
  match cl_inputs c, err with
  | InputSending (frame :: rest), None => Some (c <| cl_sent ::= λ l, l ++ [frame] |> <| cl_inputs := sending rest |>)
  | InputSending (_ :: _), Some e =>
      Some (finish (Some (OtherError (Wrapped e "send command stdin"))) (c <| cl_inputs := InputIdle |>))
  | InputClosing frame, None => Some (c <| cl_sent ::= λ l, l ++ [frame] |> <| cl_inputs := InputIdle |>)
  | InputClosing _, Some _ => Some (c <| cl_inputs := InputIdle |>)
  | _, _ => None
  end.

(** The forwarding of window sizes. *)
Definition resize_window (size : WindowSize) (c : client) : option client :=
  match forwarding c, cl_resizes c with
  | true, None => Some (match resize_begin size c with Ok frame => c <| cl_resizes := Some frame |> | Err _ => c end)
  | _, _ => None
  end.

Definition resize_sent (err : option error) (c : client) : option client :=
  match cl_resizes c, err with
  | Some frame, None => Some (c <| cl_sent ::= λ l, l ++ [frame] |> <| cl_resizes := None |>)
  | Some _, Some _ => Some (c <| cl_resizes := None |>)
  | None, _ => None
  end.

Definition closeClient (c : client) : client := finish (Some (OtherError context_Canceled)) c.

Definition client_step (l : label) (c : client) : option client :=
  match l with
  | LStart request order sink => Some (start_begin request order sink c)
  | LStartSent err => start_sent err c
  | LStartTake => start_take c
  | LStartCancel e => start_cancel e c
  | LReceived r => loop_received r c
  | LHandled written => loop_handled written c
  | LSignaled => loop_signaled c
  | LFinished => loop_finished c
  | LWriteStdin data => write_stdin data c
  | LCloseStdin => close_stdin c
  | LInputSent err => input_sent err c
  | LResize size => resize_window size c
  | LResizeSent err => resize_sent err c
  | LCloseClient => Some (closeClient c)
  end.

Fixpoint client_run (labels : list label) (c : client) : option client :=
  match labels with
  | [] => Some c
  | l :: rest => match client_step l c with Some c' => client_run rest c' | None => None end
  end.
End steps.

(** Reduces a step to what its thread does. *)
Ltac step_cbn :=
  cbv beta iota delta [client_step start_sent start_take start_cancel loop_received loop_handled loop_signaled loop_finished write_stdin close_stdin input_sent resize_window resize_sent closeClient].
Ltac step_cbn_in H :=
  cbv beta iota delta [client_step start_sent start_take start_cancel loop_received loop_handled loop_signaled loop_finished write_stdin close_stdin input_sent resize_window resize_sent closeClient] in H.
Ltac step_cbn_all :=
  cbv beta iota delta [client_step start_sent start_take start_cancel loop_received loop_handled loop_signaled loop_finished write_stdin close_stdin input_sent resize_window resize_sent closeClient] in *.

(** ** Control facts

    Once the acceptance was signaled, the loop never handles a start result again
    and the state is not [clientStarting]. *)

Definition past (c : client) : Prop :=
  cl_state c ≠ clientStarting ∧ cl_state c ≠ clientIdle ∧
  match cl_loop c with LoopHandle _ s _ _ => s ≠ clientStarting | LoopNone | LoopSignal _ => False | _ => True end.

(** The call of [start] has failed or is about to. *)
Definition start_fails (c : client) : Prop :=
  match cl_start c with
  | StartReturned (Some _) => True
  | StartReturned None => False
  | _ => ∃ e, cl_started c = Some (Some e)
  end.

(** The loop may still make the state [clientRunning]. *)
Definition may_run (c : client) : Prop :=
  cl_state c = clientRunning ∨ ∃ ev sink pty, cl_loop c = LoopHandle ev clientStarting sink pty.

Record controlled (c : client) : Prop := {
  ct_idle : cl_start c = StartIdle ↔ cl_loop c = LoopNone;
  ct_idle_state : cl_state c = clientIdle → cl_start c = StartIdle ∧ cl_close c = false;
  ct_idle_running : cl_start c = StartIdle → cl_state c = clientIdle ∨ cl_state c = clientClosed;
  ct_starting : cl_state c = clientStarting → cl_close c = false;
  ct_signal : cl_loop c = LoopSignal None → cl_state c ≠ clientStarting;
  ct_handle : ∀ ev s sink pty, cl_loop c = LoopHandle ev s sink pty → s = clientStarting →
    cl_state c = clientStarting ∨ cl_close c = true;
  ct_finish : ∀ v, cl_loop c = LoopFinish v → cl_state c ≠ clientStarting;
  ct_started : cl_started c = Some None ∨ cl_start c = StartReturned None → past c;
  ct_closed : cl_close c = true → may_run c → start_fails c;
  ct_close : cl_close c = cl_done c ∧ cl_close c = cl_connClosed c;
}.

Lemma newClient_controlled : controlled newClient.
Proof. split; simpl; try done; [by left|]. by intros [?|?]. Qed.

Lemma finish_keeps err c : cl_hasPTY (finish err c) = cl_hasPTY c ∧ cl_stdinEOF (finish err c) = cl_stdinEOF c ∧
  cl_start (finish err c) = cl_start c ∧ cl_loop (finish err c) = cl_loop c ∧ cl_inputs (finish err c) = cl_inputs c ∧
  cl_resizes (finish err c) = cl_resizes c ∧ cl_sent (finish err c) = cl_sent c ∧ cl_close (finish err c) = true ∧
  cl_stdout (finish err c) = cl_stdout c ∧ cl_stderr (finish err c) = cl_stderr c.
Proof. unfold finish. destruct (cl_close c) eqn:E; [by rewrite E|done]. Qed.

(** [finish] makes the state a final one, and offers a value only to a call of
    [start] that waits. *)
Lemma finish_controlled err c : controlled c → (err = None → cl_state c ≠ clientStarting) → controlled (finish err c).
Proof.
  intros Hc Herr. unfold finish. destruct (cl_close c) eqn:Ec; [done|].
  destruct Hc as [Hi Hi1 Hi2 Hst Hs Hh Hf Hp Hcl Hd].
  pose (s' := if bool_decide (cl_state c = clientExited) then cl_state c else clientClosed).
  assert (Hfin : s' = clientExited ∨ s' = clientClosed) by (unfold s'; case_bool_decide as E; [left|right]; done).
  assert (Hne : s' ≠ clientStarting ∧ s' ≠ clientIdle ∧ s' ≠ clientRunning) by (destruct Hfin as [-> | ->]; done).
  destruct Hne as (N1 & N2 & N3). split; cbn; fold s'.
  - done.
  - done.
  - intros E. destruct (Hi2 E) as [E'|E']; unfold s'; rewrite E'; by right.
  - done.
  - done.
  - by right.
  - done.
  - intros Hx. assert (past c) as (P1 & P2 & P3).
    { apply Hp. destruct Hx as [Hx|Hx]; [left|by right]. unfold is_state in Hx. case_bool_decide as Es; [|done].
      destruct (cl_started c); [done|]. injection Hx as ->. by destruct (Herr eq_refl). }
    unfold past. cbn. fold s'. done.
  - intros _ [E|(ev & sink & pty & E)].
    { cbn in E. by fold s' in E. }
    cbn in E. destruct (Hh _ _ _ _ E eq_refl) as [Es|Hx]; [|by rewrite Ec in Hx].
    assert (Hnp : ¬ past c) by (intros (_&_&P); by rewrite E in P).
    unfold start_fails. cbn. assert (∃ e, match cl_started c with Some _ => cl_started c | None => Some err end = Some (Some e)) as He.
    { destruct (cl_started c) as [[e|]|] eqn:Ev; [by eexists|by destruct (Hnp (Hp (or_introl eq_refl)))|].
      destruct err; [by eexists|]. by destruct (Herr eq_refl). }
    unfold is_state. rewrite bool_decide_true by done.
    destruct (cl_start c) as [| | |[|]] eqn:Epc; try done. by destruct (Hnp (Hp (or_intror eq_refl))).
  - done.
Qed.

(** Fields that do not matter for the control. *)
Definition same_control (c c' : client) : Prop :=
  cl_state c' = cl_state c ∧ cl_start c' = cl_start c ∧ cl_loop c' = cl_loop c ∧ cl_close c' = cl_close c ∧
  cl_done c' = cl_done c ∧ cl_connClosed c' = cl_connClosed c ∧ cl_started c' = cl_started c.

Lemma same_controlled c c' : same_control c c' → controlled c → controlled c'.
Proof.
  intros (E1&E2&E3&E4&E5&E6&E7) [Hi Hi1 Hi2 Hst Hs Hh Hf Hp Hcl Hd].
  split; unfold past, may_run, start_fails in *; rewrite ?E1, ?E2, ?E3, ?E4, ?E5, ?E6, ?E7 in *; done.
Qed.

(** Moving the loop on from where it may not be waiting for a result. *)
Lemma loop_controlled c pc : controlled c → cl_loop c ≠ LoopNone →
  match pc with
  | LoopReceive | LoopEnded => True
  | LoopHandle _ s _ _ => s = cl_state c
  | _ => False
  end → controlled (c <| cl_loop := pc |>).
Proof.
  intros [Hi Hi1 Hi2 Hst Hs Hh Hf Hp Hcl Hd] Hne Hpc. split; cbn; try done.
  - split; [intros E; apply Hi in E; done|]. by intros ->.
  - by intros ->.
  - intros ev s sink pty -> ->. by left.
  - by intros v ->.
  - intros Hx. destruct (Hp Hx) as (?&?&?). unfold past. cbn. split_and!; [done..|]. destruct pc; try done. congruence.
  - intros Hclosed [E|(ev & sink & pty & E)]; [apply Hcl; [done|by left]|]. cbn in E. subst pc. rewrite <-Hpc in Hst. by rewrite Hst in Hclosed.
Qed.

Lemma loop_fails_controlled err c : controlled c → cl_loop c ≠ LoopNone → controlled (loop_fails err c).
Proof. intros Hc Hne. apply finish_controlled; [by apply loop_controlled|done]. Qed.

Lemma handle_controlled ev s sink pty written c : controlled c → cl_loop c = LoopHandle ev s sink pty →
  controlled (handleServerEvent ev s sink pty written c).
Proof.
  intros Hc Hl. assert (Hfail : ∀ e, controlled (loop_fails e c)) by (intros e; apply loop_fails_controlled; [done|by rewrite Hl]).
  assert (Hrec : controlled (c <| cl_loop := LoopReceive |>)) by (apply loop_controlled; [done|by rewrite Hl|done]).
  assert (Hsame : ∀ c', same_control (c <| cl_loop := LoopReceive |>) c' → controlled c') by (intros c' Hs; by eapply same_controlled).
  destruct Hc as [Hi Hi1 Hi2 Hst Hs Hh Hf Hp Hcl Hd]. unfold handleServerEvent. destruct ev.
  - destruct (negb _) eqn:Es; [done|]. bool_simp. subst s.
    assert (Hnp : ¬ past c) by (intros (_&_&P); by rewrite Hl in P).
    assert (Hni : cl_start c ≠ StartIdle) by (rewrite Hi, Hl; done).
    destruct accepted; split; cbn; try done.
    + intros Hx. by destruct (Hnp (Hp Hx)).
    + intros Hclosed _. specialize (Hcl Hclosed (or_intror (ex_intro _ _ (ex_intro _ _ (ex_intro _ _ Hl))))). done.
    + intros Hx. by destruct (Hnp (Hp Hx)).
    + intros Hclosed [Hr|(?&?&?&E)]; [|done]. exact (Hcl Hclosed (or_introl Hr)).
  - destruct (negb _); [done|]. destruct (negb _); [done|]. destruct written; [done|]. by apply Hsame.
  - destruct (negb _); [done|]. destruct pty; [done|]. destruct (negb _); [done|]. destruct written; [done|]. by apply Hsame.
  - destruct (negb _) eqn:Es; [done|]. bool_simp. subst s.
    assert (Hni : cl_start c ≠ StartIdle) by (rewrite Hi, Hl; done). split; cbn; try done.
    + intros _ [Hr|(?&?&?&E)]; done.
Qed.

Section controlled_steps.
Context `{ProtoMessage ClientFrame} `{ProtoMessage ServerFrame} (maxSendFrameSize : Z).

Lemma start_controlled c pc : controlled c → cl_start c ≠ StartIdle → (∀ e, cl_start c ≠ StartReturned e) →
  pc = StartWaiting ∨ (∃ e, pc = StartReturned (Some e)) → controlled (c <| cl_start := pc |>).
Proof.
  intros [Hi Hi1 Hi2 Hst Hs Hh Hf Hp Hcl Hd] Hc Hnr Hpc.
  assert (pc ≠ StartIdle ∧ pc ≠ StartReturned None) as [N1 N2] by (destruct Hpc as [->|[e ->]]; done).
  split; cbn; try done.
  - rewrite <-Hi. done.
  - intros E. by destruct (Hc (proj1 (Hi1 E))).
  - intros [Hx|?]; [|done]. exact (Hp (or_introl Hx)).
  - intros Hclosed Hm. specialize (Hcl Hclosed Hm). unfold start_fails in *. cbn.
    destruct Hpc as [->|[e ->]]; [|done]. destruct (cl_start c) as [| | |v] eqn:E; try done. by destruct (Hnr v).
Qed.

Lemma input_controlled c c' : controlled c → same_control c c' → controlled c'.
Proof. intros. by eapply same_controlled. Qed.

Lemma step_controlled l c c' : controlled c → client_step maxSendFrameSize l c = Some c' → controlled c'.
Proof.
  intros Hc. pose proof Hc as [Hi Hi1 Hi2 Hst Hs Hh Hf Hp Hcl Hd].
  destruct l; step_cbn.
  - intros [= <-]. unfold start_begin, is_state. repeat case_match; try done. bool_simp.
    assert (cl_started c ≠ Some None) by (intros E; destruct (Hp (or_introl E)) as (_&?&_); done).
    split; cbn; try done.
    + intros _. by apply Hi1.
    + intros [?|?]; done.
    + intros _ [?|(?&?&?&?)]; done.
  - destruct (cl_start c) as [|frame| |] eqn:Es; try done. destruct err as [e|]; intros [= <-].
    + apply finish_controlled; [|done]. apply start_controlled; rewrite ?Es; try done. eauto.
    + eapply input_controlled; [apply (start_controlled c StartWaiting); rewrite ?Es; try done; by left|done].
  - destruct (cl_start c) eqn:Es; try done. destruct (cl_started c) as [v|] eqn:Ev; [|done].
    intros [= <-]. assert (Hni : StartWaiting ≠ StartIdle) by done. split; cbn; try done.
    + rewrite <-Hi. done.
    + intros E. by destruct (Hi1 E).
    + intros [?|Hx]; [done|]. injection Hx as ->. by apply Hp; left.
    + intros Hclosed Hm. specialize (Hcl Hclosed Hm). unfold start_fails in *. cbn. rewrite Es, Ev in Hcl.
      by destruct Hcl as [e [= ->]].
  - destruct (cl_start c) eqn:Es; try done. intros [= <-].
    apply finish_controlled; [|done]. apply start_controlled; rewrite ?Es; try done. eauto.
  - destruct (cl_loop c) eqn:El; try done. intros [= <-]. unfold receive_frame.
    assert (cl_loop c ≠ LoopNone) by (by rewrite El).
    repeat case_match; [|by apply loop_fails_controlled..]. by apply loop_controlled.
  - destruct (cl_loop c) eqn:El; try done. intros [= <-]. by apply handle_controlled.
  - destruct (cl_loop c) as [| | |v| |] eqn:El; try done. destruct (cl_started c) eqn:Ev; [done|]. intros [= <-].
    assert (Hni : cl_start c ≠ StartIdle) by (rewrite Hi, ?El; done).
    assert (Hsf : start_fails c → start_fails (c <| cl_started := Some v |>)).
    { unfold start_fails. cbn. destruct (cl_start c) as [| | |[]]; try done; rewrite Ev; by intros [? ?]. }
    destruct v as [e|].
    + apply loop_fails_controlled; [|by cbn; rewrite El]. split; cbn; rewrite ?El; try done.
      * intros [?|Hx]; [done|]. destruct (Hp (or_intror Hx)) as (_&_&P). by rewrite ?El in P.
      * intros Hclosed [Hr|(?&?&?&E)]; [|by cbn in E; rewrite El in E]. apply Hsf, Hcl; [done|by left].
    + split; cbn; try done.
      * intros _. split_and!; [by apply Hs| |done]. intros E. by destruct (Hni (proj1 (Hi1 E))).
      * intros Hclosed [Hr|(?&?&?&E)]; [|done]. apply Hsf, Hcl; [done|by left].
  - destruct (cl_loop c) as [| | | |v|] eqn:El; try done. intros [= <-].
    apply finish_controlled; [|by intros _; apply (Hf v)]. apply loop_controlled; [done|by rewrite El|done].
  - repeat case_match; intros; simplify_eq; by eapply input_controlled.
  - unfold closeStdin_begin. repeat case_match; intros; simplify_eq; by eapply input_controlled.
  - repeat case_match; intros; simplify_eq; try (by eapply input_controlled).
    apply finish_controlled; [|done]. by eapply input_controlled.
  - repeat case_match; intros; simplify_eq; by eapply input_controlled.
  - repeat case_match; intros; simplify_eq; by eapply input_controlled.
  - intros [= <-]. by apply finish_controlled.
Qed.
End controlled_steps.

(** ** What the client sends *)

Section conversation.
Context `{HC : ProtoMessage ClientFrame, !ProtoLaws ClientFrame} `{HS : ProtoMessage ServerFrame} (maxSendFrameSize : Z).

Definition closes (k : call) : bool := match k with PCloseStdin => true | _ => false end.
Definition stdin_of (k : call) : bytes := match k with PWriteStdin data => data | _ => [] end.

(** The input loop of the server accepts the frames: whether its input has ended,
    and the input it got. *)
Fixpoint accepts (hasPTY eof : bool) (frames : list bytes) : option (bool * bytes) :=
  match frames with
  | [] => Some (eof, [])
  | frame :: rest =>
      match unmarshalMessage (M:=ClientFrame) frame ≫= input_call hasPTY eof with
      | Err _ => None
      | Ok k =>
          match accepts hasPTY (eof || closes k) rest with
          | Some (eof', data) => Some (eof', stdin_of k ++ data)
          | None => None
          end
      end
  end.

Lemma accepts_snoc hasPTY eof frames eof' data frame k :
  accepts hasPTY eof frames = Some (eof', data) → unmarshalMessage (M:=ClientFrame) frame ≫= input_call hasPTY eof' = Ok k →
  accepts hasPTY eof (frames ++ [frame]) = Some (eof' || closes k, data ++ stdin_of k).
Proof.
  revert eof data. induction frames as [|f frames IH]; intros eof data; cbn [accepts app].
  - intros [= <- <-] ->. by rewrite app_nil_r.
  - destruct (unmarshalMessage f ≫= input_call hasPTY eof) as [k'|]; [|done].
    destruct (accepts hasPTY (eof || closes k') frames) as [[e d]|] eqn:E; [|done]. intros [= <- <-] Hk. rewrite (IH _ _ E Hk). by rewrite app_assoc.
Qed.

(** The input loop of the server gets to the end of the frames without an error. *)
Lemma accepts_receiveInput {P} (perform : call → ST P unit) hasPTY eof frames eof' data (p : P) log :
  (∀ k p, (perform k p).2 = Ok tt) → accepts hasPTY eof frames = Some (eof', data) →
  ∃ p' calls, receiveInput (logged perform) hasPTY eof (Ok <$> frames) (p, log) = ((p', log ++ calls), Ok None) ∧
    concat (stdin_of <$> calls) = data.
Proof.
  intros Hperf. revert eof data p log. induction frames as [|f frames IH]; intros eof data p log; cbn [accepts fmap list_fmap receiveInput].
  - intros [= <- <-]. exists p, []. by rewrite app_nil_r.
  - destruct (unmarshalMessage f) as [m|]; [|done]. cbn [mbind res_bind].
    destruct (input_call hasPTY eof m) as [k|]; [|done]. destruct (accepts hasPTY (eof || closes k) frames) as [[e d]|] eqn:E; [|done].
    intros [= <- <-]. unfold mbind, ST_bind, st_try, logged at 1. specialize (Hperf k p). destruct (perform k p) as [p1 r].
    simpl in Hperf. subst r. destruct (IH _ _ p1 (log ++ [k]) E) as (p' & calls & Hr & Hd). exists p', (k :: calls).
    split; [|by rewrite <-Hd]. unfold closes in Hr. rewrite Hr, <-app_assoc. done.
Qed.

(** The frame of the start request this client made. *)
Definition start_frame (c : client) (frame : bytes) : Prop :=
  ∃ request order, EncodeClientStart request order maxSendFrameSize = Ok frame ∧
    cl_hasPTY c = bool_decide (is_Some (sr_PTY request)).

(** What the input thread still has to send. *)
Definition to_send (c : client) (sentEOF : bool) (sent written : bytes) : Prop :=
  match cl_inputs c with
  | InputIdle => (sentEOF = true → cl_stdinEOF c = true) ∧
                 (sent = written ∨ cl_close c = true ∧ sent `prefix_of` written)
  | InputSending frames => sentEOF = false ∧ cl_stdinEOF c = false ∧
                 ∃ chunks, Forall2 (λ frame chunk, unmarshalMessage frame = Ok (CStdin chunk)) frames chunks ∧
                   sent ++ concat chunks = written
  | InputClosing frame => sentEOF = false ∧ cl_stdinEOF c = true ∧ unmarshalMessage frame = Ok CStdinEof ∧
                 (sent = written ∨ cl_close c = true ∧ sent `prefix_of` written)
  end.

(** The frames sent so far, with what the application has written. *)
Record conversing (written : bytes) (c : client) : Prop := {
  cv_start : match cl_start c with
             | StartIdle => cl_sent c = [] ∧ cl_inputs c = InputIdle ∧ cl_resizes c = None ∧ cl_stdinEOF c = false
             | StartSending frame => cl_sent c = [] ∧ start_frame c frame ∧ cl_inputs c = InputIdle ∧ cl_resizes c = None ∧
                 cl_stdinEOF c = false
             | StartWaiting => (∃ frame, cl_sent c = [frame] ∧ start_frame c frame) ∧ cl_inputs c = InputIdle ∧
                 cl_resizes c = None ∧ cl_stdinEOF c = false
             | StartReturned (Some _) => cl_inputs c = InputIdle ∧ cl_resizes c = None ∧
                 (cl_sent c = [] ∨ ∃ frame, cl_sent c = [frame] ∧ start_frame c frame)
             | StartReturned None =>
                 ∃ frame rest eof data, cl_sent c = frame :: rest ∧ start_frame c frame ∧
                   accepts (cl_hasPTY c) false rest = Some (eof, data) ∧ to_send c eof data written
             end;
  cv_written : cl_start c ≠ StartReturned None → written = [];
  cv_resize : ∀ frame, cl_resizes c = Some frame → cl_hasPTY c = true ∧
    ∃ rows columns, unmarshalMessage (M:=ClientFrame) frame = Ok (CWindowChange rows columns);
}.

Lemma newClient_conversing : conversing [] newClient.
Proof. by split. Qed.

(** What a step adds to what the application has written. *)
Definition written_by (l : label) (c : client) : bytes :=
  match l with
  | LWriteStdin data => if is_ok (writeStdin_begin maxSendFrameSize data c) then data else []
  | _ => []
  end.

(** Steps that leave the fields of the conversation alone. *)
Definition same_talk (c c' : client) : Prop :=
  cl_hasPTY c' = cl_hasPTY c ∧ cl_stdinEOF c' = cl_stdinEOF c ∧ cl_start c' = cl_start c ∧ cl_inputs c' = cl_inputs c ∧
  cl_resizes c' = cl_resizes c ∧ cl_sent c' = cl_sent c ∧ (cl_close c = true → cl_close c' = true).

Lemma same_conversing w c c' : same_talk c c' → conversing w c → conversing w c'.
Proof.
  intros (E1&E2&E3&E4&E5&E6&E7) [Hs Hw Hr].
  split; unfold start_frame, to_send in *; rewrite ?E1, ?E2, ?E3, ?E4, ?E5, ?E6; [|done|done].
  destruct (cl_start c) as [| | |[]]; try done. destruct Hs as (frame & rest & eof & data & ? & ? & ? & Ht).
  exists frame, rest, eof, data. split_and!; [done..|]. destruct (cl_inputs c); naive_solver.
Qed.

Lemma finish_same_talk err c : same_talk c (finish err c).
Proof. destruct (finish_keeps err c) as (?&?&?&?&?&?&?&?&_). by split_and!. Qed.

Lemma same_talk_trans c1 c2 c3 : same_talk c1 c2 → same_talk c2 c3 → same_talk c1 c3.
Proof. intros (?&?&?&?&?&?&?) (?&?&?&?&?&?&?). split_and!; try congruence. auto. Qed.

Lemma loop_fails_same_talk err c : same_talk c (loop_fails err c).
Proof. eapply same_talk_trans; [|apply finish_same_talk]. by split_and!. Qed.

Lemma handle_same_talk ev s sink pty written c : same_talk c (handleServerEvent ev s sink pty written c).
Proof.
  unfold handleServerEvent. destruct ev; repeat case_match; first [apply loop_fails_same_talk | by split_and!].
Qed.

Lemma chunks_decode data frames : EncodeClientStdin data maxSendFrameSize = Ok frames →
  ∃ chunks, Forall2 (λ frame chunk, unmarshalMessage frame = Ok (CStdin chunk)) frames chunks ∧ concat chunks = data.
Proof.
  unfold EncodeClientStdin. intros Hf. destruct (chunked_carries _ CStdin _ _ Hf) as (chunks & ? & ?). eauto.
Qed.

(** Sending on a connection that is accepted. *)
Lemma talk_sent w c c' frame k (Hc : conversing w c) : cl_start c = StartReturned None →
  cl_hasPTY c' = cl_hasPTY c → cl_start c' = cl_start c → cl_sent c' = cl_sent c ++ [frame] →
  (∀ f, cl_resizes c' = Some f → cl_resizes c = Some f) →
  (∀ eof data, to_send c eof data w → unmarshalMessage (M:=ClientFrame) frame ≫= input_call (cl_hasPTY c) eof = Ok k ∧
     to_send c' (eof || closes k) (data ++ stdin_of k) w) → conversing w c'.
Proof.
  intros Hst E1 E2 E3 E4 Hk. destruct Hc as [Hs Hw Hr]. rewrite Hst in *. destruct Hs as (f0 & rest & eof & data & E & Hf & Ha & Ht).
  destruct (Hk _ _ Ht) as [Hu Ht']. split; rewrite ?E1, ?E2, ?E3, ?E; [|done|].
  - exists f0, (rest ++ [frame]). do 2 eexists. unfold start_frame in *. rewrite ?E1.
    split_and!; [done|done| |exact Ht']. by apply accepts_snoc.
  - intros f Hf'. auto.
Qed.

Lemma start_conversing w request order sink c c' : controlled c → conversing w c → client_step maxSendFrameSize (LStart request order sink) c = Some c' →
  conversing (w ++ written_by (LStart request order sink) c) c'.
Proof.
  intros Hct Hc Hstep. assert (Hsame : ∀ c'', same_talk c c'' → conversing (w ++ []) c'') by (intros c'' Ht; rewrite app_nil_r; by eapply same_conversing).
  pose proof Hc as [Hs Hw Hr]. step_cbn_all; cbn [written_by] in *.
  injection Hstep as <-. unfold start_begin, is_state. destruct (EncodeClientStart _ _ _) as [frame|e] eqn:Ef; [|by apply Hsame].
  case_bool_decide as Ei; [|by apply Hsame]. simpl negb. cbv iota. destruct (ct_idle_state c Hct Ei) as [Est _].
  rewrite Est in Hs. destruct Hs as (E1 & E2 & E3 & E4). rewrite app_nil_r. split; cbn.
  + split_and!; try done. exists request, order. done.
  + intros _. apply Hw. by rewrite Est.
  + by rewrite E3.
Qed.

Lemma start_sent_conversing w err c c' : controlled c → conversing w c → client_step maxSendFrameSize (LStartSent err) c = Some c' →
  conversing (w ++ written_by (LStartSent err) c) c'.
Proof.
  intros Hct Hc Hstep. assert (Hsame : ∀ c'', same_talk c c'' → conversing (w ++ []) c'') by (intros c'' Ht; rewrite app_nil_r; by eapply same_conversing).
  pose proof Hc as [Hs Hw Hr]. step_cbn_all; cbn [written_by] in *.
  destruct (cl_start c) as [|frame| |] eqn:Est; try done. destruct Hs as (E1 & E2 & E3 & E4 & E5).
  rewrite app_nil_r. destruct err as [e|]; injection Hstep as <-.
  + eapply same_conversing; [apply finish_same_talk|]. split; cbn; [split_and!; [done..|by left]|intros _; by apply Hw|by rewrite E4].
  + split; cbn; [|intros _; by apply Hw|by rewrite E4]. rewrite E1. split_and!; try done. by exists frame.
Qed.

Lemma start_take_conversing w c c' : controlled c → conversing w c → client_step maxSendFrameSize (LStartTake) c = Some c' →
  conversing (w ++ written_by (LStartTake) c) c'.
Proof.
  intros Hct Hc Hstep. assert (Hsame : ∀ c'', same_talk c c'' → conversing (w ++ []) c'') by (intros c'' Ht; rewrite app_nil_r; by eapply same_conversing).
  pose proof Hc as [Hs Hw Hr]. step_cbn_all; cbn [written_by] in *.
  destruct (cl_start c) as [| | |] eqn:Est; try done. destruct (cl_started c) as [v|] eqn:Ev; [|done].
  destruct Hs as ((frame & E1 & E2) & E3 & E4 & E5). rewrite app_nil_r. injection Hstep as <-. specialize (Hw ltac:(done)). subst w.
  split; cbn; [|done|by rewrite E4]. destruct v; [split_and!; [done..|by right; exists frame]|].
  exists frame, [], false, []. split_and!; [done..|]. unfold to_send. cbn. rewrite E3. split; [done|by left].
Qed.

Lemma start_cancel_conversing w e c c' : controlled c → conversing w c → client_step maxSendFrameSize (LStartCancel e) c = Some c' →
  conversing (w ++ written_by (LStartCancel e) c) c'.
Proof.
  intros Hct Hc Hstep. assert (Hsame : ∀ c'', same_talk c c'' → conversing (w ++ []) c'') by (intros c'' Ht; rewrite app_nil_r; by eapply same_conversing).
  pose proof Hc as [Hs Hw Hr]. step_cbn_all; cbn [written_by] in *.
  destruct (cl_start c) as [| | |] eqn:Est; try done. destruct Hs as (E2 & E3 & E4 & E5). injection Hstep as <-.
  rewrite app_nil_r. eapply same_conversing; [apply finish_same_talk|].
  split; cbn; [split_and!; [done..|by right]|intros _; by apply Hw|by rewrite E4].
Qed.

Lemma write_conversing w data c c' : controlled c → conversing w c → client_step maxSendFrameSize (LWriteStdin data) c = Some c' →
  conversing (w ++ written_by (LWriteStdin data) c) c'.
Proof.
  intros Hct Hc Hstep. assert (Hsame : ∀ c'', same_talk c c'' → conversing (w ++ []) c'') by (intros c'' Ht; rewrite app_nil_r; by eapply same_conversing).
  pose proof Hc as [Hs Hw Hr]. step_cbn_all; cbn [written_by] in *.
  unfold forwarding in Hstep. destruct (cl_start c) as [| | |[]] eqn:Est; try done. destruct (cl_inputs c) eqn:Ein; try done.
  injection Hstep as <-. destruct (writeStdin_begin _ data c) as [frames|] eqn:Ew; [|by apply Hsame]. simpl.
  unfold writeStdin_begin in Ew. case_bool_decide as Ed; [injection Ew as <-; subst data; apply Hsame; split_and!; by rewrite ?Ein|].
  rewrite !reject_if_then in Ew. destruct Ew as (Erun & Eeof & Ew). unfold is_state in Erun. bool_simp.
  destruct (chunks_decode _ _ Ew) as (chunks & Hall & <-).
  assert (cl_close c = false) as Hopen.
  { destruct (cl_close c) eqn:Ec; [|done]. pose proof (ct_closed c Hct Ec (or_introl Erun)) as Hfail.
    unfold start_fails in Hfail. by rewrite Est in Hfail. }
  split; cbn; rewrite ?Est; [|done|done]. destruct Hs as (f & rest & eof & data & E & Hf & Ha & Ht).
  exists f, rest, eof, data. split_and!; [done..|]. unfold to_send in *. rewrite Ein in Ht. cbn.
  destruct Ht as [He [->|[Hx _]]]; [|by rewrite Hopen in Hx]. destruct eof; [by rewrite He in Eeof|].
  destruct frames as [|f0 frames]; cbn [sending].
  + inversion Hall. subst. split; [done|]. left. by rewrite app_nil_r.
  + split_and!; [done..|]. by exists chunks.
Qed.

Lemma close_conversing w c c' : controlled c → conversing w c → client_step maxSendFrameSize (LCloseStdin) c = Some c' →
  conversing (w ++ written_by (LCloseStdin) c) c'.
Proof.
  intros Hct Hc Hstep. assert (Hsame : ∀ c'', same_talk c c'' → conversing (w ++ []) c'') by (intros c'' Ht; rewrite app_nil_r; by eapply same_conversing).
  pose proof Hc as [Hs Hw Hr]. step_cbn_all; cbn [written_by] in *.
  unfold forwarding in Hstep. destruct (cl_start c) as [| | |[]] eqn:Est; try done. destruct (cl_inputs c) eqn:Ein; try done.
  injection Hstep as <-. unfold closeStdin_begin. destruct (negb _); [by apply Hsame|].
  destruct (cl_stdinEOF c) eqn:Eeof; [by apply Hsame|]. rewrite app_nil_r.
  destruct Hs as (f & rest & eof & data & E & Hf & Ha & Ht). unfold to_send in Ht. rewrite Ein in Ht. destruct Ht as [He Hd].
  destruct eof; [by rewrite He in Eeof|].
  destruct (EncodeClientStdinEOF _) as [frame|] eqn:Ef; (split; cbn; rewrite ?Est; [|done|done]); exists f, rest, false, data;
    (do 3 (split; [done|])); unfold to_send; cbn; rewrite ?Ein; [|done].
  split_and!; try done. by eapply unmarshal_frame.
Qed.

Lemma input_sent_conversing w err c c' : controlled c → conversing w c → client_step maxSendFrameSize (LInputSent err) c = Some c' →
  conversing (w ++ written_by (LInputSent err) c) c'.
Proof.
  intros Hct Hc Hstep. assert (Hsame : ∀ c'', same_talk c c'' → conversing (w ++ []) c'') by (intros c'' Ht; rewrite app_nil_r; by eapply same_conversing).
  pose proof Hc as [Hs Hw Hr]. step_cbn_all; cbn [written_by] in *.
  rewrite app_nil_r. destruct (cl_inputs c) as [|[|frame rest]|frame] eqn:Ein; try done.
  + assert (Est : cl_start c = StartReturned None).
    { destruct (cl_start c) as [| | |[]]; try done; destruct_and?; congruence. }
    rewrite Est in Hs. destruct Hs as (f & sent & eof & data & E & Hf & Ha & Ht).
    destruct err as [e|]; injection Hstep as <-.
    * unfold to_send in Ht. rewrite Ein in Ht. destruct Ht as (-> & Heof & chunks & Hall & Hd).
      match goal with |- conversing _ (finish ?e ?c') => destruct (finish_keeps e c') as (K1&K2&K3&K4&K5&K6&K7&K8&_) end.
      cbn in K1, K2, K3, K4, K5, K6, K7.
      split; unfold start_frame, to_send; rewrite ?K1, ?K2, ?K3, ?K5, ?K6, ?K7, ?K8, ?Est; [|done|done].
      exists f, sent, false, data. split_and!; [done..|]. right. split; [done|]. rewrite <-Hd. by apply prefix_app_r.
    * pose proof Ht as Ht0. unfold to_send in Ht0. rewrite Ein in Ht0. destruct Ht0 as (-> & _ & chunks & Hall & _).
      inversion Hall as [|? chunk ? chunks' Hu Hall' E1 E2]. subst. clear Hall.
      eapply (talk_sent w c _ frame (PWriteStdin chunk)); try done. clear Ht Ha. intros eof' data' Ht.
      unfold to_send in *. rewrite Ein in Ht. destruct Ht as (-> & Heof & chunks & Hall & Hd). rewrite Hu. split; [done|].
      inversion Hall as [|? chunk2 ? chunks2 Hu2 Hall2 E1 E2]. subst. rewrite Hu in Hu2. injection Hu2 as <-. cbn.
      destruct rest as [|f1 rest]; cbn [sending].
      -- inversion Hall2. subst. split; [done|]. left. simpl. by rewrite app_nil_r.
      -- split_and!; [done..|]. exists chunks2. split; [done|]. simpl. by rewrite <-app_assoc.
  + assert (Est : cl_start c = StartReturned None).
    { destruct (cl_start c) as [| | |[]]; try done; destruct_and?; congruence. }
    destruct err as [e|]; injection Hstep as <-.
    * rewrite Est in Hs. destruct Hs as (f & sent & eof & data & E & Hf & Ha & Ht).
      split; cbn; rewrite ?Est; [|done|done]. exists f, sent, eof, data. do 3 (split; [done|]).
      unfold to_send in *. rewrite Ein in Ht. cbn. destruct Ht as (-> & ? & ? & ?). done.
    * eapply (talk_sent w c _ frame PCloseStdin); try done. intros eof data Ht. unfold to_send in *. rewrite Ein in Ht. cbn.
      destruct Ht as (-> & Heof & Hu & Hd). rewrite Hu, app_nil_r. done.
Qed.

Lemma resize_conversing w size c c' : controlled c → conversing w c → client_step maxSendFrameSize (LResize size) c = Some c' →
  conversing (w ++ written_by (LResize size) c) c'.
Proof.
  intros Hct Hc Hstep. assert (Hsame : ∀ c'', same_talk c c'' → conversing (w ++ []) c'') by (intros c'' Ht; rewrite app_nil_r; by eapply same_conversing).
  pose proof Hc as [Hs Hw Hr]. step_cbn_all; cbn [written_by] in *.
  unfold forwarding in Hstep. destruct (cl_start c) as [| | |[]] eqn:Est; try done. destruct (cl_resizes c) eqn:Ers; [done|].
  injection Hstep as <-. destruct (resize_begin _ size c) as [frame|] eqn:Ef; [|by apply Hsame]. rewrite app_nil_r.
  unfold resize_begin in Ef. rewrite reject_if_then in Ef. destruct Ef as [Hb Ef]. bool_simp.
  split; cbn; rewrite ?Est; [done|done|]. intros ? [= <-]. split; [done|]. do 2 eexists. by eapply unmarshal_frame.
Qed.

Lemma resize_sent_conversing w err c c' : controlled c → conversing w c → client_step maxSendFrameSize (LResizeSent err) c = Some c' →
  conversing (w ++ written_by (LResizeSent err) c) c'.
Proof.
  intros Hct Hc Hstep. assert (Hsame : ∀ c'', same_talk c c'' → conversing (w ++ []) c'') by (intros c'' Ht; rewrite app_nil_r; by eapply same_conversing).
  pose proof Hc as [Hs Hw Hr]. step_cbn_all; cbn [written_by] in *.
  rewrite app_nil_r. destruct (cl_resizes c) as [frame|] eqn:Ers; [|done].
  destruct (Hr _ eq_refl) as [Hpty (rows & columns & Hu)].
  assert (Est : cl_start c = StartReturned None).
  { destruct (cl_start c) as [| | |[]]; try done; destruct_and?; congruence. }
  destruct err as [e|]; injection Hstep as <-.
  + split; cbn; [|done|done]. rewrite Est in *. done.
  + eapply (talk_sent w c _ frame (PResize (MkWindowSize rows columns))); try done.
    intros eof data Ht. rewrite Hu, Hpty. split; [done|]. rewrite orb_false_r, app_nil_r. done.
Qed.

Lemma step_conversing w l c c' : controlled c → conversing w c → client_step maxSendFrameSize l c = Some c' →
  conversing (w ++ written_by l c) c'.
Proof.
  intros Hct Hc Hstep.
  assert (Hsame : same_talk c c' → conversing (w ++ []) c') by (intros Ht; rewrite app_nil_r; by eapply same_conversing).
  destruct l; [by eapply start_conversing|by eapply start_sent_conversing|by eapply start_take_conversing
    |by eapply start_cancel_conversing| | | | |by eapply write_conversing|by eapply close_conversing
    |by eapply input_sent_conversing|by eapply resize_conversing|by eapply resize_sent_conversing| ];
    step_cbn_all; cbn [written_by] in *.
  - destruct (cl_loop c); try done. injection Hstep as <-. apply Hsame. unfold receive_frame.
    repeat case_match; first [apply loop_fails_same_talk | by split_and!].
  - destruct (cl_loop c); try done. injection Hstep as <-. apply Hsame, handle_same_talk.
  - destruct (cl_loop c) as [| | |v| |]; try done. destruct (cl_started c); [done|]. injection Hstep as <-. apply Hsame.
    destruct v; [|by split_and!]. eapply same_talk_trans; [|apply loop_fails_same_talk]. by split_and!.
  - destruct (cl_loop c) as [| | | |v|]; try done. injection Hstep as <-. apply Hsame.
    eapply same_talk_trans; [|apply finish_same_talk]. by split_and!.
  - injection Hstep as <-. apply Hsame, finish_same_talk.
Qed.
End conversation.

Section client_theorems.
Context `{HC : ProtoMessage ClientFrame, !ProtoLaws ClientFrame} `{HS : ProtoMessage ServerFrame} (maxSendFrameSize : Z).

(** What the application has written in a run: the data of every [writeStdin] that
    did not return an error. *)
Fixpoint input_of (labels : list label) (c : client) : bytes :=
  match labels with
  | [] => []
  | l :: rest =>
      match client_step maxSendFrameSize l c with
      | Some c' => written_by maxSendFrameSize l c ++ input_of rest c'
      | None => []
      end
  end.

Lemma run_invariants labels : ∀ w c c', controlled c → conversing maxSendFrameSize w c →
  client_run maxSendFrameSize labels c = Some c' →
  controlled c' ∧ conversing maxSendFrameSize (w ++ input_of labels c) c'.
Proof.
  induction labels as [|l labels IH]; intros w c c' Hct Hc; cbn [client_run input_of].
  { intros [= <-]. by rewrite app_nil_r. }
  destruct (client_step maxSendFrameSize l c) as [c1|] eqn:E; [|done]. rewrite app_assoc. apply IH.
  - by eapply step_controlled.
  - by apply step_conversing.
Qed.

Lemma client_conforms_raw (labels : list label) (c : client)
  (Hr : client_run maxSendFrameSize labels newClient = Some c) :
  cl_sent c = [] ∨
  ∃ request order frame rest, cl_sent c = frame :: rest ∧ EncodeClientStart request order maxSendFrameSize = Ok frame ∧
    ∀ (P : Type) (perform : call → ST P unit) (p : P), (∀ k p, (perform k p).2 = Ok tt) →
    ∃ p' calls, receiveInput (logged perform) (bool_decide (is_Some (sr_PTY request))) false (Ok <$> rest) (p, []) =
        ((p', calls), Ok None) ∧
      concat (stdin_of <$> calls) `prefix_of` input_of labels newClient ∧
      (cl_inputs c = InputIdle → cl_close c = false → concat (stdin_of <$> calls) = input_of labels newClient).
Proof.
  destruct (run_invariants labels [] _ _ newClient_controlled (newClient_conversing maxSendFrameSize) Hr) as [_ [Hs Hw _]].
  rewrite app_nil_l in *. set (w := input_of labels newClient) in *.
  assert (Hdone : cl_sent c = [] ∨ ∃ frame rest eof data, cl_sent c = frame :: rest ∧ start_frame maxSendFrameSize c frame ∧
    accepts (cl_hasPTY c) false rest = Some (eof, data) ∧ data `prefix_of` w ∧
    (cl_inputs c = InputIdle → cl_close c = false → data = w)).
  { destruct (cl_start c) as [|f| |[e|]].
    - left. apply Hs.
    - left. apply Hs.
    - right. destruct Hs as ((f & E & Hf) & _). exists f, [], false, []. rewrite (Hw ltac:(done)). done.
    - destruct Hs as (_ & _ & [E|(f & E & Hf)]); [by left|right]. exists f, [], false, []. rewrite (Hw ltac:(done)). done.
    - right. destruct Hs as (f & rest & eof & data & E & Hf & Ha & Ht). exists f, rest, eof, data.
      split_and!; [done..| |].
      + unfold to_send in Ht. destruct (cl_inputs c).
        * destruct Ht as (_ & [->|[_ ?]]); done.
        * destruct Ht as (_ & _ & chunks & _ & <-). by apply prefix_app_r.
        * destruct Ht as (_ & _ & _ & [->|[_ ?]]); done.
      + intros Hi Ho. unfold to_send in Ht. rewrite Hi in Ht. destruct Ht as (_ & [->|[Hx _]]); [done|congruence]. }
  destruct Hdone as [?|(frame & rest & eof & data & E & (request & order & Hf & Hpty) & Ha & Hp & Hall)]; [by left|right].
  exists request, order, frame, rest. split_and!; [done..|]. intros P perform p Hperf. rewrite Hpty in Ha.
  destruct (accepts_receiveInput perform _ _ _ _ _ p [] Hperf Ha) as (p' & calls & Hrec & <-). exists p', calls. done.
Qed.

(** C16: Whatever the server, the connection and the local terminal do, a client
    never breaks the protocol: the first frame it sends is an encoded start request,
    it sends no other, and a server accepts everything that follows without a
    protocol error, the input ending at most once and only a command with a
    terminal being resized.  The input the server gets is a prefix of what the
    application wrote, and all of it whenever no write is in progress and the
    client was not closed. *)
Theorem client_conforms (labels : list label) (c : client)
  (Hr : client_run maxSendFrameSize labels newClient = Some c) :
  cl_sent c = [] ∨
  ∃ request order frame rest, cl_sent c = frame :: rest ∧ EncodeClientStart request order maxSendFrameSize = Ok frame ∧
    ∀ (P : Type) (perform : call → ST P unit) (p : P), (∀ k p, (perform k p).2 = Ok tt) →
    ∃ p' calls, receiveInput (logged perform) (bool_decide (is_Some (sr_PTY request))) false (Ok <$> rest) (p, []) =
        ((p', calls), Ok None) ∧
      concat (stdin_of <$> calls) `prefix_of` input_of labels newClient ∧
      (cl_inputs c = InputIdle → cl_close c = false → concat (stdin_of <$> calls) = input_of labels newClient).
Proof. by apply client_conforms_raw. Qed.
End client_theorems.

(** ** What the client makes of a command that was served *)

Definition stdout_data (ev : ServerEvent) : bytes := match ev with EventStdout data => data | _ => [] end.
Definition stderr_data (ev : ServerEvent) : bytes := match ev with EventStderr data => data | _ => [] end.
Definition stdout_of (evs : list ServerEvent) : bytes := concat (stdout_data <$> evs).
Definition stderr_of (evs : list ServerEvent) : bytes := concat (stderr_data <$> evs).

(** What follows the acceptance: output, none of it on the error stream of a
    terminal, and the exit. *)
Definition stream_ok (hasPTY : bool) (ev : ServerEvent) : Prop :=
  match ev with EventStdout _ => True | EventStderr _ => hasPTY = false | _ => False end.

Definition command_tail (hasPTY : bool) (r : ExitResult) (evs : list ServerEvent) : Prop :=
  ∃ mids, evs = mids ++ [EventExit r] ∧ Forall (stream_ok hasPTY) mids.

Lemma command_tail_cons hasPTY r ev evs : command_tail hasPTY r (ev :: evs) →
  ev = EventExit r ∧ evs = [] ∨ stream_ok hasPTY ev ∧ command_tail hasPTY r evs.
Proof.
  intros ([|m mids] & E & Hall); simplify_eq/=; [by left|right]. inversion Hall; subst. split; [done|]. by exists mids.
Qed.

Lemma command_tail_nil hasPTY r : ¬ command_tail hasPTY r [].
Proof. intros ([|] & ? & ?); done. Qed.

(** A run in which nothing goes wrong locally and the connection delivers the
    frames in order, and then nothing. *)
Fixpoint undisturbed (labels : list label) (frames : list bytes) : Prop :=
  match labels with
  | [] => True
  | l :: labels =>
      match l with
      | LReceived (Ok frame) => match frames with f :: frames => frame = f ∧ undisturbed labels frames | [] => False end
      | LReceived (Err _) => frames = [] ∧ undisturbed labels frames
      | LStart _ _ sink => sink = MkSink true true ∧ undisturbed labels frames
      | LStartSent (Some _) | LStartCancel _ | LHandled (Some _) | LInputSent (Some _) | LCloseClient => False
      | _ => undisturbed labels frames
      end
  end.

Section delivery.
Context `{HC : ProtoMessage ClientFrame} `{HS : ProtoMessage ServerFrame} (maxSendFrameSize : Z).
Context (r : ExitResult) (tail : list ServerEvent).

Definition accepted_event : ServerEvent := EventStartResult true "" "".

(** The client has ended with the result. *)
Definition finished (c : client) : Prop :=
  cl_state c = clientExited ∧ cl_waitErr c = terminalResult r ∧ cl_close c = true ∧ cl_done c = true.

(** Nothing went wrong so far. *)
Definition healthy (c : client) : Prop := cl_close c = false ∧ cl_done c = false ∧ cl_waitErr c = None.

(** Where the client is, with the events it has not received yet. *)
Definition stage (c : client) (rest : list ServerEvent) : Prop :=
  match cl_loop c with
  | LoopNone => cl_state c = clientIdle ∧ rest = accepted_event :: tail ∧ cl_started c = None ∧ healthy c
  | LoopReceive =>
      cl_state c = clientStarting ∧ rest = accepted_event :: tail ∧ cl_started c = None ∧ healthy c ∧
        command_tail (cl_hasPTY c) r tail ∨
      cl_state c = clientRunning ∧ command_tail (cl_hasPTY c) r rest ∧ healthy c ∨
      rest = [] ∧ finished c
  | LoopHandle ev s sink pty =>
      healthy c ∧ s = cl_state c ∧ sink = cl_sink c ∧ pty = cl_hasPTY c ∧
      (cl_state c = clientStarting ∧ ev :: rest = accepted_event :: tail ∧ cl_started c = None ∧ command_tail (cl_hasPTY c) r tail ∨
       cl_state c = clientRunning ∧ command_tail (cl_hasPTY c) r (ev :: rest))
  | LoopSignal v => v = None ∧ cl_state c = clientRunning ∧ command_tail (cl_hasPTY c) r rest ∧ cl_started c = None ∧ healthy c
  | LoopFinish v => v = terminalResult r ∧ rest = [] ∧ cl_state c = clientExited ∧ cl_waitErr c = v ∧
      cl_close c = false ∧ cl_done c = false
  | LoopEnded => rest = [] ∧ finished c
  end.

Definition pending (c : client) (rest : list ServerEvent) : list ServerEvent :=
  match cl_loop c with LoopHandle ev _ _ _ => ev :: rest | _ => rest end.

Record tracks (c : client) (rest : list ServerEvent) : Prop := {
  tr_stage : stage c rest;
  tr_sink : cl_loop c ≠ LoopNone → cl_sink c = MkSink true true;
  tr_stdout : cl_stdout c ++ stdout_of (pending c rest) = stdout_of tail;
  tr_stderr : cl_stderr c ++ stderr_of (pending c rest) = stderr_of tail;
}.

Lemma newClient_tracks : tracks newClient (accepted_event :: tail).
Proof. by split. Qed.

(** Steps of the other threads. *)
Lemma others_track c c' rest : tracks c rest → cl_loop c' = cl_loop c → cl_state c' = cl_state c → cl_hasPTY c' = cl_hasPTY c →
  cl_sink c' = cl_sink c → cl_waitErr c' = cl_waitErr c → cl_close c' = cl_close c → cl_done c' = cl_done c →
  cl_stdout c' = cl_stdout c → cl_stderr c' = cl_stderr c → (cl_started c = None → cl_started c' = None) → tracks c' rest.
Proof.
  intros [Hst Hsk Ho He] E1 E2 E3 E4 E5 E6 E7 E8 E9 E10.
  split; unfold stage, pending, finished, healthy in *; rewrite ?E1, ?E2, ?E3, ?E4, ?E5, ?E6, ?E7, ?E8, ?E9; [|done..].
  destruct (cl_loop c); intuition auto.
Qed.

Lemma handle_tracks ev s sink pty c rest : tracks c rest → cl_loop c = LoopHandle ev s sink pty →
  tracks (handleServerEvent ev s sink pty None c) rest.
Proof.
  intros [Hst Hsk Ho He] El. unfold stage, pending in *. rewrite El in *. specialize (Hsk ltac:(done)).
  destruct Hst as ((Hh1 & Hh2 & Hh3) & -> & -> & -> & [(Es & Eev & Esd & Ht)|(Es & Ht)]); rewrite Hsk, Es.
  - injection Eev as -> ->. unfold handleServerEvent. rewrite bool_decide_true by done. by split.
  - apply command_tail_cons in Ht as [[-> ->]|[Hok Ht]]; unfold handleServerEvent; [rewrite bool_decide_true by done; by split|].
    destruct ev as [| | |]; try done; rewrite bool_decide_true by done; cbn; [|simpl in Hok; rewrite Hok; cbn].
    all: split; unfold stage, pending; cbn; [by right; left|done| |]; by rewrite <-?app_assoc.
Qed.

Lemma decoded frame ev frames rest : Forall2 (λ f e, DecodeServerEvent f = Ok e) (frame :: frames) (ev :: rest) →
  DecodeServerEvent frame = Ok ev ∧ Forall2 (λ f e, DecodeServerEvent f = Ok e) frames rest.
Proof. intros Hall. by inversion Hall. Qed.

Lemma receive_tracks frame frames c rest : tracks c rest → Forall2 (λ f e, DecodeServerEvent f = Ok e) (frame :: frames) rest →
  cl_loop c = LoopReceive → ∃ rest', tracks (receive_frame (Ok frame) c) rest' ∧
    Forall2 (λ f e, DecodeServerEvent f = Ok e) frames rest'.
Proof.
  intros [Hst Hsk Ho He] Hall El. destruct rest as [|ev rest]; [by inversion Hall|]. apply decoded in Hall as [Hd Hall].
  exists rest. split; [|done]. unfold receive_frame. rewrite Hd. unfold stage, pending in *. rewrite El in *.
  split; unfold stage, pending; cbn; [|auto|done..].
  destruct Hst as [(?&?&?&?&?)|[(?&?&?)|[? _]]]; [| |done]; split_and!; try done; [by left|by right].
Qed.

(** An error of the connection comes after everything was received. *)
Lemma receive_error_tracks e c : tracks c [] → cl_loop c = LoopReceive → tracks (receive_frame (Err e) c) [].
Proof.
  intros [Hst Hsk Ho He] El. unfold receive_frame, loop_fails, finish. unfold stage, pending in *. rewrite El in *.
  destruct Hst as [(?&?&_)|[(_&Ht&_)|[_ Hf]]]; [done|by destruct (command_tail_nil _ _ Ht)|].
  pose proof Hf as (? & ? & Hc & ?). cbn. rewrite Hc. split; unfold stage, pending; cbn; [by split|auto|done..].
Qed.

Lemma signal_tracks c c' rest : tracks c rest → client_step maxSendFrameSize LSignaled c = Some c' → tracks c' rest.
Proof.
  intros [Hst Hsk Ho He]. unfold stage, pending in *. step_cbn. destruct (cl_loop c) as [| | |v| |] eqn:El; try done.
  destruct Hst as (-> & ? & ? & -> & ?). intros [= <-]. split; unfold stage, pending; cbn; auto.
Qed.

Lemma finish_tracks c c' rest : tracks c rest → client_step maxSendFrameSize LFinished c = Some c' → tracks c' rest.
Proof.
  intros [Hst Hsk Ho He]. unfold stage, pending in *. step_cbn. destruct (cl_loop c) as [| | | |v|] eqn:El; try done.
  destruct Hst as (-> & -> & Es & Ew & Hc & Hd). intros [= <-]. unfold finish. cbn. rewrite Hc.
  split; unfold stage, pending; cbn; [|auto|done..]. right. right. split; [done|].
  unfold finished. cbn. rewrite Es, bool_decide_true, Ew by done. split_and!; try done. by destruct (terminalResult r).
Qed.

Lemma start_tracks request order c rest : tracks c rest → command_tail (bool_decide (is_Some (sr_PTY request))) r tail →
  tracks (start_begin maxSendFrameSize request order (MkSink true true) c) rest.
Proof.
  intros Htr Ht. pose proof Htr as [Hst Hsk Ho He]. unfold start_begin, is_state.
  destruct (EncodeClientStart _ _ _); [|exact Htr]. destruct (decide (cl_state c = clientIdle)) as [Ei|Ei];
    [rewrite (bool_decide_true (cl_state c = _)) by done|by rewrite (bool_decide_false (cl_state c = _))]. simpl negb. cbv iota.
  assert (cl_loop c = LoopNone) as El.
  { unfold stage, finished in Hst. destruct (cl_loop c); try done; exfalso; clear Ho He Hsk Htr; intuition congruence. }
  unfold stage, pending in *. rewrite El in *. destruct Hst as (_ & -> & ? & ?). split; unfold stage, pending; cbn; [|done..]. by left.
Qed.

(** The requests of a run are for a command whose output it can show. *)
Definition suitable (labels : list label) : Prop :=
  ∀ request order sink, LStart request order sink ∈ labels → command_tail (bool_decide (is_Some (sr_PTY request))) r tail.

Definition decodes (frames : list bytes) (evs : list ServerEvent) : Prop := Forall2 (λ f e, DecodeServerEvent f = Ok e) frames evs.

(** A run got to [c]: what it has not received, and that it may go on with it. *)
Definition reached (labels : list label) (frames : list bytes) (c : client) : Prop :=
  ∃ frames' rest, tracks c rest ∧ decodes frames' rest ∧ ∀ more, undisturbed more frames' → undisturbed (labels ++ more) frames.

Lemma run_tracks labels : ∀ c c' frames rest, tracks c rest → decodes frames rest →
  suitable labels → undisturbed labels frames → client_run maxSendFrameSize labels c = Some c' → reached labels frames c'.
Proof.
  induction labels as [|l labels IH]; intros c c' frames rest Htr Hall Hsuit Hu; cbn [client_run].
  { intros [= <-]. by exists frames, rest. }
  assert (Hs' : suitable labels) by (intros ??? Hin; eapply Hsuit; by right).
  destruct (client_step maxSendFrameSize l c) as [c1|] eqn:Es; [|done]. intros Hrun.
  assert (Hkeep : tracks c1 rest → undisturbed labels frames → (∀ more, undisturbed more frames → undisturbed (l :: more) frames) →
    reached (l :: labels) frames c').
  { intros Htr1 Hu1 Hl. destruct (IH _ _ _ _ Htr1 Hall Hs' Hu1 Hrun) as (frames' & rest' & ? & ? & Hmore).
    exists frames', rest'. split_and!; [done..|]. intros more Hm. apply Hl. by apply Hmore. }
  destruct l as [request order sink|[]| | |[frame|e]|[]| | | | |[]| | |]; cbn [undisturbed] in Hu; try done.
  - destruct Hu as (-> & Hu). apply Hkeep; [|done|done]. injection Es as <-. apply start_tracks; [done|]. eapply Hsuit. by left.
  - apply Hkeep; [|done|done]. step_cbn_in Es. destruct (cl_start c); simplify_eq. by eapply others_track.
  - apply Hkeep; [|done|done]. step_cbn_in Es. destruct (cl_start c), (cl_started c); simplify_eq. by eapply others_track.
  - destruct frames as [|f frames]; [done|]. destruct Hu as [-> Hu]. step_cbn_in Es.
    destruct (cl_loop c) eqn:El; simplify_eq. destruct (receive_tracks _ _ _ _ Htr Hall El) as (rest' & Htr' & Hall').
    destruct (IH _ _ _ _ Htr' Hall' Hs' Hu Hrun) as (frames2 & rest2 & ? & ? & Hmore). exists frames2, rest2.
    split_and!; [done..|]. intros more Hm. split; [done|]. by apply Hmore.
  - destruct Hu as [-> Hu]. inversion Hall. subst. step_cbn_in Es. destruct (cl_loop c) eqn:El; simplify_eq.
    apply Hkeep; [|done|done]. by apply receive_error_tracks.
  - apply Hkeep; [|done|done]. step_cbn_in Es. destruct (cl_loop c) eqn:El; simplify_eq. by apply handle_tracks.
  - apply Hkeep; [|done|done]. by eapply signal_tracks.
  - apply Hkeep; [|done|done]. by eapply finish_tracks.
  - apply Hkeep; [|done|done]. step_cbn_in Es. repeat case_match; simplify_eq; try done; by eapply others_track.
  - apply Hkeep; [|done|done]. step_cbn_in Es. unfold closeStdin_begin in Es. repeat case_match; simplify_eq; try done; by eapply others_track.
  - apply Hkeep; [|done|done]. step_cbn_in Es. repeat case_match; simplify_eq; by eapply others_track.
  - apply Hkeep; [|done|done]. step_cbn_in Es. repeat case_match; simplify_eq; try done; by eapply others_track.
  - apply Hkeep; [|done|done]. step_cbn_in Es. repeat case_match; simplify_eq; by eapply others_track.
Qed.

(** Unless the client has ended, its loop can go on, whatever the other threads do. *)
Lemma tracks_progress c rest frames labels all : tracks c rest → decodes frames rest → cl_start c ≠ StartIdle → cl_done c = false →
  (cl_loop c = LoopNone → cl_start c = StartIdle) →
  (∀ more, undisturbed more frames → undisturbed (labels ++ more) all) →
  ∃ l c', client_step maxSendFrameSize l c = Some c' ∧ undisturbed (labels ++ [l]) all ∧
    match l with LReceived _ | LHandled _ | LSignaled | LFinished => True | _ => False end.
Proof.
  intros [Hst _ _ _] Hall Hstart Hd Hnone Hmore. unfold stage, finished in Hst. destruct (cl_loop c) as [| |ev s sink pty|v|v|] eqn:El.
  - by destruct (Hstart (Hnone eq_refl)).
  - assert (rest ≠ []) as Hne.
    { destruct Hst as [(_&->&_)|[(_&Ht&_)|(_&_&_&_&?)]]; [done| |congruence]. intros ->. by apply command_tail_nil in Ht. }
    destruct rest as [|ev rest]; [done|]. inversion Hall as [|frame ? frames' ? Hf Hall' E1 E2]. subst.
    exists (LReceived (Ok frame)), (receive_frame (Ok frame) c). step_cbn. rewrite El. split_and!; [done| |done].
    by apply Hmore.
  - exists (LHandled None). eexists. step_cbn. rewrite El. split_and!; [done| |done]. by apply Hmore.
  - destruct Hst as (-> & _ & _ & Hs & _). exists LSignaled. eexists. step_cbn. rewrite El, Hs.
    split_and!; [done| |done]. by apply Hmore.
  - exists LFinished. eexists. step_cbn. rewrite El. split_and!; [done| |done]. by apply Hmore.
  - destruct Hst as (_ & _ & _ & _ & ?). congruence.
Qed.

(** Once the client has ended, it has everything. *)
Lemma tracks_done c rest : tracks c rest → cl_done c = true →
  cl_stdout c = stdout_of tail ∧ cl_stderr c = stderr_of tail ∧ cl_state c = clientExited ∧ cl_waitErr c = terminalResult r.
Proof.
  intros [Hst _ Ho He] Hd. unfold stage, pending, healthy, finished in *.
  assert (rest = [] ∧ cl_state c = clientExited ∧ cl_waitErr c = terminalResult r ∧ ∀ ev s sink pty, cl_loop c ≠ LoopHandle ev s sink pty)
    as (-> & ? & ? & Hl).
  { destruct (cl_loop c); try done; intuition congruence. }
  destruct (cl_loop c) eqn:El; try (by destruct (Hl _ _ _ _ eq_refl)); rewrite app_nil_r in Ho, He; done.
Qed.
End delivery.

(** ** The server and the client together *)

(** [l] is [l1] and [l2] in some order that keeps theirs. *)
Inductive interleaved {A} : list A → list A → list A → Prop :=
  | interleaved_nil : interleaved [] [] []
  | interleaved_left x l1 l2 l : interleaved l1 l2 l → interleaved (x :: l1) l2 (x :: l)
  | interleaved_right x l1 l2 l : interleaved l1 l2 l → interleaved l1 (x :: l2) (x :: l).

(** What the result of a process becomes on the way. *)
Definition sent_result (result : ExitResult) : ExitResult :=
  MkExitResult (int32 (ex_Status result)) (ex_Signal result) (ex_RuntimeFailure result).

(** The event of an exit message. *)
Definition exit_event (result : ExitResult) : ExitResult :=
  match exit_message result with
  | ExStatus status => MkExitResult status "" ""
  | ExSignal signal => MkExitResult 0 signal ""
  | ExRuntimeFailure message => MkExitResult 0 "" message
  end.

Lemma exit_event_result result : terminalResult (exit_event result) = terminalResult (sent_result result).
Proof.
  unfold exit_event, exit_message, terminalResult, sent_result. cbn. repeat (case_bool_decide; cbn); done.
Qed.

Section together.
Context `{HC : ProtoMessage ClientFrame, !ProtoLaws ClientFrame} `{HS : ProtoMessage ServerFrame, !ProtoLaws ServerFrame}.

(** A copier that got to the end of its stream. *)
Lemma output_streams {S} (fr : Framer S) maxSize (stderr : bool) reads (s s' : S) log :
  copyOutput (recording fr) maxSize (stream_frame stderr) reads (s, []) = ((s', log), Ok (Some None)) →
  ∃ chunks, Forall2 (λ frame chunk, DecodeServerEvent frame = Ok (stream_event stderr chunk)) log chunks ∧
    concat chunks = read_data reads.
Proof.
  intros Hc. destruct (copyOutput_log fr maxSize (stream_frame stderr) _ _ _ _ _ _ Hc) as (frames & data & -> & (chunks & <- & Hall) & Hp & Hr).
  exists chunks. split; [|auto]. simpl. eapply Forall2_impl; [exact Hall|]. intros frame chunk Hf.
  unfold DecodeServerEvent. rewrite Hf. by destruct stderr.
Qed.

(** The control frames of a command that was served to the end. *)
Lemma served_frames first starter sent events s result maxSize fa fx :
  served first starter sent events s → sv_result s = Some result → (∃ e, sv_phase s = Finished e) →
  Forall2 (λ m f, marshalMessage m maxSize = Ok f) (sv_sent s) [fa; fx] →
  DecodeServerEvent fa = Ok accepted_event ∧ DecodeServerEvent fx = Ok (EventExit (exit_event (reported s result))).
Proof.
  intros Hs Hres [e He] Hall. unfold served in Hs.
  destruct (serve_start_post first starter sent) as [[Hsup Hp]|[[e' Hp] Hend]].
  - pose proof (serve_run_supervised _ _ _ Hsup Hs) as [_ _ Hph]. rewrite He in Hph.
    destruct Hph as (_ & result' & Hres' & Hsent & _). rewrite Hres in Hres'. injection Hres' as <-. rewrite Hsent in Hall.
    inversion Hall as [|? ? ? ? Ha Hall']. inversion Hall' as [|? ? ? ? Hx _]. subst. unfold DecodeServerEvent.
    rewrite (unmarshal_frame _ _ _ Ha), (unmarshal_frame _ _ _ Hx). simpl. unfold exit_event. split; [done|]. by destruct (exit_message _).
  - apply (finished_stays _ _ _ _ Hp) in Hs as ->. destruct Hend as [[[E|E] _]|[E _]]; rewrite E in Hall; by inversion Hall as [|? ? ? ? _ Hx]; inversion Hx.
Qed.

(** The events of the frames of both copiers. *)
Lemma interleaved_decodes out err mids chunks1 chunks2 : interleaved out err mids →
  Forall2 (λ frame chunk, DecodeServerEvent frame = Ok (EventStdout chunk)) out chunks1 →
  Forall2 (λ frame chunk, DecodeServerEvent frame = Ok (EventStderr chunk)) err chunks2 →
  ∃ evs, decodes mids evs ∧ stdout_of evs = concat chunks1 ∧ stderr_of evs = concat chunks2 ∧
    ∀ pty : bool, (pty = true → err = []) → Forall (stream_ok pty) evs.
Proof.
  intros Hi. revert chunks1 chunks2. induction Hi as [|f out err mids Hi IH|f out err mids Hi IH]; intros chunks1 chunks2 H1 H2.
  - inversion H1. inversion H2. subst. exists []. split_and!; [constructor|done|done|constructor].
  - inversion H1 as [|? chunk ? chunks Hf Hrest]. subst. destruct (IH _ _ Hrest H2) as (evs & Hd & Ho & He & Hok).
    exists (EventStdout chunk :: evs). split_and!.
    + by constructor.
    + unfold stdout_of in *. simpl. by rewrite <-Ho.
    + done.
    + intros pty Hp. constructor; [done|auto].
  - inversion H2 as [|? chunk ? chunks Hf Hrest]. subst. destruct (IH _ _ H1 Hrest) as (evs & Hd & Ho & He & Hok).
    exists (EventStderr chunk :: evs). split_and!.
    + by constructor.
    + done.
    + unfold stderr_of in *. simpl. by rewrite <-He.
    + intros pty Hp. destruct pty; [by specialize (Hp eq_refl)|]. constructor; [done|by apply Hok].
Qed.

(** C15: A command runs end to end: if the server finished with a command whose
    process gave [result], its copiers copied both streams to the end, and the
    connection delivers its frames in order to a client that is not disturbed
    locally, then, however the threads of the client interleave, once the client
    has ended it has written exactly the two streams, and [wait] returns the result
    the server reported; and until then its receive loop can always go on. *)
Theorem command_delivered {S1 S2 : Type} (fr1 : Framer S1) (fr2 : Framer S2) (t1 t1' : S1) (t2 t2' : S2)
  (maxServer maxClient : Z) first starter sent events s result (reads1 reads2 : list read_result) out err mids fa fx labels c
  (Hserved : served first starter sent events s) (Hres : sv_result s = Some result) (Hend : ∃ e, sv_phase s = Finished e)
  (Hout : copyOutput (recording fr1) maxServer SStdout reads1 (t1, []) = ((t1', out), Ok (Some None)))
  (Herr : copyOutput (recording fr2) maxServer SStderr reads2 (t2, []) = ((t2', err), Ok (Some None)))
  (Hmids : interleaved out err mids)
  (Hctl : Forall2 (λ m f, marshalMessage m maxServer = Ok f) (sv_sent s) [fa; fx])
  (Hpty : ∀ request order sink, LStart request order sink ∈ labels → is_Some (sr_PTY request) → err = [])
  (Hu : undisturbed labels (fa :: mids ++ [fx])) (Hr : client_run maxClient labels newClient = Some c) :
  (cl_done c = true → cl_stdout c = read_data reads1 ∧ cl_stderr c = read_data reads2 ∧ cl_state c = clientExited ∧
     cl_waitErr c = terminalResult (sent_result (reported s result))) ∧
  (cl_start c ≠ StartIdle → cl_done c = false → ∃ l c', client_step maxClient l c = Some c' ∧
     undisturbed (labels ++ [l]) (fa :: mids ++ [fx]) ∧
     match l with LReceived _ | LHandled _ | LSignaled | LFinished => True | _ => False end).
Proof.
  pose proof (output_streams fr1 maxServer false reads1 t1 t1' out Hout) as (chunks1 & Hc1 & <-).
  pose proof (output_streams fr2 maxServer true reads2 t2 t2' err Herr) as (chunks2 & Hc2 & <-).
  destruct (interleaved_decodes _ _ _ _ _ Hmids Hc1 Hc2) as (evs & Hd & Ho & He & Hok).
  destruct (served_frames _ _ _ _ _ _ _ _ _ Hserved Hres Hend Hctl) as [Hfa Hfx].
  set (r := exit_event (reported s result)) in *. set (tail := evs ++ [EventExit r]).
  assert (Hall : decodes (fa :: mids ++ [fx]) (accepted_event :: tail)).
  { constructor; [done|]. apply Forall2_app; [done|]. by repeat constructor. }
  assert (Hsuit : suitable r tail labels).
  { intros request order sink Hin. exists evs. split; [done|]. apply Hok. intros Hp. eapply Hpty; [done|]. by apply bool_decide_eq_true in Hp. }
  destruct (run_tracks maxClient r tail labels _ _ _ _ (newClient_tracks r tail) Hall Hsuit Hu Hr) as (frames' & rest & Ht & Hdec & Hmore).
  destruct (run_invariants maxClient labels [] _ _ newClient_controlled (newClient_conversing maxClient) Hr) as [Hct _]. split.
  - intros Hdone. destruct (tracks_done _ _ _ _ Ht Hdone) as (E1 & E2 & E3 & E4). rewrite E1, E2, E4. unfold tail, stdout_of, stderr_of in *.
    rewrite !fmap_app, !concat_app, Ho, He, !app_nil_r. unfold r. rewrite exit_event_result. done.
  - intros Hs Hnd. eapply tracks_progress; [done|done|done|done| |done]. intros El. by apply (ct_idle c Hct).
Qed.
End together.

(** The exit code of the local program is the status of the remote command when
    that is one a process can have, and success is reported exactly for success. *)
Lemma exit_code_faithful signalNum result : ex_RuntimeFailure result = ""%string → ex_Signal result = ""%string →
  0 <= ex_Status result <= 255 →
  match normalizeRemoteExit signalNum (terminalResult (sent_result result)) with
  | None => ex_Status result = 0
  | Some e => re_Code e = ex_Status result ∧ re_silent e = true ∧ ex_Status result ≠ 0
  end.
Proof.
  intros Hf Hs Hr. unfold terminalResult, sent_result. cbn. rewrite Hf, Hs. cbn.
  assert (int32 (ex_Status result) = ex_Status result) as -> by (unfold int32; rewrite Z.mod_small; lia).
  destruct (Z.eqb_spec (ex_Status result) 0) as [|Hne]; [done|]. simpl.
  destruct (Z.ltb_spec (ex_Status result) 1), (Z.ltb_spec 255 (ex_Status result)); try lia. done.
Qed.

(** ** An acceptance that comes too late

    [handleServerEvent] decides by a copy of the state.  If the call of [start] is
    canceled between the copy and the acceptance, the state of the closed client
    becomes [clientRunning], and the loop waits for ever to signal a call that has
    returned. *)
Definition stuck (c : client) : Prop :=
  cl_loop c = LoopSignal None ∧ is_Some (cl_started c) ∧ (∃ v, cl_start c = StartReturned v) ∧ cl_close c = true ∧
  cl_state c ≠ clientIdle.

Lemma finish_closed err c : cl_close c = true → finish err c = c.
Proof. unfold finish. by intros ->. Qed.

Lemma stuck_step `{ProtoMessage ClientFrame} `{ProtoMessage ServerFrame} maximum l c c' :
  stuck c → client_step maximum l c = Some c' → stuck c'.
Proof.
  intros (Hl & [v Hs] & [v' Hst] & Hc & Hi). unfold stuck. destruct l; step_cbn; rewrite ?Hl, ?Hs, ?Hst; try done.
  - intros [= <-]. unfold start_begin, is_state. destruct (EncodeClientStart _ _ _); [|by eauto 10].
    rewrite bool_decide_false by done. eauto 10.
  - unfold forwarding. rewrite Hst. repeat case_match; intros; simplify_eq; cbn; eauto 10.
  - unfold forwarding, closeStdin_begin. rewrite Hst. repeat case_match; intros; simplify_eq; cbn; eauto 10.
  - repeat case_match; intros; simplify_eq; rewrite ?finish_closed by done; cbn; eauto 10.
  - unfold forwarding. rewrite Hst. repeat case_match; intros; simplify_eq; cbn; eauto 10.
  - repeat case_match; intros; simplify_eq; cbn; eauto 10.
  - intros [= <-]. rewrite finish_closed by done. eauto 10.
Qed.

(** ** Witnesses *)

#[local] Instance toy_client_frame : ProtoMessage ClientFrame := {|
  proto_validate _ := None;
  proto_marshal f :=
    match f with
    | CStart (MkStart 1 (Some TShell) None []) => Ok [x01]
    | CStdin data => Ok (x02 :: data)
    | CStdinEof => Ok [x03]
    | _ => Err (NewError "not supported")
    end;
  proto_unmarshal b :=
    match b with
    | x01 :: _ => Ok (CStart (MkStart 1 (Some TShell) None []))
    | x02 :: data => Ok (CStdin data)
    | _ => Ok CStdinEof
    end;
|}.

#[local] Instance toy_client_frame_laws : ProtoLaws ClientFrame.
Proof. split. intros f b Hb. simpl in Hb. repeat case_match; simplify_eq; done. Qed.

#[local] Instance toy_server_frame : ProtoMessage ServerFrame := {|
  proto_validate _ := None;
  proto_marshal f :=
    match f with
    | SStartResult true "" "" => Ok [x01]
    | SStdout data => Ok (x02 :: data)
    | SStderr data => Ok (x03 :: data)
    | SExit (Some (ExStatus 7)) => Ok [x04]
    | _ => Err (NewError "not supported")
    end;
  proto_unmarshal b :=
    match b with
    | x01 :: _ => Ok (SStartResult true "" "")
    | x02 :: data => Ok (SStdout data)
    | x03 :: data => Ok (SStderr data)
    | _ => Ok (SExit (Some (ExStatus 7)))
    end;
|}.

#[local] Instance toy_server_frame_laws : ProtoLaws ServerFrame.
Proof. split. intros f b Hb. simpl in Hb. repeat case_match; simplify_eq; done. Qed.

Definition shell_request : StartRequest := MkStartRequest StartShell "" None ∅.

Definition accepted_labels : list label :=
  [LStart shell_request [] (MkSink true true); LStartSent None; LReceived (Ok [x01]); LHandled None; LSignaled; LStartTake].

Definition talking_labels : list label := accepted_labels ++
  [LWriteStdin [x61; x62; x63]; LInputSent None; LReceived (Ok [x02; x64]); LInputSent None; LHandled None; LCloseStdin; LInputSent None].

Definition run_client (labels : list label) : client := default newClient (client_run 3 labels newClient).

Lemma client_conforms_witness :
  cl_sent (run_client talking_labels) = [[x01]; [x02; x61; x62]; [x02; x63]; [x03]] ∧
  (cl_sent (run_client talking_labels) = [] ∨
   ∃ request order frame rest, cl_sent (run_client talking_labels) = frame :: rest ∧
     EncodeClientStart request order 3 = Ok frame).
Proof.
  split; [vm_compute; reflexivity|].
  destruct (client_conforms 3 talking_labels (run_client talking_labels)) as [E|(request & order & frame & rest & E & Hf & _)].
  - vm_compute. reflexivity.
  - left. exact E.
  - right. exists request, order, frame, rest. split; [exact E|exact Hf].
Defined.

Definition ending_labels : list label := accepted_labels ++
  [LReceived (Ok [x02; x61]); LHandled None; LReceived (Ok [x03; x62]); LHandled None; LReceived (Ok [x04]); LHandled None; LFinished].

Definition served_events : list event :=
  [OutputDone None; ProcessExit (MkExitResult 7 "" ""); OutputDone None; ExitSent None].

Definition served_command : server :=
  default new_server (serve_run served_events (serve_start (Ok [x01]) (λ _, Started true) None new_server)).

Lemma command_delivered_witness :
  cl_stdout (run_client ending_labels) = [x61] ∧ cl_waitErr (run_client ending_labels) = Some (ExitStatusError 7).
Proof.
  destruct (command_delivered list_framer list_framer [] [x02; x61] [] [x03; x62] 100 3 (Ok [x01]) (λ _, Started true) None
    served_events served_command (MkExitResult 7 "" "") [([x61], None); ([], Some None)] [([x62], None); ([], Some None)]
    [[x02; x61]] [[x03; x62]] [[x02; x61]; [x03; x62]] [x01] [x04] ending_labels (run_client ending_labels)) as [Hdone _].
  - vm_compute. reflexivity.
  - vm_compute. reflexivity.
  - eexists. vm_compute. reflexivity.
  - vm_compute. reflexivity.
  - vm_compute. reflexivity.
  - repeat constructor.
  - vm_compute. repeat constructor.
  - intros request order sink Hin. simpl in Hin. repeat (apply elem_of_cons in Hin as [Hin|Hin]; [try discriminate; injection Hin as -> _ _; intros [p Hp]; discriminate|]).
    by apply elem_of_nil in Hin.
  - vm_compute. repeat split.
  - vm_compute. reflexivity.
  - destruct Hdone as (E & _ & _ & E'); [vm_compute; reflexivity|]. rewrite E, E'. split; vm_compute; reflexivity.
Defined.

Definition late_labels : list label :=
  [LStart shell_request [] (MkSink true true); LStartSent None; LReceived (Ok [x01]); LStartCancel context_Canceled; LHandled None].

Lemma late_acceptance_revives : cl_state (run_client late_labels) = clientRunning ∧
  ∀ labels c, client_run 3 labels (run_client late_labels) = Some c → cl_loop c = LoopSignal None ∧ cl_close c = true.
Proof.
  split; [reflexivity|]. intros labels c Hr.
  assert (Hs : stuck (run_client late_labels)).
  { unfold stuck. split; [reflexivity|]. split; [eexists; reflexivity|]. split; [eexists; reflexivity|]. split; [reflexivity|discriminate]. }
  enough (stuck c) as (?&_&_&?&_) by done.
  revert Hs Hr. generalize (run_client late_labels) as c0. induction labels as [|l labels IH]; intros c0 Hs; cbn [client_run].
  - intros [= <-]. apply Hs.
  - destruct (client_step 3 l c0) as [c1|] eqn:E; [|done]. apply IH. by eapply stuck_step.
Qed.
