(* ===== verification/Launch.v ===== *)
(** * From an authorized launch to a process (app/server/command, app/server/process, lib/account)

    The account lookup of lib/account ([OSResolver]), the starter of the command
    service (service.go), the process specification with its validation and
    environment (spec.go), and the part of [Runner.Start] that decides with which
    identity, program, arguments, directory and environment the process is created
    (runner.go).  The C library's databases are the parameters of [AccountLib];
    creating the process is left to the system. *)

From stdpp Require Import sorting.
From S2P Require Import Prelude GoStrings Bincoder Wire Keys Trust Auth Authz CommandCodec.

(** ** lib/account/user.go *)

Record passwd := MkPasswd {
  pw_name : string; pw_uid : Z; pw_gid : Z; pw_gecos : string; pw_dir : string; pw_shell : string;
}.

(** getpwnam_r, getgrgid_r and getgrouplist. *)
Class AccountLib := {
  getpwnamR : string → res passwd;
  getgrgidR : Z → res string;
  getgrouplist : string → Z → res (list Z);
}.

Definition comma : Ascii.ascii := Ascii.ascii_of_N 44.

(** What is before the first comma ([strings.Cut]). *)
Fixpoint before_comma (s : string) : string :=
  match s with
  | EmptyString => EmptyString
  | String c s => if bool_decide (c = comma) then EmptyString else String c (before_comma s)
  end.

Section accounts.
Context `{AccountLib}.

Definition lookupGroup (groupID : Z) : res Group :=
  wrap_err "lookup group" (getgrgidR groupID) ≫= λ groupName, mret (MkGroup groupID groupName).

Fixpoint supplementary_loop (groupIDs : list Z) (seen : gset Z) : res (list Group) :=
  match groupIDs with
  | [] => Ok []
  | groupID :: rest =>
      if bool_decide (groupID ∈ seen) then supplementary_loop rest seen
      else
        wrap_err "lookup supplementary group" (lookupGroup groupID) ≫= λ group,
        supplementary_loop rest ({[groupID]} ∪ seen) ≫= λ groups, mret (group :: groups)
  end.

Definition lookupSupplementaryGroups (pwd : passwd) (primaryGroupID : Z) : res (list Group) :=
  wrap_err "list groups for user" (getgrouplist (pw_name pwd) primaryGroupID) ≫= λ groupIDs,
  supplementary_loop groupIDs {[primaryGroupID]}.

Definition OSResolver_Resolve (ctxErr : option error) (username : string) : res Account :=
  match ctxErr with
  | Some e => Err e
  | None =>
      wrap_err "lookup user" (getpwnamR username) ≫= λ pwd,
      wrap_err "lookup primary group" (lookupGroup (pw_gid pwd)) ≫= λ primaryGroup,
      wrap_err "lookup supplementary groups" (lookupSupplementaryGroups pwd (g_Id primaryGroup)) ≫= λ supplementaryGroups,
      mret {| a_Username := pw_name pwd; a_Name := before_comma (pw_gecos pwd); a_Id := pw_uid pwd;
              a_PrimaryGroup := primaryGroup; a_SupplementaryGroups := supplementaryGroups;
              a_HomeDir := pw_dir pwd; a_LoginShell := pw_shell pwd |}
  end.
End accounts.

(** ** app/server/command/service.go *)

Definition trustedPath : string := "/usr/local/bin:/usr/bin:/bin".

Definition toLaunchRequest (request : StartRequest) : res LaunchRequest :=
  (if sr_Kind request =? StartShell then mret LaunchShell
   else if sr_Kind request =? StartExec then mret LaunchExec
   else Err (NewError "unsupported command start kind")) ≫= λ kind,
  match sr_PTY request with
  | None => mret (MkLaunch kind (sr_Command request) None (sr_Environment request))
  | Some p =>
      let pty := Some (MkPTY (Terminal p) (Rows p) (Columns p)) in
      if bool_decide (Terminal p = ""%string) then mret (MkLaunch kind (sr_Command request) pty (sr_Environment request))
      else
        reject_if (match sr_Environment request !! "TERM"%string with
                   | Some existing => negb (bool_decide (existing = Terminal p)) | None => false end)
          (NewError "PTY terminal conflicts with requested TERM") ≫= λ _,
        mret (MkLaunch kind (sr_Command request) pty (<["TERM"%string := Terminal p]> (sr_Environment request)))
  end.

(** ** app/server/process/spec.go *)

Definition maxEnvironmentEntries : Z := 256.
Definition defaultTerminationGrace : Z := 2000000000.

Definition protectedEnvironment : gset string := {["HOME"; "USER"; "LOGNAME"; "SHELL"; "PATH"]}%string.

Record PTYSpec := MkPTYSpec { ps_Terminal : string; ps_Rows : Z; ps_Columns : Z }.

Record Spec := MkSpecification {
  sp_Executable : string;
  sp_Argv : list string;
  sp_WorkingDirectory : string;
  sp_TrustedEnvironment : gmap string string;
  sp_RequestedEnvironment : gmap string string;
  sp_UID : Z;
  sp_GID : Z;
  sp_SupplementaryGroups : list Z;
  sp_PTY : option PTYSpec;
  sp_TerminationGrace : Z;
}.

Definition validateEnvironment (name value : string) : res unit :=
  reject_if (bool_decide (name = ""%string) || contains_any equals_or_nul name) (NewError "invalid environment variable name") ≫= λ _,
  reject_if (contains NUL value) (NewError "environment variable contains NUL").

(** The loop over the groups. *)
Fixpoint check_groups (gid : Z) (groups : list Z) (seen : gset Z) : res unit :=
  match groups with
  | [] => Ok tt
  | group :: rest =>
      reject_if (group =? gid) (NewError "supplementary groups must not repeat the primary GID") ≫= λ _,
      reject_if (bool_decide (group ∈ seen)) (NewError "duplicate supplementary GID") ≫= λ _,
      check_groups gid rest ({[group]} ∪ seen)
  end.

(** A loop over an environment: which of several errors is reported depends on
    the order of the map, whether there is one does not. *)
Fixpoint check_environment (protected : bool) (entries : list (string * string)) : res unit :=
  match entries with
  | [] => Ok tt
  | (name, value) :: rest =>
      validateEnvironment name value ≫= λ _,
      reject_if (protected && bool_decide (name ∈ protectedEnvironment)) (NewError "requested environment cannot replace trusted") ≫= λ _,
      check_environment protected rest
  end.

Definition spec_validate (s : Spec) : res unit :=
  reject_if (negb (IsAbs (sp_Executable s))) (NewError "process executable must be absolute") ≫= λ _,
  reject_if (match sp_Argv s with [] => true | a :: _ => bool_decide (a = ""%string) end) (NewError "process argv[0] is required") ≫= λ _,
  reject_if (negb (IsAbs (sp_WorkingDirectory s))) (NewError "process working directory must be absolute") ≫= λ _,
  reject_if (sp_TerminationGrace s <? 0) (NewError "process termination grace must be non-negative") ≫= λ _,
  reject_if (maxEnvironmentEntries <? Z.of_nat (size (sp_TrustedEnvironment s)) + Z.of_nat (size (sp_RequestedEnvironment s)))
    (NewError "process environment has too many entries") ≫= λ _,
  check_environment false (map_to_list (sp_TrustedEnvironment s)) ≫= λ _,
  check_environment true (map_to_list (sp_RequestedEnvironment s)) ≫= λ _,
  check_groups (sp_GID s) (sp_SupplementaryGroups s) ∅ ≫= λ _,
  match sp_PTY s with
  | None => Ok tt
  | Some p =>
      reject_if ((ps_Rows p =? 0) || (65535 <? ps_Rows p) || (ps_Columns p =? 0) || (65535 <? ps_Columns p))
        (NewError "PTY dimensions are invalid") ≫= λ _,
      reject_if (contains NUL (ps_Terminal p)) (NewError "PTY terminal contains NUL")
  end.

(** The requested variables replace trusted ones of the same name. *)
Definition combined (s : Spec) : gmap string string := sp_RequestedEnvironment s ∪ sp_TrustedEnvironment s.

(** The names are sorted, so the order of the map does not matter. *)
Definition spec_environment (s : Spec) : list string :=
  (λ name, (name ++ "=" ++ default "" (combined s !! name))%string) <$> sort_strings (map_to_list (combined s)).*1.

Definition grace (s : Spec) : Z := if sp_TerminationGrace s =? 0 then defaultTerminationGrace else sp_TerminationGrace s.

(** [toProcessSpec] of service.go *)
Definition toProcessSpec (launch : AuthorizedLaunchSpec) : res Spec :=
  let acc := ls_account launch in
  let shell := ls_executable launch in
  let argv0 := path_Base shell in
  (if bool_decide (ls_kind launch = LaunchShell) then mret [("-" ++ argv0)%string]
   else if bool_decide (ls_kind launch = LaunchExec) then mret [argv0; "-c"%string; ls_command launch]
   else Err (NewError "unsupported authorized launch kind")) ≫= λ argv,
  mret {| sp_Executable := shell; sp_Argv := argv; sp_WorkingDirectory := ls_workingDirectory launch;
          sp_TrustedEnvironment := {["HOME" := a_HomeDir acc; "USER" := a_Username acc; "LOGNAME" := a_Username acc;
                                     "SHELL" := shell; "PATH" := trustedPath]}%string;
          sp_RequestedEnvironment := ls_environment launch;
          sp_UID := a_Id acc; sp_GID := g_Id (a_PrimaryGroup acc);
          sp_SupplementaryGroups := g_Id <$> a_SupplementaryGroups acc;
          sp_PTY := (λ p, MkPTYSpec (pty_Terminal p) (pty_Rows p) (pty_Columns p)) <$> ls_pty launch;
          sp_TerminationGrace := 0 |}.

(** ** app/server/process/runner.go *)

Record Credential := MkCredential { cr_Uid : Z; cr_Gid : Z; cr_Groups : list Z; cr_NoSetGroups : bool }.

Definition sort_ids (l : list Z) : list Z := merge_sort Z.le l.

(** [euid], [egid] and [groups] are the identity of the server process. *)
Definition credentialFor (euid egid : Z) (groups : res (list Z)) (s : Spec) : res Credential :=
  if euid =? 0 then Ok (MkCredential (sp_UID s) (sp_GID s) (sp_SupplementaryGroups s) false)
  else
    reject_if (negb (u32 euid =? sp_UID s) || negb (u32 egid =? sp_GID s)) (NewError "unprivileged runner identity mismatch") ≫= λ _,
    wrap_err "read current supplementary groups" groups ≫= λ currentGroups,
    let normalized := filter (λ g, g ≠ sp_GID s) (u32 <$> currentGroups) in
    reject_if (negb (bool_decide (sort_ids normalized = sort_ids (sp_SupplementaryGroups s))))
      (NewError "unprivileged runner supplementary groups mismatch") ≫= λ _,
    Ok (MkCredential (sp_UID s) (sp_GID s) [] true).

(** What [exec.Cmd] is started with. *)
Record Command := MkCommand {
  cmd_Path : string; cmd_Args : list string; cmd_Dir : string; cmd_Env : list string; cmd_Credential : Credential;
  cmd_PTY : option PTYSpec;
}.

Definition runner_command (ctxErr : option error) (euid egid : Z) (groups : res (list Z)) (s : Spec) : res Command :=
  match ctxErr with
  | Some e => Err e
  | None =>
      wrap_err "validate process specification" (spec_validate s) ≫= λ _,
      credentialFor euid egid groups s ≫= λ credential,
      mret (MkCommand (sp_Executable s) (sp_Argv s) (sp_WorkingDirectory s) (spec_environment s) credential (sp_PTY s))
  end.

(** [authorizedStarter.Start] of service.go, up to the creation of the process. *)
Definition starter_command `{AuthzEnv} (c : ConnectionCredentials) (channel : AuthorizedChannel) (request : StartRequest)
    (order : list string) (ctxErr : option error) (euid egid : Z) (groups : res (list Z)) : res Command :=
  toLaunchRequest request ≫= λ launchRequest,
  wrap_err "authorize command launch" (AuthorizeLaunch c channel launchRequest order) ≫= λ authorized,
  toProcessSpec authorized ≫= λ spec,
  runner_command ctxErr euid egid groups spec.

(** ** Facts *)

Lemma supplementary_loop_spec `{AccountLib} ids seen groups :
  supplementary_loop ids seen = Ok groups → NoDup (g_Id <$> groups) ∧ ∀ g, g ∈ g_Id <$> groups → g ∉ seen.
Proof.
  revert seen groups. induction ids as [|id ids IH]; intros seen groups Hl; simpl in Hl.
  { injection Hl as <-. split; [constructor|by intros g ?%elem_of_nil]. }
  case_bool_decide as Hs; [by apply IH|].
  apply res_bind_ok in Hl as (group & Hg & Hl). apply wrap_err_ok in Hg. unfold lookupGroup in Hg. res_inv. subst.
  destruct (IH _ _ Ha) as [Hnd Hout]. simpl. split.
  - constructor; [|done]. intros Hin. by apply Hout in Hin; set_solver.
  - intros g [->|Hin]%elem_of_cons; [done|]. apply Hout in Hin. set_solver.
Qed.

Lemma check_groups_ok gid groups seen : NoDup groups → gid ∉ groups → (∀ g, g ∈ groups → g ∉ seen) →
  check_groups gid groups seen = Ok tt.
Proof.
  revert seen. induction groups as [|g groups IH]; intros seen Hnd Hgid Hseen; simpl; [done|].
  apply NoDup_cons in Hnd as [Hg Hnd]. destruct (Z.eqb_spec g gid) as [->|]; [set_solver|]. simpl.
  rewrite bool_decide_false by (apply Hseen; left). simpl. apply IH; [done|set_solver|].
  intros g' Hg'. assert (g' ∉ seen) by (apply Hseen; by right). set_solver.
Qed.

(** The groups of a resolved account always pass the validation of the process
    specification. *)
Lemma resolved_groups_valid `{AccountLib} ctxErr username acc : OSResolver_Resolve ctxErr username = Ok acc →
  check_groups (g_Id (a_PrimaryGroup acc)) (g_Id <$> a_SupplementaryGroups acc) ∅ = Ok tt.
Proof.
  unfold OSResolver_Resolve. destruct ctxErr; [done|]. intros Hr. apply res_bind_ok in Hr as (pwd & _ & Hr).
  apply res_bind_ok in Hr as (primary & _ & Hr). apply res_bind_ok in Hr as (groups & Hg & Hr). injection Hr as <-. simpl.
  apply wrap_err_ok in Hg. unfold lookupSupplementaryGroups in Hg. apply res_bind_ok in Hg as (ids & _ & Hg).
  destruct (supplementary_loop_spec _ _ _ Hg) as [Hnd Hout].
  apply check_groups_ok; [done| |set_solver]. intros Hin. apply Hout in Hin. set_solver.
Qed.

Lemma check_environment_ok protected entries : check_environment protected entries = Ok tt →
  ∀ n v, (n, v) ∈ entries → validateEnvironment n v = Ok tt ∧ (protected = true → n ∉ protectedEnvironment).
Proof.
  induction entries as [|[name value] entries IH]; simpl; [by intros _ n v ?%elem_of_nil|].
  intros Hc. apply res_bind_ok in Hc as ([] & Hv & Hc). apply reject_if_then in Hc as [Hp Hc].
  intros n v [Heq|Hin]%elem_of_cons; [|by apply IH]. injection Heq as -> ->. split; [done|].
  intros ->. by apply bool_decide_eq_false in Hp.
Qed.

Lemma spec_validate_requested s : spec_validate s = Ok tt →
  ∀ n v, sp_RequestedEnvironment s !! n = Some v → validateEnvironment n v = Ok tt ∧ n ∉ protectedEnvironment.
Proof.
  unfold spec_validate. intros Hv. rewrite !reject_if_then in Hv. destruct Hv as (_ & _ & _ & _ & _ & Hv).
  apply res_bind_ok in Hv as (? & _ & Hv). apply res_bind_ok in Hv as ([] & Hr & _).
  intros n v Hn. apply elem_of_map_to_list in Hn. destruct (check_environment_ok _ _ Hr n v Hn). auto.
Qed.

(** The trusted variables survive in the combined environment. *)
Lemma combined_trusted s n v : spec_validate s = Ok tt → sp_TrustedEnvironment s !! n = Some v → n ∈ protectedEnvironment →
  combined s !! n = Some v.
Proof.
  intros Hv Hn Hp. unfold combined. rewrite lookup_union_r; [done|].
  destruct (sp_RequestedEnvironment s !! n) as [w|] eqn:E; [|done].
  by destruct (spec_validate_requested s Hv n w E) as [_ Hout].
Qed.

Lemma spec_environment_elem s n v : combined s !! n = Some v → (n ++ "=" ++ v)%string ∈ spec_environment s.
Proof.
  intros Hn. unfold spec_environment. apply list_elem_of_fmap. exists n. rewrite Hn. split; [done|].
  rewrite sort_strings_perm. apply list_elem_of_fmap. exists (n, v). split; [done|]. by apply elem_of_map_to_list.
Qed.

Lemma spec_environment_only s e : e ∈ spec_environment s → ∃ n v, e = (n ++ "=" ++ v)%string ∧ combined s !! n = Some v.
Proof.
  unfold spec_environment. intros (n & -> & Hn)%list_elem_of_fmap. rewrite sort_strings_perm in Hn.
  apply list_elem_of_fmap in Hn as ([n' v] & -> & Hv). apply elem_of_map_to_list in Hv. simpl. exists n', v. by rewrite Hv.
Qed.

Definition trusted_of (acc : Account) (shell : string) : list (string * string) :=
  [("HOME", a_HomeDir acc); ("USER", a_Username acc); ("LOGNAME", a_Username acc); ("SHELL", shell);
   ("PATH", trustedPath)]%string.

(** The identity the created process has. *)
Definition process_groups (cred : Credential) (current : res (list Z)) : res (list Z) :=
  if cr_NoSetGroups cred then current else Ok (cr_Groups cred).

Lemma credentialFor_identity euid egid groups s cred : credentialFor euid egid groups s = Ok cred →
  cr_Uid cred = sp_UID s ∧ cr_Gid cred = sp_GID s ∧ (euid = 0 ∨ u32 euid = sp_UID s ∧ u32 egid = sp_GID s) ∧
  ∃ gs, process_groups cred groups = Ok gs ∧
    (euid ≠ 0 → filter (λ g, g ≠ sp_GID s) (u32 <$> gs) ≡ₚ sp_SupplementaryGroups s) ∧
    (euid = 0 → gs = sp_SupplementaryGroups s).
Proof.
  unfold credentialFor. destruct (Z.eqb_spec euid 0) as [->|Hne].
  { intros [= <-]. simpl. split_and!; [done..|by left|]. exists (sp_SupplementaryGroups s). by split_and!. }
  intros Hc. apply reject_if_then in Hc as [Hid Hc]. bool_simp. apply res_bind_ok in Hc as (current & Hg & Hc).
  apply wrap_err_ok in Hg. apply reject_if_then in Hc as [Hs Hc]. bool_simp. injection Hc as <-. simpl.
  split_and!; [done..|by right|]. exists current. split_and!; [done| |done]. intros _.
  rewrite <-(merge_sort_Permutation Z.le (filter _ _)), <-(merge_sort_Permutation Z.le (sp_SupplementaryGroups s)).
  unfold sort_ids in Hs. by rewrite Hs.
Qed.

Lemma runner_command_inv ctxErr euid egid groups s cmd : runner_command ctxErr euid egid groups s = Ok cmd →
  spec_validate s = Ok tt ∧ ∃ cred, credentialFor euid egid groups s = Ok cred ∧
  cmd = MkCommand (sp_Executable s) (sp_Argv s) (sp_WorkingDirectory s) (spec_environment s) cred (sp_PTY s).
Proof.
  unfold runner_command. destruct ctxErr; [done|]. intros Hc. apply res_bind_ok in Hc as ([] & Hv & Hc).
  apply wrap_err_ok in Hv. apply res_bind_ok in Hc as (cred & Hcred & Hc). injection Hc as <-. eauto.
Qed.

(** The process specification of an authorized launch. *)
Definition launch_argv (launch : AuthorizedLaunchSpec) (argv : list string) : Prop :=
  ls_kind launch = LaunchShell ∧ argv = [("-" ++ path_Base (ls_executable launch))%string] ∨
  ls_kind launch = LaunchExec ∧ argv = [path_Base (ls_executable launch); "-c"%string; ls_command launch].

Lemma toProcessSpec_inv launch s : toProcessSpec launch = Ok s →
  launch_argv launch (sp_Argv s) ∧ sp_Executable s = ls_executable launch ∧
  sp_WorkingDirectory s = ls_workingDirectory launch ∧ sp_RequestedEnvironment s = ls_environment launch ∧
  sp_UID s = a_Id (ls_account launch) ∧ sp_GID s = g_Id (a_PrimaryGroup (ls_account launch)) ∧
  sp_SupplementaryGroups s = g_Id <$> a_SupplementaryGroups (ls_account launch) ∧
  sp_TrustedEnvironment s = list_to_map (trusted_of (ls_account launch) (ls_executable launch)).
Proof.
  unfold toProcessSpec, launch_argv. intros Hs. apply res_bind_ok in Hs as (argv & Hargv & Hs). injection Hs as <-. simpl.
  split; [|done]. repeat case_bool_decide; try done; injection Hargv as <-; auto.
Qed.

(** What a variable of the launch was requested as. *)
Definition requested (request : StartRequest) (n v : string) : Prop :=
  sr_Environment request !! n = Some v ∨ n = "TERM"%string ∧ ∃ p, sr_PTY request = Some p ∧ v = Terminal p.

Lemma toLaunchRequest_inv request l : toLaunchRequest request = Ok l →
  lr_Command l = sr_Command request ∧ ∀ n v, lr_Environment l !! n = Some v → requested request n v.
Proof.
  unfold toLaunchRequest, requested. intros Hl. apply res_bind_ok in Hl as (kind & _ & Hl).
  destruct (sr_PTY request) as [p|]; [|injection Hl as <-; simpl; auto].
  case_bool_decide; [injection Hl as <-; simpl; auto|]. apply reject_if_then in Hl as [_ Hl]. injection Hl as <-. simpl.
  split; [done|]. intros n v [[<- <-]|[_ ?]]%lookup_insert_Some; eauto.
Qed.

(** Every variable of the combined environment is trusted or requested. *)
Lemma combined_only s n v : combined s !! n = Some v →
  sp_TrustedEnvironment s !! n = Some v ∨ sp_RequestedEnvironment s !! n = Some v.
Proof. intros [?|[_ ?]]%lookup_union_Some_raw; auto. Qed.

Lemma trusted_lookup acc shell n v : (list_to_map (trusted_of acc shell) : gmap string string) !! n = Some v ↔ (n, v) ∈ trusted_of acc shell.
Proof. symmetry. apply elem_of_list_to_map. simpl. repeat (constructor; [set_solver|]). constructor. Qed.

Lemma trusted_protected acc shell n v : (n, v) ∈ trusted_of acc shell → n ∈ protectedEnvironment.
Proof. unfold trusted_of, protectedEnvironment. set_solver. Qed.

Section processes.
Context `{AuthzEnv}.

(** What a process that was started for credentials is confined to. *)
Definition confined_process (c : ConnectionCredentials) (request : StartRequest) (euid egid : Z) (groups : res (list Z)) (cmd : Command) : Prop :=
  let acc := account c in
  cmd_Path cmd = a_LoginShell acc ∧ cmd_Dir cmd = a_HomeDir acc ∧
  cr_Uid (cmd_Credential cmd) = a_Id acc ∧ cr_Gid (cmd_Credential cmd) = g_Id (a_PrimaryGroup acc) ∧
  (euid = 0 ∨ u32 euid = a_Id acc ∧ u32 egid = g_Id (a_PrimaryGroup acc)) ∧
  (∃ gs, process_groups (cmd_Credential cmd) groups = Ok gs ∧
     (euid = 0 → gs = g_Id <$> a_SupplementaryGroups acc) ∧
     (euid ≠ 0 → filter (λ g, g ≠ g_Id (a_PrimaryGroup acc)) (u32 <$> gs) ≡ₚ (g_Id <$> a_SupplementaryGroups acc))) ∧
  (cmd_Args cmd = [("-" ++ path_Base (a_LoginShell acc))%string] ∧ forcedCommand (permissions c) = ""%string ∧
     allowShell (permissions c) = true ∨
   ∃ command, cmd_Args cmd = [path_Base (a_LoginShell acc); "-c"%string; command] ∧
     (forcedCommand (permissions c) ≠ ""%string → command = forcedCommand (permissions c)) ∧
     (forcedCommand (permissions c) = ""%string → command = TrimSpace (sr_Command request))) ∧
  (∀ n v, (n, v) ∈ trusted_of acc (a_LoginShell acc) → (n ++ "=" ++ v)%string ∈ cmd_Env cmd) ∧
  (∀ e, e ∈ cmd_Env cmd → ∃ n v, e = (n ++ "=" ++ v)%string ∧
     ((n, v) ∈ trusted_of acc (a_LoginShell acc) ∨
      requested request n v ∧ n ∈ allowedEnvironment (permissions c) ∧ (n ∉ protectedEnvironment) ∧ contains NUL v = false)).

Lemma process_confined_raw c channel request order ctxErr euid egid groups cmd :
  (∀ l, toLaunchRequest request = Ok l → map_order (lr_Environment l) order) →
  starter_command c channel request order ctxErr euid egid groups = Ok cmd → confined_process c request euid egid groups cmd.
Proof.
  intros Ho Hs. unfold confined_process.
  unfold starter_command in Hs. apply res_bind_ok in Hs as (launch & Hl & Hs).
  apply res_bind_ok in Hs as (authorized & Ha & Hs). apply wrap_err_ok in Ha.
  apply res_bind_ok in Hs as (spec & Hp & Hs).
  destruct (launch_confined_raw _ _ _ _ _ (Ho _ Hl) Ha) as (_ & _ & _ & _ & [Hkind Hforced Hfree _ [Elr Henv] (Hacc & Hex & Hwd & _)]).
  apply runner_command_inv in Hs as (Hv & cred & Hcred & ->).
  apply credentialFor_identity in Hcred as (Hu & Hg & Hid & gs & Hgs & Hun & Hpr).
  apply toProcessSpec_inv in Hp as (Hargv & Hp).
  destruct Hp as (Ex & Ewd & Er & Eu & Eg & Esg & Et).
  rewrite Hacc, Hex in *. destruct (toLaunchRequest_inv _ _ Hl) as [Ecmd Hreq]. rewrite Ecmd in *. simpl.
  rewrite Eu, Eg, Esg in *. split_and!; try congruence.
  - exists gs. auto.
  - destruct Hargv as [[Ek ->]|[Ek ->]]; rewrite Hex in *.
    + left. destruct (decide (forcedCommand (permissions c) = ""%string)) as [E|E].
      * destruct (Hfree E) as [Ek' _]. destruct Hkind as [[_ ?]|[Ek2 _]]; [done|]. by rewrite Ek' in Ek; rewrite Ek in Ek2.
      * destruct (Hforced E) as [Ek' _]. by rewrite Ek' in Ek.
    + right. exists (ls_command authorized). split; [done|]. split; intros E; [by apply Hforced|by apply Hfree].
  - intros n v Hn. apply spec_environment_elem, combined_trusted; [done|by rewrite Et, trusted_lookup|].
    by eapply trusted_protected.
  - intros e (n & v & -> & Hn)%spec_environment_only. exists n, v. split; [done|].
    apply combined_only in Hn as [Hn|Hn]; [left; by rewrite Et, trusted_lookup in Hn|right].
    destruct (spec_validate_requested _ Hv _ _ Hn) as [_ Hout]. rewrite Er in Hn.
    destruct (Henv _ _ Hn) as (? & _ & ?). split_and!; try done. apply Hreq. by rewrite <-Elr.
Qed.

End processes.

Definition toy_start : StartRequest :=
  MkStartRequest StartExec "rm -rf /" None {[ "TERM"%string := "xterm"%string ]}.

Definition toy_command : Command :=
  MkCommand "/bin/sh" ["sh"; "-c"; "date"] "/home/alice"
    ["HOME=/home/alice"; "LOGNAME=alice"; "PATH=/usr/local/bin:/usr/bin:/bin"; "SHELL=/bin/sh"; "TERM=xterm"; "USER=alice"]
    (MkCredential 1000 1000 [] false) None.

