(* ===== verification/Accounts.v ===== *)
(** * Account lookups in the C library (lib/account)

    The loops around getpwnam_r, getgrgid_r and getgrouplist that grow a buffer
    until the answer fits (getpwnam.go, getgroups.go), on a heap that records what
    is allocated, and the conversion of ids (id_convert.go).  The functions of the C
    library are parameters whose answers may change from call to call. *)

From Stdlib Require Import Strings.Ascii.
From S2P Require Import Prelude GoStrings GoNet Bincoder Keys Trust Wire Auth Authz CommandCodec Launch.

(** ** id_convert.go *)

Definition IsASCIINumeric (s : string) : bool := all_digits s.

Definition ParseID (id : string) : res Z :=
  reject_if (negb (IsASCIINumeric id)) (NewError "ID is not a valid ASCII decimal") ≫= λ _, ParseUint id 32.

Definition FormatID (id : Z) : string := FormatUint id.

(** ** The C library *)

(** The answer of a reentrant lookup: the buffer is too small, an error, no such
    entry, or the entry. *)
Inductive c_answer (A : Type) := CRange | CError (rc : Z) | CNone | CFound (a : A).
Arguments CRange {A}.
Arguments CError {A} rc.
Arguments CNone {A}.
Arguments CFound {A} a.

(** The first argument of a function is the number of the call. *)
Class CLib := {
  sysconf_GETPW_R_SIZE_MAX : Z;
  sysconf_GETGR_R_SIZE_MAX : Z;
  malloc_fails : nat → Z → bool;
  c_getpwnam_r : nat → string → Z → c_answer passwd;
  c_getgrgid_r : nat → Z → Z → c_answer string;
  (** The return code, the count and the contents of the buffer. *)
  c_getgrouplist : nat → string → Z → Z → Z * Z * list Z;
}.

Record heap := MkHeap { h_live : gset Z; h_next : Z; h_calls : nat }.

(** Every address in use is below the next one. *)
Definition heap_wf (h : heap) : Prop := ∀ a, a ∈ h_live h → a < h_next h.

Definition allocate : ST heap Z := λ h,
  (MkHeap ({[h_next h]} ∪ h_live h) (h_next h + 1) (h_calls h), Ok (h_next h)).

Definition C_free (a : Z) : ST heap unit := λ h, (MkHeap (h_live h ∖ {[a]}) (h_next h) (h_calls h), Ok tt).

(** [C.CString] ends the program when there is no memory. *)
Definition C_CString : ST heap Z := allocate.

(** The number of the next call. *)
Definition tick : ST heap nat := λ h, (MkHeap (h_live h) (h_next h) (S (h_calls h)), Ok (h_calls h)).

Definition i64 (z : Z) : Z := (z + 2 ^ 63) mod 2 ^ 64 - 2 ^ 63.

(** The size to start with, from the hint of the system. *)
Definition get_buf_size (hint : Z) : Z := if hint <? 1024 then 16384 else hint.

Definition maxGroupEntrySize : Z := 1048576.
Definition initialGroupCount : Z := 16.
Definition maxGroupCount : Z := 65536.

Definition out_of_fuel : error := NewError "the loop does not end".

Section lookups.
Context `{CLib}.

Definition C_malloc (size : Z) : ST heap (option Z) :=
  n ← tick;
  if malloc_fails n size then mret None else a ← allocate; mret (Some a).

(** The loop of [getpwnamR] and [getgrgidR]. *)
Fixpoint lookup_loop {A} (fuel : nat) (call : nat → Z → c_answer A) (limit : Z) (tooLarge notFound : error) (bufSize : Z) : ST heap A :=
  match fuel with
  | O => st_fail out_of_fuel
  | S fuel =>
      buf ← C_malloc bufSize;
      match buf with
      | None => st_fail (NewError "malloc failed")
      | Some buf =>
          n ← tick;
          match call n bufSize with
          | CRange =>
              _ ← C_free buf;
              let bufSize := i64 (bufSize * 2) in
              if limit <? bufSize then st_fail tooLarge else lookup_loop fuel call limit tooLarge notFound bufSize
          | CError rc => _ ← C_free buf; st_fail (NewError "lookup failed")
          | CNone => _ ← C_free buf; st_fail notFound
          | CFound a => _ ← C_free buf; mret a
          end
      end
  end.

(** Twelve doublings exceed every limit. *)
Definition lookup_fuel : nat := 12.

Definition ErrNotFound : error := Sentinel "user not found".

Definition getpwnamR_c (name : string) : ST heap passwd :=
  cname ← C_CString;
  r ← st_try (lookup_loop lookup_fuel (λ n size, c_getpwnam_r n name size) 1048576
                (NewError "passwd entry too large") ErrNotFound (get_buf_size sysconf_GETPW_R_SIZE_MAX));
  _ ← C_free cname;
  st_lift r.

Definition getgrgidR_c (gid : Z) : ST heap string :=
  lookup_loop lookup_fuel (λ n size, c_getgrgid_r n gid size) maxGroupEntrySize
    (NewError "group entry is too large") (NewError "group not found") (get_buf_size sysconf_GETGR_R_SIZE_MAX).

Fixpoint grouplist_loop (fuel : nat) (username : string) (primaryGroupID groupCount : Z) : ST heap (list Z) :=
  match fuel with
  | O => st_fail out_of_fuel
  | S fuel =>
      if (groupCount <=? 0) || (maxGroupCount <? groupCount) then st_fail (NewError "group count for user exceeds limit")
      else
        buf ← C_malloc (groupCount * 4);
        match buf with
        | None => st_fail (NewError "malloc failed")
        | Some buf =>
            n ← tick;
            let '(rc, count, contents) := c_getgrouplist n username primaryGroupID groupCount in
            if rc =? -1 then
              _ ← C_free buf;
              grouplist_loop fuel username primaryGroupID (if count <=? groupCount then groupCount * 2 else count)
            else if (count <? 0) || (groupCount <? count) then
              _ ← C_free buf; st_fail (NewError "getgrouplist returned invalid group count")
            else _ ← C_free buf; mret (take (Z.to_nat count) contents)
        end
  end.

(** The count grows with every round. *)
Definition grouplist_fuel : nat := Z.to_nat (maxGroupCount + 1).

Definition getgrouplist_c (username : string) (primaryGroupID : Z) : ST heap (list Z) :=
  cusername ← C_CString;
  r ← st_try (grouplist_loop grouplist_fuel username primaryGroupID initialGroupCount);
  _ ← C_free cusername;
  st_lift r.

(** The lookups as the resolver uses them, from a state of the heap. *)
Definition os_accounts (h : heap) : AccountLib := {|
  getpwnamR name := (getpwnamR_c name h).2;
  getgrgidR gid := (getgrgidR_c gid h).2;
  getgrouplist username gid := (getgrouplist_c username gid h).2;
|}.
End lookups.

(** ** Memory *)

(** The heap holds what it held before. *)
Definition restored (h h' : heap) : Prop := heap_wf h' ∧ h_live h' = h_live h ∧ h_next h <= h_next h'.

(** It holds one more buffer. *)
Definition holding (a : Z) (h h' : heap) : Prop :=
  heap_wf h' ∧ (a ∉ h_live h) ∧ h_live h' = {[a]} ∪ h_live h ∧ h_next h <= h_next h'.

Lemma restored_refl h : heap_wf h → restored h h.
Proof. done. Qed.

Lemma restored_trans h1 h2 h3 : restored h1 h2 → restored h2 h3 → restored h1 h3.
Proof. intros (_ & E1 & N1) (W & E2 & N2). split_and!; [done|congruence|lia]. Qed.

Lemma holding_restored a h h1 h2 : holding a h h1 → restored h1 h2 → holding a h h2.
Proof. intros (_ & Hn & E & N) (W & E2 & N2). split_and!; [done|done|congruence|lia]. Qed.

Lemma restored_holding a h h1 h2 : restored h h1 → holding a h1 h2 → holding a h h2.
Proof. intros (_ & E & N) (W & Hn & E2 & N2). rewrite E in *. split_and!; [done|done|done|lia]. Qed.

Lemma wp_tick h (Q : res nat → heap → Prop) : heap_wf h → (∀ n h', restored h h' → Q (Ok n) h') → wp tick Q h.
Proof. intros Hw HQ. unfold wp, tick. simpl. by apply HQ. Qed.

Lemma wp_allocate h (Q : res Z → heap → Prop) : heap_wf h → (∀ a h', holding a h h' → Q (Ok a) h') → wp allocate Q h.
Proof.
  intros Hw HQ. unfold wp, allocate. simpl. apply HQ. split_and!; simpl; [|by intros Hin%Hw; lia|done|lia].
  intros x [->%elem_of_singleton|Hx%Hw]%elem_of_union; simpl; lia.
Qed.

Lemma wp_free a h h' (Q : res unit → heap → Prop) : holding a h h' → (∀ h'', restored h h'' → Q (Ok tt) h'') → wp (C_free a) Q h'.
Proof.
  intros (Hw & Hn & E & N) HQ. unfold wp, C_free. simpl. apply HQ. split_and!; simpl; [|rewrite E; set_solver|done].
  intros x [Hx _]%elem_of_difference. by apply Hw.
Qed.

Section memory.
Context `{CLib}.

Lemma wp_malloc size h (Q : res (option Z) → heap → Prop) : heap_wf h → (∀ h', restored h h' → Q (Ok None) h') →
  (∀ a h', holding a h h' → Q (Ok (Some a)) h') → wp (C_malloc size) Q h.
Proof.
  intros Hw Hnone Hsome. apply wp_bind, wp_tick; [done|]. intros n h1 R1. case_match; [by apply wp_ret, Hnone|].
  apply wp_bind, wp_allocate; [apply R1|]. intros a h2 Hd2. apply wp_ret, Hsome. by eapply restored_holding.
Qed.

(** The memory is given back, the loop ended, and a result is an answer. *)
Definition looked_up {A} (h : heap) (answer : A → Prop) (r : res A) (h' : heap) : Prop :=
  restored h h' ∧ r ≠ Err out_of_fuel ∧ ∀ a, r = Ok a → answer a.

Lemma looked_up_error {A} h h' (answer : A → Prop) e : restored h h' → e ≠ out_of_fuel → looked_up h answer (Err e) h'.
Proof. intros R He. split_and!; [done|congruence|done]. Qed.

Lemma wp_lookup_loop {A} f (call : nat → Z → c_answer A) limit tooLarge notFound bufSize max h :
  heap_wf h → tooLarge ≠ out_of_fuel → notFound ≠ out_of_fuel → 0 < bufSize <= max → max < 2 ^ 62 → limit <= max →
  limit < bufSize * 2 ^ Z.of_nat f →
  wp (lookup_loop (S f) call limit tooLarge notFound bufSize)
    (looked_up h (λ a, ∃ n size, 0 < size <= max ∧ call n size = CFound a)) h.
Proof.
  revert bufSize h. induction f as [|f IH]; intros bufSize h Hw Ht Hnf Hb Hm Hl Hf;
    (cbn [lookup_loop]; apply wp_bind, wp_malloc; [done|intros; by apply wp_fail, looked_up_error|]);
    intros buf h1 Hd1; (apply wp_bind, wp_tick; [apply Hd1|]); intros n h2 R2;
    pose proof (holding_restored _ _ _ _ Hd1 R2) as Hd2; destruct (call n bufSize) as [|rc| |a] eqn:Ec;
    (apply wp_bind; eapply wp_free; [done|]); intros h3 R3; try (by apply wp_fail, looked_up_error);
    try (apply wp_ret; split_and!; [done|done|intros ? [= <-]; by exists n, bufSize]).
  all: assert (Ei : i64 (bufSize * 2) = bufSize * 2) by (unfold i64; rewrite Z.mod_small; lia); rewrite Ei.
  - change (2 ^ Z.of_nat 0) with 1 in Hf. destruct (Z.ltb_spec limit (bufSize * 2)); [by apply wp_fail, looked_up_error|lia].
  - destruct (Z.ltb_spec limit (bufSize * 2)); [by apply wp_fail, looked_up_error|].
    rewrite Nat2Z.inj_succ, Z.pow_succ_r in Hf by lia. eapply wp_mono; [apply IH; [apply R3|done|done|lia|done|done|nia]|].
    intros r h4 (R4 & Hn4 & Ha). split_and!; [by eapply restored_trans|done|done].
Qed.

Lemma wp_grouplist_loop f username gid groupCount h : heap_wf h → maxGroupCount < groupCount + Z.of_nat f →
  wp (grouplist_loop (S f) username gid groupCount)
    (looked_up h (λ groups, ∃ n count capacity rc contents, 0 < capacity <= maxGroupCount ∧ 0 <= count <= capacity ∧
       c_getgrouplist n username gid capacity = (rc, count, contents) ∧ groups = take (Z.to_nat count) contents)) h.
Proof.
  revert groupCount h. induction f as [|f IH]; intros groupCount h Hw Hf; cbn [grouplist_loop];
    destruct ((groupCount <=? 0) || (maxGroupCount <? groupCount)) eqn:Eb; try (by apply wp_fail, looked_up_error);
    bool_simp; [lia|].
  apply wp_bind, wp_malloc; [done|intros; by apply wp_fail, looked_up_error|]. intros buf h1 Hd1.
  apply wp_bind, wp_tick; [apply Hd1|]. intros n h2 R2. pose proof (holding_restored _ _ _ _ Hd1 R2) as Hd2.
  destruct (c_getgrouplist n username gid groupCount) as [[rc count] contents] eqn:Ec. destruct (Z.eqb_spec rc (-1)) as [->|Hrc].
  - apply wp_bind. eapply wp_free; [done|]. intros h3 R3. eapply wp_mono; [apply IH; [apply R3|]|].
    + destruct (Z.leb_spec count groupCount); lia.
    + intros r h4 (R4 & Hn4 & Ha). split_and!; [by eapply restored_trans|done|done].
  - destruct ((count <? 0) || (groupCount <? count)) eqn:Er.
    + apply wp_bind. eapply wp_free; [done|]. intros h3 R3. by apply wp_fail, looked_up_error.
    + bool_simp. apply wp_bind. eapply wp_free; [done|]. intros h3 R3. apply wp_ret. split_and!; [done|done|]. intros ? [= <-].
      exists n, count, groupCount, rc, contents. split_and!; try done; lia.
Qed.

(** A lookup with the name in C memory. *)
Lemma wp_with_cstring {A} (m : ST heap A) h answer : heap_wf h → (∀ h1, heap_wf h1 → wp m (looked_up h1 answer) h1) →
  wp (c ← C_CString; r ← st_try m; _ ← C_free c; st_lift r) (looked_up h answer) h.
Proof.
  intros Hw Hm. apply wp_bind, wp_allocate; [done|]. intros c h1 Hd1. apply wp_bind, wp_try.
  eapply wp_mono; [apply Hm, Hd1|]. intros r h2 (R2 & Hn & Ha). pose proof (holding_restored _ _ _ _ Hd1 R2) as Hd2.
  apply wp_bind. eapply wp_free; [done|]. intros h3 R3. apply wp_lift. done.
Qed.

Lemma wp_sized_lookup {A} (call : nat → Z → c_answer A) tooLarge notFound hint h : heap_wf h → tooLarge ≠ out_of_fuel → notFound ≠ out_of_fuel →
  hint < 2 ^ 61 →
  wp (lookup_loop lookup_fuel call 1048576 tooLarge notFound (get_buf_size hint))
    (looked_up h (λ a, ∃ n size, 0 < size <= Z.max hint 1048576 ∧ call n size = CFound a)) h.
Proof.
  intros Hw Ht Hn Hh. assert (Hs : 1024 <= get_buf_size hint <= Z.max hint 1048576)
    by (unfold get_buf_size; destruct (Z.ltb_spec hint 1024); lia).
  apply wp_lookup_loop; try done; try lia.
Qed.
End memory.


(** Ids survive printing and parsing, and only numbers of 32 bits parse. *)
Lemma id_roundtrip id : is_u32 id → ParseID (FormatID id) = Ok id.
Proof.
  intros Hid. unfold ParseID, FormatID, IsASCIINumeric. replace (all_digits (FormatUint id)) with true by (symmetry; by apply all_digits_format). cbn [negb reject_if mbind res_bind].
  apply ParseUint_FormatUint; [unfold is_u32, MaxUint32 in Hid; lia|lia].
Qed.

(** ** A concrete library *)

(** The entry needs 40000 bytes, the groups need 20 entries. *)
Definition toy_clib : CLib := {|
  sysconf_GETPW_R_SIZE_MAX := -1;
  sysconf_GETGR_R_SIZE_MAX := 1024;
  malloc_fails _ _ := false;
  c_getpwnam_r _ name size := if size <? 40000 then CRange else CFound (MkPasswd name 1000 1000 "" "/home/u" "/bin/sh");
  c_getgrgid_r _ gid size := if gid =? 0 then CNone else CFound "users"%string;
  c_getgrouplist _ _ gid capacity := if capacity <? 20 then (-1, 20, []) else (20, 20, seqZ 1 40);
|}.
#[local] Existing Instance toy_clib.

Example toy_lookups :
  (is_ok (getpwnamR_c "u" (MkHeap ∅ 0 0)).2, (getgrgidR_c 0 (MkHeap ∅ 0 0)).2, (getgrouplist_c "u" 1 (MkHeap ∅ 0 0)).2)
  = (true, Err (NewError "group not found"), Ok (seqZ 1 20)).
Proof. vm_compute. reflexivity. Qed.

