(* ===== verification/ProcessRunner.v ===== *)
(** * The life of a process (app/server/process/runner.go)

    From the creation of its descriptors to its exit.  [startPipes] is a
    computation on the descriptors of the server.  Once the process runs, the
    goroutine of [wait], the goroutine [Terminate] starts, its callers and the
    kernel act in any order: the state is a [runningProcess] together with its
    process group, and every step of a goroutine is a step of [runner_step].

    A process group holds the leader, which the server waits for, and other
    members.  A member can fork, exit or leave the group.  When the leader was
    waited for and no member is left, the id of the group is free, and the
    kernel may give it to strangers. *)

From S2P Require Import Prelude GoStrings CommandCodec Launch.

(** ** Exit results *)

(** What [cmd.Wait] returns: nil, an [ExitError] with its wait status, an
    [ExitError] of another system, another error. *)
Inductive wait_error := WaitNil | WaitExit (status : Z) | WaitForeign | WaitOther.

(** [syscall.WaitStatus] *)
Definition Exited (status : Z) : bool := Z.land status 127 =? 0.
Definition Signaled (status : Z) : bool := negb (Z.land status 127 =? 127) && negb (Z.land status 127 =? 0).
Definition status_Signal (status : Z) : Z := if Signaled status then Z.land status 127 else -1.
Definition ExitStatus (status : Z) : Z := if Exited status then Z.land (Z.shiftr status 8) 255 else -1.

(** [cmd.Wait] of a process that ended with a wait status. *)
Definition cmd_Wait (status : Z) : wait_error :=
  if Exited status && (ExitStatus status =? 0) then WaitNil else WaitExit status.

(** The wait status of a process that returned a code, or was ended by a signal. *)
Definition exited_with (code : Z) : Z := Z.shiftl code 8.
Definition signaled_by (sig : Z) (core : bool) : Z := Z.lor sig (if core then 128 else 0).

(** The names of signals in the packages unix and syscall. *)
Class SignalNames := { SignalName : Z → string; signal_String : Z → string }.

Section exit.
Context `{SignalNames}.

Definition exitResult (err : wait_error) : ExitResult :=
  match err with
  | WaitNil => MkExitResult 0 "" ""
  | WaitOther => MkExitResult 0 "" "process wait failed"
  | WaitForeign => MkExitResult 0 "" "process status is unavailable"
  | WaitExit status =>
      if Signaled status then
        let name := SignalName (status_Signal status) in
        MkExitResult 0 (if bool_decide (name = ""%string) then signal_String (status_Signal status) else name) ""
      else MkExitResult (ExitStatus status) "" ""
  end.
End exit.

(** ** Descriptors *)

(** The open descriptors of the server and the next fresh one.  The kernel
    answers the calls with [pipes] and [starts]. *)
Record descriptors := MkDescriptors { d_open : gset Z; d_next : Z; d_pipes : list (option error) }.

(** [os.Pipe]: the read end and the write end. *)
Definition os_Pipe : ST descriptors (Z * Z) := λ d,
  match d_pipes d with
  | Some e :: rest => (MkDescriptors (d_open d) (d_next d) rest, Err e)
  | None :: rest =>
      let r := d_next d in
      (MkDescriptors ({[r; r + 1]} ∪ d_open d) (r + 2) rest, Ok (r, r + 1))
  | [] => (d, Err (NewError "too many open files"))
  end.

Definition fd_Close (fd : Z) : ST descriptors unit := λ d,
  (MkDescriptors (d_open d ∖ {[fd]}) (d_next d) (d_pipes d), Ok tt).

Definition fds_Close (fds : list Z) : ST descriptors unit := st_iter fd_Close fds.

(** The ends the process gets, and those the server keeps. *)
Record pipes := MkPipes { child_stdin : Z; child_stdout : Z; child_stderr : Z; p_stdin : Z; p_stdout : Z; p_stderr : Z }.

(** [started] is what [cmd.Start] returns. *)
Definition startPipes (started : option error) : ST descriptors pipes :=
  r ← st_try os_Pipe;
  match r with
  | Err e => st_fail (Wrapped e "create process stdin pipe")
  | Ok (stdinRead, stdinWrite) =>
      r ← st_try os_Pipe;
      match r with
      | Err e => _ ← fds_Close [stdinRead; stdinWrite]; st_fail (Wrapped e "create process stdout pipe")
      | Ok (stdoutRead, stdoutWrite) =>
          r ← st_try os_Pipe;
          match r with
          | Err e =>
              _ ← fds_Close [stdinRead; stdinWrite; stdoutRead; stdoutWrite];
              st_fail (Wrapped e "create process stderr pipe")
          | Ok (stderrRead, stderrWrite) =>
              match started with
              | Some e =>
                  _ ← fds_Close [stdinRead; stdinWrite; stdoutRead; stdoutWrite; stderrRead; stderrWrite];
                  st_fail (Wrapped e "start process")
              | None =>
                  _ ← fds_Close [stdinRead; stdoutWrite; stderrWrite];
                  mret (MkPipes stdinRead stdoutWrite stderrWrite stdinWrite stdoutRead stderrRead)
              end
          end
      end
  end.

(** [CloseOutput] of a process with pipes. *)
Definition CloseOutput (ps : pipes) : ST descriptors unit := fds_Close [p_stdout ps; p_stderr ps].

(** ** Terminals *)

Definition u16 (z : Z) : Z := z mod 65536.

Record Winsize := MkWinsize { wz_Rows : Z; wz_Cols : Z }.

(** The size [startPTY] gives the terminal. *)
Definition pty_winsize (p : PTYSpec) : Winsize := MkWinsize (u16 (ps_Rows p)) (u16 (ps_Columns p)).

(** [setsize] is what [pty.Setsize] returns; the result is the size that was set. *)
Definition Resize (hasPTY : bool) (ctxErr : option error) (size : WindowSize) (setsize : option error) : res Winsize :=
  reject_if (negb hasPTY) (NewError "process does not have a PTY") ≫= λ _,
  match ctxErr with
  | Some e => Err e
  | None =>
      reject_if ((ws_Rows size =? 0) || (65535 <? ws_Rows size) || (ws_Columns size =? 0) || (65535 <? ws_Columns size))
        (NewError "PTY dimensions are invalid") ≫= λ _,
      match setsize with
      | Some e => Err (Wrapped e "resize process PTY")
      | None => mret (MkWinsize (u16 (ws_Rows size)) (u16 (ws_Columns size)))
      end
  end.

Definition EIO : error := Sentinel "input/output error".
Definition ErrClosedPipe : error := Sentinel "io: read/write on closed pipe".

(** [eofOnPTYClose]: the state of [once] and how often the file was closed. *)
Record eofOnPTYClose := MkEofOnPTYClose { e_once : bool; e_closes : nat }.

Definition eof_Close (r : eofOnPTYClose) : eofOnPTYClose :=
  if e_once r then r else MkEofOnPTYClose true (S (e_closes r)).

(** [answer] is what the file returned. *)
Definition eof_Read (answer : bytes * option error) (r : eofOnPTYClose) : eofOnPTYClose * (bytes * option error) :=
  let '(data, err) := answer in
  match err with
  | None => (r, (data, None))
  | Some e => (eof_Close r, (data, Some (if err_is e EIO then io_EOF else e)))
  end.

(** ** The process group *)

Inductive leader := LAlive | LZombie (status : Z) | LReaped (status : Z).

Record group := MkGroup { g_leader : leader; g_members : nat; g_strangers : nat }.

Definition is_alive (l : leader) : bool := match l with LAlive => true | _ => false end.
Definition is_reaped (l : leader) : bool := match l with LReaped _ => true | _ => false end.

Definition nonzero (n : nat) : bool := match n with O => false | S _ => true end.

(** Some process of the group can still act. *)
Definition living (g : group) : bool := is_alive (g_leader g) || nonzero (g_members g).

(** The id of the group is in use by the group. *)
Definition in_use (g : group) : bool := negb (is_reaped (g_leader g)) || nonzero (g_members g).

(** [kill] of the group with signal 0 succeeds. *)
Definition group_exists (g : group) : bool := in_use g || nonzero (g_strangers g).

Inductive signal := SIGTERM | SIGKILL.

#[export] Instance signal_eq_dec : EqDecision signal.
Proof. solve_decision. Defined.

(** What a SIGKILL leaves: without privileges the server cannot signal the
    processes that changed their user. *)
Definition killed (spared : bool) (survivors : nat) (g : group) : group :=
  MkGroup (if spared then g_leader g else match g_leader g with LAlive => LZombie 9 | l => l end) (min survivors (g_members g)) 0.

(** ** The state *)

(** Where a goroutine is in [terminate]. *)
Inductive tphase := TCloseStdin | TSigterm | TCheck | TSelect | TAwait | TComplete | TCloseDone | TReturned.

(** Where the goroutine of [wait] is. *)
Inductive wphase := WWait | WResult (r : ExitResult) | WWaitDone | WClaim | WTerminate (t : tphase) | WReturned.

(** The channels are represented by whether they are closed, [rp_signals] holds
    the signals sent, with whether strangers got them, and [rp_killer] is the
    goroutine that [Terminate] started. *)
Record runningProcess := MkRunningProcess {
  rp_hasPTY : bool;
  rp_stdinClosed : bool;
  rp_stdinFileCloses : nat;
  rp_processWaitDone : bool;
  rp_done : bool;
  rp_result : ExitResult;
  rp_terminating : bool;
  rp_completed : bool;
  rp_terminateOnce : bool;
  rp_waiter : wphase;
  rp_killer : option tphase;
  rp_signals : list (signal * bool);
  rp_group : group;
}.

Definition eta_running (p : runningProcess) : runningProcess :=
  MkRunningProcess (rp_hasPTY p) (rp_stdinClosed p) (rp_stdinFileCloses p) (rp_processWaitDone p) (rp_done p) (rp_result p)
    (rp_terminating p) (rp_completed p) (rp_terminateOnce p) (rp_waiter p) (rp_killer p) (rp_signals p) (rp_group p).

#[export] Instance set_rp_stdinClosed : Setter rp_stdinClosed := ltac:(derive_setter eta_running).
#[export] Instance set_rp_stdinFileCloses : Setter rp_stdinFileCloses := ltac:(derive_setter eta_running).
#[export] Instance set_rp_processWaitDone : Setter rp_processWaitDone := ltac:(derive_setter eta_running).
#[export] Instance set_rp_done : Setter rp_done := ltac:(derive_setter eta_running).
#[export] Instance set_rp_result : Setter rp_result := ltac:(derive_setter eta_running).
#[export] Instance set_rp_terminating : Setter rp_terminating := ltac:(derive_setter eta_running).
#[export] Instance set_rp_completed : Setter rp_completed := ltac:(derive_setter eta_running).
#[export] Instance set_rp_terminateOnce : Setter rp_terminateOnce := ltac:(derive_setter eta_running).
#[export] Instance set_rp_waiter : Setter rp_waiter := ltac:(derive_setter eta_running).
#[export] Instance set_rp_killer : Setter rp_killer := ltac:(derive_setter eta_running).
#[export] Instance set_rp_signals : Setter rp_signals := ltac:(derive_setter eta_running).
#[export] Instance set_rp_group : Setter rp_group := ltac:(derive_setter eta_running).

(** [Runner.Start] once the process runs: [wait] has just been started. *)
Definition started (hasPTY : bool) : runningProcess :=
  MkRunningProcess hasPTY false 0 false false (MkExitResult 0 "" "") false false false WWait None [] (MkGroup LAlive 0 0).

(** ** Operations *)

(** The terminal stays open: it is also the output. *)
Definition CloseStdin (p : runningProcess) : runningProcess :=
  if rp_stdinClosed p then p
  else
    let p := p <| rp_stdinClosed := true |> in
    if rp_hasPTY p then p else p <| rp_stdinFileCloses ::= S |>.

(** The loop of [WriteStdin]: what each [Write] of the file accepted or failed
    with.  The result is [None] while a [Write] is under way. *)
Fixpoint write_stdin_loop (data : bytes) (writes : list (nat + error)) : list bytes * option (res unit) :=
  match data, writes with
  | [], _ => ([], Some (Ok tt))
  | _, [] => ([], None)
  | _, inr e :: _ => ([], Some (Err e))
  | _, inl n :: rest => let '(accepted, r) := write_stdin_loop (drop n data) rest in (take n data :: accepted, r)
  end.

Definition WriteStdin (ctxErr : option error) (data : bytes) (writes : list (nat + error)) (p : runningProcess)
  : list bytes * option (res unit) :=
  match ctxErr with
  | Some e => ([], Some (Err e))
  | None => if rp_stdinClosed p then ([], Some (Err ErrClosedPipe)) else write_stdin_loop data writes
  end.

(** [Wait] returns once [done] is closed. *)
Definition Wait (p : runningProcess) : option ExitResult := if rp_done p then Some (rp_result p) else None.

Definition Terminate (p : runningProcess) : runningProcess :=
  if rp_terminateOnce p then p
  else
    let p := p <| rp_terminateOnce := true |> in
    if rp_completed p then p else p <| rp_terminating := true |> <| rp_killer := Some TCloseStdin |>.

Definition kill (s : signal) (p : runningProcess) : runningProcess :=
  p <| rp_signals ::= λ l, l ++ [(s, nonzero (g_strangers (rp_group p)))] |>.

Definition wait_claim (p : runningProcess) : runningProcess :=
  if rp_terminating p then p <| rp_waiter := WReturned |>
  else p <| rp_terminating := true |> <| rp_waiter := WTerminate TCloseStdin |>.

(** [complete], up to [closeDone]. *)
Definition complete (p : runningProcess) : runningProcess := p <| rp_completed := true |>.

(** [done] is closed once. *)
Definition closeDone (p : runningProcess) : runningProcess := if rp_done p then p else p <| rp_done := true |>.

(** A step of a goroutine in [terminate].  [privileged] says that the server may
    signal every process.  A check can find processes that are dead but still
    known to the kernel. *)
Inductive terminate_step (privileged : bool) : tphase → runningProcess → tphase → runningProcess → Prop :=
  | t_close p : terminate_step privileged TCloseStdin p TSigterm (CloseStdin p)
  | t_sigterm p : terminate_step privileged TSigterm p TCheck (kill SIGTERM p)
  | t_gone p : group_exists (rp_group p) = false → terminate_step privileged TCheck p TAwait p
  | t_there p : terminate_step privileged TCheck p TSelect p
  | t_tick p : terminate_step privileged TSelect p TCheck p
  | t_expire spared survivors p : (privileged = true → spared = false ∧ survivors = O) →
      terminate_step privileged TSelect p TAwait (kill SIGKILL p <| rp_group ::= killed spared survivors |>)
  | t_await p : rp_processWaitDone p = true → terminate_step privileged TAwait p TComplete p
  | t_complete p : terminate_step privileged TComplete p TCloseDone (complete p)
  | t_done p : terminate_step privileged TCloseDone p TReturned (closeDone p).

Section runner.
Context `{SignalNames} (privileged : bool).

(** The goroutines of the server. *)
Inductive server_step : runningProcess → runningProcess → Prop :=
  | w_reap status p : rp_waiter p = WWait → g_leader (rp_group p) = LZombie status →
      server_step p (p <| rp_waiter := WResult (exitResult (cmd_Wait status)) |>
                       <| rp_group ::= λ g, MkGroup (LReaped status) (g_members g) (g_strangers g) |>)
  | w_result r p : rp_waiter p = WResult r → server_step p (p <| rp_result := r |> <| rp_waiter := WWaitDone |>)
  | w_waitDone p : rp_waiter p = WWaitDone → server_step p (p <| rp_processWaitDone := true |> <| rp_waiter := WClaim |>)
  | w_claim p : rp_waiter p = WClaim → server_step p (wait_claim p)
  | w_terminate t p t' p' : rp_waiter p = WTerminate t → terminate_step privileged t p t' p' →
      server_step p (p' <| rp_waiter := WTerminate t' |>)
  | k_terminate t p t' p' : rp_killer p = Some t → terminate_step privileged t p t' p' →
      server_step p (p' <| rp_killer := Some t' |>).

(** The callers of the API and the goroutine that waits for the context. *)
Inductive call_step : runningProcess → runningProcess → Prop :=
  | c_Terminate p : call_step p (Terminate p)
  | c_CloseStdin p : call_step p (CloseStdin p).

(** The processes and the kernel. *)
Inductive process_step : runningProcess → runningProcess → Prop :=
  | p_fork p : living (rp_group p) = true →
      process_step p (p <| rp_group ::= λ g, MkGroup (g_leader g) (S (g_members g)) (g_strangers g) |>)
  | p_leave n p : g_members (rp_group p) = S n →
      process_step p (p <| rp_group ::= λ g, MkGroup (g_leader g) n (g_strangers g) |>)
  | p_exit status p : g_leader (rp_group p) = LAlive →
      process_step p (p <| rp_group ::= λ g, MkGroup (LZombie status) (g_members g) (g_strangers g) |>)
  | p_reuse p : in_use (rp_group p) = false →
      process_step p (p <| rp_group ::= λ g, MkGroup (g_leader g) (g_members g) (S (g_strangers g)) |>)
  | p_stranger_leaves n p : g_strangers (rp_group p) = S n →
      process_step p (p <| rp_group ::= λ g, MkGroup (g_leader g) (g_members g) n |>).

Inductive runner_step (p p' : runningProcess) : Prop :=
  | by_server : server_step p p' → runner_step p p'
  | by_caller : call_step p p' → runner_step p p'
  | by_process : process_step p p' → runner_step p p'.

Definition runner_reachable (hasPTY : bool) (p : runningProcess) : Prop := rtc runner_step (started hasPTY) p.
End runner.

(** ** What never goes back *)

Section invariants.
Context `{SignalNames} (privileged : bool).
Implicit Types p : runningProcess.

(** No process of the group is left, or one that the server may not signal. *)
Definition group_ended p : Prop :=
  living (rp_group p) = false ∨ (privileged = false ∧ SIGKILL ∈ (rp_signals p).*1).

Record grows p p' : Prop := {
  gr_pty : rp_hasPTY p' = rp_hasPTY p;
  gr_signals : rp_signals p `prefix_of` rp_signals p';
  gr_ended : group_ended p → group_ended p';
  gr_waitDone : rp_processWaitDone p = true → rp_processWaitDone p' = true;
  gr_completed : rp_completed p = true → rp_completed p' = true;
  gr_done : rp_done p = true → rp_done p' = true;
  gr_stdin : rp_stdinClosed p = true → rp_stdinClosed p' = true;
  gr_terminating : rp_terminating p = true → rp_terminating p' = true;
}.

#[export] Instance grows_refl : Reflexive grows.
Proof. by split. Qed.

#[export] Instance grows_trans : Transitive grows.
Proof. intros p1 p2 p3 [] []. split; [congruence|by etrans|auto..]. Qed.

Lemma grows_sent s p p' : grows p p' → s ∈ (rp_signals p).*1 → s ∈ (rp_signals p').*1.
Proof. intros [_ [l ->] _ _ _ _] Hs. rewrite fmap_app. apply elem_of_app. by left. Qed.

(** A change that neither revives the group nor touches the rest. *)
Lemma grows_group (f : group → group) p : (living (rp_group p) = false → living (f (rp_group p)) = false) →
  grows p (p <| rp_group ::= f |>).
Proof. intros Hf. split; try done. intros [He|He]; [left; by apply Hf|by right]. Qed.

Lemma grows_CloseStdin p : grows p (CloseStdin p).
Proof. unfold CloseStdin. repeat case_match; by split. Qed.

Lemma grows_Terminate p : grows p (Terminate p).
Proof. unfold Terminate. repeat case_match; by split. Qed.

Lemma grows_kill s p : grows p (kill s p).
Proof.
  split; try done; [by apply prefix_app_r|]. intros [He|[Hu Hk]]; [by left|right]. split; [done|]. cbn. rewrite fmap_app. apply elem_of_app. by left.
Qed.

Lemma killed_dead spared survivors g : living g = false → living (killed spared survivors g) = false.
Proof.
  unfold living, killed. intros [Ha Hm]%orb_false_iff. cbn. apply orb_false_iff. split.
  - by destruct spared, (g_leader g).
  - destruct (g_members g); [by rewrite Nat.min_0_r|done].
Qed.

Lemma grows_terminate t p t' p' : terminate_step privileged t p t' p' → grows p p'.
Proof.
  destruct 1; try done; try (by split).
  - apply grows_CloseStdin.
  - apply grows_kill.
  - etrans; [apply (grows_kill SIGKILL)|apply grows_group, killed_dead].
  - unfold closeDone. case_match; by split.
Qed.

Lemma grows_waiter w p p' : grows p p' → grows p (p' <| rp_waiter := w |>).
Proof. by intros []. Qed.

Lemma grows_killer k p p' : grows p p' → grows p (p' <| rp_killer := k |>).
Proof. by intros []. Qed.

Lemma grows_step p p' : runner_step privileged p p' → grows p p'.
Proof.
  destruct 1 as [Hs|Hs|Hs]; destruct Hs as [].
  - etrans; [by apply (grows_waiter (WResult (exitResult (cmd_Wait status))) p p)|]. apply grows_group. unfold living. cbn.
    intros [_ Hm]%orb_false_iff. done.
  - by split.
  - by split.
  - unfold wait_claim. case_match; by split.
  - by eapply grows_waiter, grows_terminate.
  - by eapply grows_killer, grows_terminate.
  - apply grows_Terminate.
  - apply grows_CloseStdin.
  - apply grows_group. congruence.
  - apply grows_group. unfold living. cbn. rewrite H0. by intros [_ Hm]%orb_false_iff.
  - apply grows_group. unfold living. cbn. rewrite H0. done.
  - by apply grows_group.
  - by apply grows_group.
Qed.

(** ** The invariant *)

(** What a goroutine in [terminate] knows. *)
Definition knows (t : tphase) p : Prop :=
  match t with
  | TCloseStdin => rp_terminating p = true
  | TSigterm => rp_terminating p = true ∧ rp_stdinClosed p = true
  | TCheck | TSelect => rp_terminating p = true ∧ rp_stdinClosed p = true ∧ SIGTERM ∈ (rp_signals p).*1
  | TAwait => rp_terminating p = true ∧ rp_stdinClosed p = true ∧ group_ended p ∧ SIGTERM ∈ (rp_signals p).*1
  | TComplete => rp_terminating p = true ∧ rp_stdinClosed p = true ∧ group_ended p ∧ rp_processWaitDone p = true
  | TCloseDone => rp_completed p = true
  | TReturned => rp_completed p = true ∧ rp_done p = true
  end.

Lemma knows_grows t p p' : grows p p' → knows t p → knows t p'.
Proof.
  intros Hg. pose proof (grows_sent SIGTERM _ _ Hg) as Hs. destruct Hg. destruct t; cbn; naive_solver.
Qed.

(** The process was waited for and its result stored. *)
Definition waited p : Prop := ∃ status, g_leader (rp_group p) = LReaped status ∧ rp_result p = exitResult (cmd_Wait status).

Definition waiter_inv p : Prop :=
  match rp_waiter p with
  | WWait => is_reaped (g_leader (rp_group p)) = false ∧ rp_processWaitDone p = false
  | WResult r => (∃ status, g_leader (rp_group p) = LReaped status ∧ r = exitResult (cmd_Wait status)) ∧ rp_processWaitDone p = false
  | WWaitDone => waited p ∧ rp_processWaitDone p = false
  | WClaim => waited p ∧ rp_processWaitDone p = true
  | WTerminate _ | WReturned => waited p ∧ rp_processWaitDone p = true ∧ rp_terminating p = true
  end.

(** Every SIGKILL follows a SIGTERM. *)
Definition ordered (l : list (signal * bool)) : Prop := ∀ pre b post, l = pre ++ (SIGKILL, b) :: post → SIGTERM ∈ pre.*1.

Definition active (t : tphase) : bool := match t with TReturned => false | _ => true end.

Record runner_inv p : Prop := {
  i_waiter : waiter_inv p;
  i_waiter_knows t : rp_waiter p = WTerminate t → knows t p;
  i_killer_knows t : rp_killer p = Some t → knows t p;
  i_completed : rp_completed p = true → group_ended p ∧ rp_processWaitDone p = true ∧ rp_stdinClosed p = true;
  i_done : rp_done p = true → rp_completed p = true;
  i_ordered : ordered (rp_signals p);
  i_active : rp_terminating p = true →
    rp_done p = true ∨ (∃ t, active t = true ∧ (rp_waiter p = WTerminate t ∨ rp_killer p = Some t));
  i_stdin : rp_stdinFileCloses p = if rp_stdinClosed p && negb (rp_hasPTY p) then 1%nat else 0%nat;
}.

Lemma ordered_snoc s b l : ordered l → (s = SIGKILL → SIGTERM ∈ l.*1) → ordered (l ++ [(s, b)]).
Proof.
  intros Ho Hs pre b' post E. destruct post as [|x post _] using rev_ind.
  - apply app_inj_tail in E as [-> [= -> ->]]. by apply Hs.
  - rewrite app_comm_cons, app_assoc in E. apply app_inj_tail in E as [E _]. by eapply Ho.
Qed.

(** What a step in [terminate] leaves alone. *)
Record apart p p' : Prop := {
  ap_waiter : rp_waiter p' = rp_waiter p;
  ap_killer : rp_killer p' = rp_killer p;
  ap_result : rp_result p' = rp_result p;
  ap_waitDone : rp_processWaitDone p' = rp_processWaitDone p;
  ap_terminating : rp_terminating p' = rp_terminating p;
  ap_reaped status : g_leader (rp_group p) = LReaped status → g_leader (rp_group p') = LReaped status;
  ap_not_reaped : is_reaped (g_leader (rp_group p)) = false → is_reaped (g_leader (rp_group p')) = false;
}.

Lemma apart_CloseStdin p : apart p (CloseStdin p).
Proof. unfold CloseStdin. repeat case_match; by split. Qed.

Lemma apart_terminate t p t' p' : terminate_step privileged t p t' p' → apart p p'.
Proof.
  destruct 1; try (by split).
  - apply apart_CloseStdin.
  - split; try done; cbn.
    + intros status ->. by destruct spared.
    + by destruct spared, (g_leader (rp_group p)).
  - unfold closeDone. case_match; by split.
Qed.

Lemma waiter_inv_apart p p' : apart p p' → waiter_inv p → waiter_inv p'.
Proof.
  intros [E1 _ E2 E3 E4 Hr Hn]. unfold waiter_inv, waited. rewrite E1, E2, E3, E4. destruct (rp_waiter p); naive_solver.
Qed.

Lemma CloseStdin_closed p : rp_stdinClosed (CloseStdin p) = true.
Proof. unfold CloseStdin. destruct (rp_stdinClosed p) eqn:E; [done|]. case_match; done. Qed.

Lemma CloseStdin_count p :
  rp_stdinFileCloses p = (if rp_stdinClosed p && negb (rp_hasPTY p) then 1%nat else 0%nat) →
  rp_stdinFileCloses (CloseStdin p) = if rp_stdinClosed (CloseStdin p) && negb (rp_hasPTY (CloseStdin p)) then 1%nat else 0%nat.
Proof.
  unfold CloseStdin. destruct (rp_stdinClosed p) eqn:E; [by rewrite E|]. cbn. intros Hc.
  destruct (rp_hasPTY p) eqn:Ep; cbn; rewrite Ep; cbn; [done|]. by rewrite Hc.
Qed.

(** The part of the invariant that does not name the goroutines. *)
Definition facts p : Prop :=
  (rp_completed p = true → group_ended p ∧ rp_processWaitDone p = true ∧ rp_stdinClosed p = true) ∧
  (rp_done p = true → rp_completed p = true) ∧ ordered (rp_signals p) ∧
  rp_stdinFileCloses p = if rp_stdinClosed p && negb (rp_hasPTY p) then 1%nat else 0%nat.

Lemma terminate_keeps t p t' p' : terminate_step privileged t p t' p' → knows t p → facts p → knows t' p' ∧ facts p'.
Proof.
  intros Hs Hk (Hc & Hd & Ho & Hn). pose proof (grows_terminate _ _ _ _ Hs) as Hg. destruct Hs; unfold facts.
  - pose proof Hg as []. assert (rp_completed (CloseStdin p) = rp_completed p ∧ rp_done (CloseStdin p) = rp_done p ∧ rp_signals (CloseStdin p) = rp_signals p)
      as (-> & -> & ->) by (unfold CloseStdin; repeat case_match; done).
    split; [split; [auto|apply CloseStdin_closed]|]. split_and!; [intros Ec; destruct (Hc Ec) as (?&?&?); auto|done|done|by apply CloseStdin_count].
  - destruct Hk as [Ht Hcl]. split; [split_and!; [done..|]; cbn; rewrite fmap_app; apply elem_of_app; right; left|].
    split_and!; cbn; [|done| |done].
    + intros Ec. destruct (Hc Ec) as (?&?&?). destruct Hg. auto.
    + by apply ordered_snoc.
  - destruct Hk as (Ht & Hcl & Hsig). split; [|done]. split_and!; try done. left. unfold group_exists, in_use in H0. unfold living.
    apply orb_false_iff in H0 as [[Hr Hm]%orb_false_iff _]. apply negb_false_iff in Hr. rewrite Hm. by destruct (g_leader (rp_group p)).
  - done.
  - done.
  - destruct Hk as (Ht & Hcl & Hsig).
    assert (He : group_ended (kill SIGKILL p <| rp_group ::= killed spared survivors |>)).
    { destruct privileged eqn:Ep.
      - destruct (H0 eq_refl) as [-> ->]. left. unfold living. cbn. by destruct (g_leader (rp_group p)).
      - right. split; [done|]. cbn. rewrite fmap_app. apply elem_of_app. right. left. }
    split; [split_and!; try done; cbn; rewrite fmap_app; apply elem_of_app; by left|].
    split_and!; cbn; [|done| |done].
    + intros Ec. destruct (Hc Ec) as (?&?&?). done.
    + by apply ordered_snoc.
  - destruct Hk as (Ht & Hcl & He & _). done.
  - destruct Hk as (Ht & Hcl & He & Hw). split; [done|]. done.
  - unfold closeDone. destruct (rp_done p) eqn:Ed; [by rewrite Ed|]. split; [done|]. done.
Qed.
End invariants.

Section lifecycle.
Context `{SignalNames} (privileged : bool).
Implicit Types p : runningProcess.

Lemma started_inv hasPTY : runner_inv privileged (started hasPTY).
Proof. split; try done. intros pre b post E. destruct pre; simplify_list_eq. Qed.

(** The rest of the invariant from the facts. *)
Lemma inv_facts p : runner_inv privileged p → facts privileged p.
Proof. intros []. split_and!; auto. Qed.

(** A step of one goroutine in [terminate], the other one is elsewhere. *)
Lemma terminate_inv t p t' p' : runner_inv privileged p → terminate_step privileged t p t' p' → knows privileged t p →
  knows privileged t' p' ∧ facts privileged p' ∧ waiter_inv p' ∧ (active t' = true ∨ rp_done p' = true) ∧
  (∀ u, rp_waiter p' = WTerminate u → knows privileged u p') ∧ (∀ u, rp_killer p' = Some u → knows privileged u p').
Proof.
  intros Hinv Hs Hk. destruct (terminate_keeps privileged _ _ _ _ Hs Hk (inv_facts _ Hinv)) as [Hk' Hf'].
  pose proof (grows_terminate _ _ _ _ _ Hs) as Hg. pose proof (apart_terminate _ _ _ _ _ Hs) as Ha. destruct Hinv.
  split_and!; [done|done|by eapply waiter_inv_apart| | |].
  - destruct Hs; auto. right. unfold closeDone. by destruct (rp_done p) eqn:E.
  - rewrite (ap_waiter _ _ Ha). intros u Hu. eapply knows_grows; [done|auto].
  - rewrite (ap_killer _ _ Ha). intros u Hu. eapply knows_grows; [done|auto].
Qed.

(** Two states that only differ in the group and in stdin. *)
Lemma inv_apart p p' : runner_inv privileged p → apart p p' → grows privileged p p' → rp_completed p' = rp_completed p →
  rp_done p' = rp_done p → rp_signals p' = rp_signals p →
  rp_stdinFileCloses p' = (if rp_stdinClosed p' && negb (rp_hasPTY p') then 1%nat else 0%nat) → runner_inv privileged p'.
Proof.
  intros [] Ha Hg E1 E2 E3 E4. pose proof Ha as [A1 A2 A3 A4 A5 _ _]. split.
  - by eapply waiter_inv_apart.
  - rewrite A1. intros t Ht. by eapply knows_grows; [|apply i_waiter_knows0].
  - rewrite A2. intros t Ht. by eapply knows_grows; [|apply i_killer_knows0].
  - rewrite E1. intros Hc. destruct (i_completed0 Hc) as (?&?&?). destruct Hg. auto.
  - rewrite E1, E2. done.
  - by rewrite E3.
  - rewrite A5, E2, A1, A2. done.
  - done.
Qed.

Lemma inv_CloseStdin p : runner_inv privileged p → runner_inv privileged (CloseStdin p).
Proof.
  intros Hinv. apply (inv_apart p); [done|apply apart_CloseStdin|apply grows_CloseStdin|..|by apply CloseStdin_count, i_stdin with privileged];
    unfold CloseStdin; repeat case_match; done.
Qed.

Lemma inv_Terminate p : runner_inv privileged p → runner_inv privileged (Terminate p).
Proof.
  intros []. unfold Terminate. destruct (rp_terminateOnce p); [done|]. cbn. destruct (rp_completed p) eqn:Ec; [split; cbn; rewrite ?Ec; try assumption; auto|].
  split; cbn; [| | | | | | |exact i_stdin0].
  - unfold waiter_inv in *. cbn. destruct (rp_waiter p); naive_solver.
  - intros t Ht. specialize (i_waiter_knows0 t Ht). destruct t; cbn in *; naive_solver.
  - by intros t [= <-].
  - by rewrite Ec.
  - by rewrite Ec.
  - exact i_ordered0.
  - intros _. right. exists TCloseStdin. auto.
Qed.

Lemma inv_group (f : group → group) p : runner_inv privileged p → (living (rp_group p) = false → living (f (rp_group p)) = false) →
  (∀ status, g_leader (rp_group p) = LReaped status → g_leader (f (rp_group p)) = LReaped status) →
  (is_reaped (g_leader (rp_group p)) = false → is_reaped (g_leader (f (rp_group p))) = false) →
  runner_inv privileged (p <| rp_group ::= f |>).
Proof. intros Hinv H1 H2 H3. apply (inv_apart p); [done|by split|by apply grows_group|done|done|done|by destruct Hinv]. Qed.

Lemma inv_process p p' : process_step p p' → runner_inv privileged p → runner_inv privileged p'.
Proof.
  intros [] Hinv; apply inv_group; try done; unfold living; cbn.
  - intros E. unfold living in H0. congruence.
  - rewrite H0. by intros [_ ?]%orb_false_iff.
  - by rewrite H0.
  - by rewrite H0.
Qed.

(** A step of [wait] outside [terminate]. *)
Lemma inv_wait p p' : runner_inv privileged p → grows privileged p p' → waiter_inv p' →
  (∀ t, rp_waiter p ≠ WTerminate t) → (∀ t, rp_waiter p' ≠ WTerminate t) →
  (rp_killer p', rp_completed p', rp_done p', rp_terminating p') = (rp_killer p, rp_completed p, rp_done p, rp_terminating p) →
  (rp_signals p', rp_stdinClosed p', rp_stdinFileCloses p') = (rp_signals p, rp_stdinClosed p, rp_stdinFileCloses p) →
  runner_inv privileged p'.
Proof.
  intros [] Hg Hw Hn Hn' [= E1 E2 E3 E4] [= E5 E6 E7]. pose proof Hg as []. split; rewrite ?E1, ?E2, ?E3, ?E4, ?E5.
  - done.
  - intros t Ht. by destruct (Hn' t).
  - intros t Ht. by eapply knows_grows; [|apply i_killer_knows0].
  - intros Hc. destruct (i_completed0 Hc) as (?&?&?). auto.
  - done.
  - done.
  - intros Ha. destruct (i_active0 Ha) as [?|(t & ? & [?|?])]; [by left|by destruct (Hn t)|right; eauto].
  - by rewrite E6, E7, gr_pty0.
Qed.

Lemma inv_waiter_step p p' : server_step privileged p p' → runner_inv privileged p → runner_inv privileged p'.
Proof.
  intros Hs Hinv. pose proof (grows_step privileged p p' (by_server _ _ _ Hs)) as Hg. pose proof (i_waiter _ _ Hinv) as Hi.
  pose proof (i_waiter_knows _ _ Hinv) as Hwt. pose proof (i_killer_knows _ _ Hinv) as Hkt. unfold waiter_inv in Hi.
  destruct Hs as [status p Hw Hl|r p Hw|p Hw|p Hw|t p t' p' Hw Ht|t p t' p' Hw Ht]; try rewrite Hw in Hi.
  - apply (inv_wait p); [done|done| |by rewrite Hw|done|done|done]. split; [by exists status|apply Hi].
  - apply (inv_wait p); [done|done| |by rewrite Hw|done|done|done]. exact Hi.
  - apply (inv_wait p); [done|done| |by rewrite Hw|done|done|done]. split; [apply Hi|done].
  - unfold wait_claim in *. destruct (rp_terminating p) eqn:Et.
    + apply (inv_wait p); [done|done| |by rewrite Hw|done|done|done]. split_and!; [apply Hi..|done].
    + destruct Hinv. split; cbn; [|by intros t [= <-]| | | | | |].
      * split_and!; [apply Hi..|done].
      * intros t Ht. by eapply knows_grows; [|apply Hkt].
      * exact i_completed0.
      * exact i_done0.
      * exact i_ordered0.
      * intros _. right. exists TCloseStdin. auto.
      * exact i_stdin0.
  - destruct (terminate_inv _ _ _ _ Hinv Ht (Hwt _ Hw)) as (Hk & (F1 & F2 & F3 & F4) & Hwi & Hact & _ & Hk2).
    pose proof (apart_terminate _ _ _ _ _ Ht) as []. destruct Hinv. split; cbn; try done.
    + unfold waiter_inv in *. cbn. rewrite ap_waiter0, Hw in Hwi. done.
    + by intros u [= <-].
    + intros _. destruct Hact; [right; eauto|by left].
  - destruct (terminate_inv _ _ _ _ Hinv Ht (Hkt _ Hw)) as (Hk & (F1 & F2 & F3 & F4) & Hwi & Hact & Hw2 & _).
    destruct Hinv. split; cbn; try done.
    + by intros u [= <-].
    + intros _. destruct Hact; [right; eauto|by left].
Qed.

Lemma runner_inv_step p p' : runner_step privileged p p' → runner_inv privileged p → runner_inv privileged p'.
Proof.
  intros [Hs|Hs|Hs] Hinv; [by eapply inv_waiter_step| |by eapply inv_process].
  destruct Hs; [by apply inv_Terminate|by apply inv_CloseStdin].
Qed.

Lemma runner_inv_steps p p' : rtc (runner_step privileged) p p' → runner_inv privileged p → runner_inv privileged p'.
Proof. induction 1; eauto using runner_inv_step. Qed.

Lemma runner_reachable_inv hasPTY p : runner_reachable privileged hasPTY p → runner_inv privileged p.
Proof. intros Hr. eapply runner_inv_steps; [exact Hr|apply started_inv]. Qed.

Lemma grows_steps p p' : rtc (runner_step privileged) p p' → grows privileged p p'.
Proof. induction 1 as [|p1 p2 p3 Hs _ IH]; [done|]. etrans; [by eapply grows_step|done]. Qed.
End lifecycle.

(** ** What [Wait] reports *)

Section outcome.
Context `{SignalNames} (privileged : bool).
Implicit Types p : runningProcess.

Lemma reaped_steps status p p' : rtc (runner_step privileged) p p' → g_leader (rp_group p) = LReaped status →
  g_leader (rp_group p') = LReaped status.
Proof.
  induction 1 as [|p1 p2 p3 Hs _ IH]; [done|]. intros Hl. apply IH. destruct Hs as [Hs|Hs|Hs]; destruct Hs; cbn; try congruence.
  - unfold wait_claim. by case_match.
  - by eapply ap_reaped, Hl; eapply apart_terminate.
  - by eapply ap_reaped, Hl; eapply apart_terminate.
  - unfold Terminate. by repeat case_match.
  - by eapply ap_reaped, Hl; apply apart_CloseStdin.
Qed.

Lemma done_waited p : runner_inv privileged p → rp_done p = true → waited p ∧ group_ended privileged p ∧ rp_stdinClosed p = true.
Proof.
  intros [] Hd. destruct (i_completed0 (i_done0 Hd)) as (He & Hw & Hc). split; [|done].
  unfold waiter_inv in i_waiter0. destruct (rp_waiter p); destruct i_waiter0 as [? i]; try done; rewrite Hw in i; done.
Qed.

(** C22: When [Wait] of a process returns, the process has ended and was waited for,
    and the result is its exit status or signal, now and for every later call;
    its input is closed; and no other process of its group is left, unless the
    server lacked the privilege to signal it, and then the group was sent a
    SIGKILL.  A SIGKILL is only ever sent after a SIGTERM. *)
Theorem process_outcome hasPTY p r (Hr : runner_reachable privileged hasPTY p) (Hw : Wait p = Some r) :
  ∃ status, g_leader (rp_group p) = LReaped status ∧ r = exitResult (cmd_Wait status) ∧ rp_stdinClosed p = true ∧
    (g_members (rp_group p) = O ∨ (privileged = false ∧ SIGKILL ∈ (rp_signals p).*1)) ∧
    (∀ pre b post, rp_signals p = pre ++ (SIGKILL, b) :: post → SIGTERM ∈ pre.*1) ∧
    ∀ p', rtc (runner_step privileged) p p' → Wait p' = Some r.
Proof.
  pose proof (runner_reachable_inv _ _ _ Hr) as Hinv. unfold Wait in Hw. destruct (rp_done p) eqn:Hd; [|done]. injection Hw as <-.
  destruct (done_waited p Hinv Hd) as ((status & Hl & Hres) & He & Hc). exists status. split_and!; try done.
  - destruct He as [He|He]; [left|by right]. unfold living in He. apply orb_false_iff in He as [_ He]. by destruct (g_members (rp_group p)).
  - apply (i_ordered _ _ Hinv).
  - intros p' Hs. assert (rp_done p' = true) as Hd' by (by eapply gr_done; [eapply grows_steps|]). unfold Wait. rewrite Hd'. f_equal.
    destruct (done_waited p' (runner_inv_steps _ _ _ Hs Hinv) Hd') as ((status' & Hl' & ->) & _ & _).
    rewrite (reaped_steps _ _ _ Hs Hl) in Hl'. injection Hl' as <-. done.
Qed.
End outcome.

(** ** Termination *)

Section termination.
Context `{SignalNames}.
Implicit Types p : runningProcess.

(** The goroutines of the server alone close [done] within [k] steps. *)
Definition finishes (k : nat) p : Prop := ∃ n p', (n <= k)%nat ∧ nsteps (server_step true) n p p' ∧ rp_done p' = true.

Definition at_phase (t : tphase) p : Prop := rp_waiter p = WTerminate t ∨ rp_killer p = Some t.

Lemma finishes_step k p p' : server_step true p p' → finishes k p' → finishes (S k) p.
Proof. intros Hs (n & p2 & Hn & Hst & Hd). exists (S n), p2. split_and!; [lia|by econstructor|done]. Qed.

Lemma finishes_le k k' p : (k <= k')%nat → finishes k p → finishes k' p.
Proof. intros Hk (n & p' & Hn & ?). exists n, p'. split; [lia|done]. Qed.

Lemma server_step_inv p p' : server_step true p p' → runner_inv true p → runner_inv true p'.
Proof. apply inv_waiter_step. Qed.

(** One step of a goroutine in [terminate]. *)
Lemma finishes_advance k t t' p p' : runner_inv true p → at_phase t p → terminate_step true t p t' p' →
  (∀ q, runner_inv true q → at_phase t' q → finishes k q) → finishes (S k) p.
Proof.
  intros Hinv [Ha|Ha] Ht Hnext.
  - eapply finishes_step; [by eapply w_terminate|]. apply Hnext; [|by left]. eapply server_step_inv; [by eapply w_terminate|done].
  - eapply finishes_step; [by eapply k_terminate|]. apply Hnext; [|by right]. eapply server_step_inv; [by eapply k_terminate|done].
Qed.

Lemma finishes_complete p : runner_inv true p → at_phase TComplete p → finishes 2 p.
Proof.
  intros Hinv Ha. eapply finishes_advance; [done..|apply t_complete|]. intros q Hq Hqa. eapply finishes_advance; [done..|apply t_done|].
  intros q' Hq' Hqa'. exists O, q'. split_and!; [lia|constructor|]. destruct Hqa' as [E|E]; [by apply (i_waiter_knows _ _ Hq') in E as []|].
  by apply (i_killer_knows _ _ Hq') in E as [].
Qed.

Lemma finishes_await_done p : runner_inv true p → at_phase TAwait p → rp_processWaitDone p = true → finishes 3 p.
Proof. intros Hinv Ha Hw. eapply finishes_advance; [done..|by apply t_await|]. intros. by apply finishes_complete. Qed.

(** A step of [wait], while the other goroutine waits for it. *)
Lemma wait_step k p p' : runner_inv true p → server_step true p p' → (runner_inv true p' → finishes k p') → finishes (S k) p.
Proof. intros Hinv Hs Hk. eapply finishes_step; [done|]. apply Hk. by eapply server_step_inv. Qed.

Lemma finishes_await p : runner_inv true p → at_phase TAwait p → finishes 6 p.
Proof.
  intros Hinv Ha. assert (He : is_alive (g_leader (rp_group p)) = false).
  { assert (group_ended true p) as [He|[? _]]; [|unfold living in He; by apply orb_false_iff in He as []|done].
    destruct Ha as [E|E]; [by apply (i_waiter_knows _ _ Hinv) in E as (_&_&?&_)|by apply (i_killer_knows _ _ Hinv) in E as (_&_&?&_)]. }
  destruct (rp_processWaitDone p) eqn:Hw; [by eapply finishes_le, finishes_await_done; [lia|..]|].
  pose proof (i_waiter _ _ Hinv) as Hi. unfold waiter_inv in Hi. rewrite Hw in Hi.
  assert (H1 : ∀ q, runner_inv true q → rp_killer q = Some TAwait → rp_waiter q = WWaitDone → finishes 4 q).
  { intros q Hq Hk Eq. eapply wait_step; [done|by apply w_waitDone|]. intros Hq'. apply finishes_await_done; [done|by right|done]. }
  assert (H2 : ∀ q r, runner_inv true q → rp_killer q = Some TAwait → rp_waiter q = WResult r → finishes 5 q).
  { intros q r Hq Hk Eq. eapply wait_step; [done|by apply (w_result _ r)|]. intros Hq'. by apply H1. }
  destruct (rp_waiter p) eqn:Ew; try (destruct Hi as [_ Hi]; done); try (by destruct Hi as (_ & ? & _));
    destruct Ha as [Ha|Ha]; try congruence.
  - destruct (g_leader (rp_group p)) as [|status|status] eqn:El; [done| |by destruct Hi].
    eapply wait_step; [done|by apply (w_reap _ status)|]. intros Hq'. by eapply H2.
  - eapply finishes_le; [|by eapply H2]. lia.
  - eapply finishes_le; [|by apply H1]. lia.
Qed.

Lemma finishes_select p : runner_inv true p → at_phase TSelect p → finishes 7 p.
Proof. intros Hinv Ha. eapply finishes_advance; [done..|by apply (t_expire _ false 0)|]. intros. by apply finishes_await. Qed.

Lemma finishes_check p : runner_inv true p → at_phase TCheck p → finishes 8 p.
Proof. intros Hinv Ha. eapply finishes_advance; [done..|apply t_there|]. intros. by apply finishes_select. Qed.

Lemma finishes_sigterm p : runner_inv true p → at_phase TSigterm p → finishes 9 p.
Proof. intros Hinv Ha. eapply finishes_advance; [done..|apply t_sigterm|]. intros. by apply finishes_check. Qed.

Lemma finishes_close p : runner_inv true p → at_phase TCloseStdin p → finishes 10 p.
Proof. intros Hinv Ha. eapply finishes_advance; [done..|apply t_close|]. intros. by apply finishes_sigterm. Qed.

Lemma finishes_terminating p : runner_inv true p → rp_terminating p = true → finishes 10 p.
Proof.
  intros Hinv Ht. destruct (i_active _ _ Hinv Ht) as [Hd|(t & Hact & Ha)].
  { exists O, p. split_and!; [lia|constructor|done]. }
  destruct t; [by apply finishes_close|..|done].
  - eapply finishes_le; [|by apply finishes_sigterm]. lia.
  - eapply finishes_le; [|by apply finishes_check]. lia.
  - eapply finishes_le; [|by apply finishes_select]. lia.
  - eapply finishes_le; [|by apply finishes_await]. lia.
  - eapply finishes_le; [|by apply finishes_complete]. lia.
  - assert (finishes 1 p) as Hf; [|eapply finishes_le, Hf; lia]. eapply finishes_advance; [done..|apply t_done|]. intros q Hq Hqa.
    exists O, q. split_and!; [lia|constructor|]. destruct Hqa as [E|E]; [by apply (i_waiter_knows _ _ Hq) in E as []|].
    by apply (i_killer_knows _ _ Hq) in E as [].
Qed.

(** [wait] once the process has ended. *)
Lemma finishes_ended p : runner_inv true p → is_alive (g_leader (rp_group p)) = false → finishes 14 p.
Proof.
  intros Hinv He.
  assert (H1 : ∀ q, runner_inv true q → rp_waiter q = WClaim → finishes 11 q).
  { intros q Hq Eq. eapply wait_step; [done|by apply w_claim|]. intros Hq'. apply finishes_terminating; [done|].
    unfold wait_claim. destruct (rp_terminating q) eqn:Et; [exact Et|done]. }
  assert (H2 : ∀ q, runner_inv true q → rp_waiter q = WWaitDone → finishes 12 q).
  { intros q Hq Eq. eapply wait_step; [done|by apply w_waitDone|]. intros Hq'. by apply H1. }
  assert (H3 : ∀ q r, runner_inv true q → rp_waiter q = WResult r → finishes 13 q).
  { intros q r Hq Eq. eapply wait_step; [done|by apply (w_result _ r)|]. intros Hq'. by apply H2. }
  pose proof (i_waiter _ _ Hinv) as Hi. unfold waiter_inv in Hi. destruct (rp_waiter p) eqn:Ew.
  - destruct (g_leader (rp_group p)) as [|status|status] eqn:El; [done| |by destruct Hi].
    eapply wait_step; [done|by apply (w_reap _ status)|]. intros Hq'. by eapply H3.
  - eapply finishes_le; [|by eapply H3]. lia.
  - eapply finishes_le; [|by apply H2]. lia.
  - eapply finishes_le; [|by apply H1]. lia.
  - eapply finishes_le; [|by apply finishes_terminating; [|apply Hi]]. lia.
  - eapply finishes_le; [|by apply finishes_terminating; [|apply Hi]]. lia.
Qed.

End termination.

(** ** Exit codes, descriptors, input and terminals *)

Section results.
Context `{SignalNames}.

Lemma forall_below (f : Z → bool) n : forallb f (seqZ 0 n) = true → ∀ z, 0 <= z < n → f z = true.
Proof.
  intros Hf z Hz. rewrite forallb_forall in Hf. apply Hf, list_elem_of_In, elem_of_seqZ. lia.
Qed.

Lemma exited_with_code code : 0 <= code < 256 → Signaled (exited_with code) = false ∧ ExitStatus (exited_with code) = code.
Proof.
  intros Hc. apply (forall_below (λ c, negb (Signaled (exited_with c)) && (ExitStatus (exited_with c) =? c)) 256) in Hc; [|vm_compute; reflexivity].
  apply andb_true_iff in Hc as [H1%negb_true_iff H2%Z.eqb_eq]. done.
Qed.

Lemma signaled_by_signal sig core : 0 < sig < 127 →
  Signaled (signaled_by sig core) = true ∧ Exited (signaled_by sig core) = false ∧ status_Signal (signaled_by sig core) = sig.
Proof.
  intros Hs. assert (Hz : 0 <= sig < 127) by lia.
  apply (forall_below (λ s, (s =? 0) || (Signaled (signaled_by s core) && negb (Exited (signaled_by s core)) &&
    (status_Signal (signaled_by s core) =? s))) 127) in Hz; [|destruct core; vm_compute; reflexivity].
  apply orb_true_iff in Hz as [Hz%Z.eqb_eq|Hz]; [lia|]. apply andb_true_iff in Hz as [[H1 H2%negb_true_iff]%andb_true_iff H3%Z.eqb_eq]. done.
Qed.

(** How a process ended is what is reported: its code, or the name of the signal. *)
Lemma exit_code_reported code : 0 <= code < 256 → exitResult (cmd_Wait (exited_with code)) = MkExitResult code "" "".
Proof.
  intros Hc. destruct (exited_with_code code Hc) as [H1 H2]. unfold cmd_Wait. rewrite H2.
  destruct (Z.eqb_spec code 0) as [->|Hne]; [reflexivity|]. rewrite andb_false_r. cbn [exitResult]. by rewrite H1, H2.
Qed.

Lemma signal_reported sig core : 0 < sig < 127 → SignalName sig ≠ ""%string →
  exitResult (cmd_Wait (signaled_by sig core)) = MkExitResult 0 (SignalName sig) "".
Proof.
  intros Hs Hn. destruct (signaled_by_signal sig core Hs) as (H1 & H2 & H3). unfold cmd_Wait. rewrite H2. cbn [andb exitResult].
  by rewrite H1, H3, bool_decide_false.
Qed.
End results.

(** The descriptors below the next fresh one are the only open ones. *)
Definition descriptors_wf (d : descriptors) : Prop := ∀ fd, fd ∈ d_open d → fd < d_next d.

Lemma start_pipes_exact_raw started d (Hd : descriptors_wf d) :
  let '(d', r) := startPipes started d in
  match r with
  | Err _ => d_open d' = d_open d
  | Ok ps =>
      d_open d' = {[p_stdin ps; p_stdout ps; p_stderr ps]} ∪ d_open d ∧
      NoDup [child_stdin ps; child_stdout ps; child_stderr ps; p_stdin ps; p_stdout ps; p_stderr ps] ∧
      ∀ fd, fd ∈ [child_stdin ps; child_stdout ps; child_stderr ps; p_stdin ps; p_stdout ps; p_stderr ps] → fd ∉ d_open d
  end.
Proof.
  destruct d as [open next pipes]. assert (Hlt : ∀ fd, fd ∈ open → fd < next) by exact Hd. clear Hd.
  destruct pipes as [|[e|] [|[e'|] [|[e''|] pipes]]]; cbn; try done; try destruct started as [e3|]; cbn;
    try (apply set_eq; intros x; pose proof (Hlt x); set_unfold; intuition lia).
  split_and!.
  - apply set_eq. intros x. pose proof (Hlt x). set_unfold. intuition lia.
  - repeat (apply NoDup_cons; split; [set_unfold; lia|]). apply NoDup_nil_2.
  - intros fd Hfd Hin. apply Hlt in Hin. set_unfold. lia.
Qed.

(** Starting a process with pipes keeps the descriptors exact: whichever pipe or
    whether the start fails, every descriptor that was opened is closed again; and
    when the process runs, the server holds exactly the write end of its input and
    the read ends of its outputs, all six ends are distinct and fresh, and the
    ends of the process are closed in the server. *)
Theorem start_pipes_exact started d (Hd : descriptors_wf d) :
  let '(d', r) := startPipes started d in
  match r with
  | Err _ => d_open d' = d_open d
  | Ok ps =>
      d_open d' = {[p_stdin ps; p_stdout ps; p_stderr ps]} ∪ d_open d ∧
      NoDup [child_stdin ps; child_stdout ps; child_stderr ps; p_stdin ps; p_stdout ps; p_stderr ps] ∧
      ∀ fd, fd ∈ [child_stdin ps; child_stdout ps; child_stderr ps; p_stdin ps; p_stdout ps; p_stderr ps] → fd ∉ d_open d
  end.
Proof. by apply start_pipes_exact_raw. Qed.

(** Closing the input and the outputs gives back every descriptor. *)
Lemma pipes_returned d d' ps : descriptors_wf d → startPipes None d = (d', Ok ps) →
  d_open ((fd_Close (p_stdin ps) ≫= λ _, CloseOutput ps) d').1 = d_open d.
Proof.
  intros Hd Hs. pose proof (start_pipes_exact_raw None d Hd) as Hp. rewrite Hs in Hp. destruct Hp as (Ho & _ & Hf).
  change (((d_open d' ∖ {[p_stdin ps]}) ∖ {[p_stdout ps]}) ∖ {[p_stderr ps]} = d_open d). rewrite Ho.
  assert ((p_stdin ps ∉ d_open d) ∧ (p_stdout ps ∉ d_open d) ∧ (p_stderr ps ∉ d_open d)) as (? & ? & ?) by (split_and!; apply Hf; set_solver).
  clear -H H0 H1. set_solver.
Qed.

(** Once the input was closed nothing is written to it; what is written
    without an error is all of the data, in order. *)
Lemma write_stdin_loop_whole data writes accepted : write_stdin_loop data writes = (accepted, Some (Ok tt)) → concat accepted = data.
Proof.
  revert data accepted. induction writes as [|[n|e] writes IH]; intros [|b data] accepted; try done; try (by intros [= <-]).
  cbn [write_stdin_loop]. destruct (write_stdin_loop (drop n (b :: data)) writes) as [acc r] eqn:E. intros [= <- ->]. cbn.
  rewrite (IH _ _ E). apply take_drop.
Qed.

Lemma WriteStdin_whole ctxErr data writes p accepted : WriteStdin ctxErr data writes p = (accepted, Some (Ok tt)) →
  rp_stdinClosed p = false ∧ concat accepted = data.
Proof.
  unfold WriteStdin. destruct ctxErr; [done|]. destruct (rp_stdinClosed p); [done|]. intros Hw. split; [done|]. by eapply write_stdin_loop_whole.
Qed.

Lemma WriteStdin_after_CloseStdin data writes p : WriteStdin None data writes (CloseStdin p) = ([], Some (Err ErrClosedPipe)).
Proof. unfold WriteStdin. by rewrite CloseStdin_closed. Qed.

(** The file of the input is closed at most once, and never if it is a terminal. *)
Lemma stdin_closed_once `{SignalNames} privileged hasPTY p : runner_reachable privileged hasPTY p →
  rp_stdinFileCloses p = if rp_stdinClosed p && negb hasPTY then 1%nat else 0%nat.
Proof.
  intros Hr. rewrite (i_stdin _ _ (runner_reachable_inv _ _ _ Hr)). by rewrite (gr_pty _ _ _ (grows_steps _ _ _ Hr)).
Qed.

(** The size of a terminal is never cut to 16 bits. *)
Lemma u16_id z : 0 <= z <= 65535 → u16 z = z.
Proof. intros Hz. unfold u16. apply Z.mod_small. lia. Qed.

Lemma pty_size_exact s pty : spec_validate s = Ok tt → sp_PTY s = Some pty → 0 <= ps_Rows pty → 0 <= ps_Columns pty →
  pty_winsize pty = MkWinsize (ps_Rows pty) (ps_Columns pty).
Proof.
  unfold spec_validate. intros Hv Hp Hr Hc. rewrite !reject_if_then in Hv. destruct Hv as (_ & _ & _ & _ & _ & Hv).
  do 3 (apply res_bind_ok in Hv as (? & _ & Hv)). rewrite Hp, reject_if_then in Hv. destruct Hv as [Hv _].
  unfold pty_winsize. rewrite !u16_id by (bool_simp; lia). done.
Qed.

Lemma resize_exact hasPTY ctxErr size setsize w : 0 <= ws_Rows size → 0 <= ws_Columns size → Resize hasPTY ctxErr size setsize = Ok w →
  hasPTY = true ∧ w = MkWinsize (ws_Rows size) (ws_Columns size).
Proof.
  intros Hr Hc. unfold Resize. rewrite reject_if_then. intros [Hp Hv]. apply negb_false_iff in Hp. destruct ctxErr; [done|].
  rewrite reject_if_then in Hv. destruct Hv as [Hb Hv]. destruct setsize; [done|]. injection Hv as <-.
  rewrite !u16_id by (bool_simp; lia). done.
Qed.

(** The terminal is closed at most once, and by the first error. *)
Definition eof_run (answers : list (bytes * option error)) (r : eofOnPTYClose) : eofOnPTYClose :=
  foldl (λ r a, (eof_Read a r).1) r answers.

Lemma eof_closed_once answers : e_closes (eof_run answers (MkEofOnPTYClose false 0)) =
  if existsb (λ a : bytes * option error, bool_decide (is_Some a.2)) answers then 1%nat else 0%nat.
Proof.
  induction answers as [|[data err] answers IH] using rev_ind; [done|]. unfold eof_run in *. rewrite foldl_app, existsb_app. cbn.
  assert (Hone : ∀ l, e_once (foldl (λ r a, (eof_Read a r).1) (MkEofOnPTYClose false 0) l) =
    negb (e_closes (foldl (λ r a, (eof_Read a r).1) (MkEofOnPTYClose false 0) l) =? 0)%nat).
  { induction l as [|[d [e|]] l IHl] using rev_ind; [done|..]; rewrite !foldl_app; cbn; [|done].
    unfold eof_Close. destruct (e_once _) eqn:E; [by rewrite E|done]. }
  destruct err as [e|]; cbn; [|by rewrite IH, orb_false_r]. rewrite orb_true_r. unfold eof_Close. rewrite Hone, IH.
  by destruct (existsb _ answers).
Qed.

(** ** A concrete process *)

Definition toy_signals : SignalNames := {| SignalName := λ n, if n =? 9 then "SIGKILL"%string else ""%string; signal_String := λ _, "signal"%string |}.
#[local] Existing Instance toy_signals.

(** A process that ignores the SIGTERM and is killed. *)
Definition toy_killed : runningProcess :=
  MkRunningProcess false true 1 true true (MkExitResult 0 "SIGKILL" "") true true true WClaim (Some TReturned)
    [(SIGTERM, false); (SIGKILL, false)] (MkGroup (LReaped 9) 0 0).

Ltac eval_state := match goal with |- rtc _ ?p _ => let p' := eval vm_compute in p in change p with p' end.

Ltac run_step rule := eapply rtc_l; [apply by_server; rule; try (vm_compute; reflexivity)|]; eval_state.

Lemma toy_killed_reachable : runner_reachable true false toy_killed.
Proof.
  unfold runner_reachable. eapply rtc_l; [apply by_caller, c_Terminate|]. eval_state.
  run_step ltac:(eapply k_terminate; [reflexivity|apply t_close]).
  run_step ltac:(eapply k_terminate; [reflexivity|apply t_sigterm]).
  run_step ltac:(eapply k_terminate; [reflexivity|apply t_there]).
  run_step ltac:(eapply k_terminate; [reflexivity|apply (t_expire true false 0); auto]).
  run_step ltac:(apply (w_reap true 9)).
  run_step ltac:(eapply w_result; reflexivity).
  run_step ltac:(apply w_waitDone).
  run_step ltac:(eapply k_terminate; [reflexivity|apply t_await; reflexivity]).
  run_step ltac:(eapply k_terminate; [reflexivity|apply t_complete]).
  run_step ltac:(eapply k_terminate; [reflexivity|apply t_done]).
  done.
Qed.

Lemma process_outcome_witness :
  ∃ status, g_leader (rp_group toy_killed) = LReaped status ∧ MkExitResult 0 "SIGKILL" "" = exitResult (cmd_Wait status).
Proof.
  destruct (process_outcome true false toy_killed (MkExitResult 0 "SIGKILL" "") toy_killed_reachable eq_refl) as (status & Hl & Hr & _).
  exists status. exact (conj Hl Hr).
Defined.


Definition toy_descriptors : descriptors := MkDescriptors {[0; 1; 2]} 3 [None; None; None].

Lemma start_pipes_exact_witness : d_open (startPipes None toy_descriptors).1 = {[4; 5; 7]} ∪ {[0; 1; 2]}.
Proof.
  assert (Hwf : descriptors_wf toy_descriptors) by (intros fd; cbn; rewrite !elem_of_union, !elem_of_singleton; lia).
  pose proof (start_pipes_exact None toy_descriptors Hwf) as H. destruct (startPipes None toy_descriptors) as [d' [ps|e]] eqn:E.
  - destruct H as [H _]. vm_compute in E. injection E as <- <-. exact H.
  - vm_compute in E. discriminate E.
Defined.

(** The signals of [terminate] use the id of a group that may be free since [wait]
    returned: another group that got the id in between is signaled. *)
Definition toy_stranger : runningProcess :=
  MkRunningProcess false true 1 true false (MkExitResult 0 "" "") true false false (WTerminate TCheck) None
    [(SIGTERM, true)] (MkGroup (LReaped 0) 0 1).

Lemma signal_hits_strangers : runner_reachable true false toy_stranger ∧ (SIGTERM, true) ∈ rp_signals toy_stranger.
Proof.
  split; [|left]. unfold runner_reachable. eapply rtc_l; [apply by_process, (p_exit 0); reflexivity|]. eval_state.
  run_step ltac:(apply (w_reap true 0)).
  run_step ltac:(eapply w_result; reflexivity).
  run_step ltac:(apply w_waitDone).
  run_step ltac:(apply w_claim).
  eapply rtc_l; [apply by_process, p_reuse; reflexivity|]. eval_state.
  run_step ltac:(eapply w_terminate; [reflexivity|apply t_close]).
  run_step ltac:(eapply w_terminate; [reflexivity|apply t_sigterm]).
  done.
Qed.
