(* ===== verification/Terminal.v ===== *)
(** * Terminals (lib/tty)

    The three files of lib/tty.  [PollReader]: a reader of a duplicated descriptor
    that a context or [Close] interrupts through a pipe, as interleaved steps of
    the call of [Read], the call of [Close], the function the context starts and
    the other code of the process, which opens and closes descriptors too.
    [RawTTY]: raw mode, its restoration, and the goroutine that reports window
    sizes.  [VTTY]: a pseudo terminal.  The answers of the kernel are inputs. *)

From S2P Require Import Prelude ProcessRunner.

(** ** poll_reader.go *)

Definition os_ErrClosed : error := Sentinel "file already closed".

(** What a descriptor of the process refers to: the duplicated input, the ends of
    the cancellation pipe, or a file of other code (the original input is one). *)
Inductive object := OInput | OCancelR | OCancelW | OForeign.

#[export] Instance object_eq_dec : EqDecision object.
Proof. solve_decision. Defined.

(** Where a call of [Read] is.  In [RBlocked] the call of poll is running: it has
    looked its descriptors up, and waits for the objects it found.  In [RReading]
    the system call of [r.input.Read] is running. *)
Inductive read_pc :=
  | RIdle
  | RLock
  | RArm (inputFD cancelFD : Z)
  | RPoll (inputFD cancelFD : Z)
  | RBlocked (inputFD cancelFD : Z) (input cancel : option object)
  | RRead
  | RReading
  | RDone (data : bytes) (err : option error).

(** Where the call of [Close] is. *)
Inductive close_pc := COpen | CWake | CInput | CCancelR | CCancelW | CClosed.

#[export] Instance close_pc_eq_dec : EqDecision close_pc.
Proof. solve_decision. Defined.

Record PollReader := MkPollReader {
  pl_table : gmap Z object;     (** the descriptors of the process *)
  pl_input : Z; pl_cancelR : Z; pl_cancelW : Z;
  pl_inputOpen : bool; pl_cancelROpen : bool; pl_cancelWOpen : bool;
  pl_bytes : Z;                 (** what is in the pipe *)
  pl_closed : bool;
  pl_ctx : option error;        (** [ctx.Err()] *)
  pl_hook : bool;               (** the [AfterFunc] of a running [Read] *)
  pl_wakes : nat;               (** functions the context has started *)
  pl_size : Z;                  (** the length of the buffer *)
  pl_read : read_pc;
  pl_close : close_pc;
  pl_taken : bytes;             (** what was read from the input *)
}.

Definition eta_poll (p : PollReader) : PollReader :=
  MkPollReader (pl_table p) (pl_input p) (pl_cancelR p) (pl_cancelW p) (pl_inputOpen p) (pl_cancelROpen p) (pl_cancelWOpen p)
    (pl_bytes p) (pl_closed p) (pl_ctx p) (pl_hook p) (pl_wakes p) (pl_size p) (pl_read p) (pl_close p) (pl_taken p).

#[export] Instance set_pl_table : Setter pl_table := ltac:(derive_setter eta_poll).
#[export] Instance set_pl_inputOpen : Setter pl_inputOpen := ltac:(derive_setter eta_poll).
#[export] Instance set_pl_cancelROpen : Setter pl_cancelROpen := ltac:(derive_setter eta_poll).
#[export] Instance set_pl_cancelWOpen : Setter pl_cancelWOpen := ltac:(derive_setter eta_poll).
#[export] Instance set_pl_bytes : Setter pl_bytes := ltac:(derive_setter eta_poll).
#[export] Instance set_pl_closed : Setter pl_closed := ltac:(derive_setter eta_poll).
#[export] Instance set_pl_ctx : Setter pl_ctx := ltac:(derive_setter eta_poll).
#[export] Instance set_pl_hook : Setter pl_hook := ltac:(derive_setter eta_poll).
#[export] Instance set_pl_wakes : Setter pl_wakes := ltac:(derive_setter eta_poll).
#[export] Instance set_pl_size : Setter pl_size := ltac:(derive_setter eta_poll).
#[export] Instance set_pl_read : Setter pl_read := ltac:(derive_setter eta_poll).
#[export] Instance set_pl_close : Setter pl_close := ltac:(derive_setter eta_poll).
#[export] Instance set_pl_taken : Setter pl_taken := ltac:(derive_setter eta_poll).

(** [dup] and [pipe] are the answers of the kernel. *)
Definition NewPollReader (table : gmap Z object) (dup : res Z) (pipe : res (Z * Z)) (ctx : option error) : gmap Z object * res PollReader :=
  match dup with
  | Err e => (table, Err (Wrapped e "duplicate input descriptor"))
  | Ok duplicate =>
      let table := <[duplicate := OInput]> table in
      match pipe with
      | Err e => (delete duplicate table, Err (Wrapped e "create input cancellation pipe"))
      | Ok (cancelR, cancelW) =>
          let table := <[cancelW := OCancelW]> (<[cancelR := OCancelR]> table) in
          (table, Ok (MkPollReader table duplicate cancelR cancelW true true true 0 false ctx false 0 0 RIdle COpen []))
      end
  end.

Definition wake (p : PollReader) : PollReader := if pl_cancelWOpen p then p <| pl_bytes ::= Z.succ |> else p.

(** [Read] returns: the deferred [stop]. *)
Definition read_returns (data : bytes) (err : option error) (p : PollReader) : PollReader :=
  p <| pl_hook := false |> <| pl_read := RDone data err |>.

(** [context.AfterFunc(ctx, r.wake)] *)
Definition after_func (p : PollReader) : PollReader :=
  match pl_ctx p with
  | Some _ => p <| pl_wakes ::= S |>
  | None => p <| pl_hook := true |>
  end.

(** What poll reports of an object; [external] for objects that do not depend on
    the reader.  A number that is not open is reported at once (POLLNVAL). *)
Definition revents (p : PollReader) (o : option object) (external : bool) : bool :=
  match o with
  | None => true
  | Some OCancelR => (0 <? pl_bytes p) || negb (pl_cancelWOpen p)
  | Some _ => external
  end.

Definition ctx_or_closed (p : PollReader) : error := default os_ErrClosed (pl_ctx p).

(** The steps.  [PTake]: the caller goes on with the result of [Read].  [PClose] is
    the next step of the call of [Close]. *)
Inductive plabel :=
  | PRead (size : Z)
  | PLock
  | PArm
  | PEnter
  | PReturn (input cancel : bool)
  | PInterrupted
  | PFail (e : error)
  | PReadFile
  | PFileRead (data : bytes) (err : option error)
  | PTake
  | PCancel (e : error)
  | PWake
  | PClose
  | PForeignOpen (n : Z)
  | PForeignClose (n : Z).

Definition read_begin (size : Z) (p : PollReader) : PollReader :=
  if size =? 0 then p <| pl_read := RDone [] None |>
  else match pl_ctx p with
       | Some e => p <| pl_read := RDone [] (Some e) |>
       | None => p <| pl_size := size |> <| pl_read := RLock |>
       end.

Definition read_lock (p : PollReader) : PollReader :=
  if pl_closed p then p <| pl_read := RDone [] (Some os_ErrClosed) |>
  else p <| pl_read := RArm (pl_input p) (pl_cancelR p) |>.

(** The body of the loop after poll returned without an error. *)
Definition poll_returned (input cancel : bool) (p : PollReader) : option PollReader :=
  match pl_read p with
  | RBlocked _ _ o1 o2 =>
      if revents p o2 cancel then Some (read_returns [] (Some (ctx_or_closed p)) p)
      else if revents p o1 input then Some (p <| pl_read := RRead |>)
      else None
  | _ => None
  end.

(** A file that is closed during a read keeps its descriptor until the read ends. *)
Definition file_read (data : bytes) (err : option error) (p : PollReader) : option PollReader :=
  match pl_read p with
  | RReading =>
      if blen data <=? pl_size p then
        let err := if bool_decide (data = []) && bool_decide (err = None) then Some io_EOF else err in
        Some (read_returns data err
          (p <| pl_taken ::= (.++ data) |> <| pl_table ::= λ t, if pl_inputOpen p then t else delete (pl_input p) t |>))
      else None
  | _ => None
  end.

Definition cancel_ctx (e : error) (p : PollReader) : PollReader :=
  match pl_ctx p with
  | Some _ => p
  | None =>
      let p := p <| pl_ctx := Some e |> in
      if pl_hook p then p <| pl_hook := false |> <| pl_wakes ::= S |> else p
  end.

Definition reading (p : PollReader) : bool := match pl_read p with RReading => true | _ => false end.

Definition close_step (p : PollReader) : option PollReader :=
  match pl_close p with
  | COpen => Some (p <| pl_closed := true |> <| pl_close := CWake |>)
  | CWake => Some (wake p <| pl_close := CInput |>)
  | CInput =>
      Some (p <| pl_inputOpen := false |> <| pl_table ::= λ t, if reading p then t else delete (pl_input p) t |> <| pl_close := CCancelR |>)
  | CCancelR => Some (p <| pl_cancelROpen := false |> <| pl_table ::= delete (pl_cancelR p) |> <| pl_close := CCancelW |>)
  | CCancelW => Some (p <| pl_cancelWOpen := false |> <| pl_table ::= delete (pl_cancelW p) |> <| pl_close := CClosed |>)
  | CClosed => None
  end.

Definition poll_step (l : plabel) (p : PollReader) : option PollReader :=
  match l, pl_read p with
  | PRead size, RIdle => Some (read_begin size p)
  | PLock, RLock => Some (read_lock p)
  | PArm, RArm inputFD cancelFD => Some (after_func p <| pl_read := RPoll inputFD cancelFD |>)
  | PEnter, RPoll inputFD cancelFD => Some (p <| pl_read := RBlocked inputFD cancelFD (pl_table p !! inputFD) (pl_table p !! cancelFD) |>)
  | PReturn input cancel, _ => poll_returned input cancel p
  | PInterrupted, RBlocked inputFD cancelFD _ _ => Some (p <| pl_read := RPoll inputFD cancelFD |>)
  | PFail e, RBlocked _ _ _ _ => Some (read_returns [] (Some (Wrapped e "poll command input")) p)
  | PReadFile, RRead =>
      Some (if pl_inputOpen p then p <| pl_read := RReading |> else read_returns [] (Some os_ErrClosed) p)
  | PFileRead data err, _ => file_read data err p
  | PTake, RDone _ _ => Some (p <| pl_read := RIdle |>)
  | PCancel e, _ => Some (cancel_ctx e p)
  | PWake, _ => match pl_wakes p with O => None | S n => Some (wake p <| pl_wakes := n |>) end
  | PClose, _ => close_step p
  | PForeignOpen n, _ => if bool_decide (pl_table p !! n = None) then Some (p <| pl_table ::= <[n := OForeign]> |>) else None
  | PForeignClose n, _ => if bool_decide (pl_table p !! n = Some OForeign) then Some (p <| pl_table ::= delete n |>) else None
  | _, _ => None
  end.

Fixpoint poll_run (ls : list plabel) (p : PollReader) : option PollReader :=
  match ls with
  | [] => Some p
  | l :: ls => poll_step l p ≫= poll_run ls
  end.

(** ** raw.go *)

Record Size := MkSize { sz_Width : Z; sz_Height : Z }.

(** The modes of a terminal, as [term.State] keeps them. *)
Record RawTTY := MkRawTTY { rt_oldState : Z; rt_once : bool; rt_err : option error }.

(** The terminal: its mode and the calls made on it. *)
Inductive tty_call := CallRaw | CallRestore (mode : Z).

Record terminal := MkTerminal { tm_mode : Z; tm_calls : list tty_call }.

Definition raw_mode : Z := -1.

(** [makeRaw]: the answer of the kernel. *)
Definition HookRaw (makeRaw : option error) (t : terminal) : terminal * res RawTTY :=
  match makeRaw with
  | Some e => (t, Err (Wrapped e "failed to make TTY"))
  | None => (MkTerminal raw_mode (tm_calls t ++ [CallRaw]), Ok (MkRawTTY (tm_mode t) false None))
  end.

Definition Restore (restored : option error) (r : RawTTY) (t : terminal) : RawTTY * terminal * option error :=
  if rt_once r then (r, t, rt_err r)
  else
    let err := match restored with Some e => Some (Wrapped e "failed to restore TTY") | None => None end in
    (MkRawTTY (rt_oldState r) true err,
     MkTerminal (match restored with Some _ => tm_mode t | None => rt_oldState r end) (tm_calls t ++ [CallRestore (rt_oldState r)]), err).

(** The goroutine of [HookRaw]: the signal channel and the channel of sizes hold one
    value each. *)
Record resizer := MkResizer { rs_sig : bool; rs_resizes : option Size; rs_closed : bool }.

Definition newResizer : resizer := MkResizer false None false.

(** SIGWINCH arrives: [signal.Notify] never blocks. *)
Definition on_winch (r : resizer) : resizer := MkResizer (if rs_closed r then rs_sig r else true) (rs_resizes r) (rs_closed r).

(** The goroutine takes the signal; [size] is what [term.GetSize] returns. *)
Definition report_size (size : option Size) (r : resizer) : option resizer :=
  if rs_sig r && negb (rs_closed r) then
    Some (MkResizer false (match size, rs_resizes r with Some s, None => Some s | _, old => old end) false)
  else None.

(** The context ends: the channel of sizes is closed. *)
Definition resizer_stops (r : resizer) : resizer := MkResizer (rs_sig r) (rs_resizes r) true.

(** ** vtty.go *)

Record VTTY := MkVTTY { vt_Cols : Z; vt_Rows : Z; vt_closed : bool }.

(** [started]: the answer of the pty package. *)
Definition CreateVTTY (size : Size) (started : option error) : res VTTY :=
  match started with
  | Some e => Err (Wrapped e "Failed to create VTTY")
  | None => Ok (MkVTTY (u16 (sz_Width size)) (u16 (sz_Height size)) false)
  end.

(** The size that is set on the terminal, if any, and the error. *)
Definition vtty_Resize (size : Size) (setsize : option error) (v : VTTY) : VTTY * option (Z * Z) * option error :=
  if vt_closed v then (v, None, Some os_ErrClosed)
  else
    let v := MkVTTY (u16 (sz_Width size)) (u16 (sz_Height size)) false in
    (v, Some (vt_Cols v, vt_Rows v), match setsize with Some e => Some (Wrapped e "Failed to resize VTTY") | None => None end).

(** Whether the descriptor is closed by this call, and the error. *)
Definition vtty_Close (closing : option error) (v : VTTY) : VTTY * bool * option error :=
  if vt_closed v then (v, false, None) else (MkVTTY (vt_Cols v) (vt_Rows v) true, true, closing).

(** ** The descriptors of a poll reader *)

(** The descriptors of the reader that are open. *)
Definition own (p : PollReader) (n : Z) : option object :=
  if bool_decide (n = pl_input p) && (pl_inputOpen p || reading p) then Some OInput
  else if bool_decide (n = pl_cancelR p) && pl_cancelROpen p then Some OCancelR
  else if bool_decide (n = pl_cancelW p) && pl_cancelWOpen p then Some OCancelW
  else None.

(** What the other code of the process does to its descriptors. *)
Definition foreign_step (l : plabel) (f : gmap Z object) : gmap Z object :=
  match l with PForeignOpen n => <[n := OForeign]> f | PForeignClose n => delete n f | _ => f end.

Definition foreign (ls : list plabel) (f : gmap Z object) : gmap Z object := foldl (λ f l, foreign_step l f) f ls.

(** How far [Close] is. *)
Definition closing_ok (p : PollReader) : Prop :=
  let woken := 0 < pl_bytes p in
  match pl_close p with
  | COpen => pl_closed p = false ∧ pl_inputOpen p = true ∧ pl_cancelROpen p = true ∧ pl_cancelWOpen p = true
  | CWake => pl_closed p = true ∧ pl_inputOpen p = true ∧ pl_cancelROpen p = true ∧ pl_cancelWOpen p = true
  | CInput => pl_closed p = true ∧ pl_inputOpen p = true ∧ pl_cancelROpen p = true ∧ pl_cancelWOpen p = true ∧ woken
  | CCancelR => pl_closed p = true ∧ pl_inputOpen p = false ∧ pl_cancelROpen p = true ∧ pl_cancelWOpen p = true ∧ woken
  | CCancelW => pl_closed p = true ∧ pl_inputOpen p = false ∧ pl_cancelROpen p = false ∧ pl_cancelWOpen p = true ∧ woken
  | CClosed => pl_closed p = true ∧ pl_inputOpen p = false ∧ pl_cancelROpen p = false ∧ pl_cancelWOpen p = false ∧ woken
  end.

(** A [Read] that polls is told when its context ends. *)
Definition polling (p : PollReader) : bool := match pl_read p with RPoll _ _ | RBlocked _ _ _ _ => true | _ => false end.

Definition told (p : PollReader) : Prop :=
  polling p = true → match pl_ctx p with None => pl_hook p = true | Some _ => 0 < pl_bytes p ∨ pl_wakes p ≠ O end.

Record poll_ok (f : gmap Z object) (p : PollReader) : Prop := {
  po_table n : pl_table p !! n = match own p n with Some o => Some o | None => f !! n end;
  po_free n : own p n ≠ None → f !! n = None;
  po_foreign n o : f !! n = Some o → o = OForeign;
  po_distinct : pl_input p ≠ pl_cancelR p ∧ pl_input p ≠ pl_cancelW p ∧ pl_cancelR p ≠ pl_cancelW p;
  po_close : closing_ok p;
  po_bytes : 0 <= pl_bytes p;
  po_told : told p;
}.

(** A step that touches neither the descriptors nor [Close]. *)
Definition same_files (p p' : PollReader) : Prop :=
  pl_table p' = pl_table p ∧ pl_input p' = pl_input p ∧ pl_cancelR p' = pl_cancelR p ∧ pl_cancelW p' = pl_cancelW p ∧
  pl_inputOpen p' = pl_inputOpen p ∧ pl_cancelROpen p' = pl_cancelROpen p ∧ pl_cancelWOpen p' = pl_cancelWOpen p ∧
  pl_closed p' = pl_closed p ∧ pl_close p' = pl_close p ∧ pl_bytes p <= pl_bytes p' ∧ (pl_inputOpen p || reading p) = (pl_inputOpen p' || reading p').

Lemma same_files_ok f p p' : same_files p p' → told p' → poll_ok f p → poll_ok f p'.
Proof.
  intros (E1 & E2 & E3 & E4 & E5 & E6 & E7 & E8 & E9 & E10 & E11) Ht [Htab Hfree Hfor Hd Hc Hb _].
  assert (Eo : ∀ n, own p' n = own p n) by (intros n; unfold own; by rewrite E2, E3, E4, E6, E7, E11).
  constructor.
  - intros n. rewrite Eo, E1. apply Htab.
  - intros n. rewrite Eo. apply Hfree.
  - exact Hfor.
  - by rewrite E2, E3, E4.
  - unfold closing_ok in *. rewrite E5, E6, E7, E8, E9. destruct (pl_close p); intuition lia.
  - lia.
  - exact Ht.
Qed.

Ltac poll_proj := cbn [pl_table pl_input pl_cancelR pl_cancelW pl_inputOpen pl_cancelROpen pl_cancelWOpen pl_bytes pl_closed pl_ctx pl_hook
  pl_wakes pl_size pl_read pl_close pl_taken setter set_pl_table set_pl_inputOpen set_pl_cancelROpen set_pl_cancelWOpen set_pl_bytes
  set_pl_closed set_pl_ctx set_pl_hook set_pl_wakes set_pl_size set_pl_read set_pl_close set_pl_taken].

Lemma wake_keeps p : same_files p (wake p) ∧ pl_ctx (wake p) = pl_ctx p ∧ pl_hook (wake p) = pl_hook p ∧ pl_wakes (wake p) = pl_wakes p ∧
  pl_read (wake p) = pl_read p ∧ pl_taken (wake p) = pl_taken p.
Proof. unfold wake, same_files, reading. destruct (pl_cancelWOpen p) eqn:E; simpl; rewrite ?E; split_and!; try done; lia. Qed.

Lemma wake_bytes f p : poll_ok f p → 0 < pl_bytes (wake p).
Proof.
  intros H. destruct H as [_ _ _ _ Hc Hb _]. unfold wake, closing_ok in *. destruct (pl_cancelWOpen p) eqn:E; simpl; [lia|].
  destruct (pl_close p); intuition congruence.
Qed.

(** Steps of [Read] other than the end of the system call. *)
Lemma read_step_ok f p l p' : poll_ok f p →
  (match l with PFileRead _ _ | PCancel _ | PWake | PClose | PForeignOpen _ | PForeignClose _ => False | _ => True end) →
  poll_step l p = Some p' → poll_ok f p'.
Proof.
  intros Hok Hl Hs. eapply same_files_ok; [| |exact Hok]; pose proof (po_told _ _ Hok) as Ht; unfold told, polling in *;
    unfold same_files, reading; destruct l; try done; unfold poll_step, read_begin, read_lock, after_func, poll_returned, read_returns in Hs;
    destruct (pl_read p) eqn:Er; try done; repeat case_match; simplify_eq; simpl; try rewrite Er; try rewrite orb_false_r; try naive_solver lia;
    split_and!; done || lia || by rewrite ?orb_false_r, ?orb_true_r.
Qed.

(** A step that gives up one descriptor of the reader. *)
Lemma drop_own f p p' n0 : poll_ok f p → pl_input p' = pl_input p → pl_cancelR p' = pl_cancelR p → pl_cancelW p' = pl_cancelW p →
  own p n0 ≠ None → (∀ n, own p' n = if bool_decide (n = n0) then None else own p n) → pl_table p' = delete n0 (pl_table p) →
  closing_ok p' → 0 <= pl_bytes p' → told p' → poll_ok f p'.
Proof.
  intros [Htab Hfree Hfor Hd Hc Hb _] E2 E3 E4 Hn Eo Et Hc' Hb' Ht'. constructor; try done.
  - intros n. rewrite Eo, Et. case_bool_decide as En.
    + subst n. rewrite lookup_delete_eq. symmetry. by apply Hfree.
    + rewrite lookup_delete_ne by done. apply Htab.
  - intros n. rewrite Eo. case_bool_decide; [done|]. apply Hfree.
  - by rewrite E2, E3, E4.
Qed.

Lemma own_after f p n : poll_ok f p → ∀ p' n0, pl_input p' = pl_input p → pl_cancelR p' = pl_cancelR p → pl_cancelW p' = pl_cancelW p →
  (n0 = pl_input p ∧ (pl_inputOpen p' || reading p') = false ∧ pl_cancelROpen p' = pl_cancelROpen p ∧ pl_cancelWOpen p' = pl_cancelWOpen p ∨
   n0 = pl_cancelR p ∧ (pl_inputOpen p' || reading p') = (pl_inputOpen p || reading p) ∧ pl_cancelROpen p' = false ∧ pl_cancelWOpen p' = pl_cancelWOpen p ∨
   n0 = pl_cancelW p ∧ (pl_inputOpen p' || reading p') = (pl_inputOpen p || reading p) ∧ pl_cancelROpen p' = pl_cancelROpen p ∧ pl_cancelWOpen p' = false) →
  own p' n = if bool_decide (n = n0) then None else own p n.
Proof.
  intros [_ _ _ (H1 & H2 & H3) _ _ _] p' n0 E2 E3 E4 Hc. unfold own. rewrite E2, E3, E4.
  destruct Hc as [(-> & -> & -> & ->)|[(-> & -> & -> & ->)|(-> & -> & -> & ->)]]; rewrite ?andb_false_r;
    repeat (case_bool_decide; subst; cbn [andb]); try done; try congruence.
  all: destruct (pl_inputOpen p || reading p), (pl_cancelROpen p); done.
Qed.

(** The state of [Close] is not needed to keep the descriptors. *)
Lemma moved_ok f p p' : pl_table p' = pl_table p → (∀ n, own p' n = own p n) → pl_input p' = pl_input p → pl_cancelR p' = pl_cancelR p →
  pl_cancelW p' = pl_cancelW p → closing_ok p' → 0 <= pl_bytes p' → told p' → poll_ok f p → poll_ok f p'.
Proof.
  intros E1 Eo E2 E3 E4 Hc Hb Ht [Htab Hfree Hfor Hd _ _ _]. constructor; try done.
  - intros n. rewrite Eo, E1. apply Htab.
  - intros n. rewrite Eo. apply Hfree.
  - by rewrite E2, E3, E4.
Qed.

Lemma close_step_ok f p p' : poll_ok f p → close_step p = Some p' → poll_ok f p'.
Proof.
  intros Hok Hs. pose proof Hok as [_ _ _ (D1 & D2 & D3) Hc Hb Ht]. unfold close_step in Hs.
  pose proof (wake_bytes _ _ Hok) as Hw. destruct (wake_keeps p) as ((W1&W2&W3&W4&W5&W6&W7&W8&W9&W10&W11)&Wc&Wh&Ww&Wr&_).
  unfold closing_ok in Hc. destruct (pl_close p) eqn:Ec; try done; injection Hs as <-.
  - apply (moved_ok f p); try done. unfold closing_ok. simpl. intuition.
  - apply (moved_ok f p); try done.
    + unfold own. intros n. unfold reading in *. simpl. by rewrite W2, W3, W4, W6, W7, W11.
    + unfold closing_ok. simpl. rewrite W5, W6, W7, W8. intuition.
    + simpl. lia.
    + unfold told, polling in *. simpl. rewrite Wc, Wh, Ww, Wr. intros Hp. specialize (Ht Hp). destruct (pl_ctx p); [by left|done].
  - destruct Hc as (C1 & C2 & C3 & C4 & C5). destruct (reading p) eqn:Er.
    + apply (moved_ok f p); try done. intros n. unfold own, reading in *. simpl. by rewrite Er, C2.
    + apply (drop_own f p _ (pl_input p)); try done.
      * unfold own. rewrite bool_decide_true by done. by rewrite C2.
      * intros n. apply (own_after f p n Hok); try done. left. unfold reading in *. simpl. by rewrite Er.
  - destruct Hc as (C1 & C2 & C3 & C4 & C5). apply (drop_own f p _ (pl_cancelR p)); try done.
    + unfold own. rewrite (bool_decide_false (pl_cancelR p = pl_input p)), (bool_decide_true (_ = pl_cancelR p)), C3 by done. done.
    + intros n. apply (own_after f p n Hok); try done. right. left. done.
  - destruct Hc as (C1 & C2 & C3 & C4 & C5). apply (drop_own f p _ (pl_cancelW p)); try done.
    + unfold own. rewrite !bool_decide_false, bool_decide_true, C4 by done. done.
    + intros n. apply (own_after f p n Hok); try done. right. right. done.
Qed.

Lemma file_read_ok f p data err p' : poll_ok f p → file_read data err p = Some p' → poll_ok f p'.
Proof.
  intros Hok Hs. unfold file_read in Hs. destruct (pl_read p) eqn:Er; try done. destruct (_ <=? _); [|done]. injection Hs as <-.
  pose proof Hok as [_ _ _ _ Hc Hb Ht]. destruct (pl_inputOpen p) eqn:Ei.
  - apply (moved_ok f p); try done. intros n. unfold own, reading. simpl. by rewrite Ei.
  - apply (drop_own f p _ (pl_input p)); try done.
    + unfold own, reading. rewrite bool_decide_true, Er by done. by rewrite orb_true_r.
    + intros n. apply (own_after f p n Hok); try done. left. unfold reading. simpl. by rewrite Ei.
Qed.

Lemma told_cancel e p : told p → told (cancel_ctx e p).
Proof.
  unfold told, polling, cancel_ctx. destruct (pl_ctx p) eqn:Ec; [by rewrite Ec|]. simpl. intros Ht.
  destruct (pl_hook p) eqn:Eh; simpl; intros Hp; [by right|]. by specialize (Ht Hp).
Qed.

Lemma poll_step_ok f l p p' : poll_ok f p → poll_step l p = Some p' → poll_ok (foreign_step l f) p'.
Proof.
  intros Hok Hs. pose proof Hok as [Htab Hfree Hfor Hd Hc Hb Ht]. destruct l as [s| | | |i c| |e| |data err| |e| | |n|n].
  1-8,10: by eapply read_step_ok; [exact Hok| |exact Hs].
  - by eapply file_read_ok.
  - injection Hs as <-. eapply same_files_ok; [|by apply told_cancel|exact Hok].
    unfold same_files, cancel_ctx, reading. destruct (pl_ctx p); simpl; [|destruct (pl_hook p)]; split_and!; done || lia.
  - simpl in Hs. destruct (pl_wakes p) as [|w] eqn:Ew; [done|]. injection Hs as <-. simpl.
    pose proof (wake_bytes _ _ Hok) as Hw. destruct (wake_keeps p) as ((W1&W2&W3&W4&W5&W6&W7&W8&W9&W10&W11)&Wc&Wh&Ww&Wr&_).
    eapply (same_files_ok f p); [|shelve|exact Hok]. unfold same_files, reading in *. simpl. split_and!; done.
    Unshelve. unfold told, polling in *. simpl. rewrite Wc, Wh, Wr. intros Hp. specialize (Ht Hp). destruct (pl_ctx p); [by left|done].
  - by eapply close_step_ok.
  - simpl in Hs. case_bool_decide as En; [|done]. injection Hs as <-.
    assert (Hn : own p n = None) by (rewrite Htab in En; by destruct (own p n)). constructor; try done.
    + intros m. simpl. change (own _ m) with (own p m). destruct (decide (m = n)) as [->|Hne].
      * by rewrite Hn, !lookup_insert_eq.
      * rewrite !lookup_insert_ne by done. apply Htab.
    + intros m. change (own _ m) with (own p m). intros Hm. simpl. destruct (decide (m = n)) as [->|Hne]; [done|].
      rewrite lookup_insert_ne by done. by apply Hfree.
    + intros m o. simpl. intros Hm. destruct (decide (m = n)) as [->|Hne]; [rewrite lookup_insert_eq in Hm; congruence|].
      rewrite lookup_insert_ne in Hm by done. by eapply Hfor.
  - simpl in Hs. case_bool_decide as En; [|done]. injection Hs as <-.
    assert (Hn : own p n = None).
    { rewrite Htab in En. unfold own in *. repeat case_match; simplify_eq; done. }
    constructor; try done.
    + intros m. simpl. change (own _ m) with (own p m). destruct (decide (m = n)) as [->|Hne].
      * by rewrite Hn, !lookup_delete_eq.
      * rewrite !lookup_delete_ne by done. apply Htab.
    + intros m. change (own _ m) with (own p m). intros Hm. simpl. destruct (decide (m = n)) as [->|Hne]; [done|].
      rewrite lookup_delete_ne by done. by apply Hfree.
    + intros m o. simpl. intros Hm. apply lookup_delete_Some in Hm as [_ Hm]. by eapply Hfor.
Qed.

Lemma poll_run_ok f ls : ∀ p p', poll_ok f p → poll_run ls p = Some p' → poll_ok (foreign ls f) p'.
Proof.
  revert f. induction ls as [|l ls IH]; intros f p p' Hok Hr; cbn [poll_run] in Hr; [by injection Hr as <-|].
  destruct (poll_step l p) as [q|] eqn:Es; [|done]. by apply (IH _ _ _ (poll_step_ok _ _ _ _ Hok Es)).
Qed.

(** The answers of the kernel: new numbers, and the table had only files of others. *)
Definition fresh_fds (table : gmap Z object) (duplicate cancelR cancelW : Z) : Prop :=
  table !! duplicate = None ∧ table !! cancelR = None ∧ table !! cancelW = None ∧
  duplicate ≠ cancelR ∧ duplicate ≠ cancelW ∧ cancelR ≠ cancelW ∧ ∀ n o, table !! n = Some o → o = OForeign.

Lemma new_poll_ok table d r w ctx t p : fresh_fds table d r w → NewPollReader table (Ok d) (Ok (r, w)) ctx = (t, Ok p) → poll_ok table p.
Proof.
  intros (F1 & F2 & F3 & D1 & D2 & D3 & Hf) [= <- <-]. constructor; try done; simpl.
  - intros n. unfold own, reading. simpl. rewrite !andb_true_r.
    repeat case_bool_decide; subst; rewrite ?lookup_insert_eq; try done; rewrite ?lookup_insert_ne by done; rewrite ?lookup_insert_eq; done.
  - intros n. unfold own, reading. simpl. rewrite !andb_true_r. repeat case_bool_decide; subst; done.
Qed.

(** ** Interruption *)

(** The numbers a [Read] polls are those of the reader; what it found behind them
    may belong to others by then. *)
Definition numbers_ok (p : PollReader) : Prop :=
  match pl_read p with
  | RArm a b | RPoll a b => a = pl_input p ∧ b = pl_cancelR p
  | RBlocked a b o1 o2 => a = pl_input p ∧ b = pl_cancelR p ∧ (o2 = Some OForeign ∨ o2 = Some OCancelR ∨ o2 = None)
  | _ => True
  end.

Lemma found_cancel f p : poll_ok f p → let o := pl_table p !! pl_cancelR p in o = Some OForeign ∨ o = Some OCancelR ∨ o = None.
Proof.
  intros [Htab _ Hfor (D1 & D2 & D3) _ _ _]. simpl. rewrite Htab. unfold own.
  rewrite (bool_decide_false (pl_cancelR p = pl_input p)), (bool_decide_true (_ = pl_cancelR p)), (bool_decide_false (_ = pl_cancelW p)) by done.
  simpl. destruct (pl_cancelROpen p); [by right; left|]. destruct (f !! pl_cancelR p) as [o|] eqn:E; [|by right; right].
  rewrite (Hfor _ _ E). by left.
Qed.

Lemma keeps_numbers p p' : pl_read p' = pl_read p → pl_input p' = pl_input p → pl_cancelR p' = pl_cancelR p → numbers_ok p → numbers_ok p'.
Proof. unfold numbers_ok. by intros -> -> ->. Qed.

Lemma step_numbers f l p p' : poll_ok f p → numbers_ok p → poll_step l p = Some p' → numbers_ok p'.
Proof.
  intros Hok Hn Hs. pose proof (found_cancel _ _ Hok) as Hfound. pose proof Hn as Hkeep. unfold numbers_ok in Hn.
  destruct l; unfold poll_step, poll_returned, file_read, close_step in Hs.
  1-10: destruct (pl_read p) eqn:Er; try done; unfold read_begin, read_lock, after_func, read_returns in Hs;
    repeat case_match; simplify_eq; unfold numbers_ok; simpl; try done; destruct_and?; subst; try (split_and!; done).
  all: repeat case_match; simplify_eq; apply (keeps_numbers p); try done; unfold cancel_ctx, wake; repeat case_match; done.
Qed.

(** The steps of the reader itself: of [Read], except for the system call that
    reads the input, of [Close], and of the functions the context started. *)
Definition own_label (l : plabel) : bool :=
  match l with PLock | PArm | PEnter | PReturn _ _ | PReadFile | PWake | PClose => true | _ => false end.

(** How many of them are left. *)
Definition read_left (pc : read_pc) : nat :=
  match pc with RLock => 5 | RArm _ _ => 4 | RPoll _ _ => 3 | RBlocked _ _ _ _ => 2 | RRead => 1 | _ => 0 end.

Definition close_left (pc : close_pc) : nat :=
  match pc with COpen => 5 | CWake => 4 | CInput => 3 | CCancelR => 2 | CCancelW => 1 | CClosed => 0 end.

Definition poll_left (p : PollReader) : nat := 2 * read_left (pl_read p) + pl_wakes p + close_left (pl_close p).

Lemma own_step_less l p p' : own_label l = true → poll_step l p = Some p' → (poll_left p' < poll_left p)%nat.
Proof.
  intros Hl Hs. unfold poll_left. destruct l; try done; unfold poll_step, poll_returned, close_step in Hs; destruct (pl_read p) eqn:Er; try done;
    unfold read_lock, after_func, read_returns, wake in Hs; repeat case_match; simplify_eq; simpl; rewrite ?Er; simpl; try lia.
Qed.

(** The context has ended, or [Close] was called. *)
Definition interrupted (p : PollReader) : Prop := pl_ctx p ≠ None ∨ pl_close p ≠ COpen.

(** No number the [Read] uses was given to another file meanwhile. *)
Definition undisturbed_fds (p : PollReader) : Prop :=
  match pl_read p with
  | RArm _ b | RPoll _ b => pl_table p !! b ≠ Some OForeign
  | RBlocked _ _ _ o => o ≠ Some OForeign
  | _ => True
  end.

(** [Read] is running, and not waiting for the input in the system call. *)
Definition at_work (p : PollReader) : bool :=
  match pl_read p with RLock | RArm _ _ | RPoll _ _ | RBlocked _ _ _ _ | RRead => true | _ => false end.

Lemma interrupted_moves f p : poll_ok f p → numbers_ok p → interrupted p → undisturbed_fds p → at_work p = true →
  ∃ l p', own_label l = true ∧ poll_step l p = Some p'.
Proof.
  intros Hok Hn Hi Hu Hw. pose proof Hok as [_ _ _ _ Hc Hb Ht]. unfold at_work, told, polling, numbers_ok, undisturbed_fds in *.
  destruct (pl_read p) eqn:Er; try done.
  - exists PLock. eexists. split; [done|]. unfold poll_step. by rewrite Er.
  - exists PArm. eexists. split; [done|]. unfold poll_step. by rewrite Er.
  - exists PEnter. eexists. split; [done|]. unfold poll_step. by rewrite Er.
  - destruct Hn as (_ & _ & Hcases). destruct (decide (0 < pl_bytes p)) as [Hpos|Hpos].
    + exists (PReturn false false), (read_returns [] (Some (ctx_or_closed p)) p). split; [done|].
      unfold poll_step, poll_returned. rewrite Er. destruct Hcases as [?|[->| ->]]; [done| |done].
      cbn [revents]. by rewrite (proj2 (Z.ltb_lt 0 (pl_bytes p)) Hpos).
    + destruct (pl_wakes p) as [|n] eqn:Ew.
      * exists PClose. unfold poll_step, close_step. specialize (Ht eq_refl). unfold closing_ok in Hc. destruct Hi as [Hi|Hi].
        -- exfalso. destruct (pl_ctx p); [destruct Ht; [lia|done]|done].
        -- destruct (pl_close p); try done; try (eexists; split; [done|reflexivity]). exfalso. lia.
      * exists PWake. eexists. split; [done|]. unfold poll_step. rewrite Ew. done.
  - exists PReadFile. eexists. split; [done|]. unfold poll_step. by rewrite Er.
Qed.

(** Once the pipe was written to, a poll that returns ends the [Read]. *)
Lemma woken_returns p p' i c a b o1 o2 : pl_read p = RBlocked a b o1 o2 → o2 ≠ Some OForeign → numbers_ok p → 0 < pl_bytes p →
  poll_step (PReturn i c) p = Some p' → pl_read p' = RDone [] (Some (ctx_or_closed p)) ∧ pl_taken p' = pl_taken p.
Proof.
  intros Er Ho Hn Hb Hs. unfold numbers_ok in Hn. rewrite Er in Hn. destruct Hn as (_ & _ & Hcases).
  unfold poll_step, poll_returned in Hs. rewrite Er in Hs.
  assert (Hr : revents p o2 c = true).
  { destruct Hcases as [?|[->| ->]]; [done| |done]. cbn [revents]. by rewrite (proj2 (Z.ltb_lt 0 (pl_bytes p)) Hb). }
  rewrite Hr in Hs. injection Hs as <-. done.
Qed.

(** A reachable poll reader. *)
Definition reader_of (table : gmap Z object) (d r w : Z) (ctx : option error) (ls : list plabel) (q : PollReader) : Prop :=
  fresh_fds table d r w ∧ ∃ p, (NewPollReader table (Ok d) (Ok (r, w)) ctx).2 = Ok p ∧ poll_run ls p = Some q.

Lemma reader_ok table d r w ctx ls q : reader_of table d r w ctx ls q → poll_ok (foreign ls table) q ∧ numbers_ok q.
Proof.
  intros (Hf & p & Hn & Hr). assert (Hok : poll_ok table p).
  { by eapply new_poll_ok; [exact Hf|rewrite <- Hn; apply surjective_pairing]. }
  split; [by eapply poll_run_ok|]. assert (Hnum : numbers_ok p) by (by injection Hn as <-). clear Hn. clear Hf.
  revert Hok Hnum Hr. revert p. generalize table as f. induction ls as [|l ls IH]; intros f p Hok Hnum Hr; cbn [poll_run] in Hr; [by injection Hr as <-|].
  destruct (poll_step l p) as [p1|] eqn:Es; [|done]. eapply IH; [by eapply poll_step_ok|by eapply step_numbers|exact Hr].
Qed.

Lemma step_fds l p p' : poll_step l p = Some p' → pl_input p' = pl_input p ∧ pl_cancelR p' = pl_cancelR p ∧ pl_cancelW p' = pl_cancelW p.
Proof.
  intros Hs. destruct l; unfold poll_step, poll_returned, file_read, close_step in Hs; destruct (pl_read p) eqn:Er; try done;
    unfold read_begin, read_lock, after_func, read_returns, cancel_ctx, wake in Hs; repeat case_match; simplify_eq; done.
Qed.

(** A poll reader keeps to its own descriptors, whatever other code of the
    process opens and closes and however its calls interleave: the files of others,
    the original input among them, stay as those left them; while it is open it
    holds exactly its own three; and when [Close] is done and no read is running
    the descriptors of the process are those of the others.  A [NewPollReader] that
    fails leaves nothing open. *)
Theorem poll_reader_descriptors table d r w ctx ls q (Hq : reader_of table d r w ctx ls q) :
  (∀ n, foreign ls table !! n = Some OForeign → pl_table q !! n = Some OForeign) ∧
  (pl_close q = COpen → pl_table q !! d = Some OInput ∧ pl_table q !! r = Some OCancelR ∧ pl_table q !! w = Some OCancelW) ∧
  (pl_close q = CClosed → reading q = false → pl_table q = foreign ls table) ∧
  ∀ e pipe, NewPollReader table (Err e) pipe ctx = (table, Err (Wrapped e "duplicate input descriptor")) ∧
    NewPollReader table (Ok d) (Err e) ctx = (table, Err (Wrapped e "create input cancellation pipe")).
Proof.
  destruct (reader_ok _ _ _ _ _ _ _ Hq) as [Hok _]. pose proof Hok as [Htab Hfree Hfor (D1 & D2 & D3) Hc _ _].
  destruct Hq as ((F1 & _) & p & Hn & Hr). injection Hn as <-.
  assert (pl_input q = d ∧ pl_cancelR q = r ∧ pl_cancelW q = w) as (E1 & E2 & E3).
  { clear -Hr. match type of Hr with poll_run _ ?p = _ => assert (Hp : pl_input p = d ∧ pl_cancelR p = r ∧ pl_cancelW p = w) by done; generalize dependent p end.
    induction ls as [|l ls IH]; intros p Hr Hp; cbn [poll_run] in Hr; [by injection Hr as <-|].
    destruct (poll_step l p) as [p1|] eqn:Es; [|done]. apply (IH p1 Hr). destruct Hp as (<- & <- & <-). by apply (step_fds l). }
  split_and!.
  - intros n Hn. rewrite Htab. destruct (own q n) eqn:Eo; [|done]. rewrite Hfree in Hn; [done|by rewrite Eo].
  - intros Eo. unfold closing_ok in Hc. rewrite Eo in Hc. destruct Hc as (_ & C1 & C2 & C3). rewrite !Htab. unfold own.
    rewrite C1, C2, C3, E1, E2, E3 in *. rewrite !andb_true_r. repeat case_bool_decide; done.
  - intros Eo Er. apply map_eq. intros n. rewrite Htab. unfold closing_ok in Hc. rewrite Eo in Hc. destruct Hc as (_ & C1 & C2 & C3 & _).
    unfold own. by rewrite C1, C2, C3, Er, !andb_false_r.
  - intros e pipe. split; [done|]. unfold NewPollReader. by rewrite delete_insert_id.
Qed.


(** ** Where a reader is not interrupted *)

(** A [Read] in its system call waits for input for ever if another process took
    the input that poll had reported: neither the context nor [Close] ends it. *)
Lemma stolen_input_blocks l p p' : reading p = true → own_label l = true → poll_step l p = Some p' → reading p' = true.
Proof.
  unfold reading. destruct (pl_read p) eqn:Er; try done. intros _ Hl Hs.
  destruct l; try done; unfold poll_step, poll_returned, close_step in Hs; rewrite ?Er in Hs; try done;
    repeat case_match; simplify_eq; simpl; unfold wake in *; repeat case_match; simpl in *; congruence.
Qed.

Definition toy_table : gmap Z object := {[0 := OForeign; 1 := OForeign; 2 := OForeign]}.

Definition toy_run (ls : list plabel) : option PollReader :=
  match (NewPollReader toy_table (Ok 3) (Ok (4, 5)) None).2 with Ok p => poll_run ls p | Err _ => None end.

Lemma toy_fresh : fresh_fds toy_table 3 4 5.
Proof.
  split_and!; try done. intros n o. unfold toy_table. rewrite !lookup_insert_Some, lookup_singleton_Some. naive_solver.
Qed.

(** [Close] between the look at the numbers and the poll; two files that other code
    opens get the numbers, and the poll waits for those. *)
Definition reused_labels : list plabel :=
  [PRead 16; PLock; PArm; PClose; PClose; PClose; PClose; PClose; PForeignOpen 3; PForeignOpen 4; PEnter].

Lemma reused_number_blocks : ∃ q, toy_run reused_labels = Some q ∧ pl_close q = CClosed ∧ at_work q = true ∧
  poll_step (PReturn false false) q = None ∧ ∀ l, own_label l = true → (∀ i c, l ≠ PReturn i c) → poll_step l q = None.
Proof.
  eexists. split; [vm_compute; reflexivity|]. split_and!; try done. intros l Hl Hne. destruct l; try done. by destruct (Hne input cancel).
Qed.

(** The channel of sizes keeps the older size: when the window changes again before
    it was taken, the last size is lost. *)
Lemma last_resize_lost : ∀ s1 s2,
  (report_size (Some s1) (on_winch newResizer) ≫= λ r, report_size (Some s2) (on_winch r)) = Some (MkResizer false (Some s1) false).
Proof. done. Qed.

(** ** Restoring a terminal *)

(** However often it is called, [Restore] acts once, with the mode that [HookRaw]
    found, and always returns the same. *)
Lemma restore_once t t1 raw o1 : HookRaw None t = (t1, Ok raw) →
  let '(raw1, t2, e1) := Restore o1 raw t1 in
  tm_calls t2 = tm_calls t ++ [CallRaw; CallRestore (tm_mode t)] ∧ (o1 = None → tm_mode t2 = tm_mode t ∧ e1 = None) ∧
  ∀ o2, Restore o2 raw1 t2 = (raw1, t2, e1).
Proof. intros [= <- <-]. destruct o1; simpl; split_and!; try done; by rewrite <- app_assoc. Qed.

(** A closed pseudo terminal is closed once and never resized. *)
Lemma vtty_closed_final closing v : let '(v1, _, _) := vtty_Close closing v in
  (∀ c, vtty_Close c v1 = (v1, false, None)) ∧ ∀ size s, vtty_Resize size s v1 = (v1, None, Some os_ErrClosed).
Proof. unfold vtty_Close. destruct (vt_closed v) eqn:E; simpl; split; intros; unfold vtty_Close, vtty_Resize; by rewrite ?E. Qed.

(** ** A concrete reader *)

Definition toy_reader : PollReader :=
  default (MkPollReader ∅ 0 0 0 false false false 0 false None false 0 0 RIdle COpen [])
    (toy_run [PRead 16; PLock; PArm; PEnter; PCancel context_Canceled; PWake; PClose; PClose; PClose; PClose; PClose; PForeignOpen 4]).

Lemma toy_reader_reachable : reader_of toy_table 3 4 5 None
  [PRead 16; PLock; PArm; PEnter; PCancel context_Canceled; PWake; PClose; PClose; PClose; PClose; PClose; PForeignOpen 4] toy_reader.
Proof. split; [apply toy_fresh|]. eexists. split; [reflexivity|]. vm_compute. reflexivity. Qed.

Lemma poll_reader_descriptors_witness : pl_table toy_reader = <[4 := OForeign]> toy_table ∧ pl_table toy_reader !! 0 = Some OForeign.
Proof.
  destruct (poll_reader_descriptors _ _ _ _ _ _ _ toy_reader_reachable) as (H1 & _ & H3 & _). split; [|apply H1; reflexivity].
  rewrite H3; [reflexivity|reflexivity|reflexivity].
Defined.

