(* ===== verification/ClientRun.v ===== *)
(** * Running a command at the client (app/client/command/run.go)

    [Run]: the terminal is put into raw mode, the command started, its input and its
    window sizes are forwarded, and in the end everything is put back.  A run is the
    interleaving of [Run] itself, of the threads of the command client
    ([CommandClient]), of the forwarder of input with its [PollReader], of the
    forwarder of window sizes with the goroutine that reports them ([Terminal]), of
    the function that the context of the command starts when it ends, and of the
    context of the caller.  The answers of the kernel and of the connection are
    inputs of the steps. *)

From S2P Require Import Prelude GoStrings Wire CommandCodec CommandServer CommandClient ProcessRunner Terminal.

Definition EINTR : error := Sentinel "interrupted system call".
Definition EPIPE : error := Sentinel "broken pipe".

(** Which of the files are given, and whether the input is a terminal. *)
Record Options := MkOptions { op_Stdin : bool; op_Stdout : bool; op_Stderr : bool; op_LocalTerminal : bool }.

(** The deferred calls of [Run]. *)
Inductive deferred := DInput | DRestore | DStopAfter | DCancel | DCloseClient.

#[export] Instance deferred_eq_dec : EqDecision deferred.
Proof. solve_decision. Defined.

(** What [Run] returns: an error of its own or of [start], or what [wait] returned. *)
Inductive run_result := RunFailed (e : command_error) | RunExited (exit : option RemoteExitError).

(** Where [Run] is. *)
Inductive main_pc :=
  | MBegin
  | MStart
  | MStarting
  | MInput
  | MWait
  | MCancel (waitErr : option command_error)
  | MClose (waitErr : option command_error)
  | MWorkers (waitErr : option command_error)
  | MDefer (defers : list deferred) (result : run_result)
  | MReturned (result : run_result).

(** Where [forwardInput] is: [FGot] after a [Read], [FSending] in [writeStdin],
    [FHandle] at the error of the [Read], [FClosing] in [closeStdin]. *)
Inductive fwd_pc :=
  | FNone
  | FRead
  | FReading
  | FGot (data : bytes) (err : option error)
  | FSending (err : option error)
  | FHandle (err : option error)
  | FClosing
  | FReturn (err : option error)
  | FEnded.

(** Where the goroutine that forwards window sizes is. *)
Inductive rsz_pc := ZNone | ZSelect | ZSending | ZEnded.

#[export] Instance rsz_pc_eq_dec : EqDecision rsz_pc.
Proof. solve_decision. Defined.

(** The function registered with the context of the command. *)
Inductive after_pc := ANone | AArmed | AStarted | ARan | AStopped.

Record run := MkRun {
  rn_main : main_pc;
  rn_client : client;
  rn_ctx : option error;          (** [commandCtx.Err()] *)
  rn_after : after_pc;
  rn_tty : terminal;
  rn_raw : option RawTTY;
  rn_resizer : resizer;
  rn_poll : option PollReader;
  rn_fwd : fwd_pc;
  rn_rsz : rsz_pc;
  rn_forwarded : bytes;           (** the data of every [writeStdin] that did not fail at once *)
}.

Definition eta_run (r : run) : run :=
  MkRun (rn_main r) (rn_client r) (rn_ctx r) (rn_after r) (rn_tty r) (rn_raw r) (rn_resizer r) (rn_poll r) (rn_fwd r) (rn_rsz r)
    (rn_forwarded r).

#[export] Instance set_rn_main : Setter rn_main := ltac:(derive_setter eta_run).
#[export] Instance set_rn_client : Setter rn_client := ltac:(derive_setter eta_run).
#[export] Instance set_rn_ctx : Setter rn_ctx := ltac:(derive_setter eta_run).
#[export] Instance set_rn_after : Setter rn_after := ltac:(derive_setter eta_run).
#[export] Instance set_rn_tty : Setter rn_tty := ltac:(derive_setter eta_run).
#[export] Instance set_rn_raw : Setter rn_raw := ltac:(derive_setter eta_run).
#[export] Instance set_rn_resizer : Setter rn_resizer := ltac:(derive_setter eta_run).
#[export] Instance set_rn_poll : Setter rn_poll := ltac:(derive_setter eta_run).
#[export] Instance set_rn_fwd : Setter rn_fwd := ltac:(derive_setter eta_run).
#[export] Instance set_rn_rsz : Setter rn_rsz := ltac:(derive_setter eta_run).
#[export] Instance set_rn_forwarded : Setter rn_forwarded := ltac:(derive_setter eta_run).

(** [Err()] of a context that was cancelled, or whose deadline passed. *)
Definition ctx_error (deadline : bool) : error := if deadline then context_DeadlineExceeded else context_Canceled.

(** Before the call: a context, which may have ended, and a terminal. *)
Definition new_run (ended : option bool) (t : terminal) : run :=
  MkRun MBegin newClient (ctx_error <$> ended) ANone t None newResizer None FNone ZNone [].

(** The context of the command ends with this [Err()]: the first end counts, starts
    the registered function and reaches the poll reader. *)
Definition cancel (e : error) (r : run) : run :=
  match rn_ctx r with
  | Some _ => r
  | None =>
      r <| rn_ctx := Some e |> <| rn_after ::= λ a, match a with AArmed => AStarted | _ => a end |>
        <| rn_poll ::= fmap (cancel_ctx e) |>
  end.

Definition cancelCommand (r : run) : run := cancel context_Canceled r.

Section run.
Context `{HC : ProtoMessage ClientFrame} `{HS : ProtoMessage ServerFrame} (signalNum : string → Z).
Context (maxSendFrameSize : Z) (request : StartRequest) (options : Options).

Definition sink_of : outputSink := MkSink (op_Stdout options) (op_Stderr options).

(** The steps. *)
Inductive xlabel :=
  | XBegin (makeRaw : option error)
  | XStart (order : list string)
  | XStartSent (err : option error)
  | XStartTake
  | XStartCancel
  | XStarted
  | XInput (table : gmap Z object) (dup : res Z) (pipe : res (Z * Z))
  | XWait
  | XCancel
  | XClose
  | XWorkers
  | XDefer (restored : option error)
  | XLoop (l : label)
  | XParent (deadline : bool)
  | XAfter
  | XWinch
  | XReport (size : option Size)
  | XResizerStops
  | XResize
  | XResizeEnds
  | XResizeSent (err : option error)
  | XRead
  | XPoll (l : plabel)
  | XTook
  | XForward
  | XInputSent (err : option error)
  | XHandle
  | XForwardEnds.

(** [Run] up to the start of the command. *)
Definition run_begin (makeRaw : option error) (r : run) : run :=
  let fail msg := r <| rn_main := MReturned (RunFailed (OtherError (NewError msg))) |> in
  if negb (op_Stdin options) then fail "command stdin is required"%string
  else if negb (op_Stdout options) then fail "command stdout is required"%string
  else if negb (op_Stderr options) then fail "command stderr is required"%string
  else if maxSendFrameSize <=? 0 then fail "command maximum send frame size must be greater than zero"%string
  else
    let r := r <| rn_after := match rn_ctx r with Some _ => AStarted | None => AArmed end |> in
    if bool_decide (is_Some (sr_PTY request)) && op_LocalTerminal options then
      match HookRaw makeRaw (rn_tty r) with
      | (t, Ok raw) => r <| rn_tty := t |> <| rn_raw := Some raw |> <| rn_main := MStart |>
      | (t, Err e) => r <| rn_tty := t |> <| rn_main := MDefer [DStopAfter; DCancel; DCloseClient] (RunFailed (OtherError e)) |>
      end
    else r <| rn_main := MStart |>.

(** The deferred calls before the input is opened. *)
Definition defers (r : run) : list deferred :=
  (if bool_decide (is_Some (rn_raw r)) then [DRestore] else []) ++ [DStopAfter; DCancel; DCloseClient].

Definition run_failed (e : command_error) (r : run) : run := r <| rn_main := MDefer (defers r) (RunFailed e) |>.

(** The call of [start]: it may fail before it sends anything. *)
Definition run_start (order : list string) (r : run) : run :=
  match EncodeClientStart request order maxSendFrameSize with
  | Err e => run_failed (OtherError e) r
  | Ok _ =>
      if negb (is_state clientIdle (rn_client r)) then run_failed (protocol_failure "start may be sent exactly once") r
      else r <| rn_client ::= start_begin maxSendFrameSize request order sink_of |> <| rn_main := MStarting |>
  end.

Definition run_started (r : run) : option run :=
  match cl_start (rn_client r) with
  | StartReturned None => Some (r <| rn_main := MInput |>)
  | StartReturned (Some e) => Some (run_failed e r)
  | _ => None
  end.

(** The input is opened and the forwarders start. *)
Definition run_input (table : gmap Z object) (dup : res Z) (pipe : res (Z * Z)) (r : run) : run :=
  match NewPollReader table dup pipe (rn_ctx r) with
  | (_, Err e) => run_failed (OtherError e) r
  | (_, Ok p) =>
      r <| rn_poll := Some p |> <| rn_fwd := FRead |> <| rn_rsz := if bool_decide (is_Some (rn_raw r)) then ZSelect else ZNone |>
        <| rn_main := MWait |>
  end.

(** Both forwarders have returned. *)
Definition workers_done (r : run) : bool :=
  match rn_fwd r, rn_rsz r with FEnded, ZNone | FEnded, ZEnded => true | _, _ => false end.

(** A deferred call; [DInput] is the second [Close] of the input, which does nothing. *)
Definition run_deferred (d : deferred) (restored : option error) (r : run) : run :=
  match d with
  | DInput => r
  | DRestore =>
      match rn_raw r with
      | Some raw => let '(raw, t, _) := Restore restored raw (rn_tty r) in r <| rn_raw := Some raw |> <| rn_tty := t |>
      | None => r
      end
  | DStopAfter => r <| rn_after ::= λ a, match a with AArmed => AStopped | _ => a end |>
  | DCancel => cancelCommand r
  | DCloseClient => r <| rn_client ::= closeClient |>
  end.

(** A step of a thread of the client. *)
Definition on_client (l : label) (r : run) : option run :=
  match client_step maxSendFrameSize l (rn_client r) with Some c => Some (r <| rn_client := c |>) | None => None end.

(** A step of the poll reader. *)
Definition on_poll (l : plabel) (r : run) : option run :=
  match rn_poll r with
  | Some p => match poll_step l p with Some p => Some (r <| rn_poll := Some p |>) | None => None end
  | None => None
  end.

(** The receive loop is the only thread of the client that [Run] does not drive. *)
Definition loop_label (l : label) : bool :=
  match l with LReceived _ | LHandled _ | LSignaled | LFinished => true | _ => false end.

(** The steps of the poll reader that its [Read] and the kernel take by themselves. *)
Definition inner_label (l : plabel) : bool :=
  match l with PRead _ | PTake | PCancel _ | PClose => false | _ => true end.

(** The select of the forwarder of sizes took a size. *)
Definition resize_taken (size : Size) (r : run) : option run :=
  let r := r <| rn_resizer ::= λ z, MkResizer (rs_sig z) None (rs_closed z) |> in
  let ws := MkWindowSize (u32 (sz_Height size)) (u32 (sz_Width size)) in
  match resize_begin maxSendFrameSize ws (rn_client r) with
  | Err _ => Some (cancelCommand r <| rn_rsz := ZEnded |>)
  | Ok _ => match on_client (LResize ws) r with Some r => Some (r <| rn_rsz := ZSending |>) | None => None end
  end.

Definition resize_sent_step (err : option error) (r : run) : option run :=
  match on_client (LResizeSent err) r with
  | Some r => Some (match err with None => r <| rn_rsz := ZSelect |> | Some _ => cancelCommand r <| rn_rsz := ZEnded |> end)
  | None => None
  end.

(** [forwardInput]: what a [Read] returned is written. *)
Definition forward_data (data : bytes) (err : option error) (r : run) : option run :=
  if bool_decide (data = []) then Some (r <| rn_fwd := FHandle err |>)
  else match writeStdin_begin maxSendFrameSize data (rn_client r) with
       | Err e => Some (r <| rn_fwd := FReturn (Some e) |>)
       | Ok frames =>
           match on_client (LWriteStdin data) r with
           | Some r => Some (r <| rn_forwarded ::= (.++ data) |>
                               <| rn_fwd := match frames with [] => FHandle err | _ => FSending err end |>)
           | None => None
           end
       end.

(** The error of [closeStdin]. *)
Definition close_error (e : error) : option error :=
  if err_is e context_Canceled || err_is e os_ErrClosed then None else Some e.

Definition input_idle (c : client) : bool := match cl_inputs c with InputIdle => true | _ => false end.

Definition input_sent_step (err : option error) (r : run) : option run :=
  match on_client (LInputSent err) r with
  | None => None
  | Some r =>
      match rn_fwd r, err with
      | FSending readErr, None => Some (r <| rn_fwd := if input_idle (rn_client r) then FHandle readErr else FSending readErr |>)
      | FSending _, Some e => Some (r <| rn_fwd := FReturn (Some e) |>)
      | FClosing, None => Some (r <| rn_fwd := FReturn None |>)
      | FClosing, Some e => Some (r <| rn_fwd := FReturn (close_error e) |>)
      | _, _ => None
      end
  end.

(** The error of a [Read]. *)
Definition handle_error (err : option error) (r : run) : option run :=
  match err with
  | None => Some (r <| rn_fwd := FRead |>)
  | Some e =>
      if err_is e io_EOF || err_is e EIO then
        match closeStdin_begin maxSendFrameSize (rn_client r), on_client LCloseStdin r with
        | (_, Ok _), Some r => Some (r <| rn_fwd := FClosing |>)
        | (_, Err e'), Some r => Some (r <| rn_fwd := FReturn (close_error e') |>)
        | _, None => None
        end
      else if err_is e os_ErrClosed || err_is e context_Canceled then Some (r <| rn_fwd := FReturn None |>)
      else if err_is e EINTR then Some (r <| rn_fwd := FRead |>)
      else if err_is e context_DeadlineExceeded then Some (r <| rn_fwd := FReturn (Some e) |>)
      else if err_is e EPIPE then Some (r <| rn_fwd := FReturn None |>)
      else Some (r <| rn_fwd := FReturn (Some e) |>)
  end.

(** The goroutine of [forwardInput] ends the command if it failed. *)
Definition forward_ends (err : option error) (r : run) : run :=
  (match err with Some _ => cancelCommand r | None => r end) <| rn_fwd := FEnded |>.

Definition run_step (l : xlabel) (r : run) : option run :=
  match l, rn_main r, rn_fwd r, rn_rsz r with
  | XBegin makeRaw, MBegin, _, _ => Some (run_begin makeRaw r)
  | XStart order, MStart, _, _ => Some (run_start order r)
  | XStartSent err, MStarting, _, _ => on_client (LStartSent err) r
  | XStartTake, MStarting, _, _ => on_client LStartTake r
  | XStartCancel, MStarting, _, _ => match rn_ctx r with Some e => on_client (LStartCancel e) r | None => None end
  | XStarted, MStarting, _, _ => run_started r
  | XInput table dup pipe, MInput, _, _ => Some (run_input table dup pipe r)
  | XWait, MWait, _, _ => if cl_done (rn_client r) then Some (r <| rn_main := MCancel (cl_waitErr (rn_client r)) |>) else None
  | XCancel, MCancel waitErr, _, _ => Some (cancelCommand r <| rn_main := MClose waitErr |>)
  | XClose, MClose waitErr, _, _ =>
      match rn_poll r with
      | Some p =>
          if bool_decide (pl_close p = CClosed) then Some (r <| rn_main := MWorkers waitErr |>)
          else on_poll PClose r
      | None => None
      end
  | XWorkers, MWorkers waitErr, _, _ =>
      if workers_done r then
        Some (r <| rn_main := MDefer (DInput :: defers r) (RunExited (normalizeRemoteExit signalNum waitErr)) |>)
      else None
  | XDefer _, MDefer [] result, _, _ => Some (r <| rn_main := MReturned result |>)
  | XDefer restored, MDefer (d :: ds) result, _, _ => Some (run_deferred d restored r <| rn_main := MDefer ds result |>)
  | XLoop l, _, _, _ => if loop_label l then on_client l r else None
  | XParent deadline, _, _, _ => Some (cancel (ctx_error deadline) r)
  | XAfter, _, _, _ =>
      match rn_after r with AStarted => Some (r <| rn_client ::= closeClient |> <| rn_after := ARan |>) | _ => None end
  | XWinch, _, _, _ => if bool_decide (is_Some (rn_raw r)) then Some (r <| rn_resizer ::= on_winch |>) else None
  | XReport size, _, _, _ =>
      match report_size size (rn_resizer r) with Some z => Some (r <| rn_resizer := z |>) | None => None end
  | XResizerStops, _, _, _ =>
      match rn_ctx r, rn_raw r with Some _, Some _ => Some (r <| rn_resizer ::= resizer_stops |>) | _, _ => None end
  | XResize, _, _, ZSelect => match rs_resizes (rn_resizer r) with Some size => resize_taken size r | None => None end
  | XResizeEnds, _, _, ZSelect =>
      if bool_decide (is_Some (rn_ctx r)) || (rs_closed (rn_resizer r) && bool_decide (rs_resizes (rn_resizer r) = None))
      then Some (r <| rn_rsz := ZEnded |>) else None
  | XResizeSent err, _, _, ZSending => resize_sent_step err r
  | XRead, _, FRead, _ => match on_poll (PRead 32768) r with Some r => Some (r <| rn_fwd := FReading |>) | None => None end
  | XPoll l, _, _, _ => if inner_label l then on_poll l r else None
  | XTook, _, FReading, _ =>
      match rn_poll r with
      | Some p => match pl_read p with
                  | RDone data err => match on_poll PTake r with Some r => Some (r <| rn_fwd := FGot data err |>) | None => None end
                  | _ => None
                  end
      | None => None
      end
  | XForward, _, FGot data err, _ => forward_data data err r
  | XInputSent err, _, (FSending _ | FClosing), _ => input_sent_step err r
  | XHandle, _, FHandle err, _ => handle_error err r
  | XForwardEnds, _, FReturn err, _ => Some (forward_ends err r)
  | _, _, _, _ => None
  end.

Fixpoint run_steps (ls : list xlabel) (r : run) : option run :=
  match ls with
  | [] => Some r
  | l :: ls => match run_step l r with Some r' => run_steps ls r' | None => None end
  end.
End run.

(** The steps in three groups: of the call of [Run], of what runs beside it, and of the
    forwarder of input. *)
Definition call_label (l : xlabel) : bool :=
  match l with
  | XBegin _ | XStart _ | XStartSent _ | XStartTake | XStartCancel | XStarted | XInput _ _ _ | XWait | XCancel | XClose | XWorkers | XDefer _ => true
  | _ => false
  end.

Definition side_label (l : xlabel) : bool :=
  match l with
  | XLoop _ | XParent _ | XAfter | XWinch | XReport _ | XResizerStops | XResize | XResizeEnds | XResizeSent _ => true
  | _ => false
  end.

Definition input_label (l : xlabel) : bool :=
  match l with XRead | XPoll _ | XTook | XForward | XInputSent _ | XHandle | XForwardEnds => true | _ => false end.

Lemma label_groups l : call_label l = true ∨ side_label l = true ∨ input_label l = true.
Proof. destruct l; auto. Qed.

(** ** The client of a run *)

Section refines.
Context `{HC : ProtoMessage ClientFrame} `{HS : ProtoMessage ServerFrame} (signalNum : string → Z).
Context (maxSendFrameSize : Z) (request : StartRequest) (options : Options).

(** The client is in a state of its own state machine, and the data forwarded are what
    was written to it. *)
Definition drives (r : run) : Prop :=
  ∃ cls, client_run maxSendFrameSize cls newClient = Some (rn_client r) ∧ input_of maxSendFrameSize cls newClient = rn_forwarded r.

Lemma client_run_app ls1 ls2 : ∀ c, client_run maxSendFrameSize (ls1 ++ ls2) c =
  match client_run maxSendFrameSize ls1 c with Some c' => client_run maxSendFrameSize ls2 c' | None => None end.
Proof. induction ls1 as [|l ls1 IH]; intros c; [done|]. cbn [client_run app]. destruct (client_step _ l c); [apply IH|done]. Qed.

Lemma input_of_app ls1 ls2 : ∀ c c', client_run maxSendFrameSize ls1 c = Some c' →
  input_of maxSendFrameSize (ls1 ++ ls2) c = input_of maxSendFrameSize ls1 c ++ input_of maxSendFrameSize ls2 c'.
Proof.
  induction ls1 as [|l ls1 IH]; intros c c' Hr; cbn [client_run input_of app] in *; [by injection Hr as <-|].
  destruct (client_step _ l c) as [c1|]; [|done]. by rewrite (IH _ _ Hr), app_assoc.
Qed.

Lemma drives_step l c r r' : drives r → client_step maxSendFrameSize l (rn_client r) = Some c → rn_client r' = c →
  rn_forwarded r' = rn_forwarded r ++ written_by maxSendFrameSize l (rn_client r) → drives r'.
Proof.
  intros (cls & Hr & Hi) Hs Ec Ef. exists (cls ++ [l]). rewrite client_run_app, Hr. cbn [client_run]. rewrite Hs, Ec. split; [done|].
  rewrite (input_of_app _ _ _ _ Hr), Ef, Hi. cbn [input_of]. by rewrite Hs, app_nil_r.
Qed.

Lemma drives_same r r' : drives r → rn_client r' = rn_client r → rn_forwarded r' = rn_forwarded r → drives r'.
Proof. intros (cls & Hr & Hi) E1 E2. exists cls. by rewrite E1, E2. Qed.

Lemma on_client_drives l r r' : drives r → on_client maxSendFrameSize l r = Some r' → written_by maxSendFrameSize l (rn_client r) = [] →
  drives r'.
Proof.
  intros Hd Ho Hw. unfold on_client in Ho. destruct (client_step _ l (rn_client r)) as [c|] eqn:E; [|done]. injection Ho as <-.
  apply (drives_step l c r); [done..|]. by rewrite Hw, app_nil_r.
Qed.

Lemma cancel_keeps e r : rn_client (cancel e r) = rn_client r ∧ rn_forwarded (cancel e r) = rn_forwarded r ∧ rn_main (cancel e r) = rn_main r ∧
  rn_fwd (cancel e r) = rn_fwd r ∧ rn_rsz (cancel e r) = rn_rsz r ∧ rn_raw (cancel e r) = rn_raw r ∧ rn_tty (cancel e r) = rn_tty r ∧
  rn_ctx (cancel e r) ≠ None.
Proof. unfold cancel. destruct (rn_ctx r) eqn:E; simpl; rewrite ?E; done. Qed.

Lemma cancel_drives e r : drives r → drives (cancel e r).
Proof. intros Hd. destruct (cancel_keeps e r) as (E1 & E2 & _). by eapply drives_same. Qed.

Lemma on_poll_keeps l r r' : on_poll l r = Some r' → rn_client r' = rn_client r ∧ rn_forwarded r' = rn_forwarded r ∧ rn_main r' = rn_main r ∧
  rn_fwd r' = rn_fwd r ∧ rn_rsz r' = rn_rsz r ∧ rn_raw r' = rn_raw r ∧ rn_tty r' = rn_tty r ∧ rn_ctx r' = rn_ctx r ∧
  ∃ p p', rn_poll r = Some p ∧ poll_step l p = Some p' ∧ rn_poll r' = Some p'.
Proof.
  unfold on_poll. destruct (rn_poll r) as [p|]; [|done]. destruct (poll_step l p) as [p'|] eqn:E; [|done]. intros [= <-]. split_and!; try done. eauto.
Qed.

Lemma on_client_keeps l r r' : on_client maxSendFrameSize l r = Some r' → rn_forwarded r' = rn_forwarded r ∧ rn_main r' = rn_main r ∧
  rn_fwd r' = rn_fwd r ∧ rn_rsz r' = rn_rsz r ∧ rn_raw r' = rn_raw r ∧ rn_tty r' = rn_tty r ∧ rn_ctx r' = rn_ctx r ∧ rn_poll r' = rn_poll r ∧
  rn_after r' = rn_after r ∧ rn_resizer r' = rn_resizer r ∧ client_step maxSendFrameSize l (rn_client r) = Some (rn_client r').
Proof. unfold on_client. destruct (client_step _ l _) eqn:E; [|done]. by intros [= <-]. Qed.

Lemma step_drives_call l r r' : call_label l = true → drives r → run_step signalNum maxSendFrameSize request options l r = Some r' → drives r'.
Proof.
  intros Hg Hd Hs. destruct l as [mr|order|err| | | |table dup pipe| | | | |restored|l|e| | |size| | | |err| |l| | |err| |]; try done; cbn [run_step] in Hs.
  - destruct (rn_main r); try done. injection Hs as <-. unfold run_begin. repeat case_match; by eapply drives_same.
  - destruct (rn_main r); try done. injection Hs as <-. unfold run_start. destruct (EncodeClientStart _ _ _) eqn:Ee; [|by eapply drives_same].
    destruct (is_state clientIdle (rn_client r)) eqn:Ei; simpl; [|by eapply drives_same].
    eapply (drives_step (LStart request order (sink_of options))); [done|reflexivity|done|]. simpl. by rewrite app_nil_r.
  - destruct (rn_main r); try done. by eapply on_client_drives.
  - destruct (rn_main r); try done. by eapply on_client_drives.
  - destruct (rn_main r); try done. destruct (rn_ctx r); [|done]. by eapply on_client_drives.
  - destruct (rn_main r); try done. unfold run_started in Hs. repeat case_match; simplify_eq; by eapply drives_same.
  - destruct (rn_main r); try done. injection Hs as <-. unfold run_input. repeat case_match; by eapply drives_same.
  - destruct (rn_main r); try done. case_match; simplify_eq. by eapply drives_same.
  - destruct (rn_main r); try done. injection Hs as <-. eapply drives_same; [by apply (cancel_drives context_Canceled)|done|done].
  - destruct (rn_main r); try done. destruct (rn_poll r); [|done]. case_bool_decide; [simplify_eq; by eapply drives_same|].
    destruct (on_poll_keeps _ _ _ Hs) as (E1 & E2 & _). by eapply drives_same.
  - destruct (rn_main r); try done. case_match; simplify_eq. by eapply drives_same.
  - destruct (rn_main r) as [| | | | | | | |[|d ds]|]; try done; injection Hs as <-; [by eapply drives_same|]. destruct d; simpl.
    + by eapply drives_same.
    + destruct (rn_raw r) as [raw|]; [|by eapply drives_same]. destruct (Restore restored raw (rn_tty r)) as [[? ?] ?]. by eapply drives_same.
    + by eapply drives_same.
    + eapply drives_same; [by apply (cancel_drives context_Canceled)|done|done].
    + eapply (drives_step LCloseClient); [done|reflexivity|done|]. simpl. by rewrite app_nil_r.
Qed.

Lemma step_drives_side l r r' : side_label l = true → drives r → run_step signalNum maxSendFrameSize request options l r = Some r' → drives r'.
Proof.
  intros Hg Hd Hs. destruct l as [mr|order|err| | | |table dup pipe| | | | |restored|l|e| | |size| | | |err| |l| | |err| |]; try done; cbn [run_step] in Hs.
  - destruct (loop_label l) eqn:El; [|done]. eapply on_client_drives; [done|exact Hs|]. by destruct l.
  - injection Hs as <-. by apply cancel_drives.
  - destruct (rn_after r); try done. injection Hs as <-. eapply (drives_step LCloseClient); [done|reflexivity|done|]. simpl. by rewrite app_nil_r.
  - case_match; simplify_eq. by eapply drives_same.
  - case_match; simplify_eq. by eapply drives_same.
  - repeat case_match; simplify_eq. by eapply drives_same.
  - destruct (rn_rsz r); try done. destruct (rs_resizes _) as [size|]; [|done]. unfold resize_taken in Hs.
    destruct (resize_begin _ _ _) as [frame|e].
    + destruct (on_client _ _ _) as [r1|] eqn:Eo; [|done]. injection Hs as <-. apply (drives_same r1); [|done|done].
      eapply on_client_drives; [|exact Eo|done]. by eapply drives_same.
    + injection Hs as <-. 
      match goal with |- drives (setter _ _ (cancelCommand ?R)) => destruct (cancel_keeps context_Canceled R) as (E1 & E2 & _) end.
      exact (drives_same r _ Hd E1 E2).
  - destruct (rn_rsz r); try done. case_match; simplify_eq. by eapply drives_same.
  - destruct (rn_rsz r); try done. unfold resize_sent_step in Hs. destruct (on_client _ _ _) as [r1|] eqn:Eo; [|done]. injection Hs as <-.
    assert (drives r1) by (by eapply on_client_drives). destruct err; [|by eapply drives_same].
    eapply drives_same; [by apply (cancel_drives context_Canceled)|done|done].
Qed.

Lemma step_drives_input l r r' : input_label l = true → drives r → run_step signalNum maxSendFrameSize request options l r = Some r' → drives r'.
Proof.
  intros Hg Hd Hs. destruct l as [mr|order|err| | | |table dup pipe| | | | |restored|l|e| | |size| | | |err| |l| | |err| |]; try done; cbn [run_step] in Hs.
  - destruct (rn_fwd r); try done. destruct (on_poll _ _) as [r1|] eqn:Eo; [|done]. injection Hs as <-.
    destruct (on_poll_keeps _ _ _ Eo) as (E1 & E2 & _). by eapply drives_same.
  - destruct (inner_label l); [|done]. destruct (on_poll_keeps _ _ _ Hs) as (E1 & E2 & _). by eapply drives_same.
  - destruct (rn_fwd r); try done. destruct (rn_poll r) as [p|]; [|done]. destruct (pl_read p); try done.
    destruct (on_poll _ _) as [r1|] eqn:Eo; [|done]. injection Hs as <-. destruct (on_poll_keeps _ _ _ Eo) as (E1 & E2 & _). by eapply drives_same.
  - destruct (rn_fwd r); try done. unfold forward_data in Hs. case_bool_decide as Ed; [simplify_eq; by eapply drives_same|].
    destruct (writeStdin_begin _ _ _) as [frames|] eqn:Ew; [|simplify_eq; by eapply drives_same].
    destruct (on_client _ _ _) as [r1|] eqn:Eo; [|done]. injection Hs as <-.
    destruct (on_client_keeps _ _ _ Eo) as (E1&_&_&_&_&_&_&_&_&_&Ec). eapply (drives_step (LWriteStdin data)); [exact Hd|exact Ec|done|].
    simpl. rewrite E1. unfold written_by. by rewrite Ew.
  - destruct (rn_fwd r) eqn:Ef; try done; unfold input_sent_step in Hs; destruct (on_client _ _ _) as [r1|] eqn:Eo; try done;
      assert (drives r1) by (by eapply on_client_drives); repeat case_match; simplify_eq; by eapply drives_same.
  - destruct (rn_fwd r); try done. unfold handle_error in Hs. destruct err as [e|]; [|simplify_eq; by eapply drives_same].
    destruct (_ || _); [|repeat case_match; simplify_eq; by eapply drives_same].
    destruct (closeStdin_begin _ _) as [c0 [frame|e']], (on_client _ _ _) as [r1|] eqn:Eo; try done; simplify_eq;
      (apply (drives_same r1); [by eapply on_client_drives|done|done]).
  - destruct (rn_fwd r); try done. injection Hs as <-. unfold forward_ends. destruct err; [|by eapply drives_same].
    eapply drives_same; [by apply (cancel_drives context_Canceled)|done|done].
Qed.

Lemma step_drives l r r' : drives r → run_step signalNum maxSendFrameSize request options l r = Some r' → drives r'.
Proof.
  intros Hd Hs. destruct (label_groups l) as [Hg|[Hg|Hg]]; [by eapply step_drives_call|by eapply step_drives_side|by eapply step_drives_input].
Qed.
End refines.

(** ** Everything is put back *)

(** The data of a [Read] that has returned. *)
Definition done_data (p : PollReader) : bytes := match pl_read p with RDone d _ => d | _ => [] end.

Lemma inner_step l p p' : poll_step l p = Some p' → inner_label l = true →
  (∃ extra, pl_taken p' = pl_taken p ++ extra ∧ done_data p' = done_data p ++ extra) ∧ pl_ctx p' = pl_ctx p ∧ pl_close p' = pl_close p ∧
  (pl_read p = RIdle → pl_read p' = RIdle).
Proof.
  intros Hs Hl.
  destruct l; try done; unfold poll_step, poll_returned, file_read in Hs; destruct (pl_read p) eqn:Er; try done;
    unfold read_lock, after_func, read_returns, wake in Hs; repeat case_match; simplify_eq; unfold done_data; simpl; rewrite ?Er;
    (split_and!; [|done..]); (exists []; by rewrite !app_nil_r) || (eexists; done).
Qed.

Lemma step_cl_close `{ProtoMessage ClientFrame} `{ProtoMessage ServerFrame} maximum l c c' :
  client_step maximum l c = Some c' → cl_close c = true → cl_close c' = true.
Proof.
  assert (Hf : ∀ err c0, cl_close (finish err c0) = true) by (intros err c0; unfold finish; destruct (cl_close c0) eqn:E; [exact E|done]).
  intros Hs Hc. step_cbn_in Hs. unfold start_begin, receive_frame, handleServerEvent, loop_fails, closeStdin_begin in Hs.
  destruct l; repeat case_match; simplify_eq; simpl; try done; by rewrite ?Hf.
Qed.

(** What steps other than those of [Run] itself can change. *)
Record later (r r' : run) : Prop := {
  la_main : rn_main r' = rn_main r;
  la_raw : rn_raw r' = rn_raw r;
  la_tty : rn_tty r' = rn_tty r;
  la_poll : pl_close <$> rn_poll r' = pl_close <$> rn_poll r;
  la_fnone : rn_fwd r' = FNone ↔ rn_fwd r = FNone;
  la_fended : rn_fwd r = FEnded → rn_fwd r' = FEnded;
  la_znone : rn_rsz r' = ZNone ↔ rn_rsz r = ZNone;
  la_zended : rn_rsz r = ZEnded → rn_rsz r' = ZEnded;
  la_ctx : rn_ctx r ≠ None → rn_ctx r' ≠ None;
  la_close : cl_close (rn_client r) = true → cl_close (rn_client r') = true;
  la_armed : rn_after r' = AArmed → rn_after r = AArmed;
  la_anone : rn_after r = ANone → rn_after r' = ANone;
}.

(** The same, with the forwarders where they were. *)
Lemma later_same r r' : rn_main r' = rn_main r → rn_raw r' = rn_raw r → rn_tty r' = rn_tty r → pl_close <$> rn_poll r' = pl_close <$> rn_poll r →
  rn_fwd r' = rn_fwd r → rn_rsz r' = rn_rsz r → (rn_ctx r ≠ None → rn_ctx r' ≠ None) →
  (cl_close (rn_client r) = true → cl_close (rn_client r') = true) → (rn_after r' = AArmed → rn_after r = AArmed) → (rn_after r = ANone → rn_after r' = ANone) → later r r'.
Proof. intros E1 E2 E3 E4 E5 E6 E7 E8 E9 E10. split; rewrite ?E5, ?E6; done. Qed.

Lemma later_trans r1 r2 r3 : later r1 r2 → later r2 r3 → later r1 r3.
Proof.
  intros [A1 A2 A3 A4 A5 A6 A7 A8 A9 A10 A11 A12] [B1 B2 B3 B4 B5 B6 B7 B8 B9 B10 B11 B12].
  split; try congruence; try (by rewrite ?B5, ?B7); auto.
Qed.

Lemma later_cancel e r : later r (cancel e r).
Proof.
  unfold cancel. destruct (rn_ctx r) eqn:E; [by apply later_same|]. apply later_same; simpl; try done.
  - destruct (rn_poll r) as [p|]; [|done]. simpl. f_equal. unfold cancel_ctx. destruct (pl_ctx p); [done|]. simpl. by destruct (pl_hook p).
  - by destruct (rn_after r).
  - by destruct (rn_after r).
Qed.

Lemma later_client `{ProtoMessage ClientFrame} `{ProtoMessage ServerFrame} maximum l r r' : on_client maximum l r = Some r' → later r r'.
Proof.
  intros Ho. destruct (on_client_keeps _ _ _ _ Ho) as (E1&E2&E3&E4&E5&E6&E7&E8&E9&E10&Ec). apply later_same; try congruence.
  intros Hc. by eapply step_cl_close.
Qed.

Lemma later_poll l r r' : on_poll l r = Some r' → (inner_label l = true ∨ l = PTake ∨ ∃ n, l = PRead n) → later r r'.
Proof.
  intros Ho Hl. destruct (on_poll_keeps _ _ _ Ho) as (E1&E2&E3&E4&E5&E6&E7&E8&p&p'&Ep&Es&Ep'). apply later_same; try congruence.
  - rewrite Ep, Ep'. simpl. f_equal. destruct Hl as [Hl|[->|[n ->]]].
    + by destruct (inner_step _ _ _ Es Hl) as (_ & _ & ? & _).
    + unfold poll_step in Es. destruct (pl_read p); try done. by injection Es as <-.
    + unfold poll_step in Es. destruct (pl_read p); try done. injection Es as <-. unfold read_begin. by repeat case_match.
  - unfold on_poll in Ho. rewrite Ep, Es in Ho. by injection Ho as <-.
  - unfold on_poll in Ho. rewrite Ep, Es in Ho. by injection Ho as <-.
Qed.

(** A forwarder that is not gone moves. *)
Lemma later_fwd r pc : rn_fwd r ≠ FNone → rn_fwd r ≠ FEnded → pc ≠ FNone → later r (r <| rn_fwd := pc |>).
Proof. intros H1 H2 H3. split; simpl; try done; naive_solver. Qed.

Lemma later_rsz r pc : rn_rsz r ≠ ZNone → rn_rsz r ≠ ZEnded → pc ≠ ZNone → later r (r <| rn_rsz := pc |>).
Proof. intros H1 H2 H3. split; simpl; try done; naive_solver. Qed.

(** Nothing forwards yet. *)
Definition before_input (r : run) : Prop := rn_poll r = None ∧ rn_fwd r = FNone ∧ rn_rsz r = ZNone.

(** The forwarders were started. *)
Definition forwards (r : run) : Prop := is_Some (rn_poll r) ∧ rn_fwd r ≠ FNone ∧ (rn_rsz r = ZNone ↔ rn_raw r = None).

(** The input is closed and the forwarders have returned. *)
Definition input_closed (r : run) : Prop := pl_close <$> rn_poll r = Some CClosed.

Definition wound_up (r : run) : Prop := input_closed r ∧ rn_fwd r = FEnded ∧ (rn_rsz r = ZNone ∨ rn_rsz r = ZEnded).

Definition outcome_ok (result : run_result) (r : run) : Prop :=
  match result with RunFailed _ => before_input r | RunExited _ => wound_up r end.

Definition restored (r : run) : Prop := match rn_raw r with None => True | Some raw => rt_once raw = true end.

(** What a deferred call that was made has achieved. *)
Definition achieved (d : deferred) (r : run) : Prop :=
  match d with
  | DInput => True
  | DRestore => restored r
  | DStopAfter => rn_after r ≠ AArmed
  | DCancel => rn_ctx r ≠ None
  | DCloseClient => cl_close (rn_client r) = true
  end.

Definition main_ok (r : run) : Prop :=
  match rn_main r with
  | MBegin => rn_raw r = None ∧ before_input r ∧ rn_after r = ANone
  | MStart | MStarting | MInput => before_input r
  | MWait | MCancel _ => forwards r
  | MClose _ => forwards r ∧ rn_ctx r ≠ None
  | MWorkers _ => forwards r ∧ rn_ctx r ≠ None ∧ input_closed r
  | MDefer ds result => outcome_ok result r ∧ ∀ d, d ∉ ds → achieved d r
  | MReturned result => outcome_ok result r ∧ (rn_raw r = None ∧ rn_after r = ANone ∧ (∃ e, result = RunFailed e) ∨ ∀ d, achieved d r)
  end.

(** The terminal was left alone, is raw, or was told to go back to its old mode. *)
Definition tty_ok (t : terminal) (r : run) : Prop :=
  match rn_raw r with
  | None => rn_tty r = t
  | Some raw =>
      rt_oldState raw = tm_mode t ∧
      (if rt_once raw
       then tm_calls (rn_tty r) = tm_calls t ++ [CallRaw; CallRestore (tm_mode t)] ∧ (rt_err raw = None → tm_mode (rn_tty r) = tm_mode t)
       else tm_calls (rn_tty r) = tm_calls t ++ [CallRaw])
  end.

Lemma later_outcome r r' result : later r r' → outcome_ok result r → outcome_ok result r'.
Proof.
  intros [A1 A2 A3 A4 A5 A6 A7 A8 A9 A10 A11 A12]. destruct result; simpl.
  - intros (H1 & H2 & H3). split_and!; [|by apply A5|by apply A7]. rewrite H1 in A4. by destruct (rn_poll r').
  - intros (H1 & H2 & H3). split_and!; [by unfold input_closed; rewrite A4|by apply A6|]. destruct H3; [left; by apply A7|right; by apply A8].
Qed.

Lemma later_achieved r r' d : later r r' → achieved d r → achieved d r'.
Proof. intros [A1 A2 A3 A4 A5 A6 A7 A8 A9 A10 A11 A12]. destruct d; simpl; unfold restored; rewrite ?A2; auto. Qed.

Lemma later_main r r' : later r r' → main_ok r → main_ok r'.
Proof.
  intros Hl. pose proof Hl as [A1 A2 A3 A4 A5 A6 A7 A8 A9 A10 A11 A12]. unfold main_ok. rewrite A1.
  assert (Hb : before_input r → before_input r') by (apply (later_outcome r r' (RunFailed (OtherError io_EOF)) Hl)).
  assert (Hf : forwards r → forwards r').
  { intros (H1 & H2 & H3). split_and!.
    - destruct (rn_poll r) as [p|]; [|by destruct H1]. destruct (rn_poll r'); [done|done].
    - by rewrite A5.
    - by rewrite A7, A2. }
  assert (Hi : input_closed r → input_closed r') by (unfold input_closed; by rewrite A4).
  destruct (rn_main r) as [| | | | |w|w|w|ds result|result] eqn:Em; rewrite ?A2; try tauto.
  - intros [H1 H2]. split; [by apply (later_outcome r)|]. intros d Hd. apply (later_achieved r); auto.
  - intros [H1 H2]. split; [by apply (later_outcome r)|]. destruct H2 as [(H2 & H3 & H4)|H2]; [left|right; intros d; by apply (later_achieved r)].
    split_and!; [done|by apply A12|done].
Qed.

Lemma later_tty t r r' : later r r' → tty_ok t r → tty_ok t r'.
Proof. intros Hl. pose proof Hl as [A1 A2 A3 A4 A5 A6 A7 A8 A9 A10 A11 A12]. unfold tty_ok. by rewrite A2, A3. Qed.

Section winding.
Context `{HC : ProtoMessage ClientFrame} `{HS : ProtoMessage ServerFrame} (signalNum : string → Z).
Context (maxSendFrameSize : Z) (request : StartRequest) (options : Options).

(** The steps that are not of [Run] itself. *)
Definition worker_label (l : xlabel) : bool :=
  match l with
  | XBegin _ | XStart _ | XStarted | XInput _ _ _ | XWait | XCancel | XClose | XWorkers | XDefer _ => false
  | _ => true
  end.

Lemma worker_later_call l r r' : call_label l = true → worker_label l = true → run_step signalNum maxSendFrameSize request options l r = Some r' → later r r'.
Proof.
  intros Hg Hl Hs. destruct l as [mr|order|err| | | |table dup pipe| | | | |res|l|e| | |size| | | |err| |l| | |err| |]; try done; cbn [run_step] in Hs.
  - destruct (rn_main r); try done. by eapply later_client.
  - destruct (rn_main r); try done. by eapply later_client.
  - destruct (rn_main r); try done. destruct (rn_ctx r); [|done]. by eapply later_client.
Qed.

Lemma worker_later_side l r r' : side_label l = true → worker_label l = true → run_step signalNum maxSendFrameSize request options l r = Some r' → later r r'.
Proof.
  intros Hg Hl Hs. destruct l as [mr|order|err| | | |table dup pipe| | | | |res|l|e| | |size| | | |err| |l| | |err| |]; try done; cbn [run_step] in Hs.
  - destruct (loop_label l); [|done]. by eapply later_client.
  - injection Hs as <-. apply later_cancel.
  - destruct (rn_after r) eqn:Ea; try done. injection Hs as <-. apply later_same; try done; [|by rewrite Ea]. intros Hc.
    eapply (step_cl_close maxSendFrameSize LCloseClient); [reflexivity|done].
  - case_match; simplify_eq. by apply later_same.
  - case_match; simplify_eq. by apply later_same.
  - repeat case_match; simplify_eq. by apply later_same.
  - destruct (rn_rsz r) eqn:Ez; try done. destruct (rs_resizes _) as [size|]; [|done]. unfold resize_taken in Hs.
    set (r0 := r <| rn_resizer ::= _ |>) in Hs. assert (H0 : later r r0) by (by apply later_same).
    destruct (resize_begin _ _ _).
    + destruct (on_client _ _ _) as [r1|] eqn:Eo; [|done]. injection Hs as <-. destruct (on_client_keeps _ _ _ _ Eo) as (_&_&_&E&_).
      change (rn_rsz r0) with (rn_rsz r) in E. eapply later_trans; [exact H0|]. eapply later_trans; [by eapply later_client|]. apply later_rsz; rewrite ?E, ?Ez; done.
    + injection Hs as <-. eapply later_trans; [exact H0|]. eapply later_trans; [apply (later_cancel context_Canceled)|].
      destruct (cancel_keeps context_Canceled r0) as (_&_&_&_&E&_). change (rn_rsz r0) with (rn_rsz r) in E. apply later_rsz; unfold cancelCommand; rewrite ?E, ?Ez; done.
  - destruct (rn_rsz r) eqn:Ez; try done. case_match; simplify_eq. by apply later_rsz; rewrite ?Ez.
  - destruct (rn_rsz r) eqn:Ez; try done. unfold resize_sent_step in Hs. destruct (on_client _ _ _) as [r1|] eqn:Eo; [|done]. injection Hs as <-.
    destruct (on_client_keeps _ _ _ _ Eo) as (_&_&_&E&_). eapply later_trans; [by eapply later_client|]. destruct err.
    + eapply later_trans; [apply (later_cancel context_Canceled)|]. destruct (cancel_keeps context_Canceled r1) as (_&_&_&_&E1&_).
      apply later_rsz; unfold cancelCommand; rewrite ?E1, ?E, ?Ez; done.
    + apply later_rsz; rewrite ?E, ?Ez; done.
Qed.

Lemma worker_later_input l r r' : input_label l = true → worker_label l = true → run_step signalNum maxSendFrameSize request options l r = Some r' → later r r'.
Proof.
  intros Hg Hl Hs. destruct l as [mr|order|err| | | |table dup pipe| | | | |res|l|e| | |size| | | |err| |l| | |err| |]; try done; cbn [run_step] in Hs.
  - destruct (rn_fwd r) eqn:Ef; try done. destruct (on_poll _ _) as [r1|] eqn:Eo; [|done]. injection Hs as <-.
    destruct (on_poll_keeps _ _ _ Eo) as (_&_&_&E&_). eapply later_trans; [eapply later_poll; [exact Eo|eauto]|]. apply later_fwd; rewrite ?E, ?Ef; done.
  - destruct (inner_label l) eqn:El; [|done]. eapply later_poll; [exact Hs|by left].
  - destruct (rn_fwd r) eqn:Ef; try done. destruct (rn_poll r) as [p|]; [|done]. destruct (pl_read p); try done.
    destruct (on_poll _ _) as [r1|] eqn:Eo; [|done]. injection Hs as <-. destruct (on_poll_keeps _ _ _ Eo) as (_&_&_&E&_).
    eapply later_trans; [eapply later_poll; [exact Eo|eauto]|]. apply later_fwd; rewrite ?E, ?Ef; done.
  - destruct (rn_fwd r) eqn:Ef; try done. unfold forward_data in Hs.
    case_bool_decide; [simplify_eq; by apply later_fwd; rewrite ?Ef|].
    destruct (writeStdin_begin _ _ _) as [frames|]; [|simplify_eq; by apply later_fwd; rewrite ?Ef].
    destruct (on_client _ _ _) as [r1|] eqn:Eo; [|done]. injection Hs as <-. destruct (on_client_keeps _ _ _ _ Eo) as (_&_&E&_).
    eapply later_trans; [by eapply later_client|]. eapply (later_trans _ (r1 <| rn_forwarded ::= (.++ data) |>)); [by apply later_same|].
    apply later_fwd; simpl; rewrite ?E, ?Ef; try done. by destruct frames.
  - assert (Hf : rn_fwd r ≠ FNone ∧ rn_fwd r ≠ FEnded) by (by destruct (rn_fwd r)).
    assert (Hs' : input_sent_step maxSendFrameSize err r = Some r') by (by destruct (rn_fwd r)). clear Hs. unfold input_sent_step in Hs'.
    destruct (on_client _ _ _) as [r1|] eqn:Eo; [|done]. destruct (on_client_keeps _ _ _ _ Eo) as (_&_&E&_).
    eapply later_trans; [by eapply later_client|]. rewrite <- E in Hf. destruct Hf as [H1 H2].
    destruct (rn_fwd r1) eqn:Ef; try done; destruct err; simplify_eq; apply later_fwd; rewrite ?Ef; try done. by destruct (input_idle _).
  - destruct (rn_fwd r) eqn:Ef; try done. unfold handle_error in Hs. destruct err as [e|]; [|simplify_eq; by apply later_fwd; rewrite ?Ef].
    destruct (_ || _); [|repeat case_match; simplify_eq; by apply later_fwd; rewrite ?Ef].
    destruct (closeStdin_begin _ _) as [c0 [frame|e']], (on_client _ _ _) as [r1|] eqn:Eo; try done; simplify_eq;
      destruct (on_client_keeps _ _ _ _ Eo) as (_&_&E&_); (eapply later_trans; [by eapply later_client|]); apply later_fwd; by rewrite ?E, ?Ef.
  - destruct (rn_fwd r) eqn:Ef; try done. injection Hs as <-. unfold forward_ends. destruct err; [|by apply later_fwd; rewrite ?Ef].
    eapply later_trans; [apply (later_cancel context_Canceled)|]. destruct (cancel_keeps context_Canceled r) as (_&_&_&E&_).
    apply later_fwd; unfold cancelCommand; by rewrite ?E, ?Ef.
Qed.

Lemma worker_later l r r' : worker_label l = true → run_step signalNum maxSendFrameSize request options l r = Some r' → later r r'.
Proof.
  intros Hl Hs. destruct (label_groups l) as [Hg|[Hg|Hg]]; [by eapply worker_later_call|by eapply worker_later_side|by eapply worker_later_input].
Qed.
End winding.

(** The poll reader of a run, and the data on their way. *)
Definition on_the_way (r : run) (p : PollReader) (rest : bytes) : Prop :=
  match rn_fwd r with
  | FReading => rest = done_data p
  | FGot data _ => rest = data
  | FReturn _ | FEnded => True
  | _ => rest = []
  end.

Definition poll_fits (r : run) : Prop :=
  match rn_poll r with
  | None => rn_forwarded r = []
  | Some p =>
      (∃ f, poll_ok f p) ∧ numbers_ok p ∧ pl_ctx p = rn_ctx r ∧ (rn_fwd r ≠ FReading → pl_read p = RIdle) ∧
      ∃ rest, pl_taken p = rn_forwarded r ++ rest ∧ on_the_way r p rest
  end.

Section winding2.
Context `{HC : ProtoMessage ClientFrame} `{HS : ProtoMessage ServerFrame} (signalNum : string → Z).
Context (maxSendFrameSize : Z) (request : StartRequest) (options : Options).

(** The kernel gives new numbers. *)
Definition kernel_ok (l : xlabel) : Prop :=
  match l with XInput table (Ok d) (Ok (r, w)) => fresh_fds table d r w | _ => True end.

Lemma defers_achieved r d : d ∉ defers r → d ≠ DInput → d = DRestore ∧ rn_raw r = None.
Proof.
  unfold defers. intros Hd Hi. destruct d; try done.
  - split; [done|]. destruct (rn_raw r) as [raw|]; [|done]. exfalso. apply Hd. apply elem_of_app. left. left.
  - exfalso. apply Hd. apply elem_of_app. right. set_solver.
  - exfalso. apply Hd. apply elem_of_app. right. set_solver.
  - exfalso. apply Hd. apply elem_of_app. right. set_solver.
Qed.

Lemma failed_ok e r : before_input r → main_ok (run_failed e r).
Proof.
  intros Hb. split; [exact Hb|]. intros d Hd. destruct (decide (d = DInput)) as [->|Hi]; [done|].
  destruct (defers_achieved r d Hd Hi) as [-> E]. simpl. unfold restored. simpl. by rewrite E.
Qed.

(** A deferred call achieves its purpose and undoes none of the others. *)
Lemma deferred_achieves d res r : achieved d (run_deferred d res r) ∧ (∀ d', achieved d' r → achieved d' (run_deferred d res r)) ∧
  (∀ result, outcome_ok result r → outcome_ok result (run_deferred d res r)).
Proof.
  destruct d; simpl.
  - done.
  - unfold restored. destruct (rn_raw r) as [raw|] eqn:E; [|by rewrite ?E].
    destruct (Restore res raw (rn_tty r)) as [[raw' t'] e] eqn:Er. simpl. assert (rt_once raw' = true).
    { unfold Restore in Er. destruct (rt_once raw) eqn:Eo; by simplify_eq. }
    split_and!; [done| |by intros []]. intros []; simpl; unfold restored; simpl; done.
  - destruct (rn_after r) eqn:E; split_and!; simpl; rewrite ?E; try done; try (by intros []; simpl; rewrite ?E); by intros [].
  - split_and!; [apply cancel_keeps| |].
    + intros d'. apply later_achieved, (later_cancel context_Canceled).
    + intros result. apply later_outcome, (later_cancel context_Canceled).
  - assert (Hc : cl_close (closeClient (rn_client r)) = true).
    { unfold closeClient, finish. destruct (cl_close (rn_client r)) eqn:E; [exact E|done]. }
    split_and!; [done|by intros []|by intros []].
Qed.

Lemma main_step_ok l r r' : worker_label l = false → main_ok r → run_step signalNum maxSendFrameSize request options l r = Some r' → main_ok r'.
Proof.
  intros Hl Hm Hs. unfold main_ok in Hm.
  destruct l as [mr|order|err| | | |table dup pipe| | | | |res|l|e| | |size| | | |err| |l| | |err| |]; try done; cbn [run_step] in Hs;
    destruct (rn_main r) as [| | | | |w|w|w|ds result|result] eqn:Em; try done.
  - destruct Hm as (H1 & H2 & H3). injection Hs as <-. unfold run_begin.
    destruct (op_Stdin options), (op_Stdout options), (op_Stderr options), (maxSendFrameSize <=? 0); simpl;
      try (split; [done|left; split_and!; [done|done|eauto]]).
    destruct (_ && _); [|done]. destruct mr; simpl; [|done]. split; [done|]. intros d Hd. destruct d; simpl; try set_solver. unfold restored. simpl. by rewrite H1.
  - injection Hs as <-. unfold run_start. repeat case_match; done || by apply failed_ok.
  - unfold run_started in Hs. repeat case_match; simplify_eq; done || by apply failed_ok.
  - injection Hs as <-. unfold run_input. destruct (NewPollReader table dup pipe (rn_ctx r)) as [t' [p|e]]; [|by apply failed_ok].
    split_and!; simpl; [eauto|done|]. destruct (rn_raw r); simpl; done.
  - case_match; simplify_eq. done.
  - injection Hs as <-. split; [|apply (cancel_keeps context_Canceled)]. destruct (later_cancel context_Canceled r) as [A1 A2 A3 A4 A5 A6 A7 A8 A9 A10 A11 A12].
    destruct Hm as (H1 & H2 & H3). unfold forwards, cancelCommand. simpl. split_and!.
    + destruct (rn_poll r) as [p|]; [|by destruct H1]. by destruct (rn_poll (cancel context_Canceled r)).
    + by rewrite A5.
    + by rewrite A7, A2.
  - destruct (rn_poll r) as [p|] eqn:Ep; [|done]. destruct Hm as (Hf & Hc). case_bool_decide as Ec.
    + injection Hs as <-. split_and!; [exact Hf|exact Hc|]. unfold input_closed. simpl. by rewrite Ep, <- Ec.
    + destruct (on_poll_keeps _ _ _ Hs) as (E1&E2&E3&E4&E5&E6&E7&E8&p1&p2&Ep1&Es&Ep2). unfold main_ok. rewrite E3, Em.
      destruct Hf as (F1 & F2 & F3). split; [|by rewrite E8]. split_and!; [by rewrite Ep2|by rewrite E4|by rewrite E5, E6].
  - destruct (workers_done r) eqn:Ew; [|done]. injection Hs as <-. destruct Hm as ((F1 & F2 & F3) & Hc & Hi). split.
    + split_and!; [exact Hi| |]; unfold workers_done in Ew; simpl; destruct (rn_fwd r), (rn_rsz r); try done; auto.
    + intros d Hd. destruct (decide (d = DInput)) as [->|Hne]; [done|]. destruct (defers_achieved r d) as [-> E]; [set_solver|done|].
      simpl. unfold restored. simpl. by rewrite E.
  - destruct ds as [|d ds]; injection Hs as <-; destruct Hm as [Ho Ha].
    + split; [done|]. right. intros d. apply (Ha d). set_solver.
    + destruct (deferred_achieves d res r) as (D1 & D2 & D3). split; [by apply (D3 result)|]. intros d' Hd'.
      change (achieved d' (run_deferred d res r)). destruct (decide (d' = d)) as [->|Hne]; [done|]. apply D2, Ha. set_solver.
Qed.

Lemma step_main_ok l r r' : main_ok r → run_step signalNum maxSendFrameSize request options l r = Some r' → main_ok r'.
Proof.
  intros Hm Hs. destruct (worker_label l) eqn:El; [|by eapply main_step_ok]. eapply later_main; [|exact Hm]. by eapply worker_later.
Qed.
End winding2.

Lemma fits_same r r' : rn_poll r' = rn_poll r → rn_ctx r' = rn_ctx r → rn_fwd r' = rn_fwd r → rn_forwarded r' = rn_forwarded r →
  poll_fits r → poll_fits r'.
Proof. intros E1 E2 E3 E4. unfold poll_fits, on_the_way. by rewrite E1, E2, E3, E4. Qed.

Lemma fits_cancel e r : poll_fits r → poll_fits (cancel e r).
Proof.
  unfold cancel. destruct (rn_ctx r) eqn:Ec; [done|]. unfold poll_fits, on_the_way. simpl. destruct (rn_poll r) as [p|]; [|done].
  simpl. intros ([f Hok] & Hn & Ectx & Hidle & rest & Ht & Hw).
  assert (Es : poll_step (PCancel e) p = Some (cancel_ctx e p)) by done.
  assert (pl_read (cancel_ctx e p) = pl_read p ∧ pl_taken (cancel_ctx e p) = pl_taken p ∧ pl_ctx (cancel_ctx e p) = Some e) as (E1 & E2 & E3).
  { unfold cancel_ctx. rewrite Ectx, Ec. by destruct (pl_hook _). }
  split_and!; [exists f; by apply (poll_step_ok _ _ _ _ Hok Es)|by eapply step_numbers|done|by rewrite E1|].
  exists rest. rewrite E2. split; [done|]. unfold done_data. by rewrite E1.
Qed.

(** A forwarder that is not reading goes on, and owes the rest. *)
Lemma fits_fwd r pc : poll_fits r → rn_fwd r ≠ FReading → pc ≠ FReading →
  (∀ p rest, on_the_way r p rest → on_the_way (r <| rn_fwd := pc |>) p rest) → poll_fits (r <| rn_fwd := pc |>).
Proof.
  unfold poll_fits. simpl. destruct (rn_poll r) as [p|]; [|done]. intros (Hok & Hn & Hc & Hi & rest & Ht & Hw) Hf Hpc Hway.
  split_and!; [done..|by intros _; apply Hi|]. exists rest. split; [done|]. by apply Hway.
Qed.

Lemma fits_poll l r r' : poll_fits r → on_poll l r = Some r' → inner_label l = true ∨ l = PClose → poll_fits r'.
Proof.
  intros Hf Ho Hl. destruct (on_poll_keeps _ _ _ Ho) as (E1&E2&E3&E4&E5&E6&E7&E8&p&p'&Ep&Es&Ep').
  unfold poll_fits, on_the_way in *. rewrite Ep in Hf. rewrite Ep', E2, E4, E8. destruct Hf as ([f Hok] & Hn & Hc & Hi & rest & Ht & Hw).
  assert ((∃ extra, pl_taken p' = pl_taken p ++ extra ∧ done_data p' = done_data p ++ extra) ∧ pl_ctx p' = pl_ctx p ∧
    (pl_read p = RIdle → pl_read p' = RIdle)) as ((extra & X1 & X2) & X3 & X4).
  { destruct Hl as [Hl| ->].
    - destruct (inner_step _ _ _ Es Hl) as (? & ? & _ & ?). done.
    - assert (pl_taken p' = pl_taken p ∧ pl_read p' = pl_read p ∧ pl_ctx p' = pl_ctx p) as (F1 & F2 & F3)
        by (unfold poll_step, close_step, wake in Es; repeat case_match; simplify_eq; done).
      split_and!; [|done|by rewrite F2]. exists []. rewrite !app_nil_r. split; [done|]. unfold done_data. by rewrite F2. }
  split_and!; [exists (foreign_step l f); by eapply poll_step_ok|by eapply step_numbers|congruence|intros Hne; by apply X4, Hi|].
  exists (rest ++ extra). rewrite X1, Ht, app_assoc. split; [done|]. rewrite X2.
  assert (rn_fwd r ≠ FReading → extra = []) as Hx.
  { intros Hne. specialize (Hi Hne). unfold done_data in X2. rewrite Hi, (X4 Hi) in X2. by destruct extra. }
  destruct (rn_fwd r); try done; try (rewrite Hx by done; by rewrite app_nil_r). by subst rest.
Qed.

(** A forwarder that was started has its reader. *)
Lemma forwarding_poll r : main_ok r → rn_fwd r ≠ FNone → is_Some (rn_poll r).
Proof.
  intros Hm Hf. unfold main_ok in Hm.
  assert (Hb : before_input r → is_Some (rn_poll r)) by (intros (_ & ? & _); done).
  assert (Ho : ∀ result, outcome_ok result r → is_Some (rn_poll r)).
  { intros [e|x]; [exact Hb|]. intros (Hi & _). unfold input_closed in Hi. by destruct (rn_poll r). }
  unfold forwards in Hm. destruct (rn_main r); destruct_and?; eauto.
Qed.

Section winding3.
Context `{HC : ProtoMessage ClientFrame} `{HS : ProtoMessage ServerFrame} (signalNum : string → Z).
Context (maxSendFrameSize : Z) (request : StartRequest) (options : Options).

Lemma fits_client l r r' : poll_fits r → on_client maxSendFrameSize l r = Some r' → poll_fits r'.
Proof. intros Hf Ho. destruct (on_client_keeps _ _ _ _ Ho) as (E1&E2&E3&E4&E5&E6&E7&E8&_). by eapply fits_same. Qed.

Lemma tty_same t r r' : rn_raw r' = rn_raw r → rn_tty r' = rn_tty r → tty_ok t r → tty_ok t r'.
Proof. unfold tty_ok. by intros -> ->. Qed.

Lemma step_tty_ok t l r r' : main_ok r → tty_ok t r → run_step signalNum maxSendFrameSize request options l r = Some r' → tty_ok t r'.
Proof.
  intros Hm Ht Hs. destruct (worker_label l) eqn:El; [eapply later_tty; [by eapply worker_later|done]|].
  destruct l as [mr|order|err| | | |table dup pipe| | | | |res|l|e| | |size| | | |err| |l| | |err| |]; try done; cbn [run_step] in Hs;
    unfold main_ok in Hm; destruct (rn_main r) as [| | | | |w|w|w|ds result|result] eqn:Em; try done.
  - destruct Hm as (H1 & _). unfold tty_ok in Ht. rewrite H1 in Ht. injection Hs as <-. unfold run_begin.
    repeat case_match; simplify_eq; unfold tty_ok; simpl; rewrite ?H1; try done; unfold HookRaw in *; repeat case_match; simplify_eq; done.
  - injection Hs as <-. unfold run_start, run_failed. repeat case_match; by apply (tty_same t r).
  - unfold run_started, run_failed in Hs. repeat case_match; simplify_eq; by apply (tty_same t r).
  - injection Hs as <-. unfold run_input, run_failed. repeat case_match; by apply (tty_same t r).
  - repeat case_match; simplify_eq; by apply (tty_same t r).
  - injection Hs as <-. destruct (cancel_keeps context_Canceled r) as (_&_&_&_&_&E1&E2&_). by apply (tty_same t r).
  - destruct (rn_poll r); [|done]. case_bool_decide; [simplify_eq; by apply (tty_same t r)|].
    destruct (on_poll_keeps _ _ _ Hs) as (_&_&_&_&_&E1&E2&_). by apply (tty_same t r).
  - case_match; simplify_eq. by apply (tty_same t r).
  - destruct ds as [|d ds]; injection Hs as <-; [by apply (tty_same t r)|]. destruct d; simpl; try by apply (tty_same t r).
    + destruct (rn_raw r) as [raw|] eqn:Er; [|by apply (tty_same t r)]. destruct (Restore res raw (rn_tty r)) as [[raw' t'] e] eqn:E.
      unfold tty_ok in *. rewrite Er in Ht. simpl. unfold Restore in E. destruct (rt_once raw) eqn:Eo; simplify_eq; simpl; [by rewrite Eo|].
      destruct Ht as [E1 E2]. split; [done|]. rewrite E1, E2, <- app_assoc. split; [done|]. by destruct res.
    + destruct (cancel_keeps context_Canceled r) as (_&_&_&_&_&E1&E2&_). by apply (tty_same t r).
Qed.

Lemma step_poll_fits_call l r r' : call_label l = true → kernel_ok l → main_ok r → poll_fits r → run_step signalNum maxSendFrameSize request options l r = Some r' → poll_fits r'.
Proof.
  intros Hg Hk Hm Hf Hs. destruct l as [mr|order|err| | | |table dup pipe| | | | |res|l|e| | |size| | | |err| |l| | |err| |]; try done; cbn [run_step] in Hs.
  - destruct (rn_main r); try done. injection Hs as <-. unfold run_begin. repeat case_match; by apply (fits_same r).
  - destruct (rn_main r); try done. injection Hs as <-. unfold run_start, run_failed. repeat case_match; by apply (fits_same r).
  - destruct (rn_main r); try done. by eapply fits_client.
  - destruct (rn_main r); try done. by eapply fits_client.
  - destruct (rn_main r); try done. destruct (rn_ctx r); [|done]. by eapply fits_client.
  - destruct (rn_main r); try done. unfold run_started, run_failed in Hs. repeat case_match; simplify_eq; by apply (fits_same r).
  - unfold main_ok in Hm. destruct (rn_main r); try done. destruct Hm as (Hp & _). injection Hs as <-. unfold run_input, run_failed.
    destruct (NewPollReader table dup pipe (rn_ctx r)) as [t' [p|e]] eqn:En; [|by apply (fits_same r)].
    unfold poll_fits in *. rewrite Hp in Hf. destruct dup as [d|]; [|done]. destruct pipe as [[cr cw]|]; [|done]. simpl in Hk. simpl.
    pose proof (new_poll_ok _ _ _ _ _ _ _ Hk En) as Hok. injection En as _ <-.
    split_and!; [eauto|done|done|done|]. exists []. rewrite Hf. done.
  - destruct (rn_main r); try done. case_match; simplify_eq. by apply (fits_same r).
  - destruct (rn_main r); try done. injection Hs as <-. apply (fits_same (cancel context_Canceled r)); try done. by apply fits_cancel.
  - destruct (rn_main r); try done. destruct (rn_poll r); [|done]. case_bool_decide; [simplify_eq; by apply (fits_same r)|]. eapply fits_poll; [done..|by right].
  - destruct (rn_main r); try done. case_match; simplify_eq. by apply (fits_same r).
  - destruct (rn_main r) as [| | | | | | | |[|d ds]|]; try done; injection Hs as <-; [by apply (fits_same r)|]. destruct d; simpl; try by apply (fits_same r).
    + destruct (rn_raw r) as [raw|]; [|by apply (fits_same r)]. destruct (Restore res raw (rn_tty r)) as [[? ?] ?]. by apply (fits_same r).
    + apply (fits_same (cancel context_Canceled r)); try done. by apply fits_cancel.
Qed.

Lemma step_poll_fits_side l r r' : side_label l = true → kernel_ok l → main_ok r → poll_fits r → run_step signalNum maxSendFrameSize request options l r = Some r' → poll_fits r'.
Proof.
  intros Hg Hk Hm Hf Hs. destruct l as [mr|order|err| | | |table dup pipe| | | | |res|l|e| | |size| | | |err| |l| | |err| |]; try done; cbn [run_step] in Hs.
  - destruct (loop_label l); [|done]. by eapply fits_client.
  - injection Hs as <-. by apply fits_cancel.
  - destruct (rn_after r); try done. injection Hs as <-. by apply (fits_same r).
  - case_match; simplify_eq. by apply (fits_same r).
  - case_match; simplify_eq. by apply (fits_same r).
  - repeat case_match; simplify_eq. by apply (fits_same r).
  - destruct (rn_rsz r); try done. destruct (rs_resizes _) as [size|]; [|done]. unfold resize_taken in Hs.
    set (r0 := r <| rn_resizer ::= _ |>) in Hs. assert (H0 : poll_fits r0) by (by apply (fits_same r)). destruct (resize_begin _ _ _).
    + destruct (on_client _ _ _) as [r1|] eqn:Eo; [|done]. injection Hs as <-. apply (fits_same r1); try done. by eapply fits_client.
    + injection Hs as <-. apply (fits_same (cancel context_Canceled r0)); try done. by apply fits_cancel.
  - destruct (rn_rsz r); try done. case_match; simplify_eq. by apply (fits_same r).
  - destruct (rn_rsz r); try done. unfold resize_sent_step in Hs. destruct (on_client _ _ _) as [r1|] eqn:Eo; [|done]. injection Hs as <-.
    assert (H1 : poll_fits r1) by (by eapply fits_client). destruct err; [|by apply (fits_same r1)].
    apply (fits_same (cancel context_Canceled r1)); try done. by apply fits_cancel.
Qed.

Lemma step_poll_fits_input l r r' : input_label l = true → kernel_ok l → main_ok r → poll_fits r → run_step signalNum maxSendFrameSize request options l r = Some r' → poll_fits r'.
Proof.
  intros Hg Hk Hm Hf Hs. destruct l as [mr|order|err| | | |table dup pipe| | | | |res|l|e| | |size| | | |err| |l| | |err| |]; try done; cbn [run_step] in Hs.
  - destruct (rn_fwd r) eqn:Ef; try done. destruct (on_poll _ _) as [r1|] eqn:Eo; [|done]. injection Hs as <-.
    destruct (on_poll_keeps _ _ _ Eo) as (E1&E2&E3&E4&E5&E6&E7&E8&p&p'&Ep&Es&Ep').
    unfold poll_fits, on_the_way in *. simpl. rewrite Ep in Hf. rewrite Ep', E2, E8. rewrite Ef in Hf.
    destruct Hf as ([f Hok] & Hn & Hc & Hi & rest & Ht & Hw). specialize (Hi ltac:(done)). pose proof (poll_step_ok _ _ _ _ Hok Es) as Hok'. pose proof (step_numbers _ _ _ _ Hok Hn Es) as Hn'.
    unfold poll_step in Es. rewrite Hi in Es. injection Es as <-. unfold read_begin in *. change (32768 =? 0) with false in *. cbv iota in *.
    split_and!; [by exists f|done|destruct (pl_ctx p) eqn:Ecx; simpl; congruence|done|].
    exists []. subst rest. unfold done_data. destruct (pl_ctx p); done.
  - destruct (inner_label l) eqn:El; [|done]. eapply fits_poll; [done..|by left].
  - destruct (rn_fwd r) eqn:Ef; try done. destruct (rn_poll r) as [p0|] eqn:Ep0; [|done]. destruct (pl_read p0) as [| | | | | | |data err] eqn:Er; try done.
    destruct (on_poll _ _) as [r1|] eqn:Eo; [|done]. injection Hs as <-. destruct (on_poll_keeps _ _ _ Eo) as (E1&E2&E3&E4&E5&E6&E7&E8&p&p'&Ep&Es&Ep').
    rewrite Ep0 in Ep. injection Ep as ->. unfold poll_fits, on_the_way in *. simpl. rewrite Ep0, Ef in Hf. rewrite Ep', E2, E8.
    destruct Hf as ([f Hok] & Hn & Hc & Hi & rest & Ht & Hw). 
    pose proof (poll_step_ok _ _ _ _ Hok Es) as Hok'. pose proof (step_numbers _ _ _ _ Hok Hn Es) as Hn'.
    unfold poll_step in Es. rewrite Er in Es. injection Es as <-. split_and!; [by exists f|done|done|done|]. exists rest. split; [done|].
    unfold done_data in Hw. by rewrite Er in Hw.
  - destruct (rn_fwd r) as [| | |data err| | | | |] eqn:Ef; try done. unfold forward_data in Hs. case_bool_decide as Ed.
    { injection Hs as <-. apply fits_fwd; rewrite ?Ef; try done. unfold on_the_way. simpl. rewrite Ef. intros p rest ->. done. }
    destruct (writeStdin_begin _ _ _) as [frames|e].
    + destruct (on_client _ _ _) as [r1|] eqn:Eo; [|done]. injection Hs as <-. destruct (on_client_keeps _ _ _ _ Eo) as (E1&E2&E3&E4&E5&E6&E7&E8&_).
      unfold poll_fits, on_the_way in *. simpl. rewrite Ef in Hf. rewrite E8, E1, E7. destruct (rn_poll r) as [p|] eqn:Ep.
      * destruct Hf as (Hok & Hn & Hc & Hi & rest & Ht & ->). split_and!; [done..|by intros _; apply Hi|]. exists []. rewrite app_nil_r.
        split; [done|]. by destruct frames.
      * exfalso. destruct (forwarding_poll r Hm) as [p Hp]; [by rewrite Ef|congruence].
    + injection Hs as <-. apply fits_fwd; rewrite ?Ef; try done.
  - assert (Hs' : input_sent_step maxSendFrameSize err r = Some r') by (by destruct (rn_fwd r)). clear Hs. unfold input_sent_step in Hs'.
    destruct (on_client _ _ _) as [r1|] eqn:Eo; [|done]. assert (H1 : poll_fits r1) by (by eapply fits_client).
    destruct (rn_fwd r1) eqn:Ef; try done; destruct err; simplify_eq; apply fits_fwd; rewrite ?Ef; try done;
      try (by destruct (input_idle _)); unfold on_the_way; simpl; rewrite Ef; try done. by destruct (input_idle _).
  - destruct (rn_fwd r) eqn:Ef; try done. unfold handle_error in Hs.
    assert (Hgo : ∀ r0 pc, poll_fits r0 → rn_fwd r0 = FHandle err → (pc = FRead ∨ pc = FClosing ∨ ∃ e, pc = FReturn e) → poll_fits (r0 <| rn_fwd := pc |>)).
    { intros r0 pc H0 E0 Hpc. apply fits_fwd; rewrite ?E0; try done; [by destruct Hpc as [->|[->|[? ->]]]|]. unfold on_the_way. simpl. rewrite E0.
      by destruct Hpc as [->|[->|[? ->]]]. }
    destruct err as [e|]; [|simplify_eq; by apply Hgo; auto]. destruct (_ || _).
    + destruct (closeStdin_begin _ _) as [c0 [frame|e']], (on_client _ _ _) as [r1|] eqn:Eo; try done; simplify_eq;
        destruct (on_client_keeps _ _ _ _ Eo) as (_&_&E&_); apply Hgo; [by eapply fits_client|congruence|eauto|by eapply fits_client|congruence|eauto].
    + repeat case_match; simplify_eq; apply Hgo; eauto.
  - destruct (rn_fwd r) eqn:Ef; try done. injection Hs as <-. unfold forward_ends.
    assert (Hgo : ∀ r0, poll_fits r0 → rn_fwd r0 = FReturn err → poll_fits (r0 <| rn_fwd := FEnded |>)).
    { intros r0 H0 E0. apply fits_fwd; rewrite ?E0; done. }
    destruct err; [|by apply Hgo]. apply (Hgo (cancel context_Canceled r)); [by apply fits_cancel|]. by rewrite (proj1 (proj2 (proj2 (proj2 (cancel_keeps context_Canceled r))))).
Qed.

Lemma step_poll_fits l r r' : kernel_ok l → main_ok r → poll_fits r → run_step signalNum maxSendFrameSize request options l r = Some r' → poll_fits r'.
Proof.
  intros Hk Hm Hf Hs. destruct (label_groups l) as [Hg|[Hg|Hg]]; [by eapply step_poll_fits_call|by eapply step_poll_fits_side|by eapply step_poll_fits_input].
Qed.
End winding3.

(** ** What the forwarders leave in the client *)

(** The calls the forwarders have made on the client. *)
Definition client_fits (r : run) : Prop :=
  (rn_fwd r ≠ FNone ∨ rn_main r = MInput → cl_start (rn_client r) = StartReturned None) ∧
  match rn_fwd r with
  | FSending _ => ∃ f fs, cl_inputs (rn_client r) = InputSending (f :: fs)
  | FClosing => ∃ f, cl_inputs (rn_client r) = InputClosing f
  | _ => cl_inputs (rn_client r) = InputIdle
  end ∧
  (if bool_decide (rn_rsz r = ZSending) then is_Some (cl_resizes (rn_client r)) else cl_resizes (rn_client r) = None) ∧
  (∀ e, rn_ctx r = Some e → ∃ b, e = ctx_error b) ∧
  (rn_fwd r = FReading → ∃ p, rn_poll r = Some p ∧ pl_read p ≠ RIdle).

Lemma finish_threads err c : cl_start (finish err c) = cl_start c ∧ cl_inputs (finish err c) = cl_inputs c ∧ cl_resizes (finish err c) = cl_resizes c.
Proof. unfold finish. by destruct (cl_close c). Qed.

(** The receive loop and [closeClient] leave the other threads where they are. *)
Lemma loop_threads `{ProtoMessage ClientFrame} `{ProtoMessage ServerFrame} maximum l c c' : client_step maximum l c = Some c' →
  loop_label l = true ∨ l = LCloseClient → cl_start c' = cl_start c ∧ cl_inputs c' = cl_inputs c ∧ cl_resizes c' = cl_resizes c.
Proof.
  intros Hs Hl. destruct Hl as [Hl| ->]; [|injection Hs as <-; apply finish_threads].
  destruct l; try done; step_cbn_in Hs; unfold receive_frame, handleServerEvent, loop_fails in Hs;
    repeat case_match; simplify_eq; try done; try (by apply finish_threads);
    match goal with |- context [finish ?e ?c0] => destruct (finish_threads e c0) as (-> & -> & ->) end; done.
Qed.

Lemma cfits_same r r' : rn_main r' = rn_main r ∨ rn_main r' ≠ MInput → rn_fwd r' = rn_fwd r → rn_rsz r' = rn_rsz r → rn_poll r' = rn_poll r →
  cl_start (rn_client r') = cl_start (rn_client r) → cl_inputs (rn_client r') = cl_inputs (rn_client r) →
  cl_resizes (rn_client r') = cl_resizes (rn_client r) → (rn_ctx r' = rn_ctx r) → client_fits r → client_fits r'.
Proof.
  intros E1 E2 E3 E4 E5 E6 E7 E8 (H1 & H2 & H3 & H4 & H5). unfold client_fits. rewrite E2, E3, E4, E5, E6, E7, E8. split_and!; try done.
  intros [Hf|Hm]; apply H1; [by left|]. destruct E1 as [E1|E1]; [right; congruence|done].
Qed.

Lemma cfits_cancel b r : client_fits r → client_fits (cancel (ctx_error b) r).
Proof.
  intros (H1 & H2 & H3 & H4 & H5). unfold cancel. destruct (rn_ctx r) eqn:E; [rewrite <- E in H4; done|]. unfold client_fits. simpl. split_and!; try done.
  - intros e [= <-]. eauto.
  - intros Hr. destruct (H5 Hr) as (p & Ep & Hp). exists (cancel_ctx (ctx_error b) p). rewrite Ep. split; [done|].
    unfold cancel_ctx. destruct (pl_ctx p); [done|]. simpl. by destruct (pl_hook p).
Qed.

Lemma cfits_cancelCommand r : client_fits r → client_fits (cancelCommand r).
Proof. apply (cfits_cancel false). Qed.

Section fits.
Context `{HC : ProtoMessage ClientFrame} `{HS : ProtoMessage ServerFrame} (signalNum : string → Z).
Context (maxSendFrameSize : Z) (request : StartRequest) (options : Options).

(** Before the input is opened the threads of the client are idle. *)
Lemma start_threads l c c' : client_step maxSendFrameSize l c = Some c' →
  (match l with LStartSent _ | LStartTake | LStartCancel _ => True | _ => False end) →
  cl_inputs c' = cl_inputs c ∧ cl_resizes c' = cl_resizes c ∧ cl_start c ≠ StartReturned None.
Proof.
  intros Hs Hl. destruct l; try done; step_cbn_in Hs; repeat case_match; simplify_eq; split_and!; try done;
    match goal with |- context [finish ?e ?c0] => destruct (finish_threads e c0) as (? & ? & ?) end; simpl in *; congruence.
Qed.

Lemma inner_not_idle l p p' : poll_step l p = Some p' → inner_label l = true ∨ l = PClose → pl_read p ≠ RIdle → pl_read p' ≠ RIdle.
Proof.
  intros Hs Hl Hr. destruct l; try (by destruct Hl); unfold poll_step, poll_returned, file_read, close_step in Hs; destruct (pl_read p) eqn:Er; try done;
    unfold read_lock, after_func, read_returns, wake in Hs; repeat case_match; simplify_eq; simpl; by rewrite ?Er.
Qed.

Lemma cfits_poll l r r' : client_fits r → on_poll l r = Some r' → inner_label l = true ∨ l = PClose → client_fits r'.
Proof.
  intros (H1 & H2 & H3 & H4 & H5) Ho Hl. destruct (on_poll_keeps _ _ _ Ho) as (E1&E2&E3&E4&E5&E6&E7&E8&p&p'&Ep&Es&Ep').
  unfold client_fits. rewrite E1, E3, E4, E5, E8. split_and!; try done. intros Hr. exists p'. split; [done|].
  destruct (H5 Hr) as (p0 & Ep0 & Hp0). rewrite Ep in Ep0. injection Ep0 as <-. by eapply inner_not_idle.
Qed.

Lemma cfits_loop l r r' : client_fits r → on_client maxSendFrameSize l r = Some r' → loop_label l = true → client_fits r'.
Proof.
  intros Hf Ho Hl. destruct (on_client_keeps _ _ _ _ Ho) as (E1&E2&E3&E4&E5&E6&E7&E8&_&_&Es).
  destruct (loop_threads _ _ _ _ Es (or_introl Hl)) as (F1 & F2 & F3). apply (cfits_same r); auto.
Qed.

(** The forwarder of input moves without a call on the client. *)
Lemma cfits_fwd r pc : client_fits r → cl_inputs (rn_client r) = InputIdle → (rn_fwd r ≠ FNone) →
  (match pc with FSending _ | FClosing | FReading => False | _ => True end) → client_fits (r <| rn_fwd := pc |>).
Proof.
  intros (H1 & H2 & H3 & H4 & H5) Hi Hf Hpc. unfold client_fits. simpl. split_and!; try done; [by intros _; apply H1; left|by destruct pc|by intros ->].
Qed.

Lemma cfits_rsz r pc : client_fits r → cl_resizes (rn_client r) = None → pc ≠ ZSending → client_fits (r <| rn_rsz := pc |>).
Proof.
  intros (H1 & H2 & H3 & H4 & H5) Hr Hpc. unfold client_fits. simpl. split_and!; try done. by rewrite bool_decide_false.
Qed.
End fits.

Section fits2.
Context `{HC : ProtoMessage ClientFrame} `{HS : ProtoMessage ServerFrame} (signalNum : string → Z).
Context (maxSendFrameSize : Z) (request : StartRequest) (options : Options).

(** While nothing forwards, only the idle threads matter. *)
Lemma cfits_before r : before_input r → rn_main r ≠ MInput → cl_inputs (rn_client r) = InputIdle → cl_resizes (rn_client r) = None →
  (∀ e, rn_ctx r = Some e → ∃ b, e = ctx_error b) → client_fits r.
Proof.
  intros (B1 & B2 & B3) Hm Hi Hr Hc. unfold client_fits. rewrite B2, B3. split_and!; try done. by intros [?|?].
Qed.

Lemma cfits_idle r : client_fits r → before_input r → cl_inputs (rn_client r) = InputIdle ∧ cl_resizes (rn_client r) = None ∧
  (∀ e, rn_ctx r = Some e → ∃ b, e = ctx_error b).
Proof. intros (H1 & H2 & H3 & H4 & H5) (B1 & B2 & B3). rewrite B2 in H2. rewrite B3 in H3. done. Qed.

Lemma closeStdin_threads c c0 x : closeStdin_begin maxSendFrameSize c = (c0, x) →
  cl_start c0 = cl_start c ∧ cl_inputs c0 = cl_inputs c ∧ cl_resizes c0 = cl_resizes c.
Proof. unfold closeStdin_begin. destruct (is_state _ _), (cl_stdinEOF c); by intros [= <- _]. Qed.

Lemma step_client_fits_call l r r' : call_label l = true → main_ok r → poll_fits r → client_fits r → run_step signalNum maxSendFrameSize request options l r = Some r' → client_fits r'.
Proof.
  intros Hg Hm Hp Hf Hs. assert (Hfr := λ l, fits_client maxSendFrameSize l).
  assert (Hbefore : match l with XBegin _ | XStart _ | XStartSent _ | XStartTake | XStartCancel | XStarted | XInput _ _ _ => True | _ => False end → before_input r).
  { unfold main_ok in Hm. destruct l; try done; intros _; cbn [run_step] in Hs; destruct (rn_main r); try done; tauto. }
  pose proof Hf as (F1 & F2 & F3 & F4 & F5).
  destruct l as [mr|order|err| | | |table dup pipe| | | | |res|l|e| | |size| | | |err| |l| | |err| |]; try done; cbn [run_step] in Hs.
  - destruct (rn_main r); try done. injection Hs as <-. clear F1 F2 F3 F4 F5. unfold run_begin. repeat case_match; by apply (cfits_same r); auto.
  - destruct (rn_main r); try done. injection Hs as <-. destruct (cfits_idle _ Hf (Hbefore I)) as (I1 & I2 & I3).
    clear F1 F2 F3 F4 F5. unfold run_start, run_failed. repeat case_match; try (by apply (cfits_same r); auto).
    apply cfits_before; [exact (Hbefore I)|done| | |done]; simpl; unfold start_begin; repeat case_match; done.
  - destruct (rn_main r) eqn:Em; try done. destruct (cfits_idle _ Hf (Hbefore I)) as (I1 & I2 & I3).
    destruct (on_client_keeps _ _ _ _ Hs) as (E1&E2&E3&E4&E5&E6&E7&E8&_&_&Es). destruct (start_threads _ _ _ _ Es I) as (T1 & T2 & _).
    apply cfits_before; [|congruence|congruence|congruence|by rewrite E7]. destruct (Hbefore I) as (?&?&?). split_and!; congruence.
  - destruct (rn_main r) eqn:Em; try done. destruct (cfits_idle _ Hf (Hbefore I)) as (I1 & I2 & I3).
    destruct (on_client_keeps _ _ _ _ Hs) as (E1&E2&E3&E4&E5&E6&E7&E8&_&_&Es). destruct (start_threads _ _ _ _ Es I) as (T1 & T2 & _).
    apply cfits_before; [|congruence|congruence|congruence|by rewrite E7]. destruct (Hbefore I) as (?&?&?). split_and!; congruence.
  - destruct (rn_main r) eqn:Em; try done. destruct (rn_ctx r) as [e|] eqn:Ec; [|done]. destruct (cfits_idle _ Hf (Hbefore I)) as (I1 & I2 & I3).
    destruct (on_client_keeps _ _ _ _ Hs) as (E1&E2&E3&E4&E5&E6&E7&E8&_&_&Es). destruct (start_threads _ _ _ _ Es I) as (T1 & T2 & _).
    apply cfits_before; [|congruence|congruence|congruence|by rewrite E7]. destruct (Hbefore I) as (?&?&?). split_and!; congruence.
  - destruct (rn_main r) eqn:Em; try done. destruct (cfits_idle _ Hf (Hbefore I)) as (I1 & I2 & I3). destruct (Hbefore I) as (B1 & B2 & B3).
    clear F1 F2 F3 F4 F5. unfold run_started, run_failed in Hs. repeat case_match; simplify_eq; [by apply (cfits_same r); auto|].
    unfold client_fits. simpl. rewrite B2, B3. done.
  - destruct (rn_main r) eqn:Em; try done. destruct (cfits_idle _ Hf (Hbefore I)) as (I1 & I2 & I3). injection Hs as <-.
    unfold run_input, run_failed. destruct (NewPollReader table dup pipe (rn_ctx r)) as [t' [p|e]]; [|by apply (cfits_same r); auto].
    unfold client_fits. simpl. split_and!; try done.
    + intros _. apply F1. by right.
    + destruct (bool_decide (is_Some (rn_raw r))); simpl; done.
  - destruct (rn_main r) eqn:Em; try done. clear F1 F2 F3 F4 F5. case_match; simplify_eq. by apply (cfits_same r); auto.
  - destruct (rn_main r) eqn:Em; try done. injection Hs as <-. apply (cfits_same (cancelCommand r)); auto. by apply cfits_cancelCommand.
  - clear F1 F2 F3 F4 F5. destruct (rn_main r) eqn:Em; try done. destruct (rn_poll r); [|done]. case_bool_decide; [simplify_eq; by apply (cfits_same r); auto|].
    eapply cfits_poll; [done..|by right].
  - destruct (rn_main r) eqn:Em; try done. clear F1 F2 F3 F4 F5. case_match; simplify_eq. by apply (cfits_same r); auto.
  - destruct (rn_main r) as [| | | | | | | |[|d ds]|]; try done; injection Hs as <-; [by apply (cfits_same r); auto|]. destruct d; simpl; try by apply (cfits_same r); auto.
    + destruct (rn_raw r) as [raw|]; [|by apply (cfits_same r); auto]. destruct (Restore res raw (rn_tty r)) as [[? ?] ?]. by apply (cfits_same r); auto.
    + apply (cfits_same (cancelCommand r)); auto. by apply cfits_cancelCommand.
    + destruct (loop_threads maxSendFrameSize LCloseClient (rn_client r) _ eq_refl (or_intror eq_refl)) as (T1 & T2 & T3). by apply (cfits_same r); auto.
Qed.

Lemma step_client_fits_side l r r' : side_label l = true → main_ok r → poll_fits r → client_fits r → run_step signalNum maxSendFrameSize request options l r = Some r' → client_fits r'.
Proof.
  intros Hg Hm Hp Hf Hs. assert (Hfr := λ l, fits_client maxSendFrameSize l).
  assert (Hbefore : match l with XBegin _ | XStart _ | XStartSent _ | XStartTake | XStartCancel | XStarted | XInput _ _ _ => True | _ => False end → before_input r).
  { unfold main_ok in Hm. destruct l; try done; intros _; cbn [run_step] in Hs; destruct (rn_main r); try done; tauto. }
  pose proof Hf as (F1 & F2 & F3 & F4 & F5).
  destruct l as [mr|order|err| | | |table dup pipe| | | | |res|l|e| | |size| | | |err| |l| | |err| |]; try done; cbn [run_step] in Hs.
  - destruct (loop_label l) eqn:El; [|done]. by eapply cfits_loop.
  - injection Hs as <-. by apply cfits_cancel.
  - destruct (rn_after r); try done. injection Hs as <-.
    destruct (loop_threads maxSendFrameSize LCloseClient (rn_client r) _ eq_refl (or_intror eq_refl)) as (T1 & T2 & T3). by apply (cfits_same r); auto.
  - clear F1 F2 F3 F4 F5. case_match; simplify_eq. by apply (cfits_same r); auto.
  - clear F1 F2 F3 F4 F5. case_match; simplify_eq. by apply (cfits_same r); auto.
  - clear F1 F2 F3 F4 F5. repeat case_match; simplify_eq. by apply (cfits_same r); auto.
  - destruct (rn_rsz r) eqn:Ez; try done. destruct (rs_resizes _) as [size|]; [|done]. unfold resize_taken in Hs.
    set (r0 := r <| rn_resizer ::= _ |>) in Hs. assert (H0 : client_fits r0) by (by apply (cfits_same r); auto). simpl in F3.
    destruct (resize_begin _ _ _) as [frame|e] eqn:Eb.
    + destruct (on_client _ _ _) as [r1|] eqn:Eo; [|done]. injection Hs as <-. destruct (on_client_keeps _ _ _ _ Eo) as (E1&E2&E3&E4&E5&E6&E7&E8&_&_&Es).
      change (rn_client r0) with (rn_client r) in *. step_cbn_in Es. rewrite F3, Eb in Es. destruct (forwarding (rn_client r)); [|done].
      injection Es as Es. unfold client_fits. simpl. rewrite E2, E3, E7, E8, <- Es. simpl. split_and!; done || eauto.
    + injection Hs as <-. destruct (cancel_keeps context_Canceled r0) as (C1 & C2 & C3 & _).
      apply cfits_rsz; [by apply cfits_cancelCommand| |done]. unfold cancelCommand. rewrite C1. done.
  - destruct (rn_rsz r) eqn:Ez; try done. simpl in F3. destruct (_ || _); [|done]. injection Hs as <-. by apply cfits_rsz.
  - destruct (rn_rsz r) eqn:Ez; try done. unfold resize_sent_step in Hs. destruct (on_client _ _ _) as [r1|] eqn:Eo; [|done]. injection Hs as <-.
    destruct (on_client_keeps _ _ _ _ Eo) as (E1&E2&E3&E4&E5&E6&E7&E8&_&_&Es).
    assert (T : cl_start (rn_client r1) = cl_start (rn_client r) ∧ cl_inputs (rn_client r1) = cl_inputs (rn_client r) ∧ cl_resizes (rn_client r1) = None)
      by (clear -Es; revert Es; generalize (rn_client r1); intros c' Es; step_cbn_in Es; repeat case_match; simplify_eq; done).
    destruct T as (T1 & T2 & T3). assert (Hgo : client_fits (r1 <| rn_rsz := ZSelect |>)).
    { unfold client_fits. simpl. rewrite E2, E3, E7, E8, T1, T2, T3. done. }
    destruct err; [|exact Hgo]. apply (cfits_same (cancelCommand (r1 <| rn_rsz := ZSelect |>) <| rn_rsz := ZEnded |>)); try (unfold cancelCommand, cancel; simpl; by destruct (rn_ctx r1)); [left; unfold cancelCommand, cancel; simpl; by destruct (rn_ctx r1)|].
    apply cfits_rsz; [by apply cfits_cancelCommand| |done]. unfold cancelCommand, cancel. simpl. by destruct (rn_ctx r1).
Qed.

Lemma step_client_fits_input l r r' : input_label l = true → main_ok r → poll_fits r → client_fits r → run_step signalNum maxSendFrameSize request options l r = Some r' → client_fits r'.
Proof.
  intros Hg Hm Hp Hf Hs. assert (Hfr := λ l, fits_client maxSendFrameSize l).
  assert (Hbefore : match l with XBegin _ | XStart _ | XStartSent _ | XStartTake | XStartCancel | XStarted | XInput _ _ _ => True | _ => False end → before_input r).
  { unfold main_ok in Hm. destruct l; try done; intros _; cbn [run_step] in Hs; destruct (rn_main r); try done; tauto. }
  pose proof Hf as (F1 & F2 & F3 & F4 & F5).
  destruct l as [mr|order|err| | | |table dup pipe| | | | |res|l|e| | |size| | | |err| |l| | |err| |]; try done; cbn [run_step] in Hs.
  - destruct (rn_fwd r) eqn:Ef; try done. destruct (on_poll _ _) as [r1|] eqn:Eo; [|done]. injection Hs as <-.
    destruct (on_poll_keeps _ _ _ Eo) as (E1&E2&E3&E4&E5&E6&E7&E8&p&p'&Ep&Es&Ep').
    unfold client_fits. simpl. rewrite E1, E5, E8. split_and!; try done; [by intros _; apply F1; left|]. intros _. exists p'. split; [done|].
    unfold poll_step in Es. destruct (pl_read p); try done. injection Es as <-. clear. unfold read_begin. by repeat case_match.
  - destruct (inner_label l) eqn:El; [|done]. eapply cfits_poll; [done..|by left].
  - destruct (rn_fwd r) eqn:Ef; try done. destruct (rn_poll r) as [p0|] eqn:Ep0; [|done]. destruct (pl_read p0) as [| | | | | | |data err]; try done.
    destruct (on_poll _ _) as [r1|] eqn:Eo; [|done]. injection Hs as <-. destruct (on_poll_keeps _ _ _ Eo) as (E1&E2&E3&E4&E5&E6&E7&E8&p&p'&Ep&Es&Ep').
    unfold client_fits. simpl. rewrite E1, E5, E8. split_and!; try done. by intros _; apply F1; left.
  - destruct (rn_fwd r) as [| | |data err| | | | |] eqn:Ef; try done. unfold forward_data in Hs. destruct (bool_decide (data = [])); [simplify_eq; by apply cfits_fwd; rewrite ?Ef|].
    destruct (writeStdin_begin _ _ _) as [frames|e] eqn:Ew; [|simplify_eq; by apply cfits_fwd; rewrite ?Ef].
    destruct (on_client _ _ _) as [r1|] eqn:Eo; [|done]. injection Hs as <-. destruct (on_client_keeps _ _ _ _ Eo) as (E1&E2&E3&E4&E5&E6&E7&E8&_&_&Es).
    step_cbn_in Es. rewrite F2, Ew in Es. destruct (forwarding (rn_client r)); [|done]. injection Es as Es.
    unfold client_fits. simpl. rewrite E4, E7, <- Es. simpl. split_and!; try done; [by intros _; apply F1; left| |by destruct frames].
    destruct frames; simpl; eauto.
  - assert (Hs' : input_sent_step maxSendFrameSize err r = Some r') by (by destruct (rn_fwd r)).
    assert (Hfw : rn_fwd r ≠ FNone) by (by destruct (rn_fwd r)). clear Hs. unfold input_sent_step in Hs'.
    destruct (on_client _ _ _) as [r1|] eqn:Eo; [|done]. destruct (on_client_keeps _ _ _ _ Eo) as (E1&E2&E3&E4&E5&E6&E7&E8&_&_&Es). rewrite E3 in Hs'.
    step_cbn_in Es. unfold client_fits. destruct (rn_fwd r) eqn:Ef; try done.
    + destruct F2 as (f & fs & F2). rewrite F2 in Es. destruct err as [e|]; injection Hs' as <-; injection Es as Es; simpl; rewrite E4, E7, <- Es.
      * destruct (finish_threads (Some (OtherError (Wrapped e "send command stdin"))) (rn_client r <| cl_inputs := InputIdle |>)) as (-> & -> & ->).
        split_and!; try done. by intros _; apply F1; left.
      * unfold input_idle. destruct fs as [|f' fs]; simpl; split_and!; try done; try (by intros _; apply F1; left); eauto.
    + destruct F2 as (f & F2). rewrite F2 in Es. destruct err as [e|]; injection Hs' as <-; injection Es as Es; simpl; rewrite E4, E7, <- Es; split_and!; try done; by intros _; apply F1; left.
  - destruct (rn_fwd r) eqn:Ef; try done. unfold handle_error in Hs. destruct err as [e|]; [|simplify_eq; by apply cfits_fwd; rewrite ?Ef].
    destruct (_ || _); [|repeat case_match; simplify_eq; by apply cfits_fwd; rewrite ?Ef].
    destruct (closeStdin_begin _ _) as [c0 [frame|e']] eqn:Eb, (on_client _ _ _) as [r1|] eqn:Eo; try done; simplify_eq;
      destruct (closeStdin_threads _ _ _ Eb) as (T1 & T2 & T3);
      destruct (on_client_keeps _ _ _ _ Eo) as (E1&E2&E3&E4&E5&E6&E7&E8&_&_&Es); step_cbn_in Es; rewrite F2, Eb in Es;
      (destruct (forwarding (rn_client r)); [|done]); injection Es as Es; unfold client_fits; simpl; rewrite E4, E7, <- Es; simpl; rewrite T1, T3;
      split_and!; try done; try (by intros _; apply F1; left); [by eauto|by rewrite T2].
  - destruct (rn_fwd r) eqn:Ef; try done. injection Hs as <-. unfold forward_ends. destruct err; [|by apply cfits_fwd; rewrite ?Ef].
    destruct (cancel_keeps context_Canceled r) as (C1 & C2 & C3 & C4 & _). apply cfits_fwd; [by apply cfits_cancelCommand| | |done]; unfold cancelCommand.
    + by rewrite C1.
    + by rewrite C4, Ef.
Qed.

Lemma step_client_fits l r r' : main_ok r → poll_fits r → client_fits r → run_step signalNum maxSendFrameSize request options l r = Some r' → client_fits r'.
Proof.
  intros Hm Hp Hf Hs. destruct (label_groups l) as [Hg|[Hg|Hg]]; [by eapply step_client_fits_call|by eapply step_client_fits_side|by eapply step_client_fits_input].
Qed.
End fits2.
