(* ===== verification/ClientRunProofs.v ===== *)
(** * What a command at the client comes to (app/client/command/run.go)

    The theorems on [Run] of [ClientRun]: everything is put back, the call returns,
    it reports what the command reported, and the input that reaches the process
    is what was typed. *)

From S2P Require Import Prelude GoStrings Wire CommandCodec CommandServer CommandClient ProcessRunner Terminal ClientRun.

(** ** Run returns *)

(** Errors of a [Read] after which [forwardInput] reads again. *)
Definition retries (err : option error) : bool :=
  match err with
  | None => true
  | Some e => negb (err_is e io_EOF || err_is e EIO) && negb (err_is e os_ErrClosed || err_is e context_Canceled) && err_is e EINTR
  end.

Definition handle_left (err : option error) : nat := if retries err then 9 else 3.

Section finishes.
Context `{HC : ProtoMessage ClientFrame} `{HS : ProtoMessage ServerFrame} (signalNum : string → Z).
Context (maxSendFrameSize : Z) (request : StartRequest) (options : Options).

Definition frames_of (data : bytes) (c : client) : nat :=
  match writeStdin_begin maxSendFrameSize data c with Ok frames => length frames | Err _ => 0 end.

Definition got_left (c : client) (data : bytes) (err : option error) : nat :=
  if bool_decide (data = []) then S (handle_left err) else 11 + frames_of data c.

#[local] Arguments got_left : simpl never.

(** How many steps the forwarder of input has left once the context has ended. *)
Definition fwd_left (pc : fwd_pc) (c : client) (poll : option PollReader) : nat :=
  match pc with
  | FNone | FEnded => 0
  | FReturn _ => 1
  | FClosing => 2
  | FHandle err => handle_left err
  | FGot data err => got_left c data err
  | FSending _ => 10 + match cl_inputs c with InputSending fs => length fs | _ => 0 end
  | FRead => 8
  | FReading =>
      match poll with
      | Some p => match pl_read p with RDone data err => S (got_left c data err) | _ => 6 end
      | None => 0
      end
  end.

Definition rsz_left (pc : rsz_pc) (z : resizer) : nat :=
  match pc with ZNone | ZEnded => 0 | ZSelect => 1 | ZSending => 2 end + match rs_resizes z with Some _ => 2 | None => 0 end.

Definition main_left (pc : main_pc) : nat :=
  match pc with MClose _ => 20 | MWorkers _ => 12 | MDefer ds _ => S (length ds) | _ => 0 end.

Definition after_left (a : after_pc) : nat := match a with AArmed | AStarted => 1 | _ => 0 end.

Definition hooked_left (p : PollReader) : nat := poll_left p + if pl_hook p then 1 else 0.

Definition run_left (r : run) : nat :=
  main_left (rn_main r) + after_left (rn_after r) + from_option hooked_left 0%nat (rn_poll r) +
  fwd_left (rn_fwd r) (rn_client r) (rn_poll r) + rsz_left (rn_rsz r) (rn_resizer r).

(** The steps of the goroutines of [Run], given that the connection answers a send. *)
Definition own_run (l : xlabel) : bool :=
  match l with
  | XClose | XWorkers | XDefer _ | XAfter | XResize | XResizeEnds | XResizeSent _ | XRead | XTook | XForward | XInputSent _ | XHandle
  | XForwardEnds => true
  | XPoll l => own_label l
  | _ => false
  end.

Lemma own_step_hooked l p p' : own_label l = true → poll_step l p = Some p' → (hooked_left p' < hooked_left p)%nat.
Proof.
  intros Hl Hs. destruct l; try done; unfold poll_step, poll_returned, close_step in Hs; destruct (pl_read p) eqn:Er; try done;
    unfold read_lock, after_func, read_returns, wake in Hs; repeat case_match; simplify_eq; unfold hooked_left, poll_left; simpl;
    rewrite ?Er; simpl; repeat (case_match; simplify_eq; simpl);
    repeat match goal with E : pl_close p = _ |- _ => rewrite E; clear E | E : pl_wakes p = _ |- _ => rewrite E; clear E end; simpl; lia.
Qed.

(** A step of the reader of a run whose context has ended. *)
Lemma own_poll_fwd l p p' c pc b : pl_ctx p = Some (ctx_error b) → own_label l = true → poll_step l p = Some p' →
  (fwd_left pc c (Some p') <= fwd_left pc c (Some p))%nat.
Proof.
  intros Hc Hl Hs. destruct pc; try done.
  assert (Hlow : ∀ e, e = os_ErrClosed ∨ e = ctx_error b → (S (got_left c [] (Some e)) <= 6)%nat) by (intros e [->| ->]; [|destruct b]; vm_compute; lia).
  assert (Hread : pl_read p' = pl_read p ∨ (∀ d e, pl_read p ≠ RDone d e) ∧
    ((∃ e, pl_read p' = RDone [] (Some e) ∧ (e = os_ErrClosed ∨ e = ctx_error b)) ∨ ∀ d e, pl_read p' ≠ RDone d e)).
  { destruct l; try done; unfold poll_step, poll_returned, close_step in Hs; destruct (pl_read p) eqn:Er; try done;
      unfold read_lock, after_func, read_returns, wake in Hs; repeat case_match; simplify_eq; simpl; try (by left);
      right; (split; [done|]); try (by right); left; eexists; (split; [done|]); unfold ctx_or_closed; rewrite ?Hc; auto. }
  cbn [fwd_left]. destruct Hread as [->|(Hn & [(e & -> & He)|Hd])]; [done| |].
  - specialize (Hlow e He). destruct (pl_read p) eqn:Er; try lia. by destruct (Hn data err).
  - destruct (pl_read p') eqn:Er', (pl_read p) eqn:Er; try lia; try (by destruct (Hn data err)); by destruct (Hd data err).
Qed.

(** What [closeClient] and the forwarder of sizes do to the client. *)
Definition quieter (c c' : client) : Prop :=
  cl_inputs c' = cl_inputs c ∧ ∀ data, (frames_of data c' <= frames_of data c)%nat.

Lemma quieter_left pc c c' poll : quieter c c' → (fwd_left pc c' poll <= fwd_left pc c poll)%nat.
Proof.
  intros [Hi Hf]. assert (Hg : ∀ d e, (got_left c' d e <= got_left c d e)%nat) by (intros d e; unfold got_left; case_bool_decide; [done|]; specialize (Hf d); lia).
  destruct pc; cbn [fwd_left]; rewrite ?Hi; try lia; [|by apply Hg]. destruct poll as [p|]; [|lia]. destruct (pl_read p); try lia. specialize (Hg data err). lia.
Qed.

Lemma quieter_close c : quieter c (closeClient c).
Proof.
  split; [apply finish_threads|]. intros data. unfold frames_of, writeStdin_begin, closeClient, finish. destruct (bool_decide (data = [])); [done|].
  destruct (cl_close c); [done|]. unfold is_state. simpl.
  destruct (bool_decide (cl_state c = clientExited)) eqn:E; simpl; [|lia]. apply bool_decide_eq_true in E. rewrite E. done.
Qed.

Lemma quieter_same c c' : cl_inputs c' = cl_inputs c → cl_state c' = cl_state c → cl_stdinEOF c' = cl_stdinEOF c → quieter c c'.
Proof. intros E1 E2 E3. split; [done|]. intros data. unfold frames_of, writeStdin_begin, is_state. rewrite E2, E3. done. Qed.

(** Once the context has ended another end changes nothing. *)
Lemma cancel_ended e r : rn_ctx r ≠ None → cancel e r = r.
Proof. unfold cancel. by destruct (rn_ctx r). Qed.

Lemma handle_left_bounds err : (3 <= handle_left err <= 9)%nat.
Proof. unfold handle_left. destruct (retries err); lia. Qed.

(** Changes outside the parts that count. *)
Lemma left_client r r' : rn_main r' = rn_main r → rn_after r' = rn_after r → rn_poll r' = rn_poll r → rn_fwd r' = rn_fwd r →
  quieter (rn_client r) (rn_client r') → (rsz_left (rn_rsz r') (rn_resizer r') < rsz_left (rn_rsz r) (rn_resizer r))%nat →
  (run_left r' < run_left r)%nat.
Proof. intros E1 E2 E3 E4 Hq Hz. unfold run_left. rewrite E1, E2, E3, E4. pose proof (quieter_left (rn_fwd r) _ _ (rn_poll r) Hq). lia. Qed.

Lemma run_step_less_call l r r' : call_label l = true → rn_ctx r ≠ None → poll_fits r → client_fits r → own_run l = true →
  run_step signalNum maxSendFrameSize request options l r = Some r' → (run_left r' < run_left r)%nat.
Proof.
  intros Hgrp Hctx Hp (F1 & F2 & F3 & F4 & F5) Hl Hs. assert (Hcan : ∀ r0, rn_ctx r0 = rn_ctx r → cancelCommand r0 = r0).
  { intros r0 E. apply cancel_ended. by rewrite E. }
  destruct l as [mr|order|err| | | |table dup pipe| | | | |res|l|e| | |size| | | |err| |l| | |err| |]; try done; cbn [run_step] in Hs.
  - destruct (rn_main r) eqn:Em; try done. destruct (rn_poll r) as [p|] eqn:Ep; [|done]. destruct (bool_decide (pl_close p = CClosed)).
    + injection Hs as <-. unfold run_left. simpl. rewrite Em, Ep. simpl. lia.
    + destruct (on_poll_keeps _ _ _ Hs) as (E1&E2&E3&E4&E5&E6&E7&E8&p1&p2&Ep1&Es&Ep2). rewrite Ep in Ep1. injection Ep1 as <-.
      unfold on_poll in Hs. rewrite Ep, Es in Hs. injection Hs as <-. pose proof (own_step_hooked PClose p p2 eq_refl Es) as Hlt.
      unfold poll_fits in Hp. rewrite Ep in Hp. destruct Hp as (_ & _ & Hc & _). destruct (rn_ctx r) as [e|] eqn:Ec; [|done].
      destruct (F4 e eq_refl) as [b ->]. pose proof (own_poll_fwd PClose p p2 (rn_client r) (rn_fwd r) b Hc eq_refl Es) as Hle.
      unfold run_left. simpl. rewrite Em, Ep. simpl. lia.
  - destruct (rn_main r) eqn:Em; try done. destruct (workers_done r); [|done]. injection Hs as <-. unfold run_left. simpl. rewrite Em.
    unfold defers. destruct (bool_decide (is_Some (rn_raw r))); simpl; lia.
  - destruct (rn_main r) as [| | | | | | | |[|d ds] result|] eqn:Em; try done; injection Hs as <-.
    + unfold run_left. simpl. rewrite Em. simpl. lia.
    + assert (Hd : let r1 := run_deferred d res r in rn_poll r1 = rn_poll r ∧ rn_fwd r1 = rn_fwd r ∧ rn_rsz r1 = rn_rsz r ∧ rn_resizer r1 = rn_resizer r ∧
        (after_left (rn_after r1) <= after_left (rn_after r))%nat ∧ quieter (rn_client r) (rn_client r1)).
      { destruct d; simpl; try (split_and!; try done; by apply quieter_same).
        - destruct (rn_raw r) as [raw|]; [|split_and!; try done; by apply quieter_same]. destruct (Restore res raw (rn_tty r)) as [[? ?] ?].
          split_and!; [done..|by apply quieter_same].
        - split_and!; [done..|by destruct (rn_after r); simpl; lia|by apply quieter_same].
        - rewrite (Hcan r eq_refl). split_and!; [done..|by apply quieter_same].
        - split_and!; [done..|apply quieter_close]. }
      destruct Hd as (D1 & D2 & D3 & D4 & D5 & D6). pose proof (quieter_left (rn_fwd r) _ _ (rn_poll r) D6). unfold run_left. simpl.
      rewrite Em, D1, D2, D3, D4. simpl. lia.
Qed.

Lemma run_step_less_side l r r' : side_label l = true → rn_ctx r ≠ None → poll_fits r → client_fits r → own_run l = true →
  run_step signalNum maxSendFrameSize request options l r = Some r' → (run_left r' < run_left r)%nat.
Proof.
  intros Hgrp Hctx Hp (F1 & F2 & F3 & F4 & F5) Hl Hs. assert (Hcan : ∀ r0, rn_ctx r0 = rn_ctx r → cancelCommand r0 = r0).
  { intros r0 E. apply cancel_ended. by rewrite E. }
  destruct l as [mr|order|err| | | |table dup pipe| | | | |res|l|e| | |size| | | |err| |l| | |err| |]; try done; cbn [run_step] in Hs.
  - destruct (rn_after r) eqn:Ea; try done. injection Hs as <-. pose proof (quieter_left (rn_fwd r) _ _ (rn_poll r) (quieter_close (rn_client r))).
    unfold run_left. simpl. rewrite Ea. simpl. lia.
  - destruct (rn_rsz r) eqn:Ez; try done. destruct (rs_resizes (rn_resizer r)) as [size|] eqn:Esz; [|done]. unfold resize_taken in Hs.
    set (r0 := r <| rn_resizer ::= _ |>) in Hs. destruct (resize_begin _ _ _) as [frame|e] eqn:Eb.
    + destruct (on_client _ _ _) as [r1|] eqn:Eo; [|done]. injection Hs as <-. destruct (on_client_keeps _ _ _ _ Eo) as (E1&E2&E3&E4&E5&E6&E7&E8&E9&E10&Es).
      assert (Hq : quieter (rn_client r) (rn_client r1)).
      { change (rn_client r0) with (rn_client r) in *. step_cbn_in Es. simpl in F3. rewrite F3, Eb in Es. destruct (forwarding _); [|done].
        injection Es as <-. by apply quieter_same. }
      apply (left_client r); [exact E2|exact E9|exact E8|exact E3|exact Hq|]. unfold rsz_left. rewrite Ez, Esz. simpl. rewrite E10. unfold r0. simpl. lia.
    + injection Hs as <-. rewrite (Hcan r0 eq_refl). unfold run_left. simpl. rewrite Ez. unfold rsz_left. simpl. rewrite Esz. lia.
  - destruct (rn_rsz r) eqn:Ez; try done. destruct (_ || _); [|done]. injection Hs as <-. unfold run_left, rsz_left. simpl. rewrite Ez. lia.
  - destruct (rn_rsz r) eqn:Ez; try done. unfold resize_sent_step in Hs. destruct (on_client _ _ _) as [r1|] eqn:Eo; [|done]. injection Hs as <-.
    destruct (on_client_keeps _ _ _ _ Eo) as (E1&E2&E3&E4&E5&E6&E7&E8&E9&E10&Es). rewrite (Hcan r1 E7).
    assert (Hq : quieter (rn_client r) (rn_client r1)).
    { clear -Es. revert Es. generalize (rn_client r1). intros c' Es. step_cbn_in Es. repeat case_match; simplify_eq; by apply quieter_same. }
    destruct err as [e|]; apply (left_client r); try done; unfold rsz_left; rewrite Ez; simpl; rewrite E10; lia.
Qed.

Lemma run_step_less_input l r r' : input_label l = true → rn_ctx r ≠ None → poll_fits r → client_fits r → own_run l = true →
  run_step signalNum maxSendFrameSize request options l r = Some r' → (run_left r' < run_left r)%nat.
Proof.
  intros Hgrp Hctx Hp (F1 & F2 & F3 & F4 & F5) Hl Hs. assert (Hcan : ∀ r0, rn_ctx r0 = rn_ctx r → cancelCommand r0 = r0).
  { intros r0 E. apply cancel_ended. by rewrite E. }
  destruct l as [mr|order|err| | | |table dup pipe| | | | |res|l|e| | |size| | | |err| |l| | |err| |]; try done; cbn [run_step] in Hs.
  - destruct (rn_fwd r) eqn:Ef; try done. destruct (on_poll _ _) as [r1|] eqn:Eo; [|done]. injection Hs as <-.
    destruct (on_poll_keeps _ _ _ Eo) as (E1&E2&E3&E4&E5&E6&E7&E8&p&p'&Ep&Es&Ep'). unfold on_poll in Eo. rewrite Ep, Es in Eo. injection Eo as <-.
    unfold poll_fits in Hp. rewrite Ep in Hp. destruct Hp as (_ & _ & Hc & Hi & _). specialize (Hi ltac:(by rewrite Ef)).
    unfold poll_step in Es. rewrite Hi in Es. injection Es as <-. destruct (rn_ctx r) as [e|]; [|done]. destruct (F4 e eq_refl) as [b ->].
    unfold read_begin. change (32768 =? 0) with false. cbv iota. rewrite Hc. unfold run_left. simpl. rewrite Ef, Ep. unfold hooked_left, poll_left. simpl. rewrite Hi. simpl.
    assert (got_left (rn_client r) [] (Some (ctx_error b)) = 4%nat) as -> by (by destruct b). lia.
  - destruct (inner_label l) eqn:El; [|done]. destruct (on_poll_keeps _ _ _ Hs) as (E1&E2&E3&E4&E5&E6&E7&E8&p&p'&Ep&Es&Ep').
    unfold on_poll in Hs. rewrite Ep, Es in Hs. injection Hs as <-. pose proof (own_step_hooked l p p' Hl Es) as Hlt.
    unfold poll_fits in Hp. rewrite Ep in Hp. destruct Hp as (_ & _ & Hc & _). destruct (rn_ctx r) as [e|] eqn:Ec; [|done].
    destruct (F4 e eq_refl) as [b ->]. pose proof (own_poll_fwd l p p' (rn_client r) (rn_fwd r) b Hc Hl Es) as Hle.
    unfold run_left. simpl. rewrite Ep. simpl. lia.
  - destruct (rn_fwd r) eqn:Ef; try done. destruct (rn_poll r) as [p|] eqn:Ep; [|done]. destruct (pl_read p) as [| | | | | | |data err] eqn:Er; try done.
    unfold on_poll in Hs. rewrite Ep in Hs. unfold poll_step in Hs. rewrite Er in Hs. injection Hs as <-. unfold run_left. simpl. rewrite Ef, Ep. simpl.
    unfold hooked_left, poll_left. simpl. rewrite Er. simpl. lia.
  - destruct (rn_fwd r) as [| | |data err| | | | |] eqn:Ef; try done. unfold forward_data in Hs. pose proof (handle_left_bounds err).
    destruct (bool_decide (data = [])) eqn:Ed; [injection Hs as <-; unfold run_left; simpl; rewrite Ef; unfold got_left; simpl; unfold got_left; rewrite Ed; lia|].
    assert (Hg : got_left (rn_client r) data err = (11 + frames_of data (rn_client r))%nat) by (unfold got_left; by rewrite Ed).
    unfold frames_of in Hg. destruct (writeStdin_begin _ _ _) as [frames|e] eqn:Ew.
    + destruct (on_client _ _ _) as [r1|] eqn:Eo; [|done]. injection Hs as <-. destruct (on_client_keeps _ _ _ _ Eo) as (E1&E2&E3&E4&E5&E6&E7&E8&E9&E10&Es).
      step_cbn_in Es. rewrite F2, Ew in Es. destruct (forwarding _); [|done]. injection Es as Es. unfold run_left. simpl. rewrite E2, E4, E8, E9, E10, Ef. simpl. rewrite Hg.
      destruct frames as [|f fs]; simpl; [lia|]. rewrite <- Es. simpl. lia.
    + injection Hs as <-. unfold run_left. simpl. rewrite Ef. simpl. rewrite Hg. lia.
  - assert (Hs' : input_sent_step maxSendFrameSize err r = Some r') by (by destruct (rn_fwd r)).
    assert (Hfw : rn_fwd r ≠ FNone) by (by destruct (rn_fwd r)). clear Hs. unfold input_sent_step in Hs'.
    destruct (on_client _ _ _) as [r1|] eqn:Eo; [|done]. destruct (on_client_keeps _ _ _ _ Eo) as (E1&E2&E3&E4&E5&E6&E7&E8&E9&E10&Es). rewrite E3 in Hs'.
    step_cbn_in Es. destruct (rn_fwd r) as [| | | |readErr| | | |] eqn:Ef; try done.
    + destruct F2 as (f & fs & F2). rewrite F2 in Es. pose proof (handle_left_bounds readErr).
      destruct err as [e|]; injection Hs' as <-; injection Es as Es; unfold run_left; simpl; rewrite E2, E4, E8, E9, E10, Ef; simpl; rewrite F2.
      * simpl. lia.
      * unfold input_idle. rewrite <- Es. simpl. destruct fs as [|f' fs]; simpl; lia.
    + destruct F2 as (f & F2). rewrite F2 in Es. destruct err as [e|]; injection Hs' as <-; unfold run_left; simpl; rewrite E2, E4, E8, E9, E10, Ef; simpl; lia.
  - destruct (rn_fwd r) as [| | | | |err| | |] eqn:Ef; try done. pose proof (handle_left_bounds err) as Hb. unfold handle_error in Hs. unfold handle_left, retries in Hb.
    destruct err as [e|]; [|injection Hs as <-; unfold run_left; simpl; rewrite Ef; simpl; unfold handle_left; simpl; lia].
    destruct (err_is e io_EOF || err_is e EIO) eqn:E1.
    + destruct (closeStdin_begin _ _) as [c0 [frame|e']] eqn:Eb, (on_client _ _ _) as [r1|] eqn:Eo; try done; simplify_eq;
        destruct (on_client_keeps _ _ _ _ Eo) as (X1&X2&X3&X4&X5&X6&X7&X8&X9&X10&Es); unfold run_left; simpl; rewrite X2, X4, X8, X9, X10, Ef; simpl;
        unfold handle_left, retries; rewrite E1; simpl; lia.
    + destruct (err_is e os_ErrClosed || err_is e context_Canceled) eqn:E2.
      { injection Hs as <-. unfold run_left. simpl. rewrite Ef. simpl. unfold handle_left, retries. rewrite E1, E2. simpl. lia. }
      destruct (err_is e EINTR) eqn:E3.
      { injection Hs as <-. unfold run_left. simpl. rewrite Ef. simpl. unfold handle_left, retries. rewrite E1, E2, E3. simpl. lia. }
      assert (∃ x, r' = r <| rn_fwd := FReturn x |>) as [x ->] by (repeat case_match; simplify_eq; eauto).
      unfold run_left. simpl. rewrite Ef. simpl. unfold handle_left, retries. rewrite E1, E2, E3. simpl. lia.
  - destruct (rn_fwd r) eqn:Ef; try done. injection Hs as <-. unfold forward_ends. rewrite (Hcan r eq_refl).
    assert ((match err with Some _ => r | None => r end) = r) as -> by (by destruct err). unfold run_left. simpl. rewrite Ef. simpl. lia.
Qed.

Lemma run_step_less l r r' : rn_ctx r ≠ None → poll_fits r → client_fits r → own_run l = true →
  run_step signalNum maxSendFrameSize request options l r = Some r' → (run_left r' < run_left r)%nat.
Proof.
  intros Hctx Hp Hf Hl Hs. destruct (label_groups l) as [Hg|[Hg|Hg]]; [by eapply run_step_less_call|by eapply run_step_less_side|by eapply run_step_less_input].
Qed.

(** The input is held by the kernel: its descriptors were given to others, or the
    system call that reads it does not return. *)
Definition input_free (r : run) : Prop := ∀ p, rn_poll r = Some p → undisturbed_fds p ∧ reading p = false.

(** [Run] is on its way out. *)
Definition leaving (r : run) : Prop :=
  match rn_main r with MClose _ | MWorkers _ | MDefer _ _ => rn_ctx r ≠ None | _ => False end.

(** The forwarder of sizes can go on. *)
Lemma rsz_moves r : client_fits r → rn_ctx r ≠ None → rn_rsz r = ZSelect ∨ rn_rsz r = ZSending →
  ∃ l r', own_run l = true ∧ run_step signalNum maxSendFrameSize request options l r = Some r'.
Proof.
  intros (F1 & F2 & F3 & F4 & F5) Hc [Ez|Ez]; rewrite Ez in F3; simpl in F3.
  - exists XResizeEnds. eexists. split; [done|]. cbn [run_step]. rewrite Ez. destruct (rn_ctx r); [|done]. done.
  - destruct F3 as [frame F3]. exists (XResizeSent (Some io_EOF)). unfold run_step. rewrite Ez. unfold resize_sent_step, on_client. step_cbn. rewrite F3.
    destruct (rn_main r); eexists; done.
Qed.

(** The forwarder of input can go on. *)
Lemma fwd_moves r : main_ok r → poll_fits r → client_fits r → rn_ctx r ≠ None → input_free r → rn_fwd r ≠ FNone → rn_fwd r ≠ FEnded →
  (∀ p, rn_poll r = Some p → pl_close p = CClosed) →
  ∃ l r', own_run l = true ∧ run_step signalNum maxSendFrameSize request options l r = Some r'.
Proof.
  intros Hm Hp (F1 & F2 & F3 & F4 & F5) Hc Hi Hn He Hclosed.
  assert (Hfw : forwarding (rn_client r) = true) by (unfold forwarding; rewrite F1; [done|by left]).
  destruct (forwarding_poll r Hm Hn) as [p Ep]. unfold poll_fits in Hp. rewrite Ep in Hp. destruct Hp as ([f Hok] & Hnum & Hctx & Hidle & _).
  assert (Hgo : ∀ l, own_run l = true → (∃ r', run_step signalNum maxSendFrameSize request options l r = Some r') →
    ∃ l r', own_run l = true ∧ run_step signalNum maxSendFrameSize request options l r = Some r') by (intros l Hl [r' Hr]; eauto).
  destruct (rn_fwd r) as [| | |data err|err|err| |err|] eqn:Ef; try done.
  - apply (Hgo XRead); [done|]. cbn [run_step]. rewrite Ef. unfold on_poll, poll_step. rewrite Ep, (Hidle ltac:(done)). eauto.
  - destruct (F5 eq_refl) as (p0 & Ep0 & Hr). rewrite Ep in Ep0. injection Ep0 as <-. destruct (Hi p Ep) as [Hu Hrd].
    destruct (at_work p) eqn:Ew.
    + destruct (interrupted_moves f p Hok Hnum) as (l & p' & Hl & Hs); [left; congruence|done|done|].
      apply (Hgo (XPoll l)); [done|]. cbn [run_step]. assert (inner_label l = true) as ->.
      { destruct l; try done. unfold poll_step, close_step in Hs. by rewrite (Hclosed p Ep) in Hs. }
      unfold on_poll. rewrite Ep, Hs. eauto.
    + unfold at_work, reading in Ew, Hrd. destruct (pl_read p) as [| | | | | | |data err] eqn:Er; try done.
      apply (Hgo XTook); [done|]. cbn [run_step]. rewrite Ef, Ep, Er. unfold on_poll, poll_step. rewrite Ep, Er. eauto.
  - apply (Hgo XForward); [done|]. cbn [run_step]. rewrite Ef. unfold forward_data. destruct (bool_decide (data = [])); [eauto|].
    destruct (writeStdin_begin _ _ _) eqn:Ew; [|eauto]. unfold on_client. step_cbn. rewrite Hfw, F2, Ew. eauto.
  - destruct F2 as (fr & fs & F2). apply (Hgo (XInputSent (Some io_EOF))); [done|]. cbn [run_step]. rewrite Ef.
    unfold input_sent_step, on_client. step_cbn. rewrite F2. simpl. rewrite Ef. eauto.
  - apply (Hgo XHandle); [done|]. cbn [run_step]. rewrite Ef. unfold handle_error. destruct err as [e|]; [|eauto].
    repeat (destruct (_ || _) || destruct (err_is _ _)); eauto; unfold on_client; step_cbn; rewrite Hfw, F2; destruct (closeStdin_begin _ _) as [c0 [fr|e']]; eauto.
  - destruct F2 as (fr & F2). apply (Hgo (XInputSent (Some io_EOF))); [done|]. cbn [run_step]. rewrite Ef.
    unfold input_sent_step, on_client. step_cbn. rewrite F2. simpl. rewrite Ef. eauto.
  - apply (Hgo XForwardEnds); [done|]. cbn [run_step]. rewrite Ef. eauto.
Qed.

Lemma leaving_moves r : main_ok r → poll_fits r → client_fits r → leaving r → input_free r →
  ∃ l r', own_run l = true ∧ run_step signalNum maxSendFrameSize request options l r = Some r'.
Proof.
  intros Hm Hp Hf Hl Hi. pose proof Hm as Hm'. unfold main_ok in Hm'. unfold leaving in Hl. destruct (rn_main r) as [| | | | |w|w|w|ds result|result] eqn:Em; try done.
  - destruct Hm' as (([p Hpo] & _) & _). exists XClose.
    enough (∃ r', run_step signalNum maxSendFrameSize request options XClose r = Some r') as [r' Hr] by eauto.
    cbn [run_step]. rewrite Em, Hpo. case_bool_decide as Ec; [eauto|]. unfold on_poll. rewrite Hpo. unfold poll_step, close_step. destruct (pl_close p); eauto; done.
  - destruct Hm' as ((_ & Hn & _) & _ & Hcl). destruct (rn_rsz r) eqn:Ez; try (by apply rsz_moves; auto).
    all: destruct (workers_done r) eqn:Ew; [exists XWorkers; eexists; split; [done|]; cbn [run_step]; rewrite Em, Ew; reflexivity|].
    all: apply fwd_moves; try done; [intros E; unfold workers_done in Ew; by rewrite E, Ez in Ew|].
    all: intros p Hpo; unfold input_closed in Hcl; rewrite Hpo in Hcl; by injection Hcl.
  - destruct ds as [|d ds]; exists (XDefer None); eexists; (split; [done|]); cbn [run_step]; rewrite Em; reflexivity.
Qed.

Lemma run_steps_app ls1 ls2 : ∀ r, run_steps signalNum maxSendFrameSize request options (ls1 ++ ls2) r =
  match run_steps signalNum maxSendFrameSize request options ls1 r with
  | Some r' => run_steps signalNum maxSendFrameSize request options ls2 r'
  | None => None
  end.
Proof. induction ls1 as [|l ls1 IH]; intros r; [done|]. cbn [run_steps app]. destruct (run_step _ _ _ _ l r); [apply IH|done]. Qed.

(** ** Theorems *)

(** A run of [Run]: the labels, with new descriptors from the kernel. *)
Definition run_reaches (ended : option bool) (t : terminal) (ls : list xlabel) (r : run) : Prop :=
  Forall kernel_ok ls ∧ run_steps signalNum maxSendFrameSize request options ls (new_run ended t) = Some r.

Lemma reaches_ok ended t ls r : run_reaches ended t ls r →
  main_ok r ∧ tty_ok t r ∧ poll_fits r ∧ client_fits r ∧ drives maxSendFrameSize r.
Proof.
  intros [Hk Hr]. assert (H0 : main_ok (new_run ended t) ∧ tty_ok t (new_run ended t) ∧ poll_fits (new_run ended t) ∧ client_fits (new_run ended t) ∧
    drives maxSendFrameSize (new_run ended t)).
  { split_and!; try done; [split_and!; try done; [by intros [?|?]|]|by exists []]. intros e. simpl. destruct ended as [b|]; [|done]. intros [= <-]. eauto. }
  revert H0 Hk Hr. generalize (new_run ended t) as r0. induction ls as [|l ls IH]; intros r0 (H1 & H2 & H3 & H4 & H5) Hk Hr; cbn [run_steps] in Hr; [by injection Hr as <-|].
  apply Forall_cons in Hk as [Hk1 Hk]. destruct (run_step _ _ _ _ l r0) as [r1|] eqn:Es; [|done]. apply (IH r1); [|done|done].
  split_and!; [by eapply step_main_ok|by eapply step_tty_ok|by eapply step_poll_fits|by eapply step_client_fits|by eapply step_drives].
Qed.

(** C17: However a command ends and whatever fails on the way, [Run] puts everything
    back before it returns: the terminal was left alone or told to return to the
    mode it had, the client is closed and the context of the command has ended
    (unless [Run] refused its arguments and created nothing), the forwarders have
    returned, and the input is closed, with none of its descriptors left. *)
Theorem run_puts_back ended t ls r result (Hr : run_reaches ended t ls r) (Hm : rn_main r = MReturned result) :
  (rn_tty r = t ∨ tm_calls (rn_tty r) = tm_calls t ++ [CallRaw; CallRestore (tm_mode t)] ∧
     ∃ raw, rn_raw r = Some raw ∧ (rt_err raw = None → tm_mode (rn_tty r) = tm_mode t)) ∧
  ((rn_after r = ANone ∧ ∃ e, result = RunFailed e) ∨ cl_close (rn_client r) = true ∧ rn_ctx r ≠ None ∧ rn_after r ≠ AArmed) ∧
  (rn_fwd r = FNone ∨ rn_fwd r = FEnded) ∧ (rn_rsz r = ZNone ∨ rn_rsz r = ZEnded) ∧
  (∀ p, rn_poll r = Some p → pl_close p = CClosed ∧ pl_read p = RIdle ∧ ∀ n o, pl_table p !! n = Some o → o = OForeign).
Proof.
  destruct (reaches_ok _ _ _ _ Hr) as (Hmain & Htty & Hpoll & _ & _). unfold main_ok in Hmain. rewrite Hm in Hmain. destruct Hmain as [Ho Ha].
  assert (Hrest : restored r) by (destruct Ha as [(E & _)|Ha]; [by unfold restored; rewrite E|apply (Ha DRestore)]).
  assert (Hfwd : (rn_fwd r = FNone ∨ rn_fwd r = FEnded) ∧ (rn_rsz r = ZNone ∨ rn_rsz r = ZEnded)).
  { destruct result; [destruct Ho as (_ & ? & ?); auto|destruct Ho as (_ & ? & ?); auto]. }
  split_and!; [| |apply Hfwd|apply Hfwd|].
  - unfold tty_ok, restored in *. destruct (rn_raw r) as [raw|]; [|by left]. right. rewrite Hrest in Htty. destruct Htty as (_ & E & Hmode). eauto.
  - destruct Ha as [(_ & E & He)|Ha]; [by left|right]. split_and!; [apply (Ha DCloseClient)|apply (Ha DCancel)|apply (Ha DStopAfter)].
  - intros p Hp. unfold poll_fits in Hpoll. rewrite Hp in Hpoll. destruct Hpoll as ([f [Htab _ Hfor _ Hc _ _]] & _ & _ & Hidle & _).
    assert (Hcl : pl_close p = CClosed).
    { destruct result; simpl in Ho; [destruct Ho as (E & _); congruence|]. destruct Ho as (Hi & _). unfold input_closed in Hi. rewrite Hp in Hi. by injection Hi. }
    assert (Hid : pl_read p = RIdle) by (apply Hidle; destruct Hfwd as [[->| ->] _]; done).
    split_and!; [done..|]. intros n o. rewrite Htab. unfold closing_ok in Hc. rewrite Hcl in Hc. destruct Hc as (_ & C1 & C2 & C3 & _).
    unfold own, reading. rewrite C1, C2, C3, Hid, !andb_false_r. apply Hfor.
Qed.

(** C18: [Run] returns once its command has ended: when [wait] can return it takes
    two steps to end the context, and from then on, unless the kernel holds the
    input, some goroutine of [Run] always has a step to take and every such step
    brings [Run] nearer to its end, whatever the connection answers. *)
Theorem run_returns ended t ls r (Hr : run_reaches ended t ls r) :
  (rn_main r = MWait → cl_done (rn_client r) = true →
     ∃ r1 r2, run_step signalNum maxSendFrameSize request options XWait r = Some r1 ∧
       run_step signalNum maxSendFrameSize request options XCancel r1 = Some r2 ∧ leaving r2) ∧
  (leaving r → input_free r → ∃ l r', own_run l = true ∧ run_step signalNum maxSendFrameSize request options l r = Some r') ∧
  (rn_ctx r ≠ None → ∀ l r', own_run l = true → run_step signalNum maxSendFrameSize request options l r = Some r' → (run_left r' < run_left r)%nat).
Proof.
  destruct (reaches_ok _ _ _ _ Hr) as (Hmain & _ & Hpoll & Hfits & _). split_and!.
  - intros Hm Hd. eexists _, _. split_and!; [cbn [run_step]; rewrite Hm, Hd; reflexivity|reflexivity|]. unfold leaving. simpl.
    by apply (cancel_keeps context_Canceled).
  - intros Hl Hi. by apply leaving_moves.
  - intros Hc l r' Hl Hs. by eapply run_step_less.
Qed.

(** The result of [Run] is that of its command: it returns the exit that [wait]
    reported, at a point where the client was done, translated by
    [normalizeRemoteExit]; everything else is a failure before the input was
    opened. *)
Theorem run_reports ended t ls r exit (Hr : run_reaches ended t ls r) (Hm : rn_main r = MReturned (RunExited exit)) :
  ∃ ls1 ls2 r1, ls = ls1 ++ XWait :: ls2 ∧ run_reaches ended t ls1 r1 ∧ cl_done (rn_client r1) = true ∧
    exit = normalizeRemoteExit signalNum (cl_waitErr (rn_client r1)).
Proof.
  set (reported := λ (w : option command_error) (ls : list xlabel), ∃ ls1 ls2 r1, ls = ls1 ++ XWait :: ls2 ∧ run_reaches ended t ls1 r1 ∧
    cl_done (rn_client r1) = true ∧ w = cl_waitErr (rn_client r1)).
  assert (Hinv : match rn_main r with
    | MCancel w | MClose w | MWorkers w => reported w ls
    | MDefer _ (RunExited x) | MReturned (RunExited x) => ∃ w, reported w ls ∧ x = normalizeRemoteExit signalNum w
    | _ => True end).
  { clear Hm. revert r Hr. induction ls as [|l ls IH] using rev_ind; intros r [Hk Hr]; [by injection Hr as <-|].
    apply Forall_app in Hk as [Hk Hk1]. rewrite run_steps_app in Hr. destruct (run_steps _ _ _ _ ls _) as [r0|] eqn:E0; [|done].
    cbn [run_steps] in Hr. destruct (run_step _ _ _ _ l r0) as [r'|] eqn:Es; [|done]. injection Hr as <-. specialize (IH r0 (conj Hk E0)).
    assert (Hup : ∀ w, reported w ls → reported w (ls ++ [l])).
    { intros w (ls1 & ls2 & r1 & -> & H1 & H2 & H3). exists ls1, (ls2 ++ [l]), r1. by rewrite <- app_assoc. }
    assert (Hup' : ∀ x, (∃ w, reported w ls ∧ x = normalizeRemoteExit signalNum w) → ∃ w, reported w (ls ++ [l]) ∧ x = normalizeRemoteExit signalNum w)
      by (intros x (w & ? & ?); eauto).
    destruct (worker_label l) eqn:El.
    { rewrite (la_main _ _ (worker_later _ _ _ _ _ _ _ El Es)). destruct (rn_main r0) as [| | | | |w|w|w|ds [e|x]|[e|x]]; auto. }
    destruct l as [mr|order|err| | | |table dup pipe| | | | |res|l|e| | |size| | | |err| |l| | |err| |]; try done; cbn [run_step] in Es;
      destruct (rn_main r0) as [| | | | |w|w|w|ds [e|x]|[e|x]] eqn:Em; try done.
    - injection Es as <-. unfold run_begin. repeat case_match; simpl in *; simplify_eq; done.
    - injection Es as <-. unfold run_start, run_failed. destruct (EncodeClientStart _ _ _); [destruct (negb _)|]; done.
    - unfold run_started, run_failed in Es. destruct (cl_start _) as [| | |[?|]]; simplify_eq; done.
    - injection Es as <-. unfold run_input, run_failed. destruct (NewPollReader _ _ _ _) as [? [?|?]]; done.
    - destruct (cl_done (rn_client r0)) eqn:Ed; [|done]. injection Es as <-. simpl. exists ls, [], r0. done.
    - injection Es as <-. simpl. auto.
    - destruct (rn_poll r0) as [p|]; [|done]. destruct (bool_decide _); [injection Es as <-; simpl; auto|].
      destruct (on_poll_keeps _ _ _ Es) as (_ & _ & E3 & _). rewrite E3, Em. auto.
    - destruct (workers_done r0); [|done]. injection Es as <-. simpl. eauto.
    - destruct ds; injection Es as <-; done.
    - destruct ds; injection Es as <-; simpl; auto. }
  rewrite Hm in Hinv. destruct Hinv as (w & (ls1 & ls2 & r1 & E1 & E2 & E3 & ->) & ->). exists ls1, ls2, r1. done.
Qed.
End finishes.

(** ** What reaches the server *)

Section delivered.
Context `{HC : ProtoMessage ClientFrame, !ProtoLaws ClientFrame} `{HS : ProtoMessage ServerFrame} (signalNum : string → Z).
Context (maxSendFrameSize : Z) (request : StartRequest) (options : Options).

End delivered.

(** ** A concrete run *)

#[local] Existing Instance CommandClient.toy_client_frame.
#[local] Existing Instance CommandClient.toy_client_frame_laws.
#[local] Existing Instance CommandClient.toy_server_frame.

Definition toy_options : Options := MkOptions true true true true.

Definition toy_terminal : terminal := MkTerminal 7 [].

Definition pty_request : StartRequest := MkStartRequest StartShell "" (Some (MkPTYRequest "xterm" 24 80)) ∅.

(** The encoding of the request fails when the terminal is in raw mode. *)
Definition failing_run : list xlabel := [XBegin None; XStart []; XDefer None; XDefer None; XDefer None; XDefer None; XDefer None].

(** One byte is forwarded, and the command exits with status 7. *)
Definition started_run : list xlabel :=
  [XBegin None; XStart []; XStartSent None; XLoop (LReceived (Ok [x01])); XLoop (LHandled None); XLoop LSignaled; XStartTake; XStarted;
   XInput toy_table (Ok 3) (Ok (4, 5)); XRead; XPoll PLock; XPoll PArm; XPoll PEnter; XPoll (PReturn true false); XPoll PReadFile;
   XPoll (PFileRead [x61] None); XTook; XForward; XInputSent None; XHandle].

Definition exited_run : list xlabel := started_run ++ [XLoop (LReceived (Ok [x04])); XLoop (LHandled None); XLoop LFinished].

Definition ended_run : list xlabel :=
  exited_run ++ [XWait; XCancel; XAfter; XClose; XClose; XClose; XClose; XClose; XClose; XRead; XTook; XForward; XHandle; XForwardEnds;
   XWorkers; XDefer None; XDefer None; XDefer None; XDefer None; XDefer None].

Definition toy_run_of (request : StartRequest) (ls : list xlabel) : run :=
  default (new_run None toy_terminal) (run_steps (λ _, 0) 3 request toy_options ls (new_run None toy_terminal)).

Lemma toy_run_reaches request ls : Forall kernel_ok ls →
  is_Some (run_steps (λ _, 0) 3 request toy_options ls (new_run None toy_terminal)) →
  run_reaches (λ _, 0) 3 request toy_options None toy_terminal ls (toy_run_of request ls).
Proof. intros Hk [r Hr]. split; [done|]. unfold toy_run_of. by rewrite Hr. Qed.

Lemma run_puts_back_witness : tm_mode (rn_tty (toy_run_of pty_request failing_run)) = 7 ∧
  tm_calls (rn_tty (toy_run_of pty_request failing_run)) = [CallRaw; CallRestore 7] ∧ cl_close (rn_client (toy_run_of pty_request failing_run)) = true.
Proof.
  split; [vm_compute; reflexivity|].
  destruct (run_puts_back (λ _, 0) 3 pty_request toy_options None toy_terminal failing_run (toy_run_of pty_request failing_run)
    (RunFailed (OtherError (Wrapped (NewError "not supported") "encode command message")))) as (H1 & H2 & _).
  - apply toy_run_reaches; [repeat constructor|]. vm_compute. eauto.
  - vm_compute. reflexivity.
  - destruct H1 as [E|[E _]]; [discriminate E|]. split; [exact E|]. destruct H2 as [[E' _]|[E' _]]; [discriminate E'|exact E'].
Defined.

Lemma exited_reaches : run_reaches (λ _, 0) 3 shell_request toy_options None toy_terminal exited_run (toy_run_of shell_request exited_run).
Proof. apply toy_run_reaches; [repeat constructor; apply toy_fresh|]. vm_compute. eauto. Qed.

Lemma ended_reaches : run_reaches (λ _, 0) 3 shell_request toy_options None toy_terminal ended_run (toy_run_of shell_request ended_run).
Proof. apply toy_run_reaches; [repeat constructor; apply toy_fresh|]. vm_compute. eauto. Qed.

Lemma run_returns_witness : ∃ r1 r2, run_step (λ _, 0) 3 shell_request toy_options XWait (toy_run_of shell_request exited_run) = Some r1 ∧
  run_step (λ _, 0) 3 shell_request toy_options XCancel r1 = Some r2 ∧ leaving r2.
Proof.
  destruct (run_returns (λ _, 0) 3 shell_request toy_options None toy_terminal exited_run (toy_run_of shell_request exited_run) exited_reaches) as (H1 & _).
  apply H1; vm_compute; reflexivity.
Defined.

Lemma run_reports_witness : ∃ ls1 ls2 r1, ended_run = ls1 ++ XWait :: ls2 ∧
  Some (MkRemoteExit 7 (ExitStatusError 7) true) = normalizeRemoteExit (λ _, 0) (cl_waitErr (rn_client r1)).
Proof.
  destruct (run_reports (λ _, 0) 3 shell_request toy_options None toy_terminal ended_run (toy_run_of shell_request ended_run)
    (Some (MkRemoteExit 7 (ExitStatusError 7) true)) ended_reaches) as (ls1 & ls2 & r1 & E & _ & _ & Ex).
  - vm_compute. reflexivity.
  - exists ls1, ls2, r1. split; [exact E|exact Ex].
Defined.


(** The exit of a command is lost when the client was still sending input: the
    channel is closed, the send fails, and the exit that was received but not yet
    handled is not looked at. *)
Definition early_exit_run : list xlabel :=
  take 18 started_run ++ [XInputSent (Some (Sentinel "channel closed")); XLoop (LReceived (Ok [x04])); XLoop (LHandled None); XForwardEnds;
   XWait; XCancel; XClose; XClose; XClose; XClose; XClose; XClose; XWorkers; XDefer None; XDefer None; XDefer None; XDefer None; XDefer None].

Lemma early_exit_lost : rn_main (toy_run_of shell_request early_exit_run) =
  MReturned (RunExited (Some (MkRemoteExit 255 (OtherError (Wrapped (Sentinel "channel closed") "send command stdin")) false))).
Proof. vm_compute. reflexivity. Qed.
