(* ===== verification/SecureFiles.v ===== *)
(** * Files that may be trusted (lib/strictfiles, app/securefiles)

    [CheckedFile] with its operations (files.go) and [Read] (read.go), over a
    kernel with a table of open descriptors.  What a path or a directory entry
    resolves to, what an object looks like, what can be read from it and which
    errors occur are answers of the kernel, a parameter whose state may change with
    every call, so that other processes may change the file system at any time.
    The state keeps a trace of the calls that succeeded. *)

From S2P Require Import Prelude GoStrings.

(** ** The system calls (golang.org/x/sys/unix, Linux on amd64) *)

Definition O_RDONLY : Z := 0.
Definition O_NONBLOCK : Z := 0x800.
Definition O_DIRECTORY : Z := 0x10000.
Definition O_NOFOLLOW : Z := 0x20000.
Definition O_CLOEXEC : Z := 0x80000.
Definition O_PATH : Z := 0x200000.

Definition S_IFMT : Z := 0xf000.
Definition S_IFDIR : Z := 0x4000.
Definition S_IFREG : Z := 0x8000.
Definition S_IRGRP : Z := 0x20.
Definition S_IWGRP : Z := 0x10.
Definition S_IROTH : Z := 0x4.
Definition S_IWOTH : Z := 0x2.

Definition RESOLVE_NO_MAGICLINKS : Z := 0x2.
Definition RESOLVE_NO_SYMLINKS : Z := 0x4.
Definition RESOLVE_BENEATH : Z := 0x8.

Definition EINVAL : error := Sentinel "invalid argument".
Definition EXDEV : error := Sentinel "invalid cross-device link".
Definition ENOSYS : error := Sentinel "function not implemented".
Definition EBADF : error := Sentinel "bad file descriptor".

(** [unix.Stat_t], the fields that are read. *)
Record Stat_t := MkStat { st_Mode : Z; st_Uid : Z; st_Size : Z }.

(** [Obj] is an open file description; [World] is everything else. *)
Class Kernel := {
  Obj : Type;
  World : Type;
  k_open : World → string → Z → Z → World * res Obj;
  k_openat : World → Obj → string → Z → World * res Obj;
  k_openat2 : World → Obj → string → Z → Z → World * res Obj;
  k_fstat : World → Obj → World * res Stat_t;
  k_close : World → Obj → World * res unit;
  k_read : World → Obj → Z → World * res bytes;
  (** the descriptor a successful open gets *)
  k_descriptor : World → gset Z → Z;
  (** how much [io.ReadAll] asks for, with so much read already *)
  read_room : Z → Z;
}.

(** open(2): a new descriptor is a non-negative number that is not in use. *)
Class KernelLaws `{Kernel} := {
  descriptor_fresh : ∀ w used, k_descriptor w used ∉ used;
  descriptor_nonneg : ∀ w used, 0 <= k_descriptor w used;
}.

Section kernel.
Context `{Kernel}.

Inductive event :=
  | EvOpen (path : string) (flags : Z) (o : Obj)
  | EvOpenat (dir : Obj) (name : string) (flags : Z) (o : Obj)
  | EvOpenat2 (dir : Obj) (name : string) (flags resolve : Z) (o : Obj)
  | EvFstat (o : Obj) (st : Stat_t)
  | EvClose (o : Obj)
  | EvRead (o : Obj) (data : bytes)
  | EvBad (fd : Z).

Record Sys := MkSys { world : World; fds : gmap Z Obj; trace : list event }.

(** An open that succeeds takes a descriptor. *)
Definition install (s : Sys) (answer : World * res Obj) (ev : Obj → event) : Sys * res Z :=
  match answer with
  | (w, Ok o) =>
      let fd := k_descriptor w (dom (fds s)) in
      (MkSys w (<[fd := o]> (fds s)) (trace s ++ [ev o]), Ok fd)
  | (w, Err e) => (MkSys w (fds s) (trace s), Err e)
  end.

(** A call on a descriptor; the trace shows a call on one that is not open. *)
Definition on_fd {A} (fd : Z) (k : Obj → ST Sys A) : ST Sys A :=
  λ s, match fds s !! fd with Some o => k o s | None => (MkSys (world s) (fds s) (trace s ++ [EvBad fd]), Err EBADF) end.

Definition unix_Open (path : string) (flags perm : Z) : ST Sys Z :=
  λ s, install s (k_open (world s) path flags perm) (EvOpen path flags).

Definition unix_Openat (dirfd : Z) (name : string) (flags : Z) : ST Sys Z :=
  on_fd dirfd (λ dir s, install s (k_openat (world s) dir name flags) (EvOpenat dir name flags)).

Definition unix_Openat2 (dirfd : Z) (name : string) (flags resolve : Z) : ST Sys Z :=
  on_fd dirfd (λ dir s, install s (k_openat2 (world s) dir name flags resolve) (EvOpenat2 dir name flags resolve)).

Definition unix_Fstat (fd : Z) : ST Sys Stat_t :=
  on_fd fd (λ o s, match k_fstat (world s) o with
                   | (w, Ok st) => (MkSys w (fds s) (trace s ++ [EvFstat o st]), Ok st)
                   | (w, Err e) => (MkSys w (fds s) (trace s), Err e)
                   end).

(** close(2) on Linux releases the descriptor even when it reports an error. *)
Definition unix_Close (fd : Z) : ST Sys unit :=
  on_fd fd (λ o s, let '(w, r) := k_close (world s) o in
                   (MkSys w (delete fd (fds s)) (trace s ++ [EvClose o]), r)).

Definition unix_Read (fd : Z) (n : Z) : ST Sys bytes :=
  on_fd fd (λ o s, match k_read (world s) o n with
                   | (w, Ok data) => (MkSys w (fds s) (trace s ++ [EvRead o data]), Ok data)
                   | (w, Err e) => (MkSys w (fds s) (trace s), Err e)
                   end).

(** [_ = unix.Close(fd)] *)
Definition close_ignored (fd : Z) : ST Sys unit := _ ← st_try (unix_Close fd); mret tt.

(** ** lib/strictfiles/files.go *)

Definition invalidFD : Z := -1.

Record CheckedFile := MkCheckedFile { cf_fd : Z; cf_name : string; cf_open : bool; cf_st : Stat_t }.

Record CheckOptions := MkCheckOptions {
  WantDir : bool; OwnerID : Z; AllowSymlinks : bool; AllowGlobalRead : bool; MaxSize : Z;
}.

Definition has_bits (mode mask : Z) : bool := negb (Z.land mode mask =? 0).

Definition checkStat (st : Stat_t) (opt : CheckOptions) : res unit :=
  let fileType := Z.land (st_Mode st) S_IFMT in
  (if WantDir opt then reject_if (negb (fileType =? S_IFDIR)) (NewError "expected directory")
   else reject_if (negb (fileType =? S_IFREG)) (NewError "expected regular file")) ≫= λ _,
  reject_if (negb (st_Uid st =? 0) && negb (st_Uid st =? OwnerID opt)) (NewError "owner uid is neither root nor expected uid") ≫= λ _,
  reject_if (has_bits (st_Mode st) (Z.lor S_IWGRP S_IWOTH)) (NewError "group or other write permission is set") ≫= λ _,
  reject_if (negb (AllowGlobalRead opt) && has_bits (st_Mode st) (Z.lor S_IRGRP S_IROTH))
    (NewError "group or other read permission is set") ≫= λ _,
  reject_if (negb (MaxSize opt =? 0) && ((st_Size st <? 0) || (MaxSize opt <? st_Size st))) (NewError "size exceeds maximum").

Definition checkOpened (fd : Z) (name : string) (opt : CheckOptions) : ST Sys CheckedFile :=
  st ← st_try (unix_Fstat fd);
  match st with
  | Err e => _ ← close_ignored fd; st_fail (Wrapped e "stat opened file")
  | Ok st =>
      match checkStat st opt with
      | Err e => _ ← close_ignored fd; st_fail (Wrapped e "check opened file")
      | Ok _ => mret (MkCheckedFile fd name true st)
      end
  end.

Definition openChecked (path : string) (oflags perm : Z) (opt : CheckOptions) : ST Sys CheckedFile :=
  let flags := Z.lor (Z.lor oflags O_CLOEXEC) O_NONBLOCK in
  let flags := if WantDir opt then Z.lor flags O_DIRECTORY else flags in
  let flags := if AllowSymlinks opt then flags else Z.lor flags O_NOFOLLOW in
  r ← st_try (unix_Open path flags perm);
  match r with
  | Err e => st_fail (Wrapped e "open")
  | Ok fd => checkOpened fd path opt
  end.

Definition with_WantDir (opt : CheckOptions) (b : bool) : CheckOptions :=
  MkCheckOptions b (OwnerID opt) (AllowSymlinks opt) (AllowGlobalRead opt) (MaxSize opt).

Definition OpenDirWithOptions (path : string) (opt : CheckOptions) : ST Sys CheckedFile :=
  openChecked path O_PATH 0 (with_WantDir opt true).

Definition OpenDir (euid : Z) (path : string) : ST Sys CheckedFile :=
  OpenDirWithOptions path (MkCheckOptions true (u32 euid) true true 0).

Definition OpenFile (path : string) (opt : CheckOptions) : ST Sys CheckedFile :=
  openChecked path O_RDONLY 0 (with_WantDir opt false).

(** The loop over the components of the name. *)
Fixpoint path_components (components : list string) : res (list string) :=
  match components with
  | [] => Ok []
  | component :: rest =>
      if bool_decide (component = ""%string) || bool_decide (component = "."%string) then path_components rest
      else if bool_decide (component = ".."%string) then Err EXDEV
      else path_components rest ≫= λ cs, mret (component :: cs)
  end.

(** The loop over the directories: the descriptor it ends with, whether the
    function owns it, and the error of an open. *)
Fixpoint descend (currentFD : Z) (ownsCurrent : bool) (dirs : list string) : ST Sys (Z * bool * option error) :=
  match dirs with
  | [] => mret (currentFD, ownsCurrent, None)
  | component :: rest =>
      r ← st_try (unix_Openat currentFD component (Z.lor (Z.lor (Z.lor O_PATH O_DIRECTORY) O_NOFOLLOW) O_CLOEXEC));
      match r with
      | Err e => mret (currentFD, ownsCurrent, Some e)
      | Ok nextFD =>
          _ ← (if ownsCurrent then close_ignored currentFD else mret tt);
          descend nextFD true rest
      end
  end.

Definition openAtNoSymlinks (dirfd : Z) (name : string) (flags : Z) : ST Sys Z :=
  if bool_decide (name = ""%string) || IsAbs name then st_fail EINVAL
  else
    match path_components (split_path name) with
    | Err e => st_fail e
    | Ok [] => unix_Openat dirfd "." flags
    | Ok (c :: cs) =>
        '(currentFD, ownsCurrent, err) ← descend dirfd false (removelast (c :: cs));
        r ← match err with
            | Some e => mret (Err e)
            | None => st_try (unix_Openat currentFD (List.last (c :: cs) c) flags)
            end;
        _ ← (if ownsCurrent : bool then close_ignored currentFD else mret tt);
        st_lift r
    end.

Definition open_flags (opt : CheckOptions) : Z :=
  let flags := Z.lor (Z.lor (Z.lor O_RDONLY O_CLOEXEC) O_NONBLOCK) O_NOFOLLOW in
  if WantDir opt then Z.lor flags O_DIRECTORY else flags.

Definition open_resolve : Z := Z.lor (Z.lor RESOLVE_BENEATH RESOLVE_NO_MAGICLINKS) RESOLVE_NO_SYMLINKS.

(** [None] is the nil pointer. *)
Definition OpenAt (cf : option CheckedFile) (name : string) (opt : CheckOptions) : ST Sys CheckedFile :=
  match cf with
  | None => st_fail (NewError "open relative to closed directory")
  | Some cf =>
      if negb (cf_open cf) then st_fail (NewError "open relative to closed directory")
      else if negb (Z.land (st_Mode (cf_st cf)) S_IFMT =? S_IFDIR) then st_fail (NewError "open relative to non-directory")
      else if AllowSymlinks opt then st_fail (NewError "OpenAt does not allow symlinks")
      else
        r ← st_try (unix_Openat2 (cf_fd cf) name (open_flags opt) open_resolve);
        r ← match r with
            | Err e => if err_is e ENOSYS then st_try (openAtNoSymlinks (cf_fd cf) name (open_flags opt)) else mret r
            | Ok _ => mret r
            end;
        match r with
        | Err e => st_fail (Wrapped e "open beneath")
        | Ok fd => checkOpened fd name opt
        end
  end.

(** [Close] and [ToFile] change the object they are called on: it is returned. *)
Definition cf_Close (cf : CheckedFile) : ST Sys (CheckedFile * option error) :=
  if negb (cf_open cf) then mret (cf, None)
  else
    let cf' := MkCheckedFile invalidFD (cf_name cf) false (cf_st cf) in
    r ← st_try (unix_Close (cf_fd cf));
    mret (cf', match r with Err e => Some (Wrapped e "close") | Ok _ => None end).

(** The descriptor of the new [*os.File]; [os.NewFile] refuses a negative one. *)
Definition ToFile (cf : CheckedFile) : CheckedFile * option Z :=
  if negb (cf_open cf) then (cf, None)
  else (MkCheckedFile invalidFD (cf_name cf) false (cf_st cf), if cf_fd cf <? 0 then None else Some (cf_fd cf)).

(** ** app/securefiles/read.go *)

Record Policy := MkPolicy { p_OwnerID : Z; p_MaxSize : Z; p_AllowGlobalRead : bool }.

Definition cleanComponents (path : string) : list string :=
  match path_components (split_path (Clean path)) with Ok cs => cs | Err _ => [] end.

(** Two's complement of 64 bits. *)
Definition int64 (z : Z) : Z := (z + 9223372036854775808) mod 18446744073709551616 - 9223372036854775808.

(** [io.ReadAll] of an [io.LimitedReader] with [n] bytes left: an exhausted limit
    and a read of nothing are the end of the file. *)
Fixpoint ReadAll (fuel : nat) (fd n : Z) (acc : bytes) : ST Sys bytes :=
  if n <=? 0 then mret acc
  else
    match fuel with
    | O => st_fail (Sentinel "out of fuel")
    | S fuel =>
        data ← unix_Read fd (Z.min (read_room (blen acc)) n);
        if bool_decide (data = []) then mret acc
        else ReadAll fuel fd (n - blen data) (acc ++ data)
    end.

Definition dir_options (policy : Policy) (wantDir symlinks : bool) : CheckOptions :=
  MkCheckOptions wantDir (p_OwnerID policy) symlinks true 0.

Definition file_options (policy : Policy) : CheckOptions :=
  MkCheckOptions false (p_OwnerID policy) false (p_AllowGlobalRead policy) (p_MaxSize policy).

(** The loop over the directories, with the file [current] points to. *)
Fixpoint walk (policy : Policy) (current : CheckedFile) (dirs : list string) : ST Sys (CheckedFile * option error) :=
  match dirs with
  | [] => mret (current, None)
  | component :: rest =>
      r ← st_try (OpenAt (Some current) component (dir_options policy true false));
      match r with
      | Err e => mret (current, Some (Wrapped e "open secure file directory"))
      | Ok next =>
          '(current, err) ← cf_Close current;
          match err with
          | Some e => _ ← cf_Close next; mret (current, Some e)
          | None => walk policy next rest
          end
      end
  end.

(** What follows the loop, up to the deferred close of [current]. *)
Definition read_last (policy : Policy) (current : CheckedFile) (component : string) : ST Sys bytes :=
  r ← st_try (OpenAt (Some current) component (file_options policy));
  match r with
  | Err e => st_fail (Wrapped e "open secure file")
  | Ok checked =>
      match ToFile checked with
      | (_, None) => st_fail (NewError "secure file descriptor is unavailable")
      | (_, Some fd) =>
          let limit := int64 (int64 (p_MaxSize policy) + 1) in
          r ← st_try (ReadAll (Z.to_nat limit) fd limit []);
          _ ← close_ignored fd;
          match r with
          | Err e => st_fail (Wrapped e "read secure file")
          | Ok contents =>
              if p_MaxSize policy <? blen contents then st_fail (NewError "secure file exceeds maximum size")
              else mret contents
          end
      end
  end.

Definition securefiles_read (anchorPath relativePath : string) (policy : Policy) : ST Sys bytes :=
  if bool_decide (anchorPath = ""%string) then st_fail (NewError "secure file anchor is required")
  else if bool_decide (relativePath = ""%string) || IsAbs relativePath then
    st_fail (NewError "secure file path must be relative to its anchor")
  else if p_MaxSize policy =? 0 then st_fail (NewError "secure file maximum size is required")
  else
    match cleanComponents relativePath with
    | [] => st_fail (NewError "secure file path is empty")
    | c :: cs =>
        r ← st_try (OpenDirWithOptions anchorPath (dir_options policy false true));
        match r with
        | Err e => st_fail (Wrapped e "open secure file anchor")
        | Ok anchor =>
            '(current, err) ← walk policy anchor (removelast (c :: cs));
            r ← match err with
                | Some e => mret (Err e)
                | None => st_try (read_last policy current (List.last (c :: cs) c))
                end;
            _ ← cf_Close current;
            st_lift r
        end
    end.
End kernel.

(** ** Checked metadata *)

Lemma land_pow2 m a : 0 <= a → Z.land m (2 ^ a) = 0 ↔ Z.testbit m a = false.
Proof.
  intros Ha. split.
  - intros E. apply (f_equal (λ z, Z.testbit z a)) in E.
    by rewrite Z.land_spec, Z.pow2_bits_true, Z.bits_0, andb_true_r in E.
  - intros E. apply Z.bits_inj'. intros i Hi. rewrite Z.land_spec, Z.bits_0, Z.pow2_bits_eqb by done.
    destruct (Z.eqb_spec a i) as [<-|_]; [by rewrite E|by rewrite andb_false_r].
Qed.

Lemma has_bits_pow2 m a b : 0 <= a → 0 <= b →
  has_bits m (Z.lor (2 ^ a) (2 ^ b)) = false ↔ Z.testbit m a = false ∧ Z.testbit m b = false.
Proof.
  intros Ha Hb. unfold has_bits. rewrite negb_false_iff, Z.eqb_eq, Z.land_lor_distr_r, Z.lor_eq_0_iff.
  rewrite !land_pow2; done.
Qed.

(** What the metadata of a checked file guarantees, bit by bit. *)
Record trusted_stat (st : Stat_t) (opt : CheckOptions) : Prop := {
  ts_type : Z.land (st_Mode st) S_IFMT = if WantDir opt then S_IFDIR else S_IFREG;
  ts_owner : st_Uid st = 0 ∨ st_Uid st = OwnerID opt;
  ts_write : Z.testbit (st_Mode st) 4 = false ∧ Z.testbit (st_Mode st) 1 = false;
  ts_read : AllowGlobalRead opt = false → Z.testbit (st_Mode st) 5 = false ∧ Z.testbit (st_Mode st) 2 = false;
  ts_size : MaxSize opt ≠ 0 → 0 <= st_Size st <= MaxSize opt;
}.

Lemma checkStat_iff st opt : checkStat st opt = Ok tt ↔ trusted_stat st opt.
Proof.
  unfold checkStat.
  pose proof (has_bits_pow2 (st_Mode st) 4 1 ltac:(lia) ltac:(lia)) as Hw.
  pose proof (has_bits_pow2 (st_Mode st) 5 2 ltac:(lia) ltac:(lia)) as Hr.
  change (Z.lor (2 ^ 4) (2 ^ 1)) with (Z.lor S_IWGRP S_IWOTH) in Hw.
  change (Z.lor (2 ^ 5) (2 ^ 2)) with (Z.lor S_IRGRP S_IROTH) in Hr.
  assert (Ht : ∀ B (f : unit → res B) b,
    ((if WantDir opt then reject_if (negb (Z.land (st_Mode st) S_IFMT =? S_IFDIR)) (NewError "expected directory")
      else reject_if (negb (Z.land (st_Mode st) S_IFMT =? S_IFREG)) (NewError "expected regular file")) ≫= f = Ok b) ↔
    (Z.land (st_Mode st) S_IFMT = if WantDir opt then S_IFDIR else S_IFREG) ∧ f tt = Ok b).
  { intros B f b. destruct (WantDir opt); rewrite reject_if_then, negb_false_iff, Z.eqb_eq; done. }
  rewrite Ht, !reject_if_then, reject_if_ok, Hw. clear Ht Hw. split.
  - intros (? & Ho & ? & Hrd & Hs). constructor; [done| |done| |].
    + apply andb_false_iff in Ho as [Ho|Ho]; bool_simp; lia.
    + intros Hg. apply Hr. by rewrite Hg in Hrd.
    + intros Hm. apply andb_false_iff in Hs as [Hs|Hs]; bool_simp; lia.
  - intros [? Ho [? ?] Hrd Hs]. split_and!; try done.
    + apply andb_false_iff. destruct Ho as [-> | ->]; [left|right]; by rewrite Z.eqb_refl.
    + destruct (AllowGlobalRead opt); [done|]. apply Hr. auto.
    + destruct (Z.eqb_spec (MaxSize opt) 0) as [|Hm]; [done|]. simpl. specialize (Hs Hm). apply orb_false_iff. lia.
Qed.

(** ** Names *)

(** A name that denotes an entry of a directory. *)
Definition simple_name (c : string) : Prop :=
  c ≠ ""%string ∧ c ≠ "."%string ∧ c ≠ ".."%string ∧ contains slash c = false.

Lemma split_path_no_slash s c : c ∈ split_path s → contains slash c = false.
Proof.
  revert c. induction s as [|a s IH]; intros c; simpl; [by intros ->%list_elem_of_singleton|].
  case_bool_decide as Ha.
  - intros [->|Hc]%elem_of_cons; [done|auto].
  - destruct (split_path s) as [|d ds] eqn:E.
    + intros ->%list_elem_of_singleton. simpl. by rewrite bool_decide_false.
    + intros [->|Hc]%elem_of_cons; [|apply IH; by right]. simpl. rewrite bool_decide_false by done. apply IH. by left.
Qed.

Lemma split_path_simple s : contains slash s = false → split_path s = [s].
Proof.
  induction s as [|a s IH]; [done|]. simpl. case_bool_decide; [done|]. intros E. by rewrite IH.
Qed.

Lemma path_components_simple l cs : path_components l = Ok cs →
  ∀ c, c ∈ cs → c ∈ l ∧ c ≠ ""%string ∧ c ≠ "."%string ∧ c ≠ ".."%string.
Proof.
  revert cs. induction l as [|d l IH]; intros cs; simpl; [intros [= <-] c ?%elem_of_nil; done|].
  destruct (bool_decide (d = "")%string || bool_decide (d = ".")%string) eqn:E.
  - intros Hcs c Hc. destruct (IH _ Hcs c Hc) as (?&?&?&?). split_and!; [by right|done..].
  - bool_simp. case_bool_decide; [done|]. intros Hcs. apply res_bind_ok in Hcs as (cs' & Hcs & [= <-]).
    intros c [->|Hc]%elem_of_cons; [split_and!; [left|done..]|].
    destruct (IH _ Hcs c Hc) as (?&?&?&?). split_and!; [by right|done..].
Qed.

Lemma cleanComponents_simple path c : c ∈ cleanComponents path → simple_name c.
Proof.
  unfold cleanComponents. destruct (path_components _) as [cs|] eqn:E; [|by intros ?%elem_of_nil].
  intros Hc. destruct (path_components_simple _ _ E _ Hc) as (Hin & ? & ? & ?).
  split_and!; try done. by eapply split_path_no_slash.
Qed.

Lemma simple_components c : simple_name c → path_components (split_path c) = Ok [c].
Proof.
  intros (? & ? & ? & Hs). rewrite split_path_simple by done. simpl.
  rewrite !bool_decide_false by done. done.
Qed.

(** ** What each call does to the table and the trace

    [calls] is the trace without the closes; [grown s s' evs] says that the calls
    from [s] to [s'] were [evs]. *)

Section calls.
Context `{KernelLaws}.

Definition is_call (ev : event) : bool := match ev with EvClose _ => false | _ => true end.
Definition calls (s : Sys) : list event := List.filter is_call (trace s).
Definition grown (s s' : Sys) (evs : list event) : Prop := calls s' = calls s ++ evs.

(** No call was made on a descriptor that is not open. *)
Definition good (ev : event) : bool := match ev with EvBad _ => false | _ => true end.

Lemma grown_refl s : grown s s [].
Proof. unfold grown. by rewrite app_nil_r. Qed.

Lemma grown_trans s1 s2 s3 e1 e2 : grown s1 s2 e1 → grown s2 s3 e2 → grown s1 s3 (e1 ++ e2).
Proof. unfold grown. intros -> ->. by rewrite app_assoc. Qed.

Lemma grown_trans_nil s1 s2 s3 e1 : grown s1 s2 e1 → grown s2 s3 [] → grown s1 s3 e1.
Proof. intros G1 G2. pose proof (grown_trans _ _ _ _ _ G1 G2) as G. by rewrite app_nil_r in G. Qed.

Lemma grown_call w f s ev : is_call ev = true → grown s (MkSys w f (trace s ++ [ev])) [ev].
Proof. intros E. unfold grown, calls. simpl. rewrite List.filter_app. simpl. by rewrite E. Qed.

Lemma grown_close w f s o : grown s (MkSys w f (trace s ++ [EvClose o])) [].
Proof. unfold grown, calls. simpl. rewrite List.filter_app. done. Qed.

Lemma grown_same w f s : grown s (MkSys w f (trace s)) [].
Proof. unfold grown, calls. simpl. by rewrite app_nil_r. Qed.

(** A successful open. *)
Record fresh_open (s s' : Sys) (fd : Z) (o : Obj) (evs : list event) : Prop := {
  fo_fds : fds s' = <[fd := o]> (fds s);
  fo_new : fds s !! fd = None;
  fo_nonneg : 0 <= fd;
  fo_grown : grown s s' evs;
}.

(** A call that leaves the table as it was. *)
Definition unchanged (s s' : Sys) (evs : list event) : Prop := fds s' = fds s ∧ grown s s' evs.

Lemma wp_install s answer ev (Q : res Z → Sys → Prop) : (∀ o, is_call (ev o) = true) →
  (∀ s' fd o, fresh_open s s' fd o [ev o] → Q (Ok fd) s') → (∀ s' e, unchanged s s' [] → Q (Err e) s') →
  Q (install s answer ev).2 (install s answer ev).1.
Proof.
  intros Hev Hok Herr. unfold install. destruct answer as [w [o|e]]; simpl.
  - apply (Hok _ _ o). split; simpl; [done| | |by apply grown_call].
    + apply not_elem_of_dom. apply descriptor_fresh.
    + apply descriptor_nonneg.
  - apply Herr. split; [done|]. apply grown_same.
Qed.

Lemma wp_Open path flags perm s (Q : res Z → Sys → Prop) :
  (∀ s' fd o, fresh_open s s' fd o [EvOpen path flags o] → Q (Ok fd) s') → (∀ s' e, unchanged s s' [] → Q (Err e) s') →
  wp (unix_Open path flags perm) Q s.
Proof. intros. by apply (wp_install s _ (EvOpen path flags) Q). Qed.

Lemma wp_on_fd {A} fd (k : Obj → ST Sys A) Q s o : fds s !! fd = Some o → wp (k o) Q s → wp (on_fd fd k) Q s.
Proof. unfold wp, on_fd. by intros ->. Qed.

Lemma wp_Openat dirfd name flags s dir (Q : res Z → Sys → Prop) : fds s !! dirfd = Some dir →
  (∀ s' fd o, fresh_open s s' fd o [EvOpenat dir name flags o] → Q (Ok fd) s') → (∀ s' e, unchanged s s' [] → Q (Err e) s') →
  wp (unix_Openat dirfd name flags) Q s.
Proof. intros. eapply wp_on_fd; [done|]. by apply (wp_install s _ (EvOpenat dir name flags) Q). Qed.

Lemma wp_Openat2 dirfd name flags resolve s dir (Q : res Z → Sys → Prop) : fds s !! dirfd = Some dir →
  (∀ s' fd o, fresh_open s s' fd o [EvOpenat2 dir name flags resolve o] → Q (Ok fd) s') →
  (∀ s' e, unchanged s s' [] → Q (Err e) s') → wp (unix_Openat2 dirfd name flags resolve) Q s.
Proof. intros. eapply wp_on_fd; [done|]. by apply (wp_install s _ (EvOpenat2 dir name flags resolve) Q). Qed.

Lemma wp_Fstat fd s o (Q : res Stat_t → Sys → Prop) : fds s !! fd = Some o →
  (∀ s' st, unchanged s s' [EvFstat o st] → Q (Ok st) s') → (∀ s' e, unchanged s s' [] → Q (Err e) s') →
  wp (unix_Fstat fd) Q s.
Proof.
  intros Ho Hok Herr. eapply wp_on_fd; [done|]. unfold wp. destruct (k_fstat _ _) as [w [st|e]]; simpl.
  - apply Hok. split; [done|]. by apply grown_call.
  - apply Herr. split; [done|]. apply grown_same.
Qed.

Lemma wp_Read fd n s o (Q : res bytes → Sys → Prop) : fds s !! fd = Some o →
  (∀ s' data, unchanged s s' [EvRead o data] → Q (Ok data) s') → (∀ s' e, unchanged s s' [] → Q (Err e) s') →
  wp (unix_Read fd n) Q s.
Proof.
  intros Ho Hok Herr. eapply wp_on_fd; [done|]. unfold wp. destruct (k_read _ _ _) as [w [st|e]]; simpl.
  - apply Hok. split; [done|]. by apply grown_call.
  - apply Herr. split; [done|]. apply grown_same.
Qed.

Lemma wp_Close fd s o (Q : res unit → Sys → Prop) : fds s !! fd = Some o →
  (∀ s' r, fds s' = delete fd (fds s) → grown s s' [] → Q r s') → wp (unix_Close fd) Q s.
Proof.
  intros Ho Hk. eapply wp_on_fd; [done|]. unfold wp. destruct (k_close _ _) as [w r]. simpl.
  apply Hk; [done|]. apply grown_close.
Qed.

Lemma wp_close_ignored fd s o (Q : res unit → Sys → Prop) : fds s !! fd = Some o →
  (∀ s', fds s' = delete fd (fds s) → grown s s' [] → Q (Ok tt) s') → wp (close_ignored fd) Q s.
Proof. intros Ho Hk. apply wp_bind, wp_try, (wp_Close _ _ _ _ Ho). intros s' r Hf Hg. by apply wp_ret, Hk. Qed.
End calls.


Section opens.
Context `{KernelLaws}.

Definition all_good (evs : list event) : Prop := Forall (λ ev, good ev = true) evs.

(** The call was refused: what it opened is closed again. *)
Definition refused (s s' : Sys) : Prop := fds s' = fds s ∧ ∃ evs, grown s s' evs ∧ all_good evs.

Lemma refused_intro s s' evs : unchanged s s' evs → all_good evs → refused s s'.
Proof. intros [? ?] ?. split; [done|]. eauto. Qed.

Lemma refused_open s s1 s2 fd o evs evs' : fresh_open s s1 fd o evs → all_good evs → grown s1 s2 evs' → all_good evs' →
  fds s2 = delete fd (fds s1) → refused s s2.
Proof.
  intros [Ef Hn _ Hg] Hall Hg' Hall' E. split.
  - by rewrite E, Ef, delete_insert_id.
  - exists (evs ++ evs'). split; [by eapply grown_trans|]. by apply Forall_app.
Qed.

Record checked_open (s s' : Sys) (opt : CheckOptions) (cf : CheckedFile) (o : Obj) (evs : list event) : Prop := {
  co_fresh : fresh_open s s' (cf_fd cf) o (evs ++ [EvFstat o (cf_st cf)]);
  co_open : cf_open cf = true;
  co_stat : trusted_stat (cf_st cf) opt;
}.

Lemma wp_checkOpened s0 s fd o evs name opt (Q : res CheckedFile → Sys → Prop) : fresh_open s0 s fd o evs → all_good evs →
  (∀ s' cf, checked_open s0 s' opt cf o evs → Q (Ok cf) s') → (∀ s' e, refused s0 s' → Q (Err e) s') →
  wp (checkOpened fd name opt) Q s.
Proof.
  intros Hf Hall Hok Herr. pose proof Hf as [Ef Hn Hp Hg].
  assert (Ho : fds s !! fd = Some o) by (by rewrite Ef, lookup_insert_eq).
  apply wp_bind, wp_try, (wp_Fstat _ _ _ _ Ho).
  - intros s1 st [E1 G1]. assert (Hf1 : fresh_open s0 s1 fd o (evs ++ [EvFstat o st])).
    { split; [congruence|done|done|by eapply grown_trans]. }
    destruct (checkStat st opt) as [[]|e] eqn:Ec.
    + apply wp_ret, Hok. split; [done|done|]. by apply checkStat_iff.
    + apply wp_bind, (wp_close_ignored fd s1 o); [by rewrite E1|]. intros s2 E2 G2. apply wp_fail, Herr.
      eapply (refused_open _ _ _ _ _ _ [] Hf1); [|done|by constructor|done]. apply Forall_app. split; [done|]. by repeat constructor.
  - intros s1 e [E1 G1]. apply wp_bind, (wp_close_ignored fd s1 o); [by rewrite E1|]. intros s2 E2 G2. apply wp_fail, Herr.
    eapply (refused_open _ _ _ _ _ _ [] Hf); [done| |by constructor|congruence]. by eapply grown_trans_nil.
Qed.

(** The walk of the fallback over the directories of a name. *)
Definition descend_flags : Z := Z.lor (Z.lor (Z.lor O_PATH O_DIRECTORY) O_NOFOLLOW) O_CLOEXEC.

Inductive descended : Obj → list string → Obj → list event → Prop :=
  | descended_nil o : descended o [] o []
  | descended_cons o c o' cs o'' evs : descended o' cs o'' evs →
      descended o (c :: cs) o'' (EvOpenat o c descend_flags o' :: evs).

Lemma descended_good o cs o' evs : descended o cs o' evs → all_good evs.
Proof. induction 1; by constructor. Qed.

(** The function holds [cur], which it must close if it owns it. *)
Definition holds (F : gmap Z Obj) (s : Sys) (cur : Z) (owns : bool) (o : Obj) : Prop :=
  if owns then fds s = <[cur := o]> F ∧ F !! cur = None else fds s = F ∧ F !! cur = Some o.

Lemma holds_lookup F s cur owns o : holds F s cur owns o → fds s !! cur = Some o.
Proof. destruct owns; intros [-> ?]; [by rewrite lookup_insert_eq|done]. Qed.

Lemma wp_release F s0 s cur owns o (Q : res unit → Sys → Prop) : holds F s0 cur owns o →
  fds s !! cur = fds s0 !! cur →
  (∀ s', fds s' = (if owns then delete cur (fds s) else fds s) → grown s s' [] → Q (Ok tt) s') →
  wp (if owns then close_ignored cur else mret tt) Q s.
Proof.
  intros Hh Hs HQ. destruct owns.
  - apply (wp_close_ignored _ _ o); [|done]. rewrite Hs. by eapply holds_lookup.
  - apply wp_ret, HQ; [done|apply grown_refl].
Qed.

Lemma wp_descend F dirs : ∀ s cur owns o (Q : res (Z * bool * option error) → Sys → Prop), holds F s cur owns o →
  (∀ s' cur' owns' o' evs err, holds F s' cur' owns' o' → grown s s' evs → all_good evs →
     (err = None → descended o dirs o' evs) → Q (Ok (cur', owns', err)) s') →
  wp (descend cur owns dirs) Q s.
Proof.
  induction dirs as [|c dirs IH]; intros s cur owns o Q Hh HQ.
  { apply wp_ret, (HQ _ _ _ o []); [done|apply grown_refl|constructor|constructor]. }
  cbn [descend]. apply wp_bind, wp_try, (wp_Openat _ _ _ _ o); [by eapply holds_lookup| |].
  - intros s1 fd o1 [Ef Hn Hp Hg]. apply wp_bind. apply (wp_release F s s1 cur owns o); [done| |].
    { rewrite Ef, lookup_insert_ne; [done|]. intros ->. by rewrite (holds_lookup _ _ _ _ _ Hh) in Hn. }
    intros s2 E2 G2. apply (IH _ _ _ o1).
    + assert (fd ≠ cur) by (intros ->; by rewrite (holds_lookup _ _ _ _ _ Hh) in Hn).
      destruct owns; destruct Hh as [Hs Hc]; rewrite Hs in Ef, Hn; simpl; rewrite E2, Ef.
      * rewrite delete_insert_ne, delete_insert_id by done. by rewrite lookup_insert_ne in Hn.
      * done.
    + intros s3 cur' owns' o' evs err Hh' G3 Hall Hd. apply (HQ _ _ _ o' (EvOpenat o c descend_flags o1 :: evs)); [done| | |].
      * apply (grown_trans _ _ _ [_] evs (grown_trans_nil _ _ _ _ Hg G2) G3).
      * by constructor.
      * intros He. constructor. auto.
  - intros s1 e [E1 G1]. apply wp_ret, (HQ _ _ _ o []); [|done|constructor|done].
    destruct owns; destruct Hh; split; congruence.
Qed.

(** What the fallback opened for a name. *)
Inductive fallback (dir : Obj) (name : string) (flags : Z) (o : Obj) : list event → Prop :=
  | fallback_self : path_components (split_path name) = Ok [] → fallback dir name flags o [EvOpenat dir "." flags o]
  | fallback_path ds c d evs : path_components (split_path name) = Ok (ds ++ [c]) → descended dir ds d evs →
      fallback dir name flags o (evs ++ [EvOpenat d c flags o]).

Lemma fallback_good dir name flags o evs : fallback dir name flags o evs → all_good evs.
Proof.
  intros [|ds c d evs' _ Hd]; [by repeat constructor|]. apply Forall_app. split; [by eapply descended_good|by repeat constructor].
Qed.

Lemma wp_openAtNoSymlinks dirfd name flags s dir (Q : res Z → Sys → Prop) : fds s !! dirfd = Some dir →
  (∀ s' fd o evs, fresh_open s s' fd o evs → fallback dir name flags o evs → Q (Ok fd) s') →
  (∀ s' e, refused s s' → Q (Err e) s') → wp (openAtNoSymlinks dirfd name flags) Q s.
Proof.
  intros Hd Hok Herr. unfold openAtNoSymlinks.
  assert (Hsame : refused s s) by (eapply refused_intro; [split; [done|apply grown_refl]|constructor]).
  destruct (_ || _); [by apply wp_fail, Herr|].
  destruct (path_components (split_path name)) as [[|c cs]|e] eqn:Ec; [| |by apply wp_fail, Herr].
  { apply (wp_Openat _ _ _ _ dir); [done| |].
    - intros s' fd o Hf. eapply Hok; [done|]. by constructor.
    - intros s' e Hu. apply Herr. by eapply refused_intro; [|constructor]. }
  apply wp_bind, (wp_descend (fds s) _ s dirfd false dir); [done|].
  intros s1 cur owns o1 evs err Hh G1 Hall Hdesc. apply wp_bind.
  pose proof (holds_lookup _ _ _ _ _ Hh) as Hcur.
  assert (Hback : ∀ s2 s3, fds s2 = fds s1 → fds s3 = (if owns then delete cur (fds s2) else fds s2) → fds s3 = fds s).
  { intros s2 s3 E2 E3. destruct owns; destruct Hh as [Hh Hn]; rewrite E3, E2, Hh; [by rewrite delete_insert_id|done]. }
  destruct err as [e|].
  { apply wp_ret, wp_bind, (wp_release (fds s) s1 s1 cur owns o1); [done..|]. intros s2 E2 G2. apply wp_lift, Herr.
    split; [by eapply Hback|]. exists evs. split; [by eapply grown_trans_nil|done]. }
  specialize (Hdesc eq_refl). apply wp_try, (wp_Openat _ _ _ _ o1); [done| |].
  - intros s2 fd o [Ef Hn Hp G2]. apply wp_bind.
    assert (fd ≠ cur) by (intros ->; by rewrite Hcur in Hn).
    apply (wp_release (fds s) s1 s2 cur owns o1); [done|by rewrite Ef, lookup_insert_ne|].
    intros s3 E3 G3. apply wp_lift. eapply (Hok _ _ o).
    + split; [| |done|by eapply grown_trans_nil; [eapply grown_trans|]].
      * rewrite E3, Ef. destruct owns; destruct Hh as [Hh Hc]; rewrite Hh; [|done].
        by rewrite delete_insert_ne, delete_insert_id.
      * destruct owns; destruct Hh as [Hh Hc]; rewrite Hh in Hn; [by rewrite lookup_insert_ne in Hn|done].
    + apply (fallback_path _ _ _ _ (removelast (c :: cs))); [|done]. rewrite Ec. f_equal. by apply app_removelast_last.
  - intros s2 e [E2 G2]. apply wp_bind, (wp_release (fds s) s1 s2 cur owns o1); [done|by rewrite E2|].
    intros s3 E3 G3. apply wp_lift, Herr. split; [by eapply Hback|]. exists evs.
    split; [|done]. eapply grown_trans_nil; [|done]. by eapply grown_trans_nil.
Qed.

(** What [OpenAt] opened for a name, by either system call. *)
Definition opened_at (dir : Obj) (name : string) (opt : CheckOptions) (o : Obj) (evs : list event) : Prop :=
  evs = [EvOpenat2 dir name (open_flags opt) open_resolve o] ∨ fallback dir name (open_flags opt) o evs.

Lemma opened_at_good dir name opt o evs : opened_at dir name opt o evs → all_good evs.
Proof. intros [->|?]; [by repeat constructor|by eapply fallback_good]. Qed.

(** For the name of an entry one call is made. *)
Lemma opened_at_simple dir name opt o evs : simple_name name → opened_at dir name opt o evs →
  evs = [EvOpenat2 dir name (open_flags opt) open_resolve o] ∨ evs = [EvOpenat dir name (open_flags opt) o].
Proof.
  intros Hs [->|[E|ds c d evs' E Hd]]; [by left|by rewrite simple_components in E|right].
  rewrite simple_components in E by done. injection E as E. destruct ds as [|? [|]]; simplify_eq/=.
  by inversion Hd; subst.
Qed.

Lemma wp_OpenAt cf name opt s dir (Q : res CheckedFile → Sys → Prop) : fds s !! cf_fd cf = Some dir →
  (∀ s' cf' o evs, checked_open s s' opt cf' o evs → opened_at dir name opt o evs → Q (Ok cf') s') →
  (∀ s' e, refused s s' → Q (Err e) s') → wp (OpenAt (Some cf) name opt) Q s.
Proof.
  intros Hd Hok Herr. unfold OpenAt.
  assert (Hsame : refused s s) by (eapply refused_intro; [split; [done|apply grown_refl]|constructor]).
  do 3 (case_match; [by apply wp_fail, Herr|]).
  apply wp_bind, wp_try, (wp_Openat2 _ _ _ _ _ dir); [done| |].
  - intros s1 fd o Hf. apply wp_bind, wp_ret. eapply wp_checkOpened; [done|by repeat constructor| |done].
    intros s2 cf' Hc. eapply Hok; [done|]. by left.
  - intros s1 e [E1 G1]. apply wp_bind. destruct (err_is e ENOSYS).
    + apply wp_try, (wp_openAtNoSymlinks _ _ _ _ dir); [by rewrite E1| |].
      * intros s2 fd o evs [Ef Hn Hp G2] Hfb. rewrite E1 in Ef, Hn. pose proof (grown_trans _ _ _ _ _ G1 G2) as G.
        eapply wp_checkOpened; [by split|by eapply fallback_good| |done]. intros s3 cf' Hc. eapply Hok; [done|]. by right.
      * intros s2 e' [E2 (evs & G2 & Hall)]. apply wp_fail, Herr. split; [congruence|].
        exists evs. split; [|done]. apply (grown_trans _ _ _ [] evs G1 G2).
    + apply wp_ret, wp_fail, Herr. by eapply refused_intro; [|constructor].
Qed.

Lemma wp_cf_Close cf s o (Q : res (CheckedFile * option error) → Sys → Prop) : cf_open cf = true → fds s !! cf_fd cf = Some o →
  (∀ s' cf' err, cf_open cf' = false → fds s' = delete (cf_fd cf) (fds s) → grown s s' [] → Q (Ok (cf', err)) s') →
  wp (cf_Close cf) Q s.
Proof.
  intros Ho Hf HQ. unfold cf_Close. rewrite Ho. apply wp_bind, wp_try, (wp_Close _ _ _ _ Hf).
  intros s' r E G. apply wp_ret. by apply HQ.
Qed.

(** Closing twice is safe. *)
Lemma wp_cf_Close_again cf s (Q : res (CheckedFile * option error) → Sys → Prop) : cf_open cf = false →
  Q (Ok (cf, None)) s → wp (cf_Close cf) Q s.
Proof. intros Ho HQ. unfold cf_Close. rewrite Ho. by apply wp_ret. Qed.
End opens.

Section reads.
Context `{KernelLaws}.

(** One call, on a checked directory, for one of its entries, never through a
    symbolic link. *)
Definition opened_entry (dir : Obj) (c : string) (opt : CheckOptions) (o : Obj) (ev : event) : Prop :=
  ev = EvOpenat2 dir c (open_flags opt) open_resolve o ∨ ev = EvOpenat dir c (open_flags opt) o.

Lemma opened_entry_intro dir c opt o evs : simple_name c → opened_at dir c opt o evs →
  ∃ ev, evs = [ev] ∧ opened_entry dir c opt o ev.
Proof. intros Hs Ho. destruct (opened_at_simple _ _ _ _ _ Hs Ho) as [->| ->]; eexists; (split; [done|]); [by left|by right]. Qed.

(** The directories from [o] along the names, each opened beneath the one before
    and checked. *)
Inductive walked (policy : Policy) : Obj → list string → Obj → list event → Prop :=
  | walked_nil o : walked policy o [] o []
  | walked_cons o c o' st cs o'' ev evs :
      opened_entry o c (dir_options policy true false) o' ev → trusted_stat st (dir_options policy true false) →
      walked policy o' cs o'' evs → walked policy o (c :: cs) o'' (ev :: EvFstat o' st :: evs).

(** [current] is open and the only descriptor beyond [F], or closed. *)
Definition settled (F : gmap Z Obj) (s : Sys) (current : CheckedFile) : Prop :=
  cf_open current = true ∧ (∃ o, holds F s (cf_fd current) true o) ∨ cf_open current = false ∧ fds s = F.

Lemma wp_settle F s current (Q : res (CheckedFile * option error) → Sys → Prop) : settled F s current →
  (∀ s' cf err, fds s' = F → grown s s' [] → Q (Ok (cf, err)) s') → wp (cf_Close current) Q s.
Proof.
  intros [[Ho (o & Hh)]|[Ho HF]] HQ.
  - apply (wp_cf_Close _ _ o); [done|by eapply holds_lookup|]. intros s' cf err _ E G. apply HQ; [|done].
    destruct Hh as [Hs Hn]. by rewrite E, Hs, delete_insert_id.
  - apply wp_cf_Close_again; [done|]. apply HQ; [done|apply grown_refl].
Qed.

Lemma checked_holds s s' opt cf o evs : checked_open s s' opt cf o evs → holds (fds s) s' (cf_fd cf) true o.
Proof. intros [[Ef Hn _ _] _ _]. done. Qed.

Lemma all_good_entry dir c opt o ev st : opened_entry dir c opt o ev → all_good [ev; EvFstat o st].
Proof. intros [->| ->]; by repeat constructor. Qed.

Lemma wp_walk F policy dirs : ∀ s current o (Q : res (CheckedFile * option error) → Sys → Prop),
  cf_open current = true → holds F s (cf_fd current) true o → (∀ c, c ∈ dirs → simple_name c) →
  (∀ s' cf err evs, settled F s' cf → grown s s' evs → all_good evs →
     (err = None → ∃ o', cf_open cf = true ∧ holds F s' (cf_fd cf) true o' ∧ walked policy o dirs o' evs) → Q (Ok (cf, err)) s') →
  wp (walk policy current dirs) Q s.
Proof.
  induction dirs as [|c dirs IH]; intros s current o Q Hop Hh Hs HQ; cbn [walk].
  { apply wp_ret, (HQ _ _ _ []); [left; eauto|apply grown_refl|constructor|]. intros _. exists o. split_and!; [done..|constructor]. }
  apply wp_bind, wp_try, (wp_OpenAt _ _ _ _ o); [by eapply holds_lookup| |].
  - intros s1 next o1 evs1 Hc Hat. pose proof (checked_holds _ _ _ _ _ _ Hc) as Hh1. destruct Hc as [[Ef Hn _ G1] Hop1 Hst].
    destruct (opened_entry_intro _ _ _ _ _ (Hs c ltac:(left)) Hat) as (ev & -> & Hev). pose proof (all_good_entry _ _ _ _ _ (cf_st next) Hev) as Hall1.
    destruct Hh as [Hs0 HF0]. rewrite Hs0 in Ef, Hn.
    assert (cf_fd next ≠ cf_fd current) by (intros E; by rewrite E, lookup_insert_eq in Hn). rewrite lookup_insert_ne in Hn by done.
    apply wp_bind, (wp_cf_Close _ _ o); [done|by rewrite Ef, lookup_insert_ne, lookup_insert_eq|].
    intros s2 closed err Hcl E2 G2. assert (Hh2 : holds F s2 (cf_fd next) true o1).
    { split; [|done]. by rewrite E2, Ef, delete_insert_ne, delete_insert_id. }
    pose proof (grown_trans_nil _ _ _ _ G1 G2) as G12. destruct err as [e|].
    + apply wp_bind, (wp_settle F); [left; eauto|]. intros s3 ? ? E3 G3. apply wp_ret.
      apply (HQ _ _ _ [ev; EvFstat o1 (cf_st next)]); [by right| |done|done]. by eapply grown_trans_nil.
    + apply (IH _ _ o1); [done|done|intros; apply Hs; by right|]. intros s3 cf err evs Hset G3 Hall Hw.
      apply (HQ _ _ _ ([ev; EvFstat o1 (cf_st next)] ++ evs)); [done|by eapply grown_trans|by apply Forall_app|].
      intros He. destruct (Hw He) as (o' & ? & ? & ?). exists o'. split_and!; [done..|]. by apply walked_cons.
  - intros s1 e [E1 (evs & G1 & Hall)]. apply wp_ret, (HQ _ _ _ evs); [|done..].
    left. split; [done|]. exists o. destruct Hh. split; congruence.
Qed.

Lemma wp_ReadAll fd o fuel : ∀ n acc s (Q : res bytes → Sys → Prop), fds s !! fd = Some o → n <= Z.of_nat fuel →
  (∀ s' chunks (eof : bool), unchanged s s' ((EvRead o <$> chunks) ++ if eof then [EvRead o []] else []) →
     (eof = false → n <= blen (concat chunks)) → Q (Ok (acc ++ concat chunks)) s') →
  (∀ s' e, refused s s' → Q (Err e) s') → wp (ReadAll fuel fd n acc) Q s.
Proof.
  induction fuel as [|fuel IH]; intros n acc s Q Ho Hn Hok Herr; cbn [ReadAll];
    destruct (Z.leb_spec n 0) as [Hle|Hlt]; try lia;
    try (apply wp_ret; specialize (Hok s [] false); simpl in Hok; rewrite app_nil_r in Hok; apply Hok;
         [split; [done|apply grown_refl]|done]).
  apply wp_bind, (wp_Read _ _ _ _ _ Ho).
  - intros s1 data [E1 G1]. case_bool_decide as Hd; [subst data|].
    { apply wp_ret. specialize (Hok s1 [] true). simpl in Hok. rewrite app_nil_r in Hok. by apply Hok. }
    assert (0 < blen data) by (destruct data; [done|unfold blen; simpl; lia]).
    apply IH; [by rewrite E1|lia| |].
    + intros s2 chunks eof [E2 G2] Hlen. specialize (Hok s2 (data :: chunks) eof). simpl in Hok.
      rewrite <-app_assoc. apply Hok.
      * split; [congruence|]. by apply (grown_trans _ _ _ [_] _ G1 G2).
      * intros Heof. specialize (Hlen Heof). rewrite blen_app. lia.
    + intros s2 e [E2 (evs & G2 & Hall)]. apply Herr. split; [congruence|]. exists ([EvRead o data] ++ evs).
      split; [by eapply grown_trans|]. by constructor.
  - intros s1 e Hu. apply Herr. by eapply refused_intro; [|constructor].
Qed.

(** The fuel of [ReadAll] is never what ends it. *)
Lemma ReadAll_fuel fd fuel fuel' : ∀ n acc s, n <= Z.of_nat fuel → n <= Z.of_nat fuel' →
  ReadAll fuel fd n acc s = ReadAll fuel' fd n acc s.
Proof.
  revert fuel'. induction fuel as [|fuel IH]; intros [|fuel'] n acc s Hf Hf'; cbn [ReadAll];
    destruct (Z.leb_spec n 0); try lia; try done.
  unfold mbind, ST_bind. destruct (unix_Read _ _ s) as [s1 [data|e]]; [|done]. case_bool_decide as Hd; [done|].
  assert (0 < blen data) by (destruct data; [done|unfold blen; simpl; lia]). apply IH; lia.
Qed.

(** The file at the end of the walk. *)
Inductive read_file (policy : Policy) (dir : Obj) (c : string) (contents : bytes) : list event → Prop :=
  | read_file_intro o ev st chunks (eof : bool) :
      opened_entry dir c (file_options policy) o ev → trusted_stat st (file_options policy) →
      contents = concat chunks → blen contents <= p_MaxSize policy →
      (eof = false → int64 (int64 (p_MaxSize policy) + 1) <= blen contents) →
      read_file policy dir c contents ([ev; EvFstat o st] ++ (EvRead o <$> chunks) ++ if eof then [EvRead o []] else []).

Lemma all_good_reads o chunks (eof : bool) : all_good ((EvRead o <$> chunks) ++ if eof then [EvRead o []] else []).
Proof. apply Forall_app. split; [by apply Forall_fmap, Forall_true|destruct eof; by repeat constructor]. Qed.

Lemma wp_read_last policy current c s dir (Q : res bytes → Sys → Prop) : cf_open current = true →
  fds s !! cf_fd current = Some dir → simple_name c →
  (∀ s' contents evs, unchanged s s' evs → all_good evs → read_file policy dir c contents evs → Q (Ok contents) s') →
  (∀ s' e, refused s s' → Q (Err e) s') → wp (read_last policy current c) Q s.
Proof.
  intros Hop Hd Hc Hok Herr. unfold read_last. apply wp_bind, wp_try, (wp_OpenAt _ _ _ _ dir); [done| |].
  2: { intros s1 e Hr. by apply wp_fail, Herr. }
  intros s1 cf o evs Hco Hat. destruct (opened_entry_intro _ _ _ _ _ Hc Hat) as (ev & -> & Hev).
  pose proof (all_good_entry _ _ _ _ _ (cf_st cf) Hev) as Hall.
  pose proof (checked_holds _ _ _ _ _ _ Hco) as Hh. destruct Hco as [[Ef Hn Hp G1] Hopen Hst].
  unfold ToFile. rewrite Hopen. simpl. destruct (Z.ltb_spec (cf_fd cf) 0); [lia|].
  assert (Hfd : fds s1 !! cf_fd cf = Some o) by (by eapply holds_lookup).
  assert (Hback : ∀ s2 s3, fds s2 = fds s1 → fds s3 = delete (cf_fd cf) (fds s2) → fds s3 = fds s).
  { intros s2 s3 E2 E3. by rewrite E3, E2, Ef, delete_insert_id. }
  apply wp_bind, wp_try, (wp_ReadAll _ o); [done|lia| |].
  - intros s2 chunks eof [E2 G2] Heof. apply wp_bind, (wp_close_ignored _ _ o); [by rewrite E2|].
    intros s3 E3 G3. pose proof (grown_trans_nil _ _ _ _ (grown_trans _ _ _ _ _ G1 G2) G3) as G. simpl app in Heof |- *.
    pose proof (all_good_reads o chunks eof) as Hall2.
    assert (Hall3 : all_good ([ev; EvFstat o (cf_st cf)] ++ (EvRead o <$> chunks) ++ if eof then [EvRead o []] else []))
      by (by apply Forall_app).
    destruct (Z.ltb_spec (p_MaxSize policy) (blen (concat chunks))).
    + apply wp_fail, Herr. split; [by eapply Hback|]. eexists. split; [exact G|done].
    + apply wp_ret. eapply Hok; [split; [by eapply Hback|exact G]|done|]. by econstructor.
  - intros s2 e [E2 (evs & G2 & Hall2)]. apply wp_bind, (wp_close_ignored _ _ o); [by rewrite E2|].
    intros s3 E3 G3. apply wp_fail, Herr. split; [by eapply Hback|]. eexists.
    split; [exact (grown_trans_nil _ _ _ _ (grown_trans _ _ _ _ _ G1 G2) G3)|by apply Forall_app].
Qed.

Definition anchor_flags : Z := Z.lor (Z.lor (Z.lor O_PATH O_CLOEXEC) O_NONBLOCK) O_DIRECTORY.

(** A complete read: the calls from the anchor to the contents. *)
Inductive trusted_read (anchorPath relativePath : string) (policy : Policy) (contents : bytes) : list event → Prop :=
  | trusted_read_intro o0 st0 dirs od c evs evs' :
      cleanComponents relativePath = dirs ++ [c] →
      trusted_stat st0 (dir_options policy true true) →
      walked policy o0 dirs od evs → read_file policy od c contents evs' →
      trusted_read anchorPath relativePath policy contents
        ([EvOpen anchorPath anchor_flags o0; EvFstat o0 st0] ++ evs ++ evs').

Lemma wp_OpenDir path opt s (Q : res CheckedFile → Sys → Prop) : AllowSymlinks opt = true →
  (∀ s' cf o, checked_open s s' (with_WantDir opt true) cf o [EvOpen path anchor_flags o] → Q (Ok cf) s') →
  (∀ s' e, refused s s' → Q (Err e) s') → wp (OpenDirWithOptions path opt) Q s.
Proof.
  intros Hsym Hok Herr. unfold OpenDirWithOptions, openChecked. simpl. rewrite Hsym. apply wp_bind, wp_try, wp_Open.
  - intros s1 fd o Hf. eapply wp_checkOpened; [done|by repeat constructor| |done]. intros s2 cf Hc. by eapply Hok.
  - intros s1 e Hu. apply wp_fail, Herr. by eapply refused_intro; [|constructor].
Qed.

Lemma wp_securefiles_read anchorPath relativePath policy s (Q : res bytes → Sys → Prop) :
  (∀ s' contents evs, unchanged s s' evs → all_good evs → trusted_read anchorPath relativePath policy contents evs → Q (Ok contents) s') →
  (∀ s' e, refused s s' → Q (Err e) s') → wp (securefiles_read anchorPath relativePath policy) Q s.
Proof.
  intros Hok Herr. unfold securefiles_read.
  assert (Hsame : refused s s) by (eapply refused_intro; [split; [done|apply grown_refl]|constructor]).
  do 3 (case_match; [by apply wp_fail, Herr|]).
  pose proof (cleanComponents_simple relativePath) as Hsimple.
  destruct (cleanComponents relativePath) as [|c cs] eqn:Ec; [by apply wp_fail, Herr|].
  assert (Hsplit : c :: cs = removelast (c :: cs) ++ [List.last (c :: cs) c]) by (by apply app_removelast_last).
  revert Hsplit. generalize (removelast (c :: cs)) (List.last (c :: cs) c). intros dirs last Hsplit. rewrite Hsplit in Ec, Hsimple.
  apply wp_bind, wp_try, wp_OpenDir; [done| |intros s1 e Hr; by apply wp_fail, Herr].
  intros s1 anchor o0 Hco. pose proof (checked_holds _ _ _ _ _ _ Hco) as Hh. destruct Hco as [[_ _ _ G1] Hopen Hst].
  apply wp_bind, (wp_walk (fds s) _ _ _ _ o0); [done|done|intros; apply Hsimple, elem_of_app; by left|].
  intros s2 current err evs Hset G2 Hall Hw. pose proof (grown_trans _ _ _ _ _ G1 G2) as G12.
  assert (Hall12 : all_good ([EvOpen anchorPath anchor_flags o0; EvFstat o0 (cf_st anchor)] ++ evs)) by (by repeat constructor).
  apply wp_bind. destruct err as [e|].
  { apply wp_ret, wp_bind, (wp_settle (fds s)); [done|]. intros s3 ? ? E3 G3. apply wp_lift, Herr. split; [done|].
    eexists. split; [by eapply grown_trans_nil|done]. }
  destruct (Hw eq_refl) as (od & Hop & Hh2 & Hwalk). apply wp_try, (wp_read_last _ _ _ _ od).
  - done.
  - by eapply holds_lookup.
  - apply Hsimple, elem_of_app. right. left.
  - intros s3 contents evs' [E3 G3] Hall3 Hread. apply wp_bind, (wp_settle (fds s)).
    { left. split; [done|]. exists od. destruct Hh2. split; congruence. }
    intros s4 ? ? E4 G4. apply wp_lift. eapply Hok.
    + split; [done|]. exact (grown_trans_nil _ _ _ _ (grown_trans _ _ _ _ _ G12 G3) G4).
    + by apply Forall_app.
    + rewrite <-app_assoc. by econstructor.
  - intros s3 e [E3 (evs' & G3 & Hall3)]. apply wp_bind, (wp_settle (fds s)).
    { left. split; [done|]. exists od. destruct Hh2. split; congruence. }
    intros s4 ? ? E4 G4. apply wp_lift, Herr. split; [done|]. eexists.
    split; [exact (grown_trans_nil _ _ _ _ (grown_trans _ _ _ _ _ G12 G3) G4)|by apply Forall_app].
Qed.
End reads.

Lemma wp_run {S A} (m : ST S A) Q s s' r : wp m Q s → m s = (s', r) → Q r s'.
Proof. unfold wp. intros Hw E. by rewrite E in Hw. Qed.

Lemma int64_small z : 0 <= z < 9223372036854775808 → int64 z = z.
Proof. intros. unfold int64. rewrite Z.mod_small by lia. lia. Qed.

Lemma secure_read_inv `{KernelLaws} anchorPath relativePath policy s s' contents :
  securefiles_read anchorPath relativePath policy s = (s', Ok contents) →
  ∃ evs, unchanged s s' evs ∧ trusted_read anchorPath relativePath policy contents evs.
Proof.
  intros Hs. revert contents Hs.
  enough (wp (securefiles_read anchorPath relativePath policy)
    (λ r s', ∀ contents, r = Ok contents → ∃ evs, unchanged s s' evs ∧ trusted_read anchorPath relativePath policy contents evs) s) as Hw
    by (intros contents Hs; exact (wp_run _ _ _ _ _ Hw Hs _ eq_refl)).
  apply wp_securefiles_read; [|done]. intros s1 contents evs ? _ ? ? [= <-]. eauto.
Qed.

(** C13: If [Read] returns contents, they were read to the end of the file from one
    open file, which was opened as an entry of a directory that was opened as an
    entry of a directory and so on up to the anchor, one call per component and
    none through a symbolic link; and the anchor, every directory and the file were
    checked on the open descriptor: the right type, owned by root or the owner,
    not writable by group or others, the file not readable by them unless allowed
    and not larger than the limit.  Other processes may change the file system
    between any two calls. *)
Theorem secure_read_trusted `{KernelLaws} (anchorPath relativePath : string) (policy : Policy) (s s' : Sys) (contents : bytes)
  (Hmax : 0 <= p_MaxSize policy < 9223372036854775807)
  (Hs : securefiles_read anchorPath relativePath policy s = (s', Ok contents)) :
  ∃ o0 st0 dirs od c o st ev evs chunks,
    cleanComponents relativePath = dirs ++ [c] ∧ (∀ x, x ∈ dirs ++ [c] → simple_name x) ∧
    trusted_stat st0 (dir_options policy true true) ∧ walked policy o0 dirs od evs ∧
    opened_entry od c (file_options policy) o ev ∧ trusted_stat st (file_options policy) ∧
    calls s' = calls s ++ [EvOpen anchorPath anchor_flags o0; EvFstat o0 st0] ++ evs ++ [ev; EvFstat o st] ++
      (EvRead o <$> chunks) ++ [EvRead o []] ∧
    contents = concat chunks ∧ blen contents <= p_MaxSize policy.
Proof.
  destruct (secure_read_inv _ _ _ _ _ _ Hs) as (evs & [_ G] & Hr). revert G.
  destruct Hr as [o0 st0 dirs od c evs1 evs2 Ec Hst0 Hw Hf]. destruct Hf as [o ev st chunks eof Hev Hst Hcon Hlen Heof]. intros G.
  assert (eof = true) as ->.
  { destruct eof; [done|]. specialize (Heof eq_refl). rewrite !int64_small in Heof; rewrite ?int64_small; lia. }
  exists o0, st0, dirs, od, c, o, st, ev, evs1, chunks. split_and!; try done.
  intros x Hx. apply (cleanComponents_simple relativePath). by rewrite Ec.
Qed.

(** C14: However [Read] ends, whatever the kernel answers, the descriptors that are
    open afterwards are those that were open before: everything it opened is closed
    exactly once, nothing else is closed, and no call was made on a descriptor that
    was not open. *)
Theorem secure_read_no_leak `{KernelLaws} (anchorPath relativePath : string) (policy : Policy) (s : Sys) :
  let s' := (securefiles_read anchorPath relativePath policy s).1 in
  fds s' = fds s ∧ ∃ evs, calls s' = calls s ++ evs ∧ all_good evs.
Proof.
  cbv zeta. enough (wp (securefiles_read anchorPath relativePath policy) (λ _ s', refused s s') s) as Hw by exact Hw.
  apply wp_securefiles_read; [|done]. intros s' contents evs Hu Hall _. by eapply refused_intro.
Qed.

(** ** A small file system

    The directory 0 has a directory 1 named ".ssh" with the file 2; the kernel has
    no openat2.  The world is what is still to be read from the file. *)

Definition toy_descriptor (used : gset Z) : Z := foldr Z.max 2 (elements used) + 1.

Definition toy_kernel : Kernel := {|
  Obj := Z;
  World := list bytes;
  k_open w path _ _ := (w, if bool_decide (path = "/home/alice"%string) then Ok 0 else Err (Sentinel "no such file"));
  k_openat w dir name _ :=
    (w, if (dir =? 0) && bool_decide (name = ".ssh"%string) then Ok 1
        else if (dir =? 1) && bool_decide (name = "keys"%string) then Ok 2 else Err (Sentinel "no such file"));
  k_openat2 w _ _ _ _ := (w, Err ENOSYS);
  k_fstat w o := (w, Ok (if o =? 2 then MkStat 0x8180 1000 4 else MkStat 0x41ed 0 4096));
  k_close w _ := (w, Ok tt);
  k_read w _ _ := match w with [] => ([], Ok []) | d :: w => (w, Ok d) end;
  k_descriptor _ used := toy_descriptor used;
  read_room _ := 512;
|}.

Lemma foldr_max_ge (l : list Z) x b : x ∈ l → x <= foldr Z.max b l.
Proof. induction l as [|y l IH]; [by intros ?%elem_of_nil|]. intros [->|Hx]%elem_of_cons; simpl; [lia|]. specialize (IH Hx). lia. Qed.

Lemma foldr_max_base (l : list Z) b : b <= foldr Z.max b l.
Proof. induction l; simpl; lia. Qed.

Lemma toy_kernel_laws : @KernelLaws toy_kernel.
Proof.
  split; simpl; intros _ used; unfold toy_descriptor.
  - intros Hin. apply elem_of_elements, (foldr_max_ge _ _ 2) in Hin. lia.
  - pose proof (foldr_max_base (elements used) 2). lia.
Qed.

Definition toy_sys : @Sys toy_kernel := @MkSys toy_kernel [[x03]; [x04; x05]] ∅ [].
Definition toy_policy : Policy := MkPolicy 1000 16 false.

Lemma secure_read_trusted_witness :
  @securefiles_read toy_kernel "/home/alice" "./.ssh//keys" toy_policy toy_sys =
    ((@securefiles_read toy_kernel "/home/alice" "./.ssh//keys" toy_policy toy_sys).1, Ok [x03; x04; x05]) ∧
  ∃ dirs c, cleanComponents "./.ssh//keys" = dirs ++ [c].
Proof.
  split; [vm_compute; reflexivity|].
  destruct (@secure_read_trusted toy_kernel toy_kernel_laws "/home/alice" "./.ssh//keys" toy_policy toy_sys
    (@securefiles_read toy_kernel "/home/alice" "./.ssh//keys" toy_policy toy_sys).1 [x03; x04; x05])
    as (o0 & st0 & dirs & od & c & o & st & ev & evs & chunks & Hc & _).
  - simpl. lia.
  - vm_compute. reflexivity.
  - exists dirs, c. exact Hc.
Defined.

Lemma secure_read_no_leak_witness :
  fds (@securefiles_read toy_kernel "/home/alice" "missing" toy_policy toy_sys).1 = ∅.
Proof. apply (@secure_read_no_leak toy_kernel toy_kernel_laws "/home/alice" "missing" toy_policy toy_sys). Defined.

(** [int64(policy.MaxSize)+1] overflows for the largest limits: the file is opened
    and checked, nothing is read, and the empty contents are returned as if they
    were all. *)
Lemma huge_limit_reads_nothing :
  (@securefiles_read toy_kernel "/home/alice" ".ssh/keys" (MkPolicy 1000 9223372036854775807 false) toy_sys).2 = Ok [].
Proof. vm_compute. reflexivity. Qed.

(** The path may not leave the anchor. *)
Example parent_refused :
  (@securefiles_read toy_kernel "/home/alice" "../bob/keys" toy_policy toy_sys).2 = Err (NewError "secure file path is empty").
Proof. vm_compute. reflexivity. Qed.
