(* ===== verification/Establish.v ===== *)
(** * Establishing a connection (lib/establish, app/server/server.go, app/server/services)

    The runtime that owns a connection while it is established (runtime.go), the
    server side with its pending decision (server.go), the client side
    (client.go), the handler of a connection ([serveConnection]) and the registry
    that answers the opening of channels (registry.go, command/service.go).

    Other goroutines act between any two operations: the parent context may be
    canceled, the timer of a phase or the deadline of the authentication may
    expire, and the functions that wait for the two contexts may run, early or
    late.  The state holds a schedule of such disturbances, a list for each point
    where they can happen; the theorems hold for every schedule. *)

From S2P Require Import Prelude GoStrings Wire SessionConfig Keys Trust Auth AuthProofs Authz CommandCodec Launch.

(** ** config.go *)

Definition defaultHandshakeTimeout : Z := 5000000000.
Definition defaultAuthTimeout : Z := 10000000000.

Definition validateTimeouts (handshakeTimeout authTimeout : Z) : res unit :=
  reject_if (handshakeTimeout <? 0) (NewError "handshake timeout must be non-negative") ≫= λ _,
  reject_if (authTimeout <? 0) (NewError "auth timeout must be non-negative").

Definition resolveTimeout (actual fallback : Z) : Z := if actual =? 0 then fallback else actual.

(** ** The state *)

Inductive lifecyclePhase :=
  | lifecycleAccepted | lifecycleHandshaking | lifecycleAuthPending | lifecyclePostAuthStarting
  | lifecycleActive | lifecycleClosing | lifecycleClosed.

#[export] Instance lifecyclePhase_eq_dec : EqDecision lifecyclePhase.
Proof. solve_decision. Defined.

(** What can own the socket; closing any of them closes the socket. *)
Inductive owner := OwnConn | OwnTransport | OwnSession.

(** [rt_cause] is the cause of its context, [rt_watched] says that the goroutine
    that waits for the context has run, [rt_timer] that the timer runs, and
    [rt_expired] counts the timers that expired and whose functions did not run
    yet: stopping an expired timer does not stop its function. *)
Record runtime := MkRuntime {
  rt_cause : option error;
  rt_watched : bool;
  rt_owner : option owner;
  rt_phase : lifecyclePhase;
  rt_timer : bool;
  rt_expired : nat;
  rt_terminal : option error;
}.

(** The context of the authentication with its [AfterFunc]: the function is
    registered, or it was started when the context ended and did not run yet. *)
Record auth_context := MkAuthContext { ac_cause : option error; ac_armed : bool; ac_started : bool }.

Inductive pendingState := pendingUndecided | pendingAccepted | pendingRejected | pendingClosed.

#[export] Instance pendingState_eq_dec : EqDecision pendingState.
Proof. solve_decision. Defined.

Inductive disturbance :=
  | ParentCanceled (cause : error)
  | PhaseTimeout
  | TimerFuncRuns     (** the function of an expired timer *)
  | AuthDeadline
  | WatcherRuns       (** the goroutine of [newRuntime] *)
  | AuthFuncRuns.     (** the function of [context.AfterFunc] *)

(** What happened, in order. *)
Inductive happening :=
  | Bound (credentials : option ConnectionCredentials)
  | Decided (accepted : bool) (r : res unit)
  | Activated
  | Closed (o : owner).

Record world {S : Type} := MkWorld {
  w_conn : S;
  w_rt : runtime;
  w_authctx : option auth_context;
  w_auth : option (PendingServerAuth (S:=S));
  w_state : pendingState;
  w_transferred : bool;
  w_trace : list happening;
  w_schedule : list (list disturbance);
}.
Arguments world : clear implicits.

Section setters.
Context {S : Type}.

Definition eta_world (w : world S) : world S :=
  MkWorld _ (w_conn w) (w_rt w) (w_authctx w) (w_auth w) (w_state w) (w_transferred w) (w_trace w) (w_schedule w).

#[export] Instance set_w_conn : Setter (@w_conn S) := ltac:(derive_setter eta_world).
#[export] Instance set_w_rt : Setter (@w_rt S) := ltac:(derive_setter eta_world).
#[export] Instance set_w_authctx : Setter (@w_authctx S) := ltac:(derive_setter eta_world).
#[export] Instance set_w_auth : Setter (@w_auth S) := ltac:(derive_setter eta_world).
#[export] Instance set_w_state : Setter (@w_state S) := ltac:(derive_setter eta_world).
#[export] Instance set_w_transferred : Setter (@w_transferred S) := ltac:(derive_setter eta_world).
#[export] Instance set_w_trace : Setter (@w_trace S) := ltac:(derive_setter eta_world).
#[export] Instance set_w_schedule : Setter (@w_schedule S) := ltac:(derive_setter eta_world).
End setters.

Definition eta_runtime (r : runtime) : runtime :=
  MkRuntime (rt_cause r) (rt_watched r) (rt_owner r) (rt_phase r) (rt_timer r) (rt_expired r) (rt_terminal r).

#[export] Instance set_rt_cause : Setter rt_cause := ltac:(derive_setter eta_runtime).
#[export] Instance set_rt_watched : Setter rt_watched := ltac:(derive_setter eta_runtime).
#[export] Instance set_rt_owner : Setter rt_owner := ltac:(derive_setter eta_runtime).
#[export] Instance set_rt_phase : Setter rt_phase := ltac:(derive_setter eta_runtime).
#[export] Instance set_rt_timer : Setter rt_timer := ltac:(derive_setter eta_runtime).
#[export] Instance set_rt_expired : Setter rt_expired := ltac:(derive_setter eta_runtime).
#[export] Instance set_rt_terminal : Setter rt_terminal := ltac:(derive_setter eta_runtime).

(** ** runtime.go *)

Definition newRuntime : runtime := MkRuntime None false (Some OwnConn) lifecycleAccepted false 0 None.

Definition first_cause (cause : error) (old : option error) : option error :=
  match old with Some _ => old | None => Some cause end.

(** The end of a context starts the function that is registered with it. *)
Definition end_context (cause : error) (a : auth_context) : auth_context :=
  match ac_cause a with
  | Some _ => a
  | None => MkAuthContext (Some cause) false (ac_armed a || ac_started a)
  end.

(** A context derived from one with that cause, with a registered function. *)
Definition derived_context (cause : option error) : auth_context :=
  match cause with None => MkAuthContext None true false | Some _ => MkAuthContext cause false true end.

Section establish.
Context {S : Type}.

Definition record_event (e : happening) (w : world S) : world S := w <| w_trace ::= λ l, l ++ [e] |>.

(** Canceling the context of the runtime cancels the one derived from it. *)
Definition runtime_cancel (cause : error) (w : world S) : world S :=
  w <| w_rt ::= λ r, r <| rt_cause ::= first_cause cause |> |>
    <| w_authctx ::= λ a, end_context cause <$> a |>.

Definition closeCurrentOwner (w : world S) : world S :=
  let old := rt_owner (w_rt w) in
  let w := w <| w_rt ::= λ r, r <| rt_timer := false |> <| rt_owner := None |>
                                <| rt_phase ::= λ p, if bool_decide (p = lifecycleClosing) then lifecycleClosed else p |> |> in
  match old with None => w | Some o => record_event (Closed o) w end.

Definition runtime_Fail (cause : error) (w : world S) : world S :=
  let w := w <| w_rt ::= λ r, r <| rt_terminal ::= first_cause cause |> <| rt_phase := lifecycleClosing |> |> in
  closeCurrentOwner (runtime_cancel cause w).

Definition runtime_Close (w : world S) : world S := runtime_Fail context_Canceled w.

Definition SetOwner (o : owner) (w : world S) : world S := w <| w_rt ::= λ r, r <| rt_owner := Some o |> |>.

Definition SetPhase (p : lifecyclePhase) (w : world S) : world S := w <| w_rt ::= λ r, r <| rt_phase := p |> |>.

Definition Release (w : world S) : world S :=
  w <| w_rt ::= λ r, r <| rt_timer := false |> <| rt_owner := None |>
      <| rt_phase ::= λ p, if bool_decide (p = lifecycleClosing) || bool_decide (p = lifecycleClosed) then p else lifecycleActive |> |>.

(** What another goroutine does. *)
Definition disturb (d : disturbance) (w : world S) : world S :=
  match d with
  | ParentCanceled cause => runtime_cancel cause w
  | PhaseTimeout =>
      if rt_timer (w_rt w) then w <| w_rt ::= λ r, r <| rt_timer := false |> <| rt_expired ::= Datatypes.S |> |> else w
  | TimerFuncRuns =>
      match rt_expired (w_rt w) with
      | O => w
      | Datatypes.S n => runtime_Fail context_DeadlineExceeded (w <| w_rt ::= λ r, r <| rt_expired := n |> |>)
      end
  | AuthDeadline => w <| w_authctx ::= λ a, end_context context_DeadlineExceeded <$> a |>
  | WatcherRuns =>
      match rt_cause (w_rt w), rt_watched (w_rt w) with
      | Some _, false => closeCurrentOwner (w <| w_rt ::= λ r, r <| rt_watched := true |> |>)
      | _, _ => w
      end
  | AuthFuncRuns =>
      match w_authctx w with
      | Some (MkAuthContext (Some cause) armed true) =>
          runtime_Fail cause (w <| w_authctx := Some (MkAuthContext (Some cause) armed false) |>)
      | _ => w
      end
  end.

(** A point where other goroutines may run. *)
Definition point : ST (world S) unit := λ w,
  match w_schedule w with
  | [] => (w, Ok tt)
  | ds :: rest => (foldl (λ w d, disturb d w) (w <| w_schedule := rest |>) ds, Ok tt)
  end.

Definition runtime_cause : ST (world S) (option error) := w ← st_get; mret (rt_cause (w_rt w)).

Definition startTimer (timeout : Z) : ST (world S) unit :=
  w ← st_get;
  match rt_owner (w_rt w) with
  | None => st_fail (NewError "runtime has no active owner")
  | Some _ => st_modify (λ w, w <| w_rt ::= λ r, r <| rt_timer := negb (timeout <=? 0) |> |>)
  end.

Definition stopTimer : ST (world S) unit := st_modify (λ w, w <| w_rt ::= λ r, r <| rt_timer := false |> |>).

Definition RunWithTimeout {A} (phase : lifecyclePhase) (timeout : Z) (fn : ST (world S) A) : ST (world S) A :=
  cause ← runtime_cause;
  match cause with
  | Some e => st_fail e
  | None =>
      _ ← st_modify (SetPhase phase);
      _ ← point;
      _ ← startTimer timeout;
      _ ← point;
      r ← st_try fn;
      _ ← point;
      cause ← runtime_cause;
      _ ← stopTimer;
      match cause with Some e => st_fail e | None => st_lift r end
  end.

Definition WrapError (err : error) (msg : string) : ST (world S) error :=
  cause ← runtime_cause; mret (Wrapped (default err cause) msg).

(** ** server.go *)

Definition auth_cause : ST (world S) (option error) := w ← st_get; mret (w_authctx w ≫= ac_cause).

Definition claim (next : pendingState) : ST (world S) unit :=
  w ← st_get;
  if negb (bool_decide (w_state w = pendingUndecided)) then st_fail ErrDecisionMade
  else st_modify (λ w, w <| w_state := next |>).

(** [stopAuth] unregisters the function, which has no effect once it was started;
    [cancelAuth] ends the context. *)
Definition completeAuthDeadline : ST (world S) (option error) :=
  _ ← st_modify (λ w, w <| w_authctx ::= λ a, (λ a, MkAuthContext (ac_cause a) false (ac_started a)) <$> a |>);
  _ ← point;
  cause ← auth_cause;
  _ ← st_modify (λ w, w <| w_authctx ::= λ a, end_context context_Canceled <$> a |>);
  mret cause.

Definition fail_with {A} (e : error) : ST (world S) A := _ ← st_modify (runtime_Fail e); st_fail e.

(** The socket is used through the state of the connection. *)
Definition on_conn {A} (m : ST S A) : ST (world S) A := λ w,
  let '(s, r) := m (w_conn w) in (w <| w_conn := s |>, r).

Context (fr : Framer S) (HandshakeServer HandshakeClient : ST S bytes).
Context `{ProtoMessage AuthFrame} `{KeyLib} `{AuthLib}.

(** A decision of lib/auth. *)
Definition decide_auth (accepted : bool) : ST (world S) unit := λ w,
  match w_auth w with
  | None => (w, Err (NewError "pending server auth is required"))
  | Some p =>
      let '(p', r) := (if accepted then Accept fr else Reject fr) p in
      (record_event (Decided accepted r) (w <| w_auth := Some p' |> <| w_conn := am_conn (ps_machine p') |>), r)
  end.

Record ServerConfig := MkServerConfig {
  sc_HostKey : Keypair; sc_HandshakeTimeout : Z; sc_AuthTimeout : Z; sc_SessionConfig : Config;
}.

(** [nonce] is drawn by [BeginServer]. *)
Definition BeginAccept (ctxErr : option error) (cfg : ServerConfig) (nonce : res bytes) : ST (world S) unit :=
  match ctxErr with
  | Some e => st_fail e
  | None =>
      _ ← st_lift (wrap_err "validate server connection config" (validateTimeouts (sc_HandshakeTimeout cfg) (sc_AuthTimeout cfg)));
      _ ← point;
      r ← st_try (RunWithTimeout lifecycleHandshaking (resolveTimeout (sc_HandshakeTimeout cfg) defaultHandshakeTimeout)
                    (on_conn HandshakeServer));
      match r with
      | Err e =>
          wrapped ← WrapError e "establish noise transport";
          _ ← st_modify runtime_Close;
          st_fail wrapped
      | Ok binding =>
          _ ← point;
          _ ← st_modify (SetOwner OwnTransport);
          _ ← point;
          _ ← st_modify (SetPhase lifecycleAuthPending);
          _ ← st_modify (λ w, w <| w_authctx := Some (derived_context (rt_cause (w_rt w))) |>);
          _ ← point;
          cause ← auth_cause;
          r ← (λ w, let '(s, r) := BeginServer fr (sc_HostKey cfg) binding nonce cause (w_conn w) in
                    (w <| w_conn := s |>, Ok r));
          _ ← point;
          match r with
          | Err e =>
              _ ← completeAuthDeadline;
              wrapped ← WrapError e "verify client authentication";
              _ ← st_modify runtime_Close;
              st_fail wrapped
          | Ok p => st_modify (λ w, w <| w_auth := Some p |>)
          end
      end
  end.

(** [Accept] once the acceptance was sent. *)
Definition accept_activate : ST (world S) unit :=
  _ ← st_modify (record_event Activated);
  _ ← point;
  cause ← runtime_cause;
  match cause with
  | Some e => fail_with e
  | None =>
      _ ← point;
      _ ← st_modify Release;
      _ ← point;
      st_modify (λ w, w <| w_transferred := true |>)
  end.

(** [Accept] once the session is bound. *)
Definition accept_bound : ST (world S) unit :=
  _ ← point;
  _ ← st_modify (SetOwner OwnSession);
  _ ← point;
  cause ← completeAuthDeadline;
  match cause with
  | Some e => fail_with e
  | None =>
      _ ← point;
      r ← st_try (decide_auth true);
      _ ← point;
      match r with Err e => fail_with e | Ok _ => accept_activate end
  end.

(** [Accept] once the session is prepared, with the check of [Bind]. *)
Definition accept_prepared (prepared : option ConnectionCredentials) : ST (world S) unit :=
  _ ← point;
  cause ← auth_cause;
  match cause with
  | Some e => fail_with e
  | None =>
      _ ← st_modify (SetPhase lifecyclePostAuthStarting);
      _ ← point;
      cause ← runtime_cause;
      match cause with
      | Some e => fail_with e
      | None => _ ← st_modify (record_event (Bound prepared)); accept_bound
      end
  end.

(** [prepared] holds the credentials the prepared session serves, [None] for a
    session without a handler, which [Accept] prepares itself. *)
Definition pending_Accept (cfg : ServerConfig) (prepared : option ConnectionCredentials) : ST (world S) unit :=
  _ ← claim pendingAccepted;
  match prepared with
  | Some _ => accept_prepared prepared
  | None =>
      match wrap_err "validate session mux config" (config_Validate (sc_SessionConfig cfg)) with
      | Err e => fail_with e
      | Ok _ => accept_prepared None
      end
  end.

(** Of the joined errors the first is kept. *)
Definition pending_Reject : ST (world S) unit :=
  _ ← claim pendingRejected;
  err ← st_try (decide_auth false);
  _ ← point;
  deadlineErr ← completeAuthDeadline;
  _ ← st_modify runtime_Close;
  match err, deadlineErr with
  | Err e, _ => st_fail e
  | Ok _, Some e => st_fail e
  | Ok _, None => mret tt
  end.

(** [p.server] is set together with [p.transferred], so its branch is never taken. *)
Definition pending_Close : ST (world S) unit :=
  w ← st_get;
  if bool_decide (w_state w = pendingClosed) || w_transferred w then mret tt
  else
    _ ← st_modify (λ w, if bool_decide (w_state w = pendingUndecided) then w <| w_state := pendingClosed |> else w);
    _ ← completeAuthDeadline;
    st_modify runtime_Close.

(** ** client.go *)

Record ClientConfig := MkClientConfig {
  cc_ReferenceIdentity : string;
  cc_Username : string;
  cc_ClientIdentityProvider : option (string → string → PublicKey → res Keypair);
  cc_VerifyServerHostKey : option (string → PublicKey → option error);
  cc_HandshakeTimeout : Z;
  cc_AuthTimeout : Z;
  cc_SessionConfig : Config;
}.

(** [authenticate] is [auth.RunClient] on the connection with the binding of the
    handshake. *)
Definition Connect {R} (authenticate : bytes → option error → ST S R) (ctxErr : option error) (cfg : ClientConfig) : ST (world S) R :=
  match ctxErr with
  | Some e => st_fail e
  | None =>
      _ ← st_lift (wrap_err "validate client connection config" (validateTimeouts (cc_HandshakeTimeout cfg) (cc_AuthTimeout cfg)));
      _ ← st_lift (wrap_err "validate client session mux config" (config_Validate (cc_SessionConfig cfg)));
      _ ← point;
      r ← st_try (RunWithTimeout lifecycleHandshaking (resolveTimeout (cc_HandshakeTimeout cfg) defaultHandshakeTimeout)
                    (on_conn HandshakeClient));
      match r with
      | Err e =>
          wrapped ← WrapError e "establish noise transport";
          _ ← st_modify runtime_Close;
          st_fail wrapped
      | Ok binding =>
          _ ← point;
          _ ← st_modify (SetOwner OwnTransport);
          _ ← point;
          _ ← st_modify (SetPhase lifecycleAuthPending);
          _ ← point;
          r ← st_try (RunWithTimeout lifecycleAuthPending (resolveTimeout (cc_AuthTimeout cfg) defaultAuthTimeout)
                        (cause ← runtime_cause; on_conn (authenticate binding cause)));
          match r with
          | Err e =>
              wrapped ← WrapError e "authenticate client";
              _ ← st_modify runtime_Close;
              st_fail wrapped
          | Ok result =>
              _ ← st_modify (SetPhase lifecyclePostAuthStarting);
              _ ← point;
              cause ← runtime_cause;                    (* Bind *)
              match cause with
              | Some e => fail_with e
              | None =>
                  _ ← st_modify (record_event (Bound None));
                  _ ← point;
                  _ ← st_modify (SetOwner OwnSession);
                  _ ← st_modify (record_event Activated);
                  _ ← point;
                  cause ← runtime_cause;
                  match cause with
                  | Some e => fail_with e
                  | None => _ ← point; _ ← st_modify Release; mret result
                  end
              end
          end
      end
  end.

(** ** app/server/services/registry.go and app/server/command/service.go *)

(** A channel handler keeps the credentials and the authorization it was opened
    with. *)
Record channelHandler := MkChannelHandler { h_credentials : ConnectionCredentials; h_authorized : AuthorizedChannel }.

(** The decision about an open: the handler, or the code of the rejection. *)
Inductive open_decision := Opened (h : channelHandler) | Rejected (code : string).

Record Service := MkService {
  sv_ChannelType : string;
  sv_Open : ConnectionCredentials → AuthorizedChannel → string → bytes → res channelHandler;
}.

Definition ChannelType : string := "command".

(** [Service] of the command package. *)
Definition command_Open (credentials : ConnectionCredentials) (authorized : AuthorizedChannel) (type : string) (payload : bytes)
  : res channelHandler :=
  reject_if (negb (bool_decide (type = ChannelType))) (NewError "unsupported channel type") ≫= λ _,
  reject_if (negb (bool_decide (payload = []))) (NewError "command channel open payload must be empty") ≫= λ _,
  mret (MkChannelHandler credentials authorized).

Definition commandService : Service := MkService ChannelType command_Open.

Record Registry := MkRegistry { rg_credentials : ConnectionCredentials; rg_services : gmap string Service }.

(** A nil service is [None]. *)
Fixpoint register (registered : list (option Service)) (services : gmap string Service) : res (gmap string Service) :=
  match registered with
  | [] => Ok services
  | None :: _ => Err (NewError "registered service is required")
  | Some service :: rest =>
      reject_if (bool_decide (sv_ChannelType service = ""%string)) (NewError "registered service channel type is required") ≫= λ _,
      reject_if (bool_decide (is_Some (services !! sv_ChannelType service))) (NewError "duplicate service for channel type") ≫= λ _,
      register rest (<[sv_ChannelType service := service]> services)
  end.

Definition NewRegistry (credentials : ConnectionCredentials) (hasAuthorizer : bool) (registered : list (option Service)) : res Registry :=
  reject_if (negb hasAuthorizer) (NewError "channel authorizer is required") ≫= λ _,
  register registered ∅ ≫= λ services, mret (MkRegistry credentials services).

Context `{!TrustLib} `{AuthzEnv}.

Definition registry_OnChannelOpen (r : option Registry) (type : string) (payload : bytes) : open_decision :=
  match r with
  | None => Rejected "unsupported-channel-open"
  | Some r =>
      match rg_services r !! type with
      | None => Rejected "unsupported-channel-type"
      | Some service =>
          match AuthorizeChannel (rg_credentials r) type with
          | Err _ => Rejected "channel-not-authorized"
          | Ok authorized =>
              match sv_Open service (rg_credentials r) authorized type payload with
              | Err _ => Rejected "channel-open-failed"
              | Ok h => Opened h
              end
          end
      end
  end.

(** ** app/server/server.go *)

(** The request that is authorized. *)
Definition connection_request (w : world S) (peer : string) : ConnectionRequest :=
  MkRequest (match w_auth w with Some p => ps_verified p | None => MkVerified "" "" (MkPublicKey "" [] []) (MkPublicKey "" [] []) end) peer.

(** [ended] is what the session ended with, [token] the identity of the new
    credentials. *)
Definition serve_pending (cfg : ServerConfig) (peer : string) (token : Z) (ended : res unit) : ST (world S) unit :=
  w ← st_get;
  _ ← point;
  match AuthorizeConnection (connection_request w peer) token with
  | Err e => _ ← st_try pending_Reject; st_fail (Wrapped e "authorize connection")
  | Ok credentials =>
      match NewRegistry credentials true [Some commandService] with
      | Err e => _ ← st_try pending_Reject; st_fail (Wrapped e "configure connection services")
      | Ok registry =>
          match config_Validate zero_config with
          | Err e => _ ← st_try pending_Reject; st_fail (Wrapped e "prepare post-auth session")
          | Ok _ =>
              r ← st_try (pending_Accept cfg (Some (rg_credentials registry)));
              match r with
              | Err e => st_fail (Wrapped e "accept authenticated connection")
              | Ok _ =>
                  _ ← point;
                  _ ← st_modify (record_event (Closed OwnSession));   (* the deferred established.Close *)
                  st_lift ended
              end
          end
      end
  end.

Definition serveConnection (ctxErr : option error) (cfg : ServerConfig) (nonce : res bytes) (peer : string) (token : Z) (ended : res unit)
  : ST (world S) unit :=
  r ← st_try (BeginAccept ctxErr cfg nonce);
  match r with
  | Err e => st_fail (Wrapped e "establish session")
  | Ok _ =>
      r ← st_try (serve_pending cfg peer token ended);
      _ ← st_try pending_Close;
      st_lift r
  end.

(** A fresh connection with a schedule. *)
Definition new_world (conn : S) (schedule : list (list disturbance)) : world S :=
  MkWorld _ conn newRuntime None None pendingUndecided false [] schedule.
End establish.

(** ** What other goroutines leave alone *)

Section frames.
Context {S : Type}.
Implicit Types w : world S.

Definition is_step (h : happening) : bool := match h with Closed _ => false | _ => true end.

(** The steps of the connection, without the closes. *)
Definition steps w : list happening := List.filter is_step (w_trace w).

(** [w'] differs from [w] only in what the runtime and other goroutines do. *)
Record frame (w w' : world S) : Prop := {
  f_steps : steps w' = steps w;
  f_auth : w_auth w' = w_auth w;
  f_conn : w_conn w' = w_conn w;
  f_state : w_state w' = w_state w;
  f_transferred : w_transferred w' = w_transferred w;
}.

#[export] Instance frame_refl : Reflexive frame.
Proof. by split. Qed.

#[export] Instance frame_trans : Transitive frame.
Proof. intros w1 w2 w3 [] []. split; congruence. Qed.

Lemma frame_closed o w : frame w (record_event (Closed o) w).
Proof. split; try done. unfold steps. cbn. by rewrite List.filter_app, app_nil_r. Qed.

Lemma frame_cancel cause w : frame w (runtime_cancel cause w).
Proof. by split. Qed.

Lemma frame_closeCurrentOwner w : frame w (closeCurrentOwner w).
Proof. unfold closeCurrentOwner. case_match; [etrans; [|apply frame_closed]|]; by split. Qed.

Lemma frame_Fail cause w : frame w (runtime_Fail cause w).
Proof.
  unfold runtime_Fail. etrans; [|apply frame_closeCurrentOwner]. etrans; [|apply frame_cancel]. by split.
Qed.

Lemma frame_disturb d w : frame w (disturb d w).
Proof.
  destruct d; cbn.
  - apply frame_cancel.
  - case_match; [by split|done].
  - case_match; [done|]. etrans; [|apply frame_Fail]. by split.
  - by split.
  - repeat case_match; try done. etrans; [|apply frame_closeCurrentOwner]. by split.
  - repeat case_match; try done. etrans; [|apply frame_Fail]. by split.
Qed.

Lemma frame_disturbs ds w : frame w (foldl (λ w d, disturb d w) w ds).
Proof. revert w. induction ds as [|d ds IH]; intros w; simpl; [done|]. etrans; [apply frame_disturb|apply IH]. Qed.

Lemma wp_point w (Q : res unit → world S → Prop) : (∀ w', frame w w' → Q (Ok tt) w') → wp point Q w.
Proof.
  intros HQ. unfold wp, point. destruct (w_schedule w) as [|ds rest]; simpl; [by apply HQ|].
  apply HQ. etrans; [|apply frame_disturbs]. by split.
Qed.

Lemma wp_framed f w (Q : res unit → world S → Prop) : frame w (f w) → (∀ w', frame w w' → Q (Ok tt) w') → wp (st_modify f) Q w.
Proof. intros Hf HQ. by apply wp_modify, HQ. Qed.

Lemma wp_cause w (Q : res (option error) → world S → Prop) : (∀ c, Q (Ok c) w) → wp runtime_cause Q w.
Proof. intros HQ. apply wp_bind, wp_get, wp_ret, HQ. Qed.

Lemma wp_auth_cause w (Q : res (option error) → world S → Prop) : (∀ c, Q (Ok c) w) → wp auth_cause Q w.
Proof. intros HQ. apply wp_bind, wp_get, wp_ret, HQ. Qed.

Lemma wp_completeAuthDeadline w (Q : res (option error) → world S → Prop) :
  (∀ w' c, frame w w' → Q (Ok c) w') → wp completeAuthDeadline Q w.
Proof.
  intros HQ. apply wp_bind, wp_framed; [by split|]. intros w1 F1. apply wp_bind, wp_point. intros w2 F2.
  apply wp_bind, wp_auth_cause. intros c. apply wp_bind, wp_framed; [by split|]. intros w3 F3. apply wp_ret, HQ.
  by do 2 (etrans; [done|]).
Qed.

Lemma wp_fail_with {A} e w (Q : res A → world S → Prop) : (∀ w', frame w w' → Q (Err e) w') → wp (fail_with e) Q w.
Proof. intros HQ. apply wp_bind, wp_framed; [apply frame_Fail|]. intros w' F. by apply wp_fail, HQ. Qed.

Lemma wp_WrapError e msg w (Q : res error → world S → Prop) : (∀ e', Q (Ok e') w) → wp (WrapError e msg) Q w.
Proof. intros HQ. apply wp_bind, wp_cause. intros c. apply wp_ret, HQ. Qed.

(** Up to the connection, which the function uses. *)
Record frame_conn (w w' : world S) : Prop := {
  fc_steps : steps w' = steps w;
  fc_auth : w_auth w' = w_auth w;
  fc_state : w_state w' = w_state w;
  fc_transferred : w_transferred w' = w_transferred w;
}.

#[export] Instance frame_conn_trans : Transitive frame_conn.
Proof. intros w1 w2 w3 [] []. split; congruence. Qed.

Lemma frame_weaken w w' : frame w w' → frame_conn w w'.
Proof. intros []. by split. Qed.

Lemma wp_RunWithTimeout {A} phase timeout (fn : ST (world S) A) (R : res A → S → Prop) w (Q : res A → world S → Prop) :
  (∀ w1, frame w w1 → wp fn (λ r w2, frame_conn w1 w2 ∧ R r (w_conn w2)) w1) →
  (∀ e w', frame_conn w w' → Q (Err e) w') →
  (∀ a w', frame_conn w w' → R (Ok a) (w_conn w') → Q (Ok a) w') →
  wp (RunWithTimeout phase timeout fn) Q w.
Proof.
  intros Hfn Herr HQ. apply wp_bind, wp_cause. intros [e|]; [apply wp_fail, Herr; by split|].
  apply wp_bind, wp_framed; [by split|]. intros w1 F1. apply wp_bind, wp_point. intros w2 F2.
  pose proof (frame_trans _ _ _ F1 F2) as F12. apply wp_bind. unfold startTimer. apply wp_bind, wp_get.
  destruct (rt_owner (w_rt w2)); [|by apply wp_fail, Herr, frame_weaken].
  apply wp_framed; [by split|]. intros w3 F3. apply wp_bind, wp_point. intros w4 F4.
  assert (F : frame w w4) by (by do 2 (etrans; [done|])).
  apply wp_bind, wp_try. eapply wp_mono; [by apply Hfn|]. intros r w5 [F5 HR]. cbn beta.
  apply wp_bind, wp_point. intros w6 F6. apply wp_bind, wp_cause. intros cause.
  apply wp_bind, wp_framed; [by split|]. intros w7 F7.
  assert (Fc : frame_conn w w7) by (apply (frame_conn_trans _ w4); [by apply frame_weaken|]; apply (frame_conn_trans _ w5); [done|];
      apply frame_weaken; by etrans).
  destruct cause; [by apply wp_fail, Herr|]. apply wp_lift. destruct r as [a|e]; [|by apply Herr].
  apply HQ; [done|]. by rewrite (f_conn _ _ F7), (f_conn _ _ F6).
Qed.

Lemma wp_on_conn {A} (m : ST S A) w : wp (on_conn m) (λ r w', frame_conn w w' ∧ m (w_conn w) = (w_conn w', r)) w.
Proof. unfold wp, on_conn. destruct (m (w_conn w)) as [s r]. by split. Qed.
End frames.

(** ** One decision, after the authorization *)

Section served.
Context {S : Type} (fr : Framer S) (HandshakeServer : ST S bytes) `{ProtoMessage AuthFrame} `{KeyLib} `{AuthLib} `{!TrustLib} `{AuthzEnv}.
Implicit Types w : world S.

(** How far an acceptance got. *)
Inductive accepting (prepared : option ConnectionCredentials) : list happening → Prop :=
  | not_bound : accepting prepared []
  | only_bound : accepting prepared [Bound prepared]
  | decided r : accepting prepared [Bound prepared; Decided true r]
  | activated : accepting prepared [Bound prepared; Decided true (Ok tt); Activated].

Lemma steps_record e w : is_step e = true → steps (record_event e w) = steps w ++ [e].
Proof. intros E. unfold steps. cbn. rewrite List.filter_app. cbn. by rewrite E. Qed.

(** The client is the one that [BeginServer] reported on the connection, with the
    binding of the handshake on that connection. *)
Definition reported_client (conn : S) (cfg : ServerConfig) (nonce : res bytes) (p : PendingServerAuth (S:=S)) : Prop :=
  ∃ s s' binding cause, HandshakeServer conn = (s, Ok binding) ∧ BeginServer fr (sc_HostKey cfg) binding nonce cause s = (s', Ok p).

Lemma wp_BeginAccept ctxErr cfg nonce w (Q : res unit → world S → Prop) : steps w = [] → w_state w = pendingUndecided →
  w_transferred w = false →
  (∀ w' p, steps w' = [] → w_state w' = pendingUndecided → w_transferred w' = false → w_auth w' = Some p →
     reported_client (w_conn w) cfg nonce p → Q (Ok tt) w') →
  (∀ w' e, steps w' = [] → Q (Err e) w') → wp (BeginAccept fr HandshakeServer ctxErr cfg nonce) Q w.
Proof.
  intros Hs Hst Htr Hok Herr. unfold BeginAccept. destruct ctxErr; [by apply wp_fail, Herr|].
  apply wp_bind, wp_lift. destruct (wrap_err _ _); [|by apply Herr].
  apply wp_bind, wp_point. intros w0 F0. destruct F0 as [E0 _ C0 E0' E0''].
  apply wp_bind, wp_try, (wp_RunWithTimeout _ _ _ (λ r s, HandshakeServer (w_conn w) = (s, r))).
  { intros w1 F1. eapply wp_mono; [apply wp_on_conn|]. intros r w2 [Fc E]. split; [done|]. by rewrite (f_conn _ _ F1), C0 in E. }
  { intros e w1 [E1 _ E2 E3]. apply wp_bind, wp_WrapError. intros e'. apply wp_bind, wp_framed; [apply frame_Fail|]. intros w2 [E4 _ _ _ _].
      apply wp_fail, Herr. congruence. }
  intros binding w1 [E1 _ E2 E3] Hhs. apply wp_bind, wp_point. intros w2 F2. apply wp_bind, wp_framed; [by split|]. intros w3 F3.
  apply wp_bind, wp_point. intros w4 F4. apply wp_bind, wp_framed; [by split|]. intros w5 F5.
  apply wp_bind, wp_framed; [by split|]. intros w6 F6. apply wp_bind, wp_point. intros w7 F7.
  apply wp_bind, wp_auth_cause. intros cause. apply wp_bind. unfold wp at 1.
  assert (F : frame w1 w7) by (by do 5 (etrans; [done|])). destruct F as [E4 _ C4 E5 E6].
  destruct (BeginServer _ _ _ _ _ _) as [s r] eqn:Eb. cbn. apply wp_bind, wp_point. intros w8 [E7 _ _ E8 E9]. cbn in E7, E8, E9.
  destruct r as [p|e].
  - apply wp_modify. apply (Hok _ p); cbn.
    + unfold steps in *. cbn in *. congruence.
    + congruence.
    + congruence.
    + done.
    + rewrite <- C4 in Hhs. by do 4 eexists.
  - apply wp_bind, wp_completeAuthDeadline. intros w9 c [E10 _ _ _ _]. apply wp_bind, wp_WrapError. intros e'.
    apply wp_bind, wp_framed; [apply frame_Fail|]. intros w10 [E11 _ _ _ _]. apply wp_fail, Herr.
    unfold steps in *. cbn in *. congruence.
Qed.

Lemma wp_claim next w (Q : res unit → world S → Prop) :
  Q (Ok tt) (w <| w_state := next |>) → Q (Err ErrDecisionMade) w → wp (claim next) Q w.
Proof.
  intros Hok Herr. apply wp_bind, wp_get. case_bool_decide; [by apply wp_modify|by apply wp_fail].
Qed.

Lemma wp_decide accepted w (Q : res unit → world S → Prop) : is_Some (w_auth w) →
  (∀ w' r, steps w' = steps w ++ [Decided accepted r] → w_transferred w' = w_transferred w → Q r w') →
  wp (decide_auth fr accepted) Q w.
Proof.
  intros [p Hp] HQ. unfold wp, decide_auth. rewrite Hp. destruct ((if accepted then Accept fr else Reject fr) p) as [p' r]. simpl.
  apply HQ; [|done]. by rewrite steps_record.
Qed.

(** What holds after an attempt to accept. *)
Definition accept_post (prepared : option ConnectionCredentials) (r : res unit) (w : world S) : Prop :=
  accepting prepared (steps w) ∧ w_transferred w = is_ok r ∧
  (r = Ok tt → steps w = [Bound prepared; Decided true (Ok tt); Activated]).

Lemma wp_accept_fails prepared e w : accepting prepared (steps w) → w_transferred w = false →
  wp (fail_with (A:=unit) e) (accept_post prepared) w.
Proof. intros Ha Ht. apply wp_fail_with. intros w' [E _ _ _ E']. split_and!; [by rewrite E|by rewrite E'|done]. Qed.

Lemma wp_accept_activate prepared w : steps w = [Bound prepared; Decided true (Ok tt)] → w_transferred w = false →
  wp accept_activate (accept_post prepared) w.
Proof.
  intros Hs Ht. apply wp_bind, wp_modify. set (w1 := record_event Activated w).
  assert (steps w1 = [Bound prepared; Decided true (Ok tt); Activated]) as S1 by (unfold w1; by rewrite steps_record, Hs).
  apply wp_bind, wp_point. intros w2 [S2 _ _ _ T2]. apply wp_bind, wp_cause. intros [e|].
  { apply wp_accept_fails; [rewrite S2, S1; constructor|by rewrite T2]. }
  apply wp_bind, wp_point. intros w3 [S3 _ _ _ _]. apply wp_bind, wp_framed; [by split|]. intros w4 [S4 _ _ _ _].
  apply wp_bind, wp_point. intros w5 [S5 _ _ _ _]. apply wp_modify.
  assert (steps w5 = [Bound prepared; Decided true (Ok tt); Activated]) as E by congruence.
  unfold accept_post. unfold steps in *. cbn. rewrite E. split_and!; [constructor|done..].
Qed.

Lemma wp_accept_bound prepared w : steps w = [Bound prepared] → is_Some (w_auth w) → w_transferred w = false →
  wp (accept_bound fr) (accept_post prepared) w.
Proof.
  intros Hs Ha Ht. apply wp_bind, wp_point. intros w1 F1. apply wp_bind, wp_framed; [by split|]. intros w2 F2.
  apply wp_bind, wp_point. intros w3 F3. apply wp_bind, wp_completeAuthDeadline. intros w4 c F4.
  assert (F : frame w w4) by (by do 3 (etrans; [done|])). destruct c as [e|].
  { destruct F as [E _ _ _ E']. apply wp_accept_fails; [rewrite E, Hs; constructor|by rewrite E']. }
  apply wp_bind, wp_point. intros w5 F5. assert (F' : frame w w5) by (by etrans). destruct F' as [E1 E2 _ _ E3].
  apply wp_bind, wp_try, wp_decide; [by rewrite E2|]. intros w6 r E4 E5. apply wp_bind, wp_point. intros w7 [E6 _ _ _ E7].
  rewrite E1, Hs in E4. destruct r as [[]|e].
  - apply wp_accept_activate; [by rewrite E6|congruence].
  - apply wp_accept_fails; [rewrite E6, E4; constructor|congruence].
Qed.

Lemma wp_accept_prepared prepared w : steps w = [] → is_Some (w_auth w) → w_transferred w = false →
  wp (accept_prepared fr prepared) (accept_post prepared) w.
Proof.
  intros Hs Ha Ht. apply wp_bind, wp_point. intros w1 F1. apply wp_bind, wp_auth_cause. intros [e|].
  { destruct F1 as [E _ _ _ E']. apply wp_accept_fails; [rewrite E, Hs; constructor|by rewrite E']. }
  apply wp_bind, wp_framed; [by split|]. intros w2 F2. apply wp_bind, wp_point. intros w3 F3.
  assert (F : frame w w3) by (by do 2 (etrans; [done|])). destruct F as [E1 E2 _ _ E3]. apply wp_bind, wp_cause. intros [e|].
  { apply wp_accept_fails; [rewrite E1, Hs; constructor|by rewrite E3]. }
  apply wp_bind, wp_modify. apply wp_accept_bound; [by rewrite steps_record, E1, Hs|cbn; by rewrite E2|cbn; by rewrite E3].
Qed.

Lemma wp_pending_Accept cfg prepared w : steps w = [] → is_Some (w_auth w) → w_transferred w = false →
  wp (pending_Accept fr cfg prepared) (accept_post prepared) w.
Proof.
  intros Hs Ha Ht. apply wp_bind, wp_claim; [|split_and!; [rewrite Hs; constructor|done|done]].
  destruct prepared as [c|]; [by apply wp_accept_prepared|].
  destruct (wrap_err _ _); [by apply wp_accept_prepared|]. apply wp_accept_fails; [|done].
  unfold steps in *. cbn. rewrite Hs. constructor.
Qed.

(** What holds after a rejection. *)
Lemma wp_pending_Reject w : steps w = [] → is_Some (w_auth w) → w_transferred w = false →
  wp (pending_Reject fr) (λ _ w', (steps w' = [] ∨ ∃ r, steps w' = [Decided false r]) ∧ w_transferred w' = false) w.
Proof.
  intros Hs Ha Ht. apply wp_bind, wp_claim; [|auto]. apply wp_bind, wp_try, wp_decide; [done|]. intros w1 r E1 T1.
  apply wp_bind, wp_point. intros w2 F2. apply wp_bind, wp_completeAuthDeadline. intros w3 c F3.
  apply wp_bind, wp_framed; [apply frame_Fail|]. intros w4 F4.
  assert (F : frame w1 w4) by (by do 2 (etrans; [done|])). destruct F as [E2 _ _ _ E3].
  unfold steps at 2 in E1. cbn in E1. fold (steps w) in E1. rewrite Hs in E1.
  assert (Hpost : (steps w4 = [] ∨ ∃ r, steps w4 = [Decided false r]) ∧ w_transferred w4 = false).
  { split; [right; exists r; by rewrite E2, E1|]. by rewrite E3, T1. }
  destruct r, c; done.
Qed.

Lemma wp_pending_Close w (Q : res unit → world S → Prop) :
  (∀ w' r, steps w' = steps w → w_transferred w' = w_transferred w → Q r w') → wp pending_Close Q w.
Proof.
  intros HQ. apply wp_bind, wp_get. case_match; [by apply wp_ret, HQ|].
  apply wp_bind, wp_modify. set (w0 := if bool_decide _ then _ else _). assert (steps w0 = steps w ∧ w_transferred w0 = w_transferred w) as [S0 T0]
    by (unfold w0; destruct (bool_decide (w_state w = pendingUndecided)); split; reflexivity).
  apply wp_bind, wp_completeAuthDeadline. intros w1 c F1. apply wp_framed; [apply frame_Fail|]. intros w2 F2.
  destruct F1, F2. apply HQ; congruence.
Qed.

(** How a connection ended. *)
Definition served_post (conn : S) (cfg : ServerConfig) (nonce : res bytes) (peer : string) (token : Z) (t : list happening) : Prop :=
  t = [] ∨
  ∃ p, reported_client conn cfg nonce p ∧
    match AuthorizeConnection (MkRequest (ps_verified p) peer) token with
    | Ok credentials => accepting (Some credentials) t
    | Err _ => ∃ r, t = [Decided false r]
    end.

Lemma registry_commands credentials : ∃ services, NewRegistry credentials true [Some commandService] = Ok (MkRegistry credentials services) ∧
  services = {[ChannelType := commandService]}.
Proof. eexists. split; [|done]. done. Qed.

Lemma wp_serve_pending conn cfg nonce peer token ended w p : steps w = [] → w_auth w = Some p → w_transferred w = false →
  reported_client conn cfg nonce p →
  wp (serve_pending fr cfg peer token ended) (λ _ w', served_post conn cfg nonce peer token (steps w')) w.
Proof.
  intros Hs Ha Ht Hp. apply wp_bind, wp_get, wp_bind, wp_point. intros w1 F1. pose proof F1 as [S1 A1 _ _ T1].
  unfold connection_request. rewrite Ha.
  assert (Hrej : ∀ e, is_ok (AuthorizeConnection (MkRequest (ps_verified p) peer) token) = false →
    wp (_ ← st_try (pending_Reject fr); st_fail (A:=unit) e) (λ _ w', served_post conn cfg nonce peer token (steps w')) w1).
  { intros e Hno. apply wp_bind, wp_try. eapply wp_mono; [apply wp_pending_Reject; [congruence|by rewrite A1, Ha|congruence]|].
    intros r w2 [[E|[r' E]] _]; apply wp_fail; [by left|right]. exists p. split; [done|].
    destruct (AuthorizeConnection _ _); [done|by exists r']. }
  destruct (AuthorizeConnection _ token) as [credentials|e] eqn:Eauth; [|by apply Hrej].
  destruct (registry_commands credentials) as (services & -> & _).
  replace (config_Validate zero_config) with (@Ok unit tt) by (symmetry; vm_compute; reflexivity).
  apply wp_bind, wp_try. eapply wp_mono; [apply wp_pending_Accept; [congruence|by rewrite A1, Ha|congruence]|].
  intros r w2 (Hacc & _ & _). cbn beta.
  assert (Hpost : ∀ w', steps w' = steps w2 → served_post conn cfg nonce peer token (steps w')).
  { intros w' ->. right. exists p. split; [done|]. by rewrite Eauth. }
  destruct r as [u|e]; [|by apply wp_fail, Hpost]. apply wp_bind, wp_point. intros w3 F3.
  apply wp_bind, wp_framed; [apply frame_closed|]. intros w4 F4. destruct F3, F4. apply wp_lift, Hpost. congruence.
Qed.

Lemma accepted_post ctxErr cfg nonce peer token ended (conn : S) schedule :
  served_post conn cfg nonce peer token
    (steps (serveConnection fr HandshakeServer ctxErr cfg nonce peer token ended (new_world conn schedule)).1).
Proof.
  enough (wp (serveConnection fr HandshakeServer ctxErr cfg nonce peer token ended)
    (λ _ w', served_post conn cfg nonce peer token (steps w')) (new_world conn schedule)) as Hw by exact Hw.
  apply wp_bind, wp_try, wp_BeginAccept; [done..| |intros w' e E; apply wp_fail; by left].
  intros w1 p S1 _ T1 A1 Hp. apply wp_bind, wp_try. eapply wp_mono; [by eapply (wp_serve_pending conn cfg nonce peer token ended w1 p)|]. intros r w2 Hpost. cbn beta.
  apply wp_bind, wp_try, wp_pending_Close. intros w3 r' E _. apply wp_lift. by rewrite E.
Qed.

(** C10: Whatever the network, the timers and the shutdown of the daemon do, a
    connection is decided at most once, and in this order: a client is accepted
    only after [BeginServer] reported it on this very connection, with
    the binding of its handshake, and
    [AuthorizeConnection] gave credentials for exactly what it proved; before the
    acceptance is sent, the session that serves those credentials is bound, and it
    is activated only once the acceptance was sent.  A client that is not authorized
    gets a rejection and nothing else. *)
Theorem accepted_after_authorization ctxErr cfg nonce peer token ended (conn : S) schedule :
  let t := steps (serveConnection fr HandshakeServer ctxErr cfg nonce peer token ended (new_world conn schedule)).1 in
  t = [] ∨
  ∃ p, reported_client conn cfg nonce p ∧
    match AuthorizeConnection (MkRequest (ps_verified p) peer) token with
    | Ok credentials => accepting (Some credentials) t
    | Err _ => ∃ r, t = [Decided false r]
    end.
Proof. apply accepted_post. Qed.
End served.

(** ** The socket is always closed *)

Section closing.
Context {S : Type}.
Implicit Types w : world S.

Definition socket_closed w : Prop := ∃ o, Closed o ∈ w_trace w.

(** The runtime owns the socket, or it was closed. *)
Definition kept w : Prop := socket_closed w ∨ is_Some (rt_owner (w_rt w)).

(** A change that keeps the owner and adds to the trace. *)
Definition keeping w w' : Prop := rt_owner (w_rt w') = rt_owner (w_rt w) ∧ w_trace w `prefix_of` w_trace w'.

Lemma socket_closed_prefix w w' : w_trace w `prefix_of` w_trace w' → socket_closed w → socket_closed w'.
Proof. intros [l E] [o Ho]. exists o. rewrite E. apply elem_of_app. by left. Qed.

Lemma keeping_kept w w' : keeping w w' → kept w → kept w'.
Proof.
  intros [E P] [Hc|Ho]; [left; by eapply socket_closed_prefix|right; by rewrite E].
Qed.

Lemma keeping_trivial w w' : rt_owner (w_rt w') = rt_owner (w_rt w) → w_trace w' = w_trace w → kept w → kept w'.
Proof. intros E1 E2. apply keeping_kept. split; [done|by rewrite E2]. Qed.

Lemma kept_closeCurrentOwner w : kept w → socket_closed (closeCurrentOwner w) ∧ kept (closeCurrentOwner w).
Proof.
  intros Hk. assert (Hc : socket_closed (closeCurrentOwner w)); [|split; [done|by left]].
  unfold closeCurrentOwner. destruct Hk as [Hc|[o Ho]].
  - destruct (rt_owner (w_rt w)); [|exact Hc]. destruct Hc as [o' Ho']. exists o'. cbn. apply elem_of_app. by left.
  - rewrite Ho. exists o. cbn. apply elem_of_app. right. left.
Qed.

Lemma kept_Fail cause w : kept w → socket_closed (runtime_Fail cause w) ∧ kept (runtime_Fail cause w).
Proof. intros Hk. apply kept_closeCurrentOwner. by eapply keeping_trivial; [..|exact Hk]. Qed.

Lemma kept_disturb d w : kept w → kept (disturb d w).
Proof.
  intros Hk. destruct d; cbn.
  - by eapply keeping_trivial; [..|exact Hk].
  - case_match; [|done]. by eapply keeping_trivial; [..|exact Hk].
  - case_match; [done|]. apply kept_Fail. by eapply keeping_trivial; [..|exact Hk].
  - by eapply keeping_trivial; [..|exact Hk].
  - repeat case_match; try done. apply kept_closeCurrentOwner. by eapply keeping_trivial; [..|exact Hk].
  - repeat case_match; try done. apply kept_Fail. by eapply keeping_trivial; [..|exact Hk].
Qed.

Lemma kept_disturbs ds w : kept w → kept (foldl (λ w d, disturb d w) w ds).
Proof. revert w. induction ds as [|d ds IH]; intros w Hk; simpl; [done|]. by apply IH, kept_disturb. Qed.

Lemma preserves_point : preserves kept (point (S:=S)).
Proof.
  intros w Hk. unfold wp, point. destruct (w_schedule w); [done|]. apply kept_disturbs. by eapply keeping_trivial; [..|exact Hk].
Qed.

Lemma wp_point_kept w (Q : res unit → world S → Prop) : kept w → (∀ w', kept w' → Q (Ok tt) w') → wp point Q w.
Proof.
  intros Hk HQ. unfold wp, point. destruct (w_schedule w); [by apply HQ|]. apply HQ, kept_disturbs.
  by eapply keeping_trivial; [..|exact Hk].
Qed.

Lemma preserves_keeping (f : world S → world S) : (∀ w, keeping w (f w)) → preserves kept (st_modify f).
Proof. intros Hf. apply preserves_modify. intros w. by apply keeping_kept. Qed.

Lemma preserves_SetOwner o : preserves kept (st_modify (SetOwner (S:=S) o)).
Proof. apply preserves_modify. intros w _. right. by eexists. Qed.

Lemma preserves_Fail cause : preserves kept (st_modify (runtime_Fail (S:=S) cause)).
Proof. apply preserves_modify. intros w Hk. by apply kept_Fail. Qed.

Lemma preserves_record e : preserves kept (st_modify (record_event (S:=S) e)).
Proof. apply preserves_keeping. intros w. split; [done|]. cbn. by apply prefix_app_r. Qed.

Lemma preserves_on_conn {A} (m : ST S A) : preserves kept (on_conn m).
Proof. intros w Hk. unfold wp, on_conn. destruct (m (w_conn w)). by eapply keeping_trivial; [..|exact Hk]. Qed.

Lemma preserves_decide (fr : Framer S) `{ProtoMessage AuthFrame} accepted : preserves kept (decide_auth fr accepted).
Proof.
  intros w Hk. unfold wp, decide_auth. destruct (w_auth w); [|done]. destruct ((if accepted then Accept fr else Reject fr) p).
  eapply keeping_kept; [|exact Hk]. split; [done|]. cbn. by apply prefix_app_r.
Qed.
End closing.

(** Two facts about one run. *)
Lemma wp_both {S A} (m : ST S A) (P1 P2 Q : res A → S → Prop) s : wp m P1 s → wp m P2 s →
  (∀ r s', P1 r s' → P2 r s' → Q r s') → wp m Q s.
Proof. unfold wp. auto. Qed.

Ltac kept_unit _ :=
  first [ apply preserves_point | apply preserves_Fail | apply preserves_SetOwner | apply preserves_record
        | apply preserves_on_conn | apply preserves_decide
        | apply preserves_keeping; intros; (split; [reflexivity|reflexivity]) ].

Section closing_theorems.
Context {S : Type} (fr : Framer S) (HandshakeServer HandshakeClient : ST S bytes).
Context `{ProtoMessage AuthFrame} `{KeyLib} `{AuthLib} `{!TrustLib} `{AuthzEnv}.
Implicit Types w : world S.

Lemma wp_complete_kept w (Q : res (option error) → world S → Prop) : kept w → (∀ w' c, kept w' → Q (Ok c) w') →
  wp completeAuthDeadline Q w.
Proof.
  intros Hk HQ. apply wp_bind, wp_modify, wp_bind, wp_point_kept; [by eapply keeping_trivial; [..|exact Hk]|].
  intros w1 K1. apply wp_bind, wp_auth_cause. intros c. apply wp_bind, wp_modify, wp_ret, HQ.
  by eapply keeping_trivial; [..|exact K1].
Qed.

Lemma preserves_RunWithTimeout {A} phase timeout (fn : ST (world S) A) : preserves kept fn → preserves kept (RunWithTimeout phase timeout fn).
Proof. intros Hfn. unfold RunWithTimeout, runtime_cause, startTimer, stopTimer. pres_with ltac:(fun _ => first [exact Hfn | kept_unit ()]). Qed.

Lemma wp_closing {A} e msg w (Q : res A → world S → Prop) : kept w → (∀ w' e', socket_closed w' → Q (Err e') w') →
  wp (wrapped ← WrapError e msg; _ ← st_modify runtime_Close; st_fail wrapped) Q w.
Proof.
  intros Hk HQ. apply wp_bind, wp_WrapError. intros e'. apply wp_bind, wp_modify, wp_fail, HQ. by apply kept_Fail.
Qed.

Lemma wp_BeginAccept_kept cfg nonce w : kept w → validateTimeouts (sc_HandshakeTimeout cfg) (sc_AuthTimeout cfg) = Ok tt →
  wp (BeginAccept fr HandshakeServer None cfg nonce) (λ r w', match r with Ok _ => kept w' | Err _ => socket_closed w' end) w.
Proof.
  intros Hk Hv. unfold BeginAccept. apply wp_bind, wp_lift. rewrite Hv. simpl wrap_err. cbv iota.
  apply wp_bind, wp_point_kept; [done|]. intros w0 K0.
  apply wp_bind, wp_try. eapply preserves_wp; [apply preserves_RunWithTimeout, preserves_on_conn|done|]. intros r w1 K1.
  destruct r as [binding|e]; [|by apply wp_closing].
  apply wp_bind, wp_point_kept; [done|]. intros w2 K2. apply wp_bind, wp_modify, wp_bind, wp_point_kept.
  { right. by eexists. }
  intros w3 K3. apply wp_bind, wp_modify, wp_bind, wp_modify, wp_bind, wp_point_kept; [by eapply keeping_trivial; [..|exact K3]|].
  intros w4 K4. apply wp_bind, wp_auth_cause. intros cause. apply wp_bind. unfold wp at 1.
  destruct (BeginServer _ _ _ _ _ _) as [s r] eqn:Eb. cbn. apply wp_bind, wp_point_kept; [by eapply keeping_trivial; [..|exact K4]|].
  intros w5 K5. destruct r as [p|e].
  - apply wp_modify. by eapply keeping_trivial; [..|exact K5].
  - apply wp_bind, wp_complete_kept; [done|]. intros w6 c K6. by apply wp_closing.
Qed.

Lemma wp_fail_kept {A} e w (Q : res A → world S → Prop) : kept w → (∀ w', kept w' → Q (Err e) w') → wp (fail_with e) Q w.
Proof. intros Hk HQ. apply wp_bind, wp_modify, wp_fail, HQ. by apply kept_Fail. Qed.

(** The outcome of [Accept]: the socket is kept, or handed over to the session. *)
Definition accept_kept (r : res unit) (w : world S) : Prop := is_ok r = false → kept w.

Lemma wp_accept_activate_kept w : kept w → wp accept_activate accept_kept w.
Proof.
  intros Hk. apply wp_bind, wp_modify, wp_bind, wp_point_kept.
  { eapply keeping_kept; [|exact Hk]. split; [done|]. cbn. by apply prefix_app_r. }
  intros w1 K1. apply wp_bind, wp_cause. intros [e|]; [by apply wp_fail_kept; [|intros ? K _]|].
  apply wp_bind, wp_point_kept; [done|]. intros w2 _. apply wp_bind, wp_modify, wp_bind, wp_point. intros w3 _. by apply wp_modify.
Qed.

Lemma wp_accept_bound_kept w : kept w → wp (accept_bound fr) accept_kept w.
Proof.
  intros Hk. apply wp_bind, wp_point_kept; [done|]. intros w1 K1. apply wp_bind, wp_modify, wp_bind, wp_point_kept.
  { right. by eexists. }
  intros w2 K2. apply wp_bind, wp_complete_kept; [done|]. intros w3 [e|] K3; [by apply wp_fail_kept; [|intros ? K _]|].
  apply wp_bind, wp_point_kept; [done|]. intros w4 K4. apply wp_bind, wp_try.
  eapply preserves_wp; [apply preserves_decide|exact K4|]. intros r w5 K5. apply wp_bind, wp_point_kept; [done|]. intros w6 K6.
  destruct r; [by apply wp_accept_activate_kept|by apply wp_fail_kept; [|intros ? K _]].
Qed.

Lemma wp_accept_prepared_kept prepared w : kept w → wp (accept_prepared fr prepared) accept_kept w.
Proof.
  intros Hk. apply wp_bind, wp_point_kept; [done|]. intros w1 K1. apply wp_bind, wp_auth_cause. intros [e|]; [by apply wp_fail_kept; [|intros ? K _]|].
  apply wp_bind, wp_modify, wp_bind, wp_point_kept; [by eapply keeping_trivial; [..|exact K1]|]. intros w2 K2.
  apply wp_bind, wp_cause. intros [e|]; [by apply wp_fail_kept; [|intros ? K _]|]. apply wp_bind, wp_modify, wp_accept_bound_kept.
  eapply keeping_kept; [|exact K2]. split; [done|]. cbn. by apply prefix_app_r.
Qed.

Lemma wp_pending_Accept_kept cfg prepared w : kept w → wp (pending_Accept fr cfg prepared) accept_kept w.
Proof.
  intros Hk. apply wp_bind, wp_claim; [|by intros _].
  assert (K1 : kept (w <| w_state := pendingAccepted |>)) by (by eapply keeping_trivial; [..|exact Hk]).
  destruct prepared; [by apply wp_accept_prepared_kept|]. destruct (wrap_err _ _); [by apply wp_accept_prepared_kept|]. by apply wp_fail_kept; [|intros w' K _].
Qed.

Lemma preserves_Reject : preserves kept (pending_Reject fr).
Proof. unfold pending_Reject, claim, completeAuthDeadline, auth_cause, runtime_Close. pres_with kept_unit. Qed.

(** [Close] was not called yet. *)
Definition not_closed w : Prop := w_state w ≠ pendingClosed.

Lemma preserves_point_not_closed : preserves not_closed (point (S:=S)).
Proof. intros w Hn. apply wp_point. intros w' [_ _ _ E _]. unfold not_closed. by rewrite E. Qed.

Lemma preserves_framed (f : world S → world S) : (∀ w, frame w (f w)) → preserves not_closed (st_modify f).
Proof. intros Hf. apply preserves_modify. intros w Hn. unfold not_closed. by rewrite (f_state _ _ (Hf w)). Qed.

Lemma preserves_decide_not_closed accepted : preserves not_closed (decide_auth fr accepted).
Proof. intros w Hn. unfold wp, decide_auth. destruct (w_auth w); [|done]. by destruct ((if accepted then Accept fr else Reject fr) p). Qed.

(** [Close] of a connection that was not handed over. *)
Lemma wp_pending_Close_kept w (Q : res unit → world S → Prop) : kept w → not_closed w →
  w_transferred w = false → (∀ w', socket_closed w' → Q (Ok tt) w') → wp pending_Close Q w.
Proof.
  intros Hk Hn Ht HQ. apply wp_bind, wp_get. rewrite Ht, bool_decide_false by apply Hn. simpl orb. cbv iota.
  apply wp_bind, wp_modify, wp_bind, wp_complete_kept.
  { destruct (bool_decide (w_state w = pendingUndecided)); [by eapply keeping_trivial; [..|exact Hk]|done]. }
  intros w1 c K1. apply wp_modify, HQ. by apply kept_Fail.
Qed.

Ltac open_unit _ :=
  first [ apply preserves_point_not_closed | apply preserves_decide_not_closed
        | apply preserves_framed; intros; first [apply frame_Fail | apply frame_closed | (split; reflexivity)]
        | apply preserves_modify; intros; (exact (λ E, match E with end) || done) ].

Lemma preserves_serve_not_closed cfg peer token ended : preserves not_closed (serve_pending fr cfg peer token ended).
Proof.
  unfold serve_pending, pending_Reject, pending_Accept, accept_prepared, accept_bound, accept_activate, completeAuthDeadline, claim,
    auth_cause, runtime_cause, fail_with.
  pres_with open_unit.
Qed.

(** What is left for the deferred [Close]. *)
Definition left_over w : Prop := if w_transferred w then socket_closed w else kept w.

Lemma wp_serve_pending_kept cfg peer token ended w p : kept w → steps w = [] → w_auth w = Some p → w_transferred w = false →
  wp (serve_pending fr cfg peer token ended) (λ _ w', left_over w') w.
Proof.
  intros Hk Hs Ha Ht. apply wp_bind, wp_get, wp_bind. apply (wp_both _ (λ r w', r = Ok tt ∧ frame w w') (λ _ w', kept w')); [by apply wp_point|by apply preserves_point|].
  intros ? w1 [-> F1] K1. pose proof F1 as [S1 A1 _ _ T1].
  assert (Hrej : ∀ e, wp (_ ← st_try (pending_Reject fr); st_fail (A:=unit) e) (λ _ w', left_over w') w1).
  { intros e. apply wp_bind, wp_try.
    eapply wp_both; [apply (wp_pending_Reject fr w1); [congruence|by rewrite A1, Ha|congruence]|exact (preserves_Reject w1 K1)|].
    intros r w2 [_ T2] K2. apply wp_fail. unfold left_over. by rewrite T2. }
  destruct (AuthorizeConnection _ token) as [credentials|e]; [|by apply Hrej].
  destruct (NewRegistry _ _ _) as [registry|e]; [|by apply Hrej]. destruct (config_Validate _); [|by apply Hrej].
  apply wp_bind, wp_try.
  eapply wp_both; [apply (wp_pending_Accept fr cfg (Some (rg_credentials registry)) w1); [congruence|by rewrite A1, Ha|congruence]
    |exact (wp_pending_Accept_kept cfg (Some (rg_credentials registry)) w1 K1)|].
  intros r w2 (_ & T2 & _) K2. destruct r as [u|e].
  - apply wp_bind, wp_point. intros w3 F3. apply wp_bind, wp_modify, wp_lift. unfold left_over. cbn.
    rewrite (f_transferred _ _ F3), T2. exists OwnSession. cbn. apply elem_of_app. right. left.
  - apply wp_fail. unfold left_over. rewrite T2. by apply K2.
Qed.

End closing_theorems.

(** ** From the proof of a key to a process *)

Section commands.
Context {S : Type} (fr : Framer S) (HandshakeServer : ST S bytes) `{ProtoMessage AuthFrame} `{KeyLib} `{AuthLib} `{!TrustLib} `{AuthzEnv}.

Lemma bound_in_steps (w : world S) prepared : Bound prepared ∈ w_trace w → Bound prepared ∈ steps w.
Proof.
  unfold steps. intros Hin. apply list_elem_of_In, List.filter_In. split; [by apply list_elem_of_In|done].
Qed.

Lemma accepting_bound prepared prepared' t : accepting prepared t → Bound prepared' ∈ t → prepared' = prepared.
Proof. intros [] Hin; set_solver. Qed.

Lemma served_bound conn cfg nonce peer token t credentials : served_post fr HandshakeServer conn cfg nonce peer token t → Bound (Some credentials) ∈ t →
  ∃ p, reported_client fr HandshakeServer conn cfg nonce p ∧ AuthorizeConnection (MkRequest (ps_verified p) peer) token = Ok credentials.
Proof.
  intros [->|(p & Hp & Ht)] Hin; [by apply elem_of_nil in Hin|]. exists p. split; [done|].
  destruct (AuthorizeConnection _ token) as [c|e].
  - apply (accepting_bound _ _ _ Ht) in Hin. by injection Hin as ->.
  - destruct Ht as [r ->]. by apply list_elem_of_singleton in Hin.
Qed.

(** What a registry of a connection opens. *)
Lemma registry_opens credentials registry type payload h :
  NewRegistry credentials true [Some commandService] = Ok registry → registry_OnChannelOpen (Some registry) type payload = Opened h →
  type = ChannelType ∧ payload = [] ∧ h_credentials h = credentials ∧ AuthorizeChannel credentials type = Ok (h_authorized h).
Proof.
  destruct (registry_commands credentials) as (services & -> & ->). intros [= <-]. unfold registry_OnChannelOpen. cbn [rg_services rg_credentials].
  destruct (decide (type = ChannelType)) as [->|Hne]; [|by rewrite lookup_singleton_ne].
  rewrite lookup_singleton_eq. destruct (AuthorizeChannel credentials ChannelType) as [authorized|]; [|done]. cbn [commandService sv_Open].
  unfold command_Open. rewrite (bool_decide_true (ChannelType = ChannelType)) by done. simpl negb. cbn [reject_if mbind res_bind].
  case_bool_decide as Hpl; [|done]. by intros [= <-].
Qed.

Lemma process_belongs_to_key_raw ctxErr cfg nonce peer token ended (conn : S) schedule credentials registry type payload h
  request order ctxErr' euid egid groups cmd
  (Hb : Bound (Some credentials) ∈
     w_trace (serveConnection fr HandshakeServer ctxErr cfg nonce peer token ended (new_world conn schedule)).1)
  (Hreg : NewRegistry credentials true [Some commandService] = Ok registry)
  (Hopen : registry_OnChannelOpen (Some registry) type payload = Opened h)
  (Ho : ∀ l, toLaunchRequest request = Ok l → map_order (lr_Environment l) order)
  (Hcmd : starter_command (h_credentials h) (h_authorized h) request order ctxErr' euid egid groups = Ok cmd) :
  ∃ p acc source constraints, reported_client fr HandshakeServer conn cfg nonce p ∧
    resolve_account (vc_requestedUsername (ps_verified p)) = Ok acc ∧
    (∃ path, path ∈ authorizedKeysPaths ∧ lists_key acc path (vc_provenKey (ps_verified p)) (MkMatchedKey source constraints)) ∧
    cmd_Path cmd = a_LoginShell acc ∧ cmd_Dir cmd = a_HomeDir acc ∧
    cr_Uid (cmd_Credential cmd) = a_Id acc ∧ cr_Gid (cmd_Credential cmd) = g_Id (a_PrimaryGroup acc) ∧
    (TrimSpace (mk_forcedCommand constraints) ≠ ""%string →
       cmd_Args cmd = [path_Base (a_LoginShell acc); "-c"%string; TrimSpace (mk_forcedCommand constraints)]).
Proof.
  pose proof (accepted_post fr HandshakeServer ctxErr cfg nonce peer token ended conn schedule) as Hpost.
  destruct (served_bound _ _ _ _ _ _ _ Hpost (bound_in_steps _ _ Hb)) as (p & Hp & Hauth).
  destruct (registry_opens _ _ _ _ _ Hreg Hopen) as (_ & _ & Ec & _). rewrite Ec in Hcmd.
  destruct (process_confined_raw _ _ _ _ _ _ _ _ _ Ho Hcmd) as (E1 & E2 & E3 & E4 & _ & _ & Hargs & _).
  destruct (connection_inv _ _ _ Hauth) as (_&_&Hacc&_&_&_&_&(pre&path&post&Epath&Hlist&_)&_&d&_&_&_&_&_&Hforced&_).
  exists p, (account credentials), (matchedSource credentials), (matchedKeyConstraints credentials).
  split_and!; try done.
  - exists path. split; [|done]. rewrite Epath. apply elem_of_app. right. left.
  - intros Hne. assert (mk_forcedCommand (matchedKeyConstraints credentials) ≠ ""%string) as Hne' by (intros E; rewrite E in Hne; done).
    rewrite bool_decide_false in Hforced by done. rewrite Hforced in Hargs.
    destruct Hargs as [(_ & Hf & _)|(command & -> & Hc & _)]; [by rewrite Hf in Hne|]. by rewrite (Hc Hne).
Qed.

(** Every process that is started over a connection belongs to the key that was
    proved on it: the session that serves the connection was bound with credentials
    for the client that [BeginServer] reported on this connection; and a process started on any channel
    the registry of that session opens runs as the account of the requested user, in
    whose authorized_keys file that key is listed, in its home directory with its
    login shell, and with the forced command of the key if it has one. *)
Theorem process_belongs_to_key ctxErr cfg nonce peer token ended (conn : S) schedule credentials registry type payload h
  request order ctxErr' euid egid groups cmd
  (Hb : Bound (Some credentials) ∈
     w_trace (serveConnection fr HandshakeServer ctxErr cfg nonce peer token ended (new_world conn schedule)).1)
  (Hreg : NewRegistry credentials true [Some commandService] = Ok registry)
  (Hopen : registry_OnChannelOpen (Some registry) type payload = Opened h)
  (Ho : ∀ l, toLaunchRequest request = Ok l → map_order (lr_Environment l) order)
  (Hcmd : starter_command (h_credentials h) (h_authorized h) request order ctxErr' euid egid groups = Ok cmd) :
  ∃ p acc source constraints, reported_client fr HandshakeServer conn cfg nonce p ∧
    resolve_account (vc_requestedUsername (ps_verified p)) = Ok acc ∧
    (∃ path, path ∈ authorizedKeysPaths ∧ lists_key acc path (vc_provenKey (ps_verified p)) (MkMatchedKey source constraints)) ∧
    cmd_Path cmd = a_LoginShell acc ∧ cmd_Dir cmd = a_HomeDir acc ∧
    cr_Uid (cmd_Credential cmd) = a_Id acc ∧ cr_Gid (cmd_Credential cmd) = g_Id (a_PrimaryGroup acc) ∧
    (TrimSpace (mk_forcedCommand constraints) ≠ ""%string →
       cmd_Args cmd = [path_Base (a_LoginShell acc); "-c"%string; TrimSpace (mk_forcedCommand constraints)]).
Proof. by eapply process_belongs_to_key_raw. Qed.
End commands.

(** ** The client side *)

Section connect.
Context {S R : Type} (HandshakeClient : ST S bytes) (authenticate : bytes → option error → ST S R).
Implicit Types w : world S.

(** The client was authenticated on the connection, with the binding of its
    handshake. *)
Definition authenticated (conn : S) (result : R) : Prop :=
  ∃ s s' binding cause, HandshakeClient conn = (s, Ok binding) ∧ authenticate binding cause s = (s', Ok result).

(** [Connect] got as far as taking over the socket. *)
Definition connect_admits (ctxErr : option error) (cfg : ClientConfig) : bool :=
  bool_decide (ctxErr = None) && is_ok (validateTimeouts (cc_HandshakeTimeout cfg) (cc_AuthTimeout cfg)) && is_ok (config_Validate (cc_SessionConfig cfg)).

Definition connect_post (conn : S) (ctxErr : option error) (cfg : ClientConfig) (r : res R) w : Prop :=
  match r with
  | Ok result => steps w = [Bound None; Activated] ∧ authenticated conn result
  | Err _ => if connect_admits ctxErr cfg then socket_closed w else w_trace w = []
  end.

Lemma wp_point_both w (Q : res unit → world S → Prop) : kept w → (∀ w', frame w w' → kept w' → Q (Ok tt) w') → wp point Q w.
Proof.
  intros Hk HQ. apply (wp_both _ (λ r w', r = Ok tt ∧ frame w w') (λ _ w', kept w')); [by apply wp_point|by apply preserves_point|].
  intros r w' [-> F] K. by apply HQ.
Qed.

(** Running a function on the connection with a timer. *)
Lemma wp_timed {A} phase timeout (fn : ST (world S) A) (T : res A → S → Prop) w (Q : res A → world S → Prop) : kept w →
  (∀ w1, frame w w1 → wp fn (λ r w2, frame_conn w1 w2 ∧ T r (w_conn w2)) w1) → preserves kept fn →
  (∀ e w', kept w' → Q (Err e) w') →
  (∀ a w', frame_conn w w' → kept w' → T (Ok a) (w_conn w') → Q (Ok a) w') →
  wp (RunWithTimeout phase timeout fn) Q w.
Proof.
  intros Hk Hfn Hpres Herr HQ.
  apply (wp_both _ (λ r w', match r with Ok a => frame_conn w w' ∧ T (Ok a) (w_conn w') | Err _ => True end) (λ _ w', kept w')).
  - apply (wp_RunWithTimeout _ _ _ T); [done|done|auto].
  - by apply preserves_RunWithTimeout.
  - intros [a|e] w' HT K; [|by apply Herr]. by apply HQ; [apply HT|..|apply HT].
Qed.

Lemma wp_fail_closed {A} e w (Q : res A → world S → Prop) : kept w → (∀ w', socket_closed w' → Q (Err e) w') → wp (fail_with e) Q w.
Proof. intros Hk HQ. apply wp_bind, wp_modify, wp_fail, HQ. by apply kept_Fail. Qed.

(** The end of [Connect]. *)
Lemma wp_connect_bind conn cfg result w : kept w → steps w = [] → authenticated conn result → connect_admits None cfg = true →
  wp (_ ← st_modify (SetPhase lifecyclePostAuthStarting); _ ← point; cause ← runtime_cause;
      match cause with
      | Some e => fail_with e
      | None =>
          _ ← st_modify (record_event (Bound None)); _ ← point; _ ← st_modify (SetOwner OwnSession);
          _ ← st_modify (record_event Activated); _ ← point; cause ← runtime_cause;
          match cause with
          | Some e => fail_with e
          | None => _ ← point; _ ← st_modify Release; mret result
          end
      end) (connect_post conn None cfg) w.
Proof.
  intros Hk Hs Ha Hc. apply wp_bind, wp_modify, wp_bind, wp_point_both; [by eapply keeping_trivial; [..|exact Hk]|].
  intros w1 [S1 _ _ _ _] K1. apply wp_bind, wp_cause. intros [e|].
  { apply wp_fail_closed; [done|]. intros w' Hw. unfold connect_post. by rewrite Hc. }
  apply wp_bind, wp_modify, wp_bind, wp_point_both.
  { eapply keeping_kept; [|exact K1]. split; [done|]. cbn. by apply prefix_app_r. }
  intros w2 [S2 _ _ _ _] K2. apply wp_bind, wp_modify, wp_bind, wp_modify, wp_bind, wp_point_both.
  { right. by eexists. }
  intros w3 [S3 _ _ _ _] K3. apply wp_bind, wp_cause. intros [e|].
  { apply wp_fail_closed; [done|]. intros w' Hw. unfold connect_post. by rewrite Hc. }
  apply wp_bind, wp_point. intros w4 [S4 _ _ _ _]. apply wp_bind, wp_modify, wp_ret. split; [|done].
  rewrite steps_record in S2, S3 by done. unfold steps in *. cbn in *. by rewrite S4, S3, S2, S1, Hs.
Qed.

Lemma connect_outcome_raw ctxErr cfg (conn : S) schedule :
  let '(w, r) := Connect HandshakeClient authenticate ctxErr cfg (new_world conn schedule) in
  match r with
  | Ok result => steps w = [Bound None; Activated] ∧ authenticated conn result
  | Err _ => if connect_admits ctxErr cfg then socket_closed w else w_trace w = []
  end.
Proof.
  enough (wp (Connect HandshakeClient authenticate ctxErr cfg) (connect_post conn ctxErr cfg) (new_world conn schedule)) as Hw.
  { unfold wp in Hw. by destruct (Connect _ _ _ _ _). }
  unfold Connect. destruct ctxErr as [e|]; [by apply wp_fail|].
  apply wp_bind, wp_lift. destruct (validateTimeouts _ _) as [[]|e] eqn:Ev; simpl wrap_err; cbv iota.
  2:{ unfold connect_post, connect_admits. by rewrite Ev, andb_false_r. }
  apply wp_bind, wp_lift. destruct (config_Validate (cc_SessionConfig cfg)) as [[]|e] eqn:Ec; simpl wrap_err; cbv iota.
  2:{ unfold connect_post, connect_admits. by rewrite Ec, !andb_false_r. }
  assert (Hc : connect_admits None cfg = true) by (unfold connect_admits; by rewrite Ev, Ec).
  assert (Herr : ∀ w' e', socket_closed w' → connect_post conn None cfg (Err e') w') by (intros; unfold connect_post; by rewrite Hc).
  apply wp_bind, wp_point_both; [right; by eexists|]. intros w0 [S0 _ C0 _ _] K0.
  apply wp_bind, wp_try, (wp_timed _ _ _ (λ r s, HandshakeClient conn = (s, r))); [done| |apply preserves_on_conn|..].
  { intros w1 F1. eapply wp_mono; [apply wp_on_conn|]. intros r w2 [Fc E]. split; [done|]. by rewrite (f_conn _ _ F1), C0 in E. }
  { intros e w1 K1. by apply wp_closing. }
  intros binding w1 [S1 _ _ _] K1 Hhs. apply wp_bind, wp_point_both; [done|]. intros w2 [S2 _ C2 _ _] K2.
  apply wp_bind, wp_modify, wp_bind, wp_point_both; [right; by eexists|]. intros w3 [S3 _ C3 _ _] K3.
  apply wp_bind, wp_modify, wp_bind, wp_point_both; [by eapply keeping_trivial; [..|exact K3]|]. intros w4 [S4 _ C4 _ _] K4.
  assert (Ew : w_conn w4 = w_conn w1) by (cbn in C3, C4; congruence).
  apply wp_bind, wp_try, (wp_timed _ _ _ (λ r s, ∃ cause, authenticate binding cause (w_conn w1) = (s, r))); [done|..].
  { intros w5 F5. apply wp_bind, wp_cause. intros cause. eapply wp_mono; [apply wp_on_conn|]. intros r w6 [Fc E]. split; [done|].
    exists cause. by rewrite (f_conn _ _ F5), Ew in E. }
  { apply preserves_bind; [intros w Hk; apply wp_cause; by intros|]. intros cause. apply preserves_on_conn. }
  { intros e w5 K5. by apply wp_closing. }
  intros result w5 [S5 _ _ _] K5 [cause Hau]. apply wp_connect_bind; [done| | |done].
  - unfold steps in *. cbn in *. congruence.
  - by do 4 eexists.
Qed.

(** A client that is connected was authenticated: [Connect] returns a session only
    if the handshake on the socket and then the authentication on its channel, with
    the binding of that handshake, succeeded, and the session was bound and
    activated once, after both.  If [Connect] fails, the socket is closed; only
    the checks before it takes the socket over leave it untouched. *)
Theorem connect_outcome ctxErr cfg (conn : S) schedule :
  let '(w, r) := Connect HandshakeClient authenticate ctxErr cfg (new_world conn schedule) in
  match r with
  | Ok result => steps w = [Bound None; Activated] ∧ authenticated conn result
  | Err _ => if connect_admits ctxErr cfg then socket_closed w else w_trace w = []
  end.
Proof. apply connect_outcome_raw. Qed.
End connect.

(** ** A concrete connection *)

#[local] Existing Instance toy_proto.
#[local] Existing Instance toy_auth.
#[local] Existing Instance toy_keys.
#[local] Existing Instance toy_trust.
#[local] Existing Instance toy_env.

(** What a client with the key [toy_pair] sends to a server with the key [toy_client]. *)
Definition toy_frames : list bytes :=
  (RunClient (recording queue) (honest_config toy_client toy_pair "alice" "host") toy_binding (Ok toy_cn)
     ((BeginServer (recording queue) toy_client toy_binding (Ok toy_sn) None
         ([wire_of (FHostAuthInit (honest_init "host" toy_cn))], [])).1.2, [])).1.2.

Definition toy_config : ServerConfig := MkServerConfig toy_client 0 0 zero_config.

Definition toy_handshake : ST (list bytes) bytes := λ s, (s, Ok toy_binding).

Definition toy_serve (schedule : list (list disturbance)) : world (list bytes) * res unit :=
  serveConnection queue toy_handshake None toy_config (Ok toy_sn) "192.0.2.1" 5 (Ok tt) (new_world toy_frames schedule).

Definition served_credentials : ConnectionCredentials :=
  match w_trace (toy_serve []).1 with Bound (Some c) :: _ => c | _ => toy_credentials end.

Definition served_registry : Registry := MkRegistry served_credentials {[ChannelType := commandService]}.

Definition served_handler : channelHandler :=
  match registry_OnChannelOpen (Some served_registry) ChannelType [] with
  | Opened h => h
  | Rejected _ => MkChannelHandler toy_credentials toy_channel
  end.

Example toy_serves : (toy_serve []).2 = Ok tt ∧ account served_credentials = toy_account ∧
  steps (toy_serve []).1 = [Bound (Some served_credentials); Decided true (Ok tt); Activated].
Proof. vm_compute. split_and!; reflexivity. Qed.

(** The deadline of the authentication expires while the client is authorized. *)
Example toy_deadline : steps (toy_serve [[]; []; []; []; []; []; []; [AuthDeadline; AuthFuncRuns]]).1 = [].
Proof. vm_compute. reflexivity. Qed.


Lemma process_belongs_to_key_witness :
  ∃ p acc, reported_client queue toy_handshake toy_frames toy_config (Ok toy_sn) p ∧
    resolve_account (vc_requestedUsername (ps_verified p)) = Ok acc ∧ cr_Uid (cmd_Credential Launch.toy_command) = a_Id acc.
Proof.
  destruct (process_belongs_to_key queue toy_handshake None toy_config (Ok toy_sn) "192.0.2.1" 5 (Ok tt) toy_frames []
    served_credentials served_registry ChannelType [] served_handler Launch.toy_start ["TERM"%string] None 0 0 (Ok [0]) Launch.toy_command)
    as (p & acc & source & constraints & Hp & Ha & Hl & E1 & E2 & E3 & _).
  - vm_compute. left.
  - reflexivity.
  - vm_compute. reflexivity.
  - intros l Hl. vm_compute in Hl. injection Hl as <-. vm_compute. reflexivity.
  - vm_compute. reflexivity.
  - exists p, acc. split; [exact Hp|split; [exact Ha|exact E3]].
Defined.

(** Releasing the connection does not end the context of the runtime: the
    goroutine that waits for it outlives the connection. *)
Lemma accepted_connection_leaks :
  ((toy_serve []).2, List.existsb (λ h, match h with Closed _ => true | _ => false end) (w_trace (toy_serve []).1),
   rt_cause (w_rt (toy_serve []).1), rt_watched (w_rt (toy_serve []).1)) = (Ok tt, true, None, false).
Proof. vm_compute. reflexivity. Qed.
