(* ===== verification/ClientApp.v ===== *)
(** * The client program (app/client, app/server/files.go, lib/keys/openssh_key.go)

    What the client is told to connect to (target.go), the files of the user that
    it and the server read (files.go), the start request it builds, and
    [RunClient] up to the established session (client.go).  The environment of
    the process, the terminal and the PEM decoder are arguments; files are read
    through [SecureFiles], the connection is that of [Establish]. *)

From Stdlib Require Import Strings.Ascii.
From S2P Require Import Prelude GoStrings GoNet Bincoder Wire SessionConfig Keys Trust Auth AuthProofs Authz AppConfig CommandCodec Launch SecureFiles Establish.

(** ** target.go *)

Record connectTarget := MkTarget { tg_username : string; tg_host : string; tg_port : string }.

(** [strings.Count] of one byte. *)
Fixpoint count_byte (c : ascii) (s : string) : nat :=
  match s with
  | EmptyString => O
  | String a r => if bool_decide (a = c) then S (count_byte c r) else count_byte c r
  end.

Definition host_required : error := NewError "connect target host is required".
Definition port_required : error := NewError "connect target port is required".

Definition splitConnectHostPort (target : string) : res (string * string) :=
  if starts_with lbracket target then
    match cut rbracket target with
    | None => Err (NewError "connect target has an unterminated bracketed host")
    | Some (bracketed, rest) =>
        let host := tail bracketed in
        reject_if (bool_decide (host = ""%string)) host_required ≫= λ _,
        if bool_decide (rest = ""%string) then mret (host, ""%string)
        else if starts_with colon rest then
          let port := tail rest in
          reject_if (bool_decide (port = ""%string)) port_required ≫= λ _, mret (host, port)
        else Err (NewError "connect target has unexpected characters after bracketed host")
    end
  else
    match SplitHostPort target with
    | Ok (host, port) =>
        reject_if (bool_decide (host = ""%string)) host_required ≫= λ _,
        reject_if (bool_decide (port = ""%string)) port_required ≫= λ _, mret (host, port)
    | Err _ =>
        if bool_decide (count_byte colon target = 1%nat) then
          let '(host, port) := default (target, ""%string) (cut colon target) in
          reject_if (bool_decide (host = ""%string)) host_required ≫= λ _,
          reject_if (bool_decide (port = ""%string)) port_required ≫= λ _, mret (host, port)
        else mret (target, ""%string)
    end.

Definition parseConnectTarget (raw : string) : res connectTarget :=
  let target := TrimSpace raw in
  reject_if (bool_decide (target = ""%string)) (NewError "connect target is required") ≫= λ _,
  (match cut_last at_sign target with
   | Some (username, rest) =>
       reject_if (bool_decide (username = ""%string)) (NewError "connect target username is required") ≫= λ _,
       reject_if (bool_decide (rest = ""%string)) host_required ≫= λ _, mret (username, rest)
   | None => mret (""%string, target)
   end) ≫= λ '(username, target),
  splitConnectHostPort target ≫= λ '(host, port), mret (MkTarget username host port).

Definition dialAddress (t : connectTarget) (defaultPort : Z) : string :=
  JoinHostPort (tg_host t) (if bool_decide (tg_port t = ""%string) then Sprint_d defaultPort else tg_port t).

Definition referenceIdentity (t : connectTarget) : string := tg_host t.

(** [user] is the variable USER. *)
Definition localUsername (user : string) : string :=
  if bool_decide (TrimSpace user = ""%string) then "unknown"%string else TrimSpace user.

Definition resolvedUsername (t : connectTarget) (user : string) : string :=
  if bool_decide (tg_username t = ""%string) then localUsername user else tg_username t.

(** ** lib/keys/openssh_key.go *)

(** [pem.Decode]: the type and the contents of the first block. *)
Class PemLib := { pem_Decode : bytes → option (string * bytes) }.

Definition ParseOpensshPrivateKeyRaw `{KeyLib} `{PemLib} (raw : bytes) : res Keypair :=
  let raw := bytes_TrimSpace raw in
  reject_if (bool_decide (raw = [])) (NewError "decode OpenSSH private key: empty input") ≫= λ _,
  if bool_decide (opensshKeyV1Magic `prefix_of` raw) then parseOpensshPrivateKeyV1 raw
  else
    match pem_Decode raw with
    | None => Err (NewError "decode OpenSSH private key: expected PEM block or openssh-key-v1 payload")
    | Some (type, contents) =>
        reject_if (negb (bool_decide (type = "OPENSSH PRIVATE KEY"%string))) (NewError "decode OpenSSH private key: unexpected PEM type") ≫= λ _,
        parseOpensshPrivateKeyV1 contents
    end.

(** lib/keys/keys.go *)
Definition ParseKeypair `{KeyLib} `{PemLib} (b : bytes) : res Keypair := ParseOpensshPrivateKeyRaw b.

(** ** files.go *)

Definition privateKeyMaxSize : Z := 16384.
Definition knownHostsMaxSize : Z := 1048576.

(** What the process knows about itself: the home directory of the user, the
    working directory, the effective user id, USER and TERM. *)
Record Process := MkProcess {
  os_UserHomeDir : res string; os_Getwd : res string; os_Geteuid : Z; env_USER : string; env_TERM : string;
  os_LookupEnv : string → option string;
}.

(** The directory a file is read below, and its path from there. *)
Definition user_path (p : Process) (path : string) : res (string * string) :=
  wrap_err "resolve current user home" (os_UserHomeDir p) ≫= λ homeDir,
  if String.prefix "~/" path then mret (homeDir, trim_home path)
  else if IsAbs path then mret (path_Dir path, path_Base path)
  else wrap_err "resolve current working directory" (os_Getwd p) ≫= λ anchor, mret (anchor, path).

Section files.
Context `{Kernel} `{KeyLib} `{!TrustLib} `{PemLib}.

Definition readCurrentUserFile (p : Process) (path : string) (maxSize : Z) (allowGlobalRead : bool) : ST Sys bytes :=
  '(anchor, relative) ← st_lift (user_path p path);
  securefiles_read anchor relative (MkPolicy (u32 (os_Geteuid p)) maxSize allowGlobalRead).

Definition loadClientIdentity (p : Process) (path : string) : ST Sys Keypair :=
  r ← st_try (readCurrentUserFile p path privateKeyMaxSize false);
  contents ← st_lift (wrap_err "load client identity" r);
  st_lift (wrap_err "parse client identity" (ParseOpensshPrivateKeyRaw contents)).

Definition loadKnownHosts (p : Process) (path : string) : ST Sys (list KnownHostEntry) :=
  r ← st_try (readCurrentUserFile p path knownHostsMaxSize true);
  contents ← st_lift (wrap_err "load known_hosts" r);
  st_lift (wrap_err "parse known_hosts" (ParseKnownHosts contents)).

(** app/server/files.go *)
Definition loadHostKey (p : Process) (path : string) : ST Sys Keypair :=
  '(anchor, relative) ← st_lift (user_path p path);
  r ← st_try (securefiles_read anchor relative (MkPolicy (u32 (os_Geteuid p)) privateKeyMaxSize false));
  contents ← st_lift (wrap_err "load host key" r);
  st_lift (wrap_err "parse host key" (ParseOpensshPrivateKeyRaw contents)).
End files.

Definition knownHostsVerifier (entries : list KnownHostEntry) : string → PublicKey → option error := λ reference key,
  match MatchHostKey (Some entries) reference key with
  | HostKeyAccepted => None
  | HostKeyRevoked => Some (NewError "host key is revoked for reference identity")
  | HostKeyMismatch => Some (NewError "unexpected host key fingerprint for reference identity")
  | HostKeyNoHost => Some (NewError "no known host keys for reference identity")
  end.

(** ** client.go *)

Record ConnectArgs := MkConnectArgs {
  ar_Target : string; ar_Command : list string; ar_ForcePTY : bool; ar_DisablePTY : bool; ar_Environment : list string;
}.

Definition equals_sign : ascii := ascii_of 61.

Fixpoint requestedEnvironment_loop (lookup : string → option string) (options : list string) (environment : gmap string string)
  : res (gmap string string) :=
  match options with
  | [] => Ok environment
  | option :: rest =>
      let '(name, value, explicit) :=
        match cut equals_sign option with Some (n, v) => (n, v, true) | None => (option, ""%string, false) end in
      let name := TrimSpace name in
      reject_if (bool_decide (name = ""%string) || contains_any equals_nul name) (NewError "invalid environment option") ≫= λ _,
      (if explicit then mret value
       else match lookup name with Some v => mret v | None => Err (NewError "local environment variable is not set") end) ≫= λ value,
      reject_if (contains NUL value) (NewError "environment variable contains NUL") ≫= λ _,
      reject_if (bool_decide (is_Some (environment !! name))) (NewError "environment variable was requested more than once") ≫= λ _,
      requestedEnvironment_loop lookup rest (<[name := value]> environment)
  end.

Definition requestedEnvironment (lookup : string → option string) (options : list string) : res (gmap string string) :=
  requestedEnvironment_loop lookup options ∅.

(** [terminal] says that the input is a terminal, with its width and height if
    they are known. *)
Definition buildStartRequest (p : Process) (args : ConnectArgs) (terminal : bool) (size : option (Z * Z)) : res StartRequest :=
  let kind := if bool_decide (ar_Command args = []) then StartShell else StartExec in
  let command := if bool_decide (ar_Command args = []) then ""%string else String.concat " " (ar_Command args) in
  requestedEnvironment (os_LookupEnv p) (ar_Environment args) ≫= λ environment,
  let usePTY := ar_ForcePTY args || (negb (ar_DisablePTY args) && (kind =? StartShell) && terminal) in
  let '(width, height) :=
    match size with
    | Some (w, h) => if terminal && (0 <? w) && (0 <? h) then (w, h) else (80, 24)
    | None => (80, 24)
    end in
  let term := TrimSpace (env_TERM p) in
  let term := if bool_decide (term = ""%string) then "xterm-256color"%string else term in
  mret (MkStartRequest kind command (if usePTY then Some (MkPTYRequest term (u32 height) (u32 width)) else None) environment).

(** What [RunClient] has when it dials. *)
Record prepared := MkPrepared { pr_target : connectTarget; pr_identity : Keypair; pr_knownHosts : list KnownHostEntry; pr_address : string }.

Section client.
Context `{Kernel} `{KeyLib} `{!TrustLib} `{PemLib}.

Definition prepare_client (p : Process) (cfg : Client) (args : ConnectArgs) : ST Sys prepared :=
  _ ← st_lift (reject_if (bool_decide (ar_Target args = ""%string)) (NewError "connect target is required"));
  _ ← st_lift (reject_if (ar_ForcePTY args && ar_DisablePTY args) (NewError "-t and -T cannot be used together"));
  _ ← st_lift (wrap_err "validate client config" (client_Validate cfg));
  target ← st_lift (parseConnectTarget (ar_Target args));
  identity ← loadClientIdentity p (ct_PrivateKey cfg);
  knownHosts ← loadKnownHosts p (ct_KnownHosts cfg);
  mret (MkPrepared target identity knownHosts (dialAddress target (ct_DefaultPort cfg))).

Context {S : Type} (fr : Framer S) (HandshakeClient : ST S bytes) `{ProtoMessage AuthFrame} `{!AuthLib}.

Definition auth_config (p : Process) (c : prepared) : Auth.ClientConfig :=
  Auth.MkClientConfig (referenceIdentity (pr_target c)) (resolvedUsername (pr_target c) (env_USER p))
    (Some (StaticClientIdentityProvider (pr_identity c))) (Some (knownHostsVerifier (pr_knownHosts c))).

Definition establish_config (p : Process) (c : prepared) : Establish.ClientConfig :=
  Establish.MkClientConfig (referenceIdentity (pr_target c)) (resolvedUsername (pr_target c) (env_USER p))
    (Some (StaticClientIdentityProvider (pr_identity c))) (Some (knownHostsVerifier (pr_knownHosts c))) 0 0 zero_config.

(** The connection [RunClient] establishes once it has dialed. *)
Definition connect_prepared (p : Process) (c : prepared) (nonce : res bytes) (ctxErr : option error) : ST (world S) ClientResult :=
  Connect HandshakeClient (λ binding _, RunClient fr (auth_config p c) binding nonce) ctxErr (establish_config p c).
End client.

(** ** Targets *)

(** The ways to write a target. *)
Definition format_host (host port : string) : string :=
  if bool_decide (port = ""%string) then (if contains colon host then String lbracket (host +:+ String rbracket EmptyString) else host)
  else JoinHostPort host port.

Definition format_target (t : connectTarget) : string :=
  if bool_decide (tg_username t = ""%string) then format_host (tg_host t) (tg_port t)
  else (tg_username t +:+ String at_sign (format_host (tg_host t) (tg_port t))).

(** A host and a port that can be written in a target. *)
Definition writable (t : connectTarget) : Prop :=
  tg_host t ≠ ""%string ∧ plain_host (tg_host t) ∧ plain_port (tg_port t) ∧
  contains at_sign (tg_host t) = false ∧ contains at_sign (tg_port t) = false.

Lemma starts_with_contains c s : starts_with c s = true → contains c s = true.
Proof. destruct s as [|a s]; [done|]. simpl. by intros ->. Qed.

Lemma starts_with_app c x y : contains c x = false → x ≠ ""%string → starts_with c (x +:+ y) = false.
Proof. destruct x as [|a x]; [done|]. simpl. by intros [? _]%orb_false_iff. Qed.

Lemma count_none c s : contains c s = false → count_byte c s = O.
Proof. induction s as [|a s IH]; [done|]. simpl. intros [Ha Hs]%orb_false_iff. by rewrite Ha, IH. Qed.

Lemma split_format host port : host ≠ ""%string → plain_host host → plain_port port →
  splitConnectHostPort (format_host host port) = Ok (host, port).
Proof.
  intros Hne Hh Hp. pose proof Hh as [Hl Hr]. unfold format_host. case_bool_decide as Ep.
  - subst port. destruct (contains colon host) eqn:Ec.
    + unfold splitConnectHostPort. change (starts_with lbracket (String lbracket _)) with true. cbv iota.
      replace (cut rbracket _) with (Some (String lbracket host, ""%string))
        by (symmetry; apply (cut_app rbracket (String lbracket host) ""); simpl; exact Hr).
      cbn [tail]. by rewrite (bool_decide_false (host = _)) by done.
    + unfold splitConnectHostPort. destruct (starts_with lbracket host) eqn:Es; [by rewrite (starts_with_contains _ _ Es) in Hl|].
      unfold SplitHostPort. rewrite (cut_last_none _ _ Ec), (count_none _ _ Ec). done.
  - unfold JoinHostPort. destruct (contains colon host) eqn:Ec.
    + change ("[" +:+ host +:+ "]:" +:+ port) with (String lbracket (host +:+ String rbracket (String colon port))).
      unfold splitConnectHostPort. change (starts_with lbracket (String lbracket _)) with true. cbv iota.
      replace (cut rbracket _) with (Some (String lbracket host, String colon port))
        by (symmetry; apply (cut_app rbracket (String lbracket host) (String colon port)); simpl; exact Hr).
      cbn [tail]. rewrite (bool_decide_false (host = _)) by done. change (starts_with colon (String colon port)) with true.
      cbn [reject_if mbind res_bind]. by rewrite (bool_decide_false (port = _)) by done.
    + pose proof (split_join_raw host port Hh Hp) as Hs. unfold JoinHostPort in Hs. rewrite Ec in Hs.
      unfold splitConnectHostPort. rewrite (starts_with_app lbracket host _ Hl Hne), Hs.
      by rewrite (bool_decide_false (host = _)), (bool_decide_false (port = _)) by done.
Qed.

Lemma format_host_no_at host port : contains at_sign host = false → contains at_sign port = false →
  contains at_sign (format_host host port) = false.
Proof.
  intros Hh Hp. unfold format_host, JoinHostPort. destruct (contains colon host); case_bool_decide.
  - simpl. change (String.append host (String rbracket "")) with (host +:+ String rbracket ""). rewrite contains_app, Hh. done.
  - change ("[" +:+ host +:+ "]:" +:+ port) with (String lbracket (host +:+ String rbracket (String colon port))).
    simpl. rewrite contains_app, Hh. simpl. exact Hp.
  - done.
  - change (host +:+ ":" +:+ port) with (host +:+ String colon port). rewrite contains_app, Hh. simpl. exact Hp.
Qed.

Lemma format_host_nonempty host port : host ≠ ""%string → format_host host port ≠ ""%string.
Proof.
  intros Hh. unfold format_host, JoinHostPort. destruct (contains colon host); case_bool_decide; try done.
  by destruct host.
Qed.

(** C40: A connect target means what it says: the written form of any user name, host
    and port (in brackets if the host has colons) parses to exactly these, and the
    address that is dialed splits into that host and that port, or the default
    port of the configuration if none is given. *)
Theorem target_roundtrip t defaultPort (Ht : writable t) (Hsp : TrimSpace (format_target t) = format_target t)
  (Hd : 0 <= defaultPort) :
  parseConnectTarget (format_target t) = Ok t ∧
  SplitHostPort (dialAddress t defaultPort) =
    Ok (tg_host t, if bool_decide (tg_port t = ""%string) then FormatUint defaultPort else tg_port t).
Proof.
  destruct t as [username host port]. destruct Ht as (Hne & Hh & Hp & Hha & Hpa). cbn [tg_username tg_host tg_port] in *. split.
  - pose proof (format_host_nonempty host port Hne) as Hf. pose proof (format_host_no_at host port Hha Hpa) as Hat.
    unfold parseConnectTarget. rewrite Hsp. unfold format_target in *. cbn [tg_username tg_host tg_port] in *. case_bool_decide as Eu.
    + rewrite (bool_decide_false (format_host host port = _)) by done. rewrite (cut_last_none _ _ Hat). cbn [reject_if mbind res_bind mret res_ret].
      rewrite (split_format _ _ Hne Hh Hp). by subst username.
    + rewrite (bool_decide_false (_ +:+ _ = _)) by (by destruct username). rewrite (cut_last_app _ _ _ Hat).
      rewrite (bool_decide_false (username = _)), (bool_decide_false (format_host host port = _)) by done.
      cbn [reject_if mbind res_bind mret res_ret]. by rewrite (split_format _ _ Hne Hh Hp).
  - unfold dialAddress, Sprint_d. cbn [tg_host tg_port]. destruct (Z.ltb_spec defaultPort 0); [lia|]. case_bool_decide.
    + apply split_join_raw; [done|apply FormatUint_plain].
    + by apply split_join_raw.
Qed.

(** The environment that is requested is well formed. *)
Lemma requestedEnvironment_valid lookup options environment result :
  (∀ n v, environment !! n = Some v → n ≠ ""%string ∧ contains_any equals_nul n = false ∧ contains NUL v = false) →
  requestedEnvironment_loop lookup options environment = Ok result →
  ∀ n v, result !! n = Some v → n ≠ ""%string ∧ contains_any equals_nul n = false ∧ contains NUL v = false.
Proof.
  revert environment. induction options as [|o options IH]; intros environment He; cbn [requestedEnvironment_loop]; [by intros [= <-]|].
  destruct (match cut equals_sign o with Some (n, v) => (n, v, true) | None => (o, ""%string, false) end) as [[name value] explicit].
  rewrite reject_if_then. intros [Hn Hr]. apply res_bind_ok in Hr as (v' & _ & Hr). rewrite !reject_if_then in Hr.
  destruct Hr as (Hv & Hd & Hr). apply orb_false_iff in Hn as [Hn1 Hn2]. apply bool_decide_eq_false in Hn1.
  eapply IH; [|exact Hr]. intros n v. rewrite lookup_insert_Some. intros [[<- <-]|[_ Hl]]; [done|by apply He].
Qed.

(** ** What is said on the connection *)

Section said.
Context {S : Type}.
Implicit Types w : world S.

Definition conn_is (s : S) w : Prop := w_conn w = s.

Lemma conn_is_point s : preserves (conn_is s) (point (S:=S)).
Proof. intros w Hw. apply wp_point. intros w' F. unfold conn_is. by rewrite (f_conn _ _ F). Qed.

Lemma conn_is_framed s (f : world S → world S) : (∀ w, w_conn (f w) = w_conn w) → preserves (conn_is s) (st_modify f).
Proof. intros Hf. apply preserves_modify. intros w Hw. unfold conn_is. by rewrite Hf. Qed.

Lemma conn_Fail cause w : w_conn (runtime_Fail cause w) = w_conn w.
Proof. apply (f_conn _ _ (frame_Fail cause w)). Qed.

Ltac conn_unit _ :=
  first [ apply conn_is_point | apply conn_is_framed; intros; first [apply conn_Fail | reflexivity] ].

Lemma wp_point_conn w (Q : res unit → world S → Prop) : (∀ w', w_conn w' = w_conn w → Q (Ok tt) w') → wp point Q w.
Proof. intros HQ. apply wp_point. intros w' F. apply HQ, F. Qed.

(** A function under a timer: it did not run, or it did. *)
Lemma wp_timed_conn {A} phase timeout (fn : ST (world S) A) (T : res A → S → Prop) w (Q : res A → world S → Prop) :
  (∀ w1, w_conn w1 = w_conn w → wp fn (λ r w2, T r (w_conn w2)) w1) →
  (∀ e w', w_conn w' = w_conn w ∨ (∃ r, T r (w_conn w')) → Q (Err e) w') →
  (∀ a w', T (Ok a) (w_conn w') → Q (Ok a) w') → wp (RunWithTimeout phase timeout fn) Q w.
Proof.
  intros Hfn Herr Hok. apply wp_bind, wp_cause. intros [e|]; [apply wp_fail, Herr; by left|].
  apply wp_bind, wp_modify, wp_bind, wp_point_conn. intros w1 E1. apply wp_bind. unfold startTimer. apply wp_bind, wp_get.
  destruct (rt_owner (w_rt w1)); [|apply wp_fail, Herr; left; exact E1].
  apply wp_modify, wp_bind, wp_point_conn. intros w2 E2. apply wp_bind, wp_try.
  eapply wp_mono; [apply Hfn; by rewrite E2|]. intros r w3 HT. cbn beta. apply wp_bind, wp_point_conn. intros w4 E4.
  apply wp_bind, wp_cause. intros cause. apply wp_bind, wp_modify.
  assert (HT' : T r (w_conn (w4 <| w_rt ::= λ r0, r0 <| rt_timer := false |> |>))) by (cbn; by rewrite E4).
  destruct cause; [apply wp_fail, Herr; eauto|]. apply wp_lift. destruct r; [by apply Hok|apply Herr; eauto].
Qed.

Lemma wp_on_conn_result {A} (m : ST S A) w : wp (on_conn m) (λ r w', m (w_conn w) = (w_conn w', r)) w.
Proof. unfold wp, on_conn. by destruct (m (w_conn w)). Qed.

Lemma conn_closing {A} e msg : ∀ s, preserves (conn_is s) (wrapped ← WrapError e msg; _ ← st_modify (runtime_Close (S:=S)); st_fail (A:=A) wrapped).
Proof. intros s. unfold WrapError, runtime_cause, runtime_Close. pres_with conn_unit. Qed.

Context {R : Type} (HandshakeClient : ST S bytes) (authenticate : bytes → option error → ST S R).

(** Whatever happens, the connection carries the handshake and then one run of
    the authentication with its binding, or less. *)
Lemma connect_conn ctxErr cfg (conn : S) schedule :
  let s := w_conn (Connect HandshakeClient authenticate ctxErr cfg (new_world conn schedule)).1 in
  s = conn ∨ (∃ r, HandshakeClient conn = (s, r)) ∨
  ∃ s1 binding cause r, HandshakeClient conn = (s1, Ok binding) ∧ authenticate binding cause s1 = (s, r).
Proof.
  set (P := λ s : S, s = conn ∨ (∃ r, HandshakeClient conn = (s, r)) ∨
    ∃ s1 binding cause r, HandshakeClient conn = (s1, Ok binding) ∧ authenticate binding cause s1 = (s, r)).
  enough (wp (Connect HandshakeClient authenticate ctxErr cfg) (λ _ w', P (w_conn w')) (new_world conn schedule)) as Hw by exact Hw.
  assert (Hpres : ∀ {B} (m : ST (world S) B) w, (∀ s, preserves (conn_is s) m) → P (w_conn w) → wp m (λ _ w', P (w_conn w')) w).
  { intros B m w Hm HP. eapply wp_mono; [by apply (Hm (w_conn w))|]. intros r w' E. by rewrite E. }
  unfold Connect. destruct ctxErr; [apply wp_fail; by left|].
  apply wp_bind, wp_lift. destruct (wrap_err _ _); [|by left]. apply wp_bind, wp_lift. destruct (wrap_err _ _); [|by left].
  apply wp_bind, wp_point_conn. intros w0 E0. cbn in E0.
  apply wp_bind, wp_try, (wp_timed_conn _ _ _ (λ r s, HandshakeClient conn = (s, r))).
  { intros w1 E1. eapply wp_mono; [apply wp_on_conn_result|]. intros r w2. by rewrite E1, E0. }
  { intros e w1 HT. apply (Hpres _ _ _ (conn_closing _ _)). destruct HT as [->|[r HT]]; [left; done|right; left; eauto]. }
  intros binding w1 Hhs. cbv beta iota. apply wp_bind, wp_point_conn. intros w2 E2. apply wp_bind, wp_modify, wp_bind, wp_point_conn. intros w3 E3.
  apply wp_bind, wp_modify, wp_bind, wp_point_conn. intros w4 E4. assert (Ew : w_conn w4 = w_conn w1) by (cbn in *; congruence).
  apply wp_bind, wp_try, (wp_timed_conn _ _ _ (λ r s, ∃ cause, authenticate binding cause (w_conn w1) = (s, r))).
  { intros w5 E5. apply wp_bind, wp_cause. intros cause. eapply wp_mono; [apply wp_on_conn_result|]. intros r w6. rewrite E5, Ew. eauto. }
  { intros e w5 HT. apply (Hpres _ _ _ (conn_closing _ _)). destruct HT as [->|(r & cause & HT)].
    - right. left. exists (Ok binding). by rewrite Ew.
    - right. right. eauto 8. }
  intros result w5 [cause Hau]. cbv beta iota. apply Hpres; [|right; right; eauto 8].
  intros s. unfold runtime_cause, fail_with. pres_with conn_unit.
Qed.
End said.

(** ** The client signs only for known hosts *)

(** A computation on a connection, next to the log of what was sent. *)
Definition on_fst {S A L} (m : ST S A) : ST (S * L) A := λ s, let '(s', r) := m s.1 in ((s', s.2), r).

Section trust.
Context `{Kernel} `{KeyLib} `{!TrustLib} `{PemLib} {S : Type} (fr : Framer S) (HandshakeClient : ST S bytes).
Context `{ProtoMessage AuthFrame} `{!AuthLib}.

(** The known_hosts file lists the key for the host, and does not revoke it. *)
Definition known_host (entries : list KnownHostEntry) (host : string) (key : PublicKey) : Prop :=
  (∃ e, e ∈ entries ∧ entry_for host key e ∧ kh_Marker e = KnownHostEmptyMarker) ∧
  ∀ e, e ∈ entries → entry_for host key e → kh_Marker e ≠ KnownHostRevoked.

Lemma verifier_known entries host key : knownHostsVerifier entries host key = None → known_host entries host key.
Proof.
  unfold knownHostsVerifier. destruct (host_key_precedence_raw entries host key) as [Hv _]. intros Hn.
  by destruct (MatchHostKey (Some entries) host key).
Qed.

(** The client trusts a server only if the file lists its key. *)
Lemma trusts_known p c binding init sa key : client_trusts (auth_config p c) binding init sa key →
  known_host (pr_knownHosts c) (tg_host (pr_target c)) key.
Proof.
  intros (h1 & payload & verifier & _ & _ & _ & _ & _ & _ & [= <-] & Hv). by apply verifier_known.
Qed.

Lemma prepare_inv p cfg args sys sys' c : prepare_client p cfg args sys = (sys', Ok c) →
  client_Validate cfg = Ok tt ∧ parseConnectTarget (ar_Target args) = Ok (pr_target c) ∧
  pr_address c = dialAddress (pr_target c) (ct_DefaultPort cfg) ∧
  ∃ sysa sysb contents, readCurrentUserFile p (ct_KnownHosts cfg) knownHostsMaxSize true sysa = (sysb, Ok contents) ∧
    ParseKnownHosts contents = Ok (pr_knownHosts c).
Proof.
  unfold prepare_client, mbind, ST_bind, st_lift. destruct (reject_if _ _); [|done]. destruct (reject_if _ _); [|done].
  destruct (client_Validate cfg) as [[]|] eqn:Ev; [|done]. cbn [wrap_err].
  destruct (parseConnectTarget (ar_Target args)) as [target|] eqn:Et; [|done].
  destruct (loadClientIdentity p (ct_PrivateKey cfg) sys) as [sys1 [identity|]]; [|done].
  destruct (loadKnownHosts p (ct_KnownHosts cfg) sys1) as [sys2 [entries|]] eqn:Ek; [|done]. intros [= <- <-].
  split_and!; try done. exists sys1. revert Ek. unfold loadKnownHosts, st_try, mbind, ST_bind, st_lift.
  destruct (readCurrentUserFile _ _ _ _ sys1) as [sysb [contents|]]; [|done]. cbn [wrap_err].
  destruct (ParseKnownHosts contents) eqn:Ep; [|done]. cbn [wrap_err]. intros [= <- <-]. by exists sysb, contents.
Qed.

(** What the client said on the connection, in terms of its frames. *)
Lemma said_frames p c nonce ctxErr (conn : S) schedule :
  let '(w, r) := connect_prepared (recording fr) (on_fst HandshakeClient) p c nonce ctxErr (new_world (conn, []) schedule) in
  ∃ frames, encodes frames (w_conn w).2 ∧
    (∀ req, FClientAuthRequest req ∈ frames → ∃ s binding init sa key, HandshakeClient conn = (s, Ok binding) ∧
       client_trusts (auth_config p c) binding init sa key) ∧
    ∀ result, r = Ok result → steps w = [Bound None; Activated] ∧
      ∃ s binding init sa, HandshakeClient conn = (s, Ok binding) ∧
        client_trusts (auth_config p c) binding init sa (cl_ServerHostKey result).
Proof.
  pose proof (connect_conn (on_fst HandshakeClient) (λ binding _, RunClient (recording fr) (auth_config p c) binding nonce) ctxErr
    (establish_config p c) (conn, []) schedule) as Hc.
  pose proof (connect_outcome_raw (on_fst HandshakeClient) (λ binding _, RunClient (recording fr) (auth_config p c) binding nonce) ctxErr
    (establish_config p c) (conn, []) schedule) as Ho.
  unfold connect_prepared. destruct (Connect _ _ _ _ _) as [w r]. cbn [fst] in Hc.
  assert (Hhs : ∀ s r, on_fst HandshakeClient (conn, @nil bytes) = (s, r) → s.2 = [] ∧ HandshakeClient conn = (s.1, r)).
  { unfold on_fst. cbn. destruct (HandshakeClient conn) as [s1 r1]. by intros s2 r2 [= <- <-]. }
  assert (Hok : ∀ result, r = Ok result → steps w = [Bound None; Activated] ∧
    ∃ s binding init sa, HandshakeClient conn = (s, Ok binding) ∧ client_trusts (auth_config p c) binding init sa (cl_ServerHostKey result)).
  { intros result ->. destruct Ho as [Hs ([s1 l1] & s' & binding & cause & Hh & Hr)]. split; [done|].
    apply Hhs in Hh as [E Hh]. cbn in E, Hh. subst l1.
    pose proof (client_checks_raw fr (auth_config p c) binding nonce s1) as Hk. rewrite Hr in Hk. destruct s' as [s' l'].
    destruct Hk as (frames & _ & _ & init & sa & key & req & _ & Htr & _). by exists s1, binding, init, sa. }
  destruct Hc as [E|[[r' E]|([s1 l1] & binding & cause & r' & Hh & Hr)]].
  - exists []. rewrite E. split_and!; [constructor|by intros req ?%elem_of_nil|done].
  - apply Hhs in E as [E _]. exists []. rewrite E. split_and!; [constructor|by intros req ?%elem_of_nil|done].
  - apply Hhs in Hh as [E Hh]. cbn in E, Hh. subst l1.
    pose proof (client_checks_raw fr (auth_config p c) binding nonce s1) as Hk. rewrite Hr in Hk. destruct (w_conn w) as [s' l'].
    destruct Hk as (frames & Henc & Hsent & _). exists frames. split_and!; [done| |done].
    intros req Hin. destruct Hsent as [->|(init & _ & [->|(sa & key & ck & rq & Ht & _ & ->)])].
    + by apply elem_of_nil in Hin.
    + by apply list_elem_of_singleton in Hin.
    + by exists s1, binding, init, sa, key.
Qed.

(** C9: The client proves its identity only to hosts it knows: whatever the server, the
    network and the timers do, if the client sends a request signed with the key
    of the user, then before that a server proved, for the channel of this
    connection, that it holds a key which the known_hosts file of the user, as it
    was read, lists for exactly the host of the connect target and does not
    revoke; and a session is only established with such a server. *)
Theorem client_only_known_hosts p cfg args sys sys' c nonce ctxErr (conn : S) schedule
  (Hprep : prepare_client p cfg args sys = (sys', Ok c)) :
  (∃ sysa sysb contents, readCurrentUserFile p (ct_KnownHosts cfg) knownHostsMaxSize true sysa = (sysb, Ok contents) ∧
     ParseKnownHosts contents = Ok (pr_knownHosts c)) ∧
  parseConnectTarget (ar_Target args) = Ok (pr_target c) ∧
  let '(w, r) := connect_prepared (recording fr) (on_fst HandshakeClient) p c nonce ctxErr (new_world (conn, []) schedule) in
  ∃ frames, encodes frames (w_conn w).2 ∧
    (∀ req, FClientAuthRequest req ∈ frames → ∃ s binding init sa key, HandshakeClient conn = (s, Ok binding) ∧
       client_trusts (auth_config p c) binding init sa key ∧ known_host (pr_knownHosts c) (tg_host (pr_target c)) key) ∧
    ∀ result, r = Ok result → steps w = [Bound None; Activated] ∧
      known_host (pr_knownHosts c) (tg_host (pr_target c)) (cl_ServerHostKey result).
Proof.
  destruct (prepare_inv _ _ _ _ _ _ Hprep) as (_ & Ht & _ & Hk). split_and!; [done..|].
  pose proof (said_frames p c nonce ctxErr conn schedule) as Hs. destruct (connect_prepared _ _ _ _ _ _ _) as [w r].
  destruct Hs as (frames & Henc & Hreq & Hres). exists frames. split_and!; [done|..].
  - intros req Hin. destruct (Hreq req Hin) as (s & binding & init & sa & key & Hh & Htr).
    exists s, binding, init, sa, key. split_and!; [done..|by eapply trusts_known].
  - intros result E. destruct (Hres result E) as (Hst & s & binding & init & sa & _ & Htr). split; [done|by eapply trusts_known].
Qed.
End trust.

(** ** A concrete client *)

#[local] Existing Instance toy_proto.
#[local] Existing Instance toy_auth.
#[local] Existing Instance toy_keys.
#[local] Existing Instance toy_trust.
#[local] Existing Instance toy_kernel.

#[local] Instance toy_pem : PemLib := {| pem_Decode _ := None |}.

Definition toy_process : Process := MkProcess (Ok "/home/alice"%string) (Ok "/"%string) 1000 "bob" " " (λ _, None).

Definition toy_client_config : Client := MkClient "" 42022 "~/.ssh/keys" "~/.ssh/keys" (MkLoggingConfig "" false "").

Definition toy_args : ConnectArgs := MkConnectArgs " alice@host " [] false false [].

(** The private key, then the known hosts. *)
Definition toy_files : Sys := MkSys [blob_bytes (openssh_file 5 1 toy_client); []; [x01]] ∅ [].

Definition toy_prepared : prepared :=
  match (prepare_client toy_process toy_client_config toy_args toy_files).2 with
  | Ok c => c
  | Err _ => MkPrepared (MkTarget "" "" "") toy_pair [] ""
  end.

Example toy_prepares : pr_target toy_prepared = MkTarget "alice" "host" "" ∧ pr_address toy_prepared = "host:42022"%string.
Proof. vm_compute. done. Qed.

Example toy_targets :
  (parseConnectTarget "u@[::1]:22", parseConnectTarget "::1", is_ok (parseConnectTarget "host:"), is_ok (parseConnectTarget "@host"))
  = (Ok (MkTarget "u" "::1" "22"), Ok (MkTarget "" "::1" ""), false, false).
Proof. vm_compute. reflexivity. Qed.

(** What the server says. *)
Definition toy_answers : list bytes := (am_conn (ps_machine (Accept (recording queue) toy_pending).1)).2.

Definition toy_connect : world (list bytes * list bytes) * res ClientResult :=
  connect_prepared (recording queue) (on_fst toy_handshake) toy_process toy_prepared (Ok toy_cn) None (new_world (toy_answers, []) []).

Example toy_connects : is_ok toy_connect.2 = true ∧ length (w_conn toy_connect.1).2 = 2%nat.
Proof. vm_compute. done. Qed.

Lemma client_only_known_hosts_witness :
  ∃ result, toy_connect.2 = Ok result ∧ known_host (pr_knownHosts toy_prepared) "host" (cl_ServerHostKey result).
Proof.
  destruct (client_only_known_hosts queue toy_handshake toy_process toy_client_config toy_args toy_files
    (prepare_client toy_process toy_client_config toy_args toy_files).1 toy_prepared (Ok toy_cn) None toy_answers []) as (_ & _ & Hc).
  { vm_compute. reflexivity. }
  pose proof (proj1 toy_connects) as Hok. unfold toy_connect in *. destruct (connect_prepared _ _ _ _ _ _ _) as [w r].
  destruct Hc as (frames & _ & _ & Hr). destruct r as [result|]; [|discriminate Hok].
  exists result. split; [reflexivity|exact (proj2 (Hr result eq_refl))].
Defined.

Lemma target_roundtrip_witness : parseConnectTarget "u@[::1]:22" = Ok (MkTarget "u" "::1" "22").
Proof.
  refine (proj1 (target_roundtrip (MkTarget "u" "::1" "22") 42022 _ _ _)).
  - vm_compute. split_and!; (reflexivity || discriminate).
  - vm_compute. reflexivity.
  - vm_compute. discriminate.
Defined.
