(* ===== verification/ServerApp.v ===== *)
(** * The server program (app/server/server.go)

    [RunServer] up to the daemon: the configuration, the host key, and the
    authorization over the account database of the system ([Accounts]) and its
    files ([SecureFiles]).  What follows, [serveConnection] for every connection,
    is that of [Establish], and the daemon is that of [Daemon]. *)

From S2P Require Import Prelude GoStrings Wire Bincoder Keys Trust Auth AuthProofs Authz AppConfig CommandCodec Launch Accounts SecureFiles Establish ClientApp.

Definition AuthorizedKeysMaxSize : Z := 8388608.

Section server.
Context `{Kernel} `{KeyLib} `{!TrustLib} `{PemLib} `{CLib}.

(** The services of the system: accounts from the C library in the state [h] of its
    heap, and the file below [anchor] at [relative] for [owner] from the state [sys owner anchor relative]
    of the kernel when it is read. *)
Definition system_env (h : heap) (sys : Z → string → string → Sys) (wd : res string) (ctxErr : option error) : AuthzEnv := {|
  resolve_account username := @OSResolver_Resolve (os_accounts h) ctxErr username;
  authorizedKeysPaths := [];
  AuthorizeAccount := None;
  ResolvePermissions := None;
  securefiles_Read owner anchor relative := (securefiles_read anchor relative (MkPolicy owner AuthorizedKeysMaxSize true) (sys owner anchor relative)).2;
  Authz.os_Getwd := wd;
  ctx_Err := ctxErr;
|}.

(** The authorization of the server. *)
Definition server_authorization (h : heap) (sys : Z → string → string → Sys) (wd : res string) (ctxErr : option error) (cfg : Server) (p : ServerPermissions) : AuthzEnv :=
  configured_env (system_env h sys wd ctxErr) cfg p.

(** [New] of authz.go: the paths must be there. *)
Definition authz_New (paths : list string) : res unit :=
  reject_if (bool_decide (paths = [])) (NewError "authorized_keys paths are required").

(** [RunServer] up to the daemon: the host key, and the permissions that the
    authorization grants.  [listened] is the answer of the kernel. *)
Definition prepare_server (p : Process) (cfg : Server) (listened : res unit) : ST Sys (Keypair * ServerPermissions) :=
  _ ← st_lift (wrap_err "validate server config" (server_Validate cfg));
  hostKey ← loadHostKey p (cs_HostKey cfg);
  _ ← st_lift (wrap_err "configure server authorization" (authz_New (cs_AuthorizedKeys cfg)));
  _ ← st_lift (wrap_err "listen on address" listened);
  match cs_Permissions cfg with
  | Some permissions => mret (hostKey, permissions)
  | None => st_fail (NewError "nil permissions")
  end.

(** The configuration of [BeginAccept] in [serveConnection]. *)
Definition accept_config (hostKey : Keypair) : ServerConfig := MkServerConfig hostKey 0 0 SessionConfig.zero_config.
End server.

(** ** From the configuration file to a process *)

Section enforced.
Context {S : Type} (fr : Framer S) (HandshakeServer : ST S bytes).
Context `{Viper} `{Kernel} `{KeyLib} `{!TrustLib} `{PemLib} `{CLib} `{ProtoMessage AuthFrame} `{!AuthLib}.

Lemma prepare_server_inv p cfg listened sys sys' hostKey perms : prepare_server p cfg listened sys = (sys', Ok (hostKey, perms)) →
  server_Validate cfg = Ok tt ∧ loadHostKey p (cs_HostKey cfg) sys = (sys', Ok hostKey) ∧ cs_Permissions cfg = Some perms.
Proof.
  unfold prepare_server, mbind, ST_bind, st_lift. intros Hp. destruct (wrap_err _ (server_Validate cfg)) as [[]|] eqn:Ev; [|done].
  apply wrap_err_ok in Ev. destruct (loadHostKey p (cs_HostKey cfg) sys) as [s1 [k|]] eqn:El; [|done].
  destruct (wrap_err _ (authz_New _)); [|done]. destruct (wrap_err _ listened); [|done].
  destruct (cs_Permissions cfg) as [q|]; [|done]. by injection Hp as <- <- <-.
Qed.

(** What [starter_command] went through. *)
Lemma starter_inv (env : AuthzEnv) c channel request order ctxErr euid egid groups cmd :
  @starter_command env c channel request order ctxErr euid egid groups = Ok cmd →
  ∃ launch spec, toLaunchRequest request = Ok launch ∧ @AuthorizeLaunch env c channel launch order = Ok spec ∧
    (is_Some (cmd_PTY cmd) → is_Some (ls_pty spec)) ∧ launch_argv spec (cmd_Args cmd).
Proof.
  unfold starter_command. intros Hs. apply res_bind_ok in Hs as (launch & Hl & Hs). apply res_bind_ok in Hs as (spec & Ha & Hs).
  apply wrap_err_ok in Ha. apply res_bind_ok in Hs as (ps & Hp & Hs). apply runner_command_inv in Hs as (_ & cred & _ & ->).
  exists launch, spec. split_and!; [done..| |exact (proj1 (toProcessSpec_inv _ _ Hp))].
  unfold toProcessSpec in Hp. apply res_bind_ok in Hp as (argv & _ & [= <-]). cbn [cmd_PTY sp_PTY].
  destruct (ls_pty spec); [by eexists|]. by intros [? ?].
Qed.

(** The variables that the permissions of a connection list are those of the file. *)
Lemma connection_environment (env : AuthzEnv) path verbosity cfg perms request token c n :
  LoadServer path verbosity = Ok cfg → cs_Permissions cfg = Some perms →
  @AuthorizeConnection _ _ (configured_env env cfg perms) request token = Ok c →
  n ∈ allowedEnvironment (permissions c) → n ∈ cp_AllowedEnvironment perms.
Proof.
  intros Hload Hp Hc Hin. destruct (LoadServer_inv _ _ _ Hload) as (_ & cfg0 & Ep). rewrite Hp in Ep.
  destruct (cs_Permissions cfg0) as [p0|]; [|done]. injection Ep as ->.
  destruct (connection_permissions _ _ _ _ Hc) as (d & d' & [= <-] & Hd' & Hperm).
  destruct (constraints_restrict _ _ _ Hd') as (_ & _ & _ & C4 & _). destruct (newConnectionPermissions_inv _ _ Hperm) as (_ & _ & _ & _ & P5).
  apply P5 in Hin. rewrite C4 in Hin. simpl in Hin |- *. rewrite <- list_fmap_compose in Hin. erewrite list_fmap_ext in Hin; [exact Hin|].
  intros i x _. apply TrimSpace_idem.
Qed.

End enforced.

Section enforced_by.
Context {S : Type} (fr : Framer S) (HandshakeServer : ST S bytes).
Context `{Viper} `{Kernel} `{KeyLib} `{!TrustLib} `{PemLib} `{CLib} `{ProtoMessage AuthFrame} `{!AuthLib}.
Context (h : heap) (sys : Z → string → string → Sys) (wd : res string) (cfg : Server) (perms : ServerPermissions).

#[local] Instance server_env : AuthzEnv := server_authorization h sys wd None cfg perms.

End enforced_by.

(** ** A concrete server *)

#[local] Existing Instance toy_proto.
#[local] Existing Instance toy_auth.
#[local] Existing Instance toy_keys.
#[local] Existing Instance toy_trust.
#[local] Existing Instance toy_kernel.

#[local] Instance server_pem : PemLib := {| pem_Decode _ := None |}.

#[local] Instance server_clib : CLib := {|
  sysconf_GETPW_R_SIZE_MAX := -1;
  sysconf_GETGR_R_SIZE_MAX := 1024;
  malloc_fails _ _ := false;
  c_getpwnam_r _ name size := if size <? 40000 then CRange else CFound (MkPasswd name 1000 1000 "" "/home/alice" "/bin/sh");
  c_getgrgid_r _ gid size := if gid =? 0 then CNone else CFound "users"%string;
  c_getgrouplist _ _ gid capacity := (1, 1, [gid]);
|}.

Definition toy_settings : Server :=
  MkServer "" "localhost:42022" 32 4 5000000000 "~/.ssh/keys" ["~/.ssh/keys"]%string
    (Some (MkServerPermissions false true false [" TERM "; "LANG"]%string "")) (MkLoggingConfig "warning" false "").

#[local] Instance server_viper : Viper := {|
  settings := list (string * setting);
  ReadInConfig _ defaults := Ok defaults;
  UnmarshalServer _ := Ok toy_settings;
  UnmarshalClient _ := Err (NewError "has invalid keys");
|}.

Definition toy_cfg : Server := match LoadServer "" 0 with Ok cfg => cfg | Err _ => toy_settings end.

(** The host key, and what the authorized_keys file holds when it is read. *)
Definition host_key_file : Sys := MkSys [blob_bytes (openssh_file 5 1 toy_client)] ∅ [].

Definition keys_files : Z → string → string → Sys := λ _ _ _, MkSys [[x03]] ∅ [].

Definition toy_run : Sys * res (Keypair * ServerPermissions) := prepare_server toy_process toy_cfg (Ok tt) host_key_file.

Definition toy_env' : AuthzEnv := server_env (MkHeap ∅ 0 0) keys_files (Ok "/"%string) toy_cfg toy_permissions.
#[local] Existing Instance toy_env'.

Definition toy_world : world (list bytes) * res unit :=
  serveConnection queue toy_handshake None (accept_config toy_client) (Ok toy_sn) "192.0.2.1" 5 (Ok tt) (new_world toy_frames []).

Definition toy_bound : ConnectionCredentials :=
  match w_trace toy_world.1 with Bound (Some c) :: _ => c | _ => toy_credentials end.

Definition toy_registry : Registry := MkRegistry toy_bound {[ChannelType := commandService]}.

Definition toy_handler : channelHandler :=
  match registry_OnChannelOpen (Some toy_registry) ChannelType [] with
  | Opened h => h
  | Rejected _ => MkChannelHandler toy_bound toy_channel
  end.

Example toy_server_runs : toy_run.2 = Ok (toy_client, toy_permissions) ∧ toy_world.2 = Ok tt ∧ a_Username (account toy_bound) = "alice"%string.
Proof. vm_compute. split_and!; reflexivity. Qed.

