(* ===== verification/Programs.v ===== *)
(** * Logging, the project root and the program (app/logging, app/root, bin/mygosh.go)

    The log handlers and the service that owns them, the root that shuts services
    down, and [main] with its exit code.  The handlers of the packages slog and
    charmlog that write records are an argument; the switch of the console is
    fixed during the handling of one record.  The commands of the command line are
    functions of the options they are given. *)

From Stdlib Require Import Strings.Ascii.
From S2P Require Import Prelude GoStrings GoNet Trust AppConfig CommandCodec CommandServer CommandClient ClientRun ClientApp.

(** ** Handlers *)

(** The handlers of the libraries: a console handler and a JSON handler for a file.
    [leaf_Handle] is the error of writing a record. *)
Class LogLib := {
  leaf : Type;
  new_console : Z → bool → leaf;
  new_file : Z → leaf;
  leaf_Enabled : leaf → Z → bool;
  leaf_WithAttrs : list (string * string) → leaf → leaf;
  leaf_WithGroup : string → leaf → leaf;
  charm_ParseLevel : string → option Z;
}.

(** Attributes and groups do not change the level of a handler. *)
Class LogLaws `{LogLib} := {
  attrs_level attrs l level : leaf_Enabled (leaf_WithAttrs attrs l) level = leaf_Enabled l level;
  group_level name l level : leaf_Enabled (leaf_WithGroup name l) level = leaf_Enabled l level;
}.

Record log_record := MkRecord { rc_Level : Z; rc_Message : string }.

Section handlers.
Context `{LogLib}.

Inductive handler := Leaf (l : leaf) | switchHandler (next : handler) | multiHandler (hs : list handler).

(** [console] is the switch of the console. *)
Fixpoint Enabled (console : bool) (h : handler) (level : Z) : bool :=
  match h with
  | Leaf l => leaf_Enabled l level
  | switchHandler next => console && Enabled console next level
  | multiHandler hs => existsb (λ h, Enabled console h level) hs
  end.

(** The handlers that write a record, in order.  The errors of their writes are joined. *)
Fixpoint Handle (console : bool) (h : handler) (r : log_record) : list leaf :=
  match h with
  | Leaf l => [l]
  | switchHandler next => if console then Handle console next r else []
  | multiHandler hs => concat (map (λ h, if Enabled console h (rc_Level r) then Handle console h r else []) hs)
  end.

Fixpoint WithAttrs (attrs : list (string * string)) (h : handler) : handler :=
  match h with
  | Leaf l => Leaf (leaf_WithAttrs attrs l)
  | switchHandler next => switchHandler (WithAttrs attrs next)
  | multiHandler hs => multiHandler (map (WithAttrs attrs) hs)
  end.

Fixpoint WithGroup (name : string) (h : handler) : handler :=
  match h with
  | Leaf l => Leaf (leaf_WithGroup name l)
  | switchHandler next => switchHandler (WithGroup name next)
  | multiHandler hs => multiHandler (map (WithGroup name) hs)
  end.

(** A logger passes a record on if its handler is enabled ([slog.Logger]). *)
Definition log (console : bool) (h : handler) (r : log_record) : list leaf :=
  if Enabled console h (rc_Level r) then Handle console h r else [].

(** ** The service *)

(** [strings.ToLower] on ASCII, of which the levels are made. *)
Fixpoint ToLower (s : string) : string :=
  match s with
  | EmptyString => EmptyString
  | String a r => String (if (65 <=? code a) && (code a <=? 90) then ascii_of (code a + 32) else a) (ToLower r)
  end.

Definition LevelInfo : Z := 0.

Definition parseLevel (level : string) : Z := default LevelInfo (charm_ParseLevel (ToLower (TrimSpace level))).

(** The loggers are their handlers; the file is there if it was opened. *)
Record Service := MkService {
  sv_audit : handler; sv_diagnostics : handler; sv_consoleEnabled : bool; sv_file : bool; sv_closed : bool; sv_closeErr : option error;
}.

Definition newService (cfg : LoggingConfig) (file : bool) : Service :=
  let handlers :=
    if enabledLevel (lg_Level cfg) then
      let level := parseLevel (lg_Level cfg) in
      switchHandler (Leaf (new_console level (lg_JSON cfg))) :: (if file then [Leaf (new_file level)] else [])
    else [] in
  MkService (WithAttrs [("stream", "audit")]%string (multiHandler handlers)) (WithAttrs [("stream", "diagnostic")]%string (multiHandler handlers))
    true file false None.

(** The log file: the answers of the kernel to the opening and the change of its
    mode; what is left open. *)
Definition openLogFile (opened chmod : option error) : bool * option error :=
  match opened with
  | Some e => (false, Some (Wrapped e "open log file"))
  | None => match chmod with Some e => (false, Some (Wrapped e "set log file permissions")) | None => (true, None) end
  end.

(** Whether the log file is open, and the service. *)
Definition NewService (opened chmod : option error) (cfg : LoggingConfig) : bool * res Service :=
  match NormalizeConfig cfg 0 with
  | Err e => (false, Err e)
  | Ok normalized =>
      if enabledLevel (lg_Level normalized) && negb (bool_decide (lg_File normalized = ""%string)) then
        match openLogFile opened chmod with
        | (open, Some e) => (open, Err e)
        | (open, None) => (open, Ok (newService normalized true))
        end
      else (false, Ok (newService normalized false))
  end.

Definition SetConsoleEnabled (enabled : bool) (s : Service) : Service :=
  MkService (sv_audit s) (sv_diagnostics s) enabled (sv_file s) (sv_closed s) (sv_closeErr s).

(** [closing] is the answer of the kernel; the number of files closed. *)
Definition service_Close (closing : option error) (s : Service) : Service * nat * option error :=
  if sv_closed s then (s, 0%nat, sv_closeErr s)
  else
    let err := if sv_file s then closing else None in
    (MkService (sv_audit s) (sv_diagnostics s) (sv_consoleEnabled s) (sv_file s) true err, if sv_file s then 1%nat else 0%nat, err).
End handlers.

(** ** app/root/root.go *)

(** A shutdown function changes the program and may return an error. *)
Definition ShutdownFunc (P : Type) : Type := P → P * option error.

Record Root (P : Type) := MkRoot { rt_shutdowns : list (ShutdownFunc P); rt_shutdownOnce : bool; rt_shutdownErr : list error }.
Arguments MkRoot {P} _ _ _.
Arguments rt_shutdowns {P} _.
Arguments rt_shutdownOnce {P} _.
Arguments rt_shutdownErr {P} _.

Section root.
Context {P : Type}.

Definition RegisterShutdown (fn : option (ShutdownFunc P)) (r : Root P) : Root P :=
  match fn with
  | None => r
  | Some fn => MkRoot (rt_shutdowns r ++ [fn]) (rt_shutdownOnce r) (rt_shutdownErr r)
  end.

(** One function of the loop of [Shutdown]; the errors are joined. *)
Definition shutdown_next (s : P * list error) (fn : ShutdownFunc P) : P * list error :=
  let '(p', e) := fn s.1 in (p', s.2 ++ match e with Some e => [e] | None => [] end).

(** The loop, from the last function to the first. *)
Definition run_shutdowns (fns : list (ShutdownFunc P)) (p : P) : P * list error := foldl shutdown_next (p, []) (reverse fns).

Definition Shutdown (r : Root P) (p : P) : Root P * P * list error :=
  if rt_shutdownOnce r then (r, p, rt_shutdownErr r)
  else let '(p, errs) := run_shutdowns (rt_shutdowns r) p in (MkRoot (rt_shutdowns r) true errs, p, errs).
End root.

(** The program as the root sees it: the default logger, by a number, the service
    and the number of log files that were closed. *)
Record program `{LogLib} := MkProgram { pg_default : Z; pg_service : Service; pg_closed : nat }.
Arguments MkProgram {_} _ _ _.

Section new.
Context `{LogLib}.

(** The shutdown function [New] registers: [diagnostics] is the number of the logger
    of the service, [previous] that of the logger before, [closing] the answer of
    the kernel. *)
Definition restore_logger (diagnostics previous : Z) (closing : option error) : ShutdownFunc program := λ p,
  let '(s, n, err) := service_Close closing (pg_service p) in
  (MkProgram (if pg_default p =? diagnostics then previous else pg_default p) s (pg_closed p + n), err).

Definition root_New (opened chmod closing : option error) (previous diagnostics : Z) (cfg : LoggingConfig) : res (Root program * program) :=
  (NewService opened chmod cfg).2 ≫= λ service,
  mret (RegisterShutdown (Some (restore_logger diagnostics previous closing)) (MkRoot [] false []), MkProgram diagnostics service 0).
End new.

(** ** bin/mygosh.go *)

(** The errors a command of the program returns, and what [errors.Join] makes of them. *)
Inductive prog_error := PRemote (e : RemoteExitError) | PCommand (e : command_error) | PError (e : error).

(** [errors.As] to an error with an exit code: the first of the joined ones. *)
Fixpoint as_remote (errs : list prog_error) : option RemoteExitError :=
  match errs with [] => None | PRemote e :: _ => Some e | _ :: errs => as_remote errs end.

(** What [Run] returned, as an error. *)
Definition run_error (result : run_result) : list prog_error :=
  match result with
  | RunFailed e => [PCommand e]
  | RunExited (Some e) => [PRemote e]
  | RunExited None => []
  end.

(** [main]: the exit code, and whether the error is printed.  [command] is the error
    of the command, [shutdown] that of the root, if there is one. *)
Definition main_exit (command : list prog_error) (shutdown : list error) : Z * bool :=
  let err := command ++ (PError <$> shutdown) in
  if bool_decide (length err = 0%nat) then (0, false)
  else
    match as_remote err with
    | Some e => (re_Code e, negb (re_silent e))
    | None => (1, true)
    end.

(** The arguments of the commands. *)
Definition connect_args (args : list string) (forcePTY disablePTY : bool) (environment : list string) : option ConnectArgs :=
  match args with
  | target :: command => Some (MkConnectArgs target command forcePTY disablePTY environment)
  | [] => None
  end.

Section commands.
Context `{Viper} `{LogLib} (opened chmod closing : option error) (previous diagnostics : Z).

(** The commands server and connect up to [RunServer] and [RunClient], which are
    arguments; the root is there once it was created. *)
Definition server_command (RunServer : Server → list prog_error) (path : string) (verbosity : Z) : option (Root program * program) * list prog_error :=
  match LoadServer path verbosity with
  | Err e => (None, [PError e])
  | Ok cfg =>
      match root_New opened chmod closing previous diagnostics (cs_Log cfg) with
      | Err e => (None, [PError e])
      | Ok root => (Some root, RunServer cfg)
      end
  end.

Definition connect_command (RunClient : Client → ConnectArgs → list prog_error) (path : string) (verbosity : Z) (args : ConnectArgs) :
    option (Root program * program) * list prog_error :=
  match LoadClient path verbosity with
  | Err e => (None, [PError e])
  | Ok cfg =>
      match root_New opened chmod closing previous diagnostics (ct_Log cfg) with
      | Err e => (None, [PError e])
      | Ok root => (Some root, RunClient cfg args)
      end
  end.

(** [main] after the command: the root is shut down if there is one. *)
Definition main_after (root : option (Root program * program)) (command : list prog_error) : option program * (Z * bool) :=
  match root with
  | None => (None, main_exit command [])
  | Some (r, p) => let '(_, p, errs) := Shutdown r p in (Some p, main_exit command errs)
  end.
End commands.

(** ** What is logged where *)

Section routes.
Context `{LogLaws}.

Lemma log_two console stream l1 l2 (r : log_record) (second : bool) :
  log console (WithAttrs stream (multiHandler (switchHandler (Leaf l1) :: (if second then [Leaf l2] else [])))) r =
    (if console && leaf_Enabled l1 (rc_Level r) then [leaf_WithAttrs stream l1] else []) ++
    (if second && leaf_Enabled l2 (rc_Level r) then [leaf_WithAttrs stream l2] else []).
Proof.
  unfold log. destruct second; simpl; rewrite ?attrs_level; destruct console, (leaf_Enabled l1 (rc_Level r)); simpl; rewrite ?attrs_level;
    destruct (leaf_Enabled l2 (rc_Level r)); done.
Qed.

(** A service logs to the places its configuration names: with no level nothing
    is written and no file is opened; otherwise a record goes to the console exactly
    if the console is switched on and to the file exactly if one is configured,
    each if the level of the record suffices, marked as of the audit stream or of
    the diagnostics.  A service that could not be created leaves no file open. *)
Theorem service_routes opened chmod cfg open made (Hn : NewService opened chmod cfg = (open, made)) :
  match made with
  | Err _ => open = false
  | Ok s => ∃ normalized, NormalizeConfig cfg 0 = Ok normalized ∧ open = sv_file s ∧
      open = enabledLevel (lg_Level normalized) && negb (bool_decide (lg_File normalized = ""%string)) ∧
      let level := parseLevel (lg_Level normalized) in
      let expected stream console r :=
        if enabledLevel (lg_Level normalized) then
          (if console && leaf_Enabled (new_console level (lg_JSON normalized)) (rc_Level r)
           then [leaf_WithAttrs [("stream", stream)]%string (new_console level (lg_JSON normalized))] else []) ++
          (if open && leaf_Enabled (new_file level) (rc_Level r) then [leaf_WithAttrs [("stream", stream)]%string (new_file level)] else [])
        else [] in
      ∀ console r, log console (sv_audit s) r = expected "audit"%string console r ∧ log console (sv_diagnostics s) r = expected "diagnostic"%string console r
  end.
Proof.
  unfold NewService in Hn. destruct (NormalizeConfig cfg 0) as [normalized|e]; [|by injection Hn as <- <-].
  destruct (enabledLevel (lg_Level normalized) && negb (bool_decide (lg_File normalized = ""%string))) eqn:E.
  - apply andb_true_iff in E as [E E']. unfold openLogFile in Hn. destruct opened; [by injection Hn as <- <-|].
    destruct chmod; injection Hn as <- <-; [done|]. exists normalized. split_and!; try done; [by rewrite E, E'|].
    cbv zeta. intros console r. unfold newService. rewrite E. split; apply (log_two console _ _ _ r true).
  - injection Hn as <- <-. exists normalized. split_and!; try done. cbv zeta. intros console r. unfold newService.
    destruct (enabledLevel (lg_Level normalized)); [|done]. split; apply (log_two console _ _ _ r false).
Qed.
End routes.

(** ** Shutting down *)

Section shutdown.
Context {P : Type}.

Lemma shutdown_next_app (l : list (ShutdownFunc P)) : ∀ (p : P) (acc acc' : list error),
  foldl shutdown_next (p, acc ++ acc') l = let '(p2, errs) := foldl shutdown_next (p, acc') l in (p2, acc ++ errs).
Proof.
  induction l as [|f l IH]; intros p acc acc'; [done|]. cbn [foldl]. unfold shutdown_next at 2 4. cbn [fst snd].
  destruct (f p) as [p2 e]. rewrite <- app_assoc. apply IH.
Qed.

Lemma run_shutdowns_snoc (fns : list (ShutdownFunc P)) fn p :
  run_shutdowns (fns ++ [fn]) p =
    let '(p1, e) := fn p in let '(p2, errs) := run_shutdowns fns p1 in (p2, match e with Some e => [e] | None => [] end ++ errs).
Proof.
  unfold run_shutdowns. rewrite reverse_snoc. cbn [foldl]. unfold shutdown_next at 2. cbn [fst snd]. destruct (fn p) as [p1 e]. rewrite app_nil_l.
  rewrite <- (app_nil_r (match e with Some e => [e] | None => [] end)) at 1. apply shutdown_next_app.
Qed.

(** The root shuts down once, from the service registered last to the first:
    the first call runs every function, the one registered last on the program as
    it is, the others after it, and joins their errors; every later call runs
    nothing, whatever was registered meanwhile, and returns the same errors. *)
Theorem shutdown_once (fns : list (ShutdownFunc P)) fn later p :
  let '(r1, p1, errs) := Shutdown (MkRoot (fns ++ [fn]) false []) p in
  (let '(q, e) := fn p in let '(_, p2, errs2) := Shutdown (MkRoot fns false []) q in p1 = p2 ∧ errs = match e with Some e => [e] | None => [] end ++ errs2) ∧
  ∀ q, (Shutdown (foldl (λ r fn, RegisterShutdown fn r) r1 later) q).1.2 = q ∧ (Shutdown (foldl (λ r fn, RegisterShutdown fn r) r1 later) q).2 = errs.
Proof.
  unfold Shutdown. cbn [rt_shutdownOnce rt_shutdowns]. rewrite run_shutdowns_snoc. destruct (fn p) as [q e]. destruct (run_shutdowns fns q) as [p2 errs2].
  split; [done|]. intros q'. set (r1 := MkRoot _ true _).
  assert (Hr : ∀ r : Root P, rt_shutdownOnce r = true → let r' := foldl (λ r fn, RegisterShutdown fn r) r later in
    rt_shutdownOnce r' = true ∧ rt_shutdownErr r' = rt_shutdownErr r).
  { induction later as [|f l IH]; intros r Hr; [done|]. cbn [foldl]. destruct f as [f|]; [|by apply IH].
    destruct (IH (RegisterShutdown (Some f) r) Hr) as [? E]. split; [done|]. by rewrite E. }
  destruct (Hr r1 eq_refl) as [-> ->]. done.
Qed.
End shutdown.

(** The root of a program puts the default logger back, unless somebody else
    replaced it, and closes the log file once if it was opened. *)
Lemma root_puts_back `{LogLib} opened chmod closing previous diagnostics cfg root p :
  root_New opened chmod closing previous diagnostics cfg = Ok (root, p) → ∀ other,
  let '(_, p1, errs) := Shutdown root (MkProgram other (pg_service p) (pg_closed p)) in
  pg_default p1 = (if other =? diagnostics then previous else other) ∧
  pg_closed p1 = (if sv_file (pg_service p) then 1 else 0)%nat ∧ errs = match (if sv_file (pg_service p) then closing else None) with Some e => [e] | None => [] end.
Proof.
  unfold root_New. intros Hn other. apply res_bind_ok in Hn as (s & Hs & [= <- <-]).
  assert (Hc : sv_closed s = false).
  { unfold NewService in Hs. repeat case_match; simpl in *; simplify_eq; done. }
  unfold Shutdown, run_shutdowns. simpl. unfold shutdown_next, restore_logger, service_Close. simpl. rewrite Hc. by destruct (sv_file s).
Qed.

(** ** The exit code *)

Lemma failed_exit signalNum result : (∀ s, 0 <= signalNum s) → ex_RuntimeFailure result ≠ ""%string ∨ ex_Signal result ≠ ""%string →
  ∃ e, normalizeRemoteExit signalNum (terminalResult (sent_result result)) = Some e ∧ re_Code e ≠ 0 ∧ re_silent e = false.
Proof.
  intros Hsig Hbad. unfold terminalResult, sent_result. cbn [ex_RuntimeFailure ex_Signal ex_Status].
  destruct (bool_decide (ex_RuntimeFailure result = ""%string)) eqn:E1; cbn [negb]; [|eexists; split_and!; done].
  apply bool_decide_eq_true in E1. destruct Hbad as [?|Hs]; [done|]. rewrite (bool_decide_false (ex_Signal result = _)) by done. cbn [negb normalizeRemoteExit].
  eexists. split_and!; [done| |done]. cbn [re_Code]. pose proof (Hsig (ex_Signal result)). destruct (_ =? 0); lia.
Qed.

Lemma as_remote_errors l : as_remote (PError <$> l) = None.
Proof. induction l as [|e l IH]; [done|exact IH]. Qed.

(** C37: The program exits with the status of the remote command: for a command that
    exited with a status from 0 to 255 it returns this status and prints nothing,
    whatever happens when it shuts down, except that a failure to shut down after
    a successful command makes it 1; a command ended by a signal, an own failure
    and a command that could not be started are never reported as success. *)
Theorem exit_code_faithful_main signalNum result shutdown (Hsig : ∀ s, 0 <= signalNum s) :
  let exit r := main_exit (run_error (RunExited (normalizeRemoteExit signalNum (terminalResult (sent_result r))))) shutdown in
  (ex_RuntimeFailure result = ""%string → ex_Signal result = ""%string → 0 <= ex_Status result <= 255 →
     exit result = if bool_decide (ex_Status result = 0) then (if bool_decide (shutdown = []) then (0, false) else (1, true)) else (ex_Status result, false)) ∧
  ((ex_RuntimeFailure result ≠ ""%string ∨ ex_Signal result ≠ ""%string) → (exit result).1 ≠ 0 ∧ (exit result).2 = true) ∧
  ∀ e, (main_exit (run_error (RunFailed e)) shutdown).1 = 1.
Proof.
  assert (Hjoin : ∀ e, main_exit [PRemote e] shutdown = (re_Code e, negb (re_silent e))).
  { intros e. unfold main_exit. rewrite bool_decide_false by (simpl; lia). done. }
  assert (Hnil : main_exit [] shutdown = if bool_decide (shutdown = []) then (0, false) else (1, true)).
  { unfold main_exit. destruct shutdown as [|e l]; [done|]. rewrite !bool_decide_false by done. cbn [app]. by rewrite as_remote_errors. }
  cbv zeta. split_and!.
  - intros Hf Hs Hr. pose proof (exit_code_faithful signalNum result Hf Hs Hr) as Hx.
    destruct (normalizeRemoteExit signalNum (terminalResult (sent_result result))) as [e|]; cbn [run_error].
    + destruct Hx as (E1 & E2 & E3). rewrite Hjoin, E1, E2. by rewrite (bool_decide_false (ex_Status result = 0)) by done.
    + rewrite Hnil. by rewrite (bool_decide_true (ex_Status result = 0)).
  - intros Hbad. destruct (failed_exit signalNum result Hsig Hbad) as (e & -> & Hc & Hsil). cbn [run_error]. rewrite Hjoin, Hsil. done.
  - intros e. unfold main_exit. cbn [run_error]. rewrite bool_decide_false by (simpl; lia). cbn [app as_remote].
    by rewrite as_remote_errors.
Qed.

(** ** A concrete program *)

(** A handler that writes to the console or to a file, from a level on. *)
Inductive toy_leaf := ToyLeaf (file : bool) (level : Z) (attrs : list (string * string)).

#[local] Instance toy_log : LogLib := {|
  leaf := toy_leaf;
  new_console level _ := ToyLeaf false level [];
  new_file level := ToyLeaf true level [];
  leaf_Enabled l level := match l with ToyLeaf _ own _ => own <=? level end;
  leaf_WithAttrs attrs l := match l with ToyLeaf f own a => ToyLeaf f own (a ++ attrs) end;
  leaf_WithGroup _ l := l;
  charm_ParseLevel s := if bool_decide (s = "warn"%string) then Some 4 else None;
|}.

#[local] Instance toy_log_laws : LogLaws.
Proof. split; [by intros attrs []|done]. Qed.

Definition toy_log_config : LoggingConfig := MkLoggingConfig " warning" false "/var/log/mygosh".

Lemma service_routes_witness : ∃ s, NewService None None toy_log_config = (true, Ok s) ∧
  log false (sv_audit s) (MkRecord 4 "hello") = [ToyLeaf true 4 [("stream", "audit")]%string].
Proof.
  eexists. split; [reflexivity|].
  destruct (service_routes None None toy_log_config true (NewService None None toy_log_config).2 eq_refl) as (normalized & Hn & _ & _ & Hr).
  refine (eq_trans (proj1 (Hr false (MkRecord 4 "hello"))) _). vm_compute in Hn. injection Hn as <-. vm_compute. reflexivity.
Defined.

Lemma exit_code_faithful_main_witness :
  main_exit (run_error (RunExited (normalizeRemoteExit (λ _, 0) (terminalResult (sent_result (MkExitResult 7 "" "")))))) [NewError "close"] = (7, false).
Proof.
  destruct (exit_code_faithful_main (λ _, 0) (MkExitResult 7 "" "") [NewError "close"]) as (H1 & _); [intros _; apply Z.le_refl|].
  apply H1; [reflexivity|reflexivity|cbn; lia].
Defined.
